(** * A segregated-list allocator (mm.c): shallow embedding and properties

    The allocator of [mm.c] is embedded over a byte-addressed memory.
    Addresses and machine integers are [Z]; the wrap-around of [size_t]
    (64 bits) and of [unsigned int] (32 bits) is written out where the C
    arithmetic can reach it.  Every access of the allocator itself is a
    4-byte load or store ([GET]/[PUT]); only [memcpy] in [mm_realloc]
    moves single bytes. *)

From Stdlib Require Import ZArith List Bool Lia.
Import ListNotations.
Open Scope Z_scope.

(** ** Machine integers *)

Definition two32 : Z := 4294967296.
Definition two64 : Z := 18446744073709551616.

(** Conversion to [unsigned int] and to [size_t]. *)
Definition u32 (x : Z) : Z := x mod two32.
Definition u64 (x : Z) : Z := x mod two64.

(** ** Constants and macros of mm.c *)

Definition ALIGNMENT : Z := 8.
Definition WSIZE : Z := 4.
Definition DSIZE : Z := 8.
Definition CHUNKSIZE : Z := Z.shiftl 1 8.
Definition NULL : Z := 0.

(** [(void * )-1], the failure value of [mem_sbrk]. *)
Definition MINUS1 : Z := two64 - 1.

Definition MAX (x y : Z) : Z := if y <? x then x else y.

Definition PACK (size alloc : Z) : Z := Z.lor size alloc.

(** [~0x7] and [~0x2] as they act on an [unsigned int]. *)
Definition NOT7 : Z := two32 - 8.
Definition NOT2 : Z := two32 - 3.

(** ** Memory: a total map from byte addresses to bytes *)

Definition memory := Z -> Z.

Definition byte_at (m : memory) (a : Z) : Z := m a mod 256.

(** [GET(p)]: little-endian load of an [unsigned int]. *)
Definition GET (m : memory) (p : Z) : Z :=
  byte_at m p + 256 * byte_at m (p + 1) + 65536 * byte_at m (p + 2)
  + 16777216 * byte_at m (p + 3).

(** [PUT(p, val)]: store of an [unsigned int]; [val] is truncated. *)
Definition PUT (m : memory) (p val : Z) : memory :=
  fun a =>
    if a =? p then u32 val mod 256
    else if a =? p + 1 then (u32 val / 256) mod 256
    else if a =? p + 2 then (u32 val / 65536) mod 256
    else if a =? p + 3 then (u32 val / 16777216) mod 256
    else m a.

(** [memcpy(dst, src, n)] on regions that do not overlap. *)
Definition memcpy (m : memory) (dst src n : Z) : memory :=
  fun a => if (dst <=? a) && (a <? dst + n) then m (src + (a - dst)) else m a.

Definition PRED (m : memory) (bp : Z) : Z := GET m bp.
Definition SUCC (m : memory) (bp : Z) : Z := GET m (bp + WSIZE).

Definition GET_SIZE (m : memory) (p : Z) : Z := Z.land (GET m p) NOT7.
Definition GET_ALLOC (m : memory) (p : Z) : Z := Z.land (GET m p) 1.
Definition GET_PREV_ALLOC (m : memory) (p : Z) : Z := Z.land (GET m p) 2.

Definition HDRP (bp : Z) : Z := bp - WSIZE.
Definition FTRP (m : memory) (bp : Z) : Z := bp + GET_SIZE m (HDRP bp) - DSIZE.
Definition NEXT_BLKP (m : memory) (bp : Z) : Z := bp + GET_SIZE m (bp - WSIZE).
Definition PREV_BLKP (m : memory) (bp : Z) : Z := bp - GET_SIZE m (bp - DSIZE).

(** ** Allocator state

    The two globals of mm.c, the memory, and the heap provider's break and
    limit. *)

Record state : Type := mkState {
  heap_start : Z;
  heap_listp : Z;
  mem : memory;
  mem_brk : Z;
  mem_max_addr : Z
}.

Definition set_mem (s : state) (m : memory) : state :=
  mkState (heap_start s) (heap_listp s) m (mem_brk s) (mem_max_addr s).

(** Modelled from the spec: the heap provider [mem_sbrk] of memlib.c is not
    part of the sources.  [heap_extend(bytes)] returns the first byte of the
    newly appended region, or signals an error; the region grows
    monotonically and is bounded. [None] stands for the error value
    [(void * )-1]. *)
Definition mem_sbrk (s : state) (incr : Z) : option (Z * state) :=
  if (0 <=? incr) && (mem_brk s + incr <=? mem_max_addr s)
  then Some (mem_brk s,
             mkState (heap_start s) (heap_listp s) (mem s)
                     (mem_brk s + incr) (mem_max_addr s))
  else None.

(** ** Pointer compression *)

Definition get_addr (hs : Z) (offset : Z) : Z :=
  if offset =? 0 then NULL else u64 (offset + hs).

Definition get_offset (hs : Z) (bp : Z) : Z :=
  if bp =? NULL then 0 else u32 (bp - hs).

Definition get_pred (m : memory) (hs bp : Z) : Z :=
  let pr := PRED m bp in
  if pr =? 0 then NULL else get_addr hs pr.

Definition get_succ (m : memory) (hs bp : Z) : Z :=
  let su := SUCC m bp in
  if su =? 0 then NULL else get_addr hs su.

(** ** Size classes *)

(** The [for] loop of [get_list]: [i] doubles from 192 while [i <= 49152];
    [n] bounds the number of iterations. *)
Fixpoint get_list_loop (n : nat) (size i count : Z) : Z :=
  match n with
  | O => 19
  | S n' =>
      if i <=? 49152 then
        let count := count + 1 in
        if (size <=? i) && (i / 2 <? size) then 10 + count
        else get_list_loop n' size (u32 (i * 2)) count
      else 19
  end.

(** [get_list(unsigned int size)]; [size - 16] is an unsigned subtraction.
    [size] is the value of the [unsigned int] parameter, [0 <= size < 2^32]:
    a caller that holds a [size_t] converts it at the call, see [find_fit]. *)
Definition get_list (size : Z) : Z :=
  if size <=? 96 then u32 (size - 16) / 8
  else if (96 <? size) && (size <=? 49152)
       then get_list_loop 10 size 192 0
       else 19.

(** Address of the root slot of list [i]. *)
Definition root_addr (hl : Z) (i : Z) : Z := hl + WSIZE * (i + 1).

(** ** Free-list operations *)

Definition add_start (s : state) (bp : Z) : state :=
  let m := mem s in
  let hs := heap_start s in
  let i := get_list (GET_SIZE m (HDRP bp)) in
  let prev_head := get_addr hs (GET m (root_addr (heap_listp s) i)) in
  let m := PUT m (root_addr (heap_listp s) i) (get_offset hs bp) in
  let m := PUT m bp NULL in
  let m := PUT m (bp + WSIZE) (get_offset hs prev_head) in
  let m := if prev_head =? NULL then m else PUT m prev_head (get_offset hs bp) in
  set_mem s m.

Definition del_list (s : state) (bp : Z) : state :=
  let m := mem s in
  let hs := heap_start s in
  let i := get_list (GET_SIZE m (HDRP bp)) in
  let pred := get_pred m hs bp in
  let succ := get_succ m hs bp in
  let m :=
    if (pred =? NULL) && (succ =? NULL) then
      PUT m (root_addr (heap_listp s) i) NULL
    else if (pred =? NULL) && negb (succ =? NULL) then
      let m := PUT m (root_addr (heap_listp s) i) (get_offset hs succ) in
      PUT m succ NULL
    else if negb (pred =? NULL) && (succ =? NULL) then
      PUT m (pred + WSIZE) NULL
    else
      let m := PUT m (pred + WSIZE) (get_offset hs succ) in
      PUT m succ (get_offset hs pred)
  in set_mem s m.

(** ** Coalescing *)

Definition clear_prev_alloc_of_next (m : memory) (bp : Z) : memory :=
  PUT m (HDRP (NEXT_BLKP m bp)) (Z.land (GET m (HDRP (NEXT_BLKP m bp))) NOT2).

Definition coalesce (s : state) (bp : Z) : state * Z :=
  let m := mem s in
  let prev_alloc := GET_PREV_ALLOC m (HDRP bp) in
  let next_alloc := GET_ALLOC m (HDRP (NEXT_BLKP m bp)) in
  let size := GET_SIZE m (HDRP bp) in
  let '(s, bp) :=
    if negb (prev_alloc =? 0) && negb (next_alloc =? 0) then
      (* Case 1 *)
      let m := PUT m (HDRP bp) (PACK size 2) in
      let m := PUT m (FTRP m bp) (PACK size 2) in
      (set_mem s m, bp)
    else if negb (prev_alloc =? 0) && (next_alloc =? 0) then
      (* Case 2 *)
      let s := del_list s (NEXT_BLKP m bp) in
      let m := mem s in
      let size := size + GET_SIZE m (HDRP (NEXT_BLKP m bp)) in
      let m := PUT m (HDRP bp) (PACK size 2) in
      let m := PUT m (FTRP m bp) (PACK size 2) in
      (set_mem s m, bp)
    else if (prev_alloc =? 0) && negb (next_alloc =? 0) then
      (* Case 3 *)
      let s := del_list s (PREV_BLKP m bp) in
      let m := mem s in
      let size := size + GET_SIZE m (HDRP (PREV_BLKP m bp)) in
      let tag := if negb (GET_PREV_ALLOC m (HDRP (PREV_BLKP m bp)) =? 0)
                 then 2 else 0 in
      let m := PUT m (FTRP m bp) (PACK size tag) in
      let m := PUT m (HDRP (PREV_BLKP m bp)) (PACK size tag) in
      (set_mem s m, PREV_BLKP m bp)
    else
      (* Case 4 *)
      let s := del_list s (PREV_BLKP m bp) in
      let s := del_list s (NEXT_BLKP (mem s) bp) in
      let m := mem s in
      let size := size + (GET_SIZE m (HDRP (PREV_BLKP m bp))
                          + GET_SIZE m (FTRP m (NEXT_BLKP m bp))) in
      let tag := if negb (GET_PREV_ALLOC m (HDRP (PREV_BLKP m bp)) =? 0)
                 then 2 else 0 in
      let m := PUT m (HDRP (PREV_BLKP m bp)) (PACK size tag) in
      let m := PUT m (FTRP m (NEXT_BLKP m bp)) (PACK size tag) in
      (set_mem s m, PREV_BLKP m bp)
  in
  (set_mem s (clear_prev_alloc_of_next (mem s) bp), bp).

(** ** Heap extension *)

(** Bytes requested from the provider: an even number of words. *)
Definition extend_bytes (words : Z) : Z :=
  if negb (words mod 2 =? 0)
  then u64 ((words + 1) * WSIZE) else u64 (words * WSIZE).

Definition extend_heap (s : state) (words : Z) : state * Z :=
  let size := extend_bytes words in
  match mem_sbrk s size with
  | None => (s, NULL)
  | Some (bp, s) =>
      let m := mem s in
      let tag := if negb (GET_PREV_ALLOC m (HDRP bp) =? 0) then 2 else 0 in
      let m := PUT m (HDRP bp) (PACK size tag) in
      let m := PUT m (FTRP m bp) (PACK size tag) in
      let m := PUT m (HDRP (NEXT_BLKP m bp)) (PACK 0 1) in
      let '(s, rp) := coalesce (set_mem s m) bp in
      (add_start s rp, rp)
  end.

(** ** Placement *)

Definition place (s : state) (bp asize : Z) : state :=
  let csize := GET_SIZE (mem s) (HDRP bp) in
  if 2 * DSIZE <=? u64 (csize - asize) then
    let s := del_list s bp in
    let m := mem s in
    let m := if negb (GET_PREV_ALLOC m (HDRP bp) =? 0)
             then PUT m (HDRP bp) (PACK asize 3)
             else PUT m (HDRP bp) (PACK asize 1) in
    let bp := NEXT_BLKP m bp in
    let m := PUT m (HDRP bp) (PACK (u64 (csize - asize)) 2) in
    let m := PUT m (FTRP m bp) (PACK (u64 (csize - asize)) 2) in
    let m := clear_prev_alloc_of_next m bp in
    add_start (set_mem s m) bp
  else
    let s := del_list s bp in
    let m := mem s in
    let m := if negb (GET_PREV_ALLOC m (HDRP bp) =? 0)
             then PUT m (HDRP bp) (PACK csize 3)
             else PUT m (HDRP bp) (PACK csize 1) in
    let m := PUT m (HDRP (NEXT_BLKP m bp))
                 (PACK (GET m (HDRP (NEXT_BLKP m bp))) 2) in
    set_mem s m.

(** ** First-fit search

    The inner [for] loop follows successor links; [fuel] bounds the number
    of blocks visited, and [None] means the bound was reached (a list that
    never ends). *)

Fixpoint scan_list (fuel : nat) (m : memory) (hs bp asize : Z) : option Z :=
  match fuel with
  | O => None
  | S fuel' =>
      if bp =? NULL then Some NULL
      else if asize <=? GET_SIZE m (HDRP bp) then Some bp
      else scan_list fuel' m hs (get_succ m hs bp) asize
  end.

(** The outer loop [for (i = list_no; i <= 19; i++)]; [k] bounds its
    iterations. *)
Fixpoint find_fit_loop (k fuel : nat) (s : state) (i asize : Z) : option Z :=
  match k with
  | O => Some NULL
  | S k' =>
      if i <=? 19 then
        match scan_list fuel (mem s) (heap_start s)
                (get_addr (heap_start s) (GET (mem s) (root_addr (heap_listp s) i)))
                asize with
        | None => None
        | Some bp =>
            if bp =? NULL then find_fit_loop k' fuel s (i + 1) asize
            else Some bp
        end
      else Some NULL
  end.

(** [get_list] takes an [unsigned int]: the [size_t] argument is truncated
    at the call. *)
Definition find_fit (fuel : nat) (s : state) (asize : Z) : option Z :=
  let list_no := get_list (u32 asize) in
  find_fit_loop 20 fuel s list_no asize.

(** ** Public operations *)

Fixpoint init_roots (n : nat) (m : memory) (hl i : Z) : memory :=
  match n with
  | O => m
  | S n' =>
      if i <? 20
      then init_roots n' (PUT m (hl + (3 + i) * WSIZE) NULL) hl (i + 1)
      else m
  end.

Definition mm_init (s : state) : state * Z :=
  match mem_sbrk s (24 * WSIZE) with
  | None =>
      (mkState (heap_start s) MINUS1 (mem s) (mem_brk s) (mem_max_addr s), -1)
  | Some (hl, s) =>
      let m := mem s in
      let m := PUT m hl 0 in
      let m := PUT m (hl + 1 * WSIZE) (PACK DSIZE 1) in
      let m := PUT m (hl + 2 * WSIZE) (PACK DSIZE 1) in
      let m := init_roots 20 m hl 0 in
      let m := PUT m (hl + 23 * WSIZE) (PACK 0 3) in
      let s := mkState hl (hl + 2 * WSIZE) m (mem_brk s) (mem_max_addr s) in
      let '(s, bp) := extend_heap s (CHUNKSIZE / WSIZE) in
      if bp =? NULL then (s, -1) else (s, 0)
  end.

(** The adjusted block size computed by [mm_malloc] ([size_t] arithmetic). *)
Definition adjust_size (size : Z) : Z :=
  if size <=? DSIZE + WSIZE then 2 * DSIZE
  else u64 (DSIZE * (u64 (size + WSIZE + (DSIZE - 1)) / DSIZE)).

(** [mm_malloc] once the heap pointer is set. *)
Definition malloc_body (fuel : nat) (s : state) (size : Z) : option (state * Z) :=
  if size =? 0 then Some (s, NULL)
  else
    let asize := adjust_size size in
    match find_fit fuel s asize with
    | None => None
    | Some bp =>
        if negb (bp =? NULL) then Some (place s bp asize, bp)
        else
          let extendsize := MAX asize CHUNKSIZE in
          let '(s, bp) := extend_heap s (extendsize / WSIZE) in
          if bp =? NULL then Some (s, NULL)
          else Some (place s bp asize, bp)
    end.

Definition mm_malloc (fuel : nat) (s : state) (size : Z) : option (state * Z) :=
  let s := if heap_listp s =? 0 then fst (mm_init s) else s in
  malloc_body fuel s size.

(** [mm_free] after the size has been read and the heap pointer is set. *)
Definition free_body (s : state) (bp size : Z) : state :=
  let m := mem s in
  let tag := if negb (GET_PREV_ALLOC m (HDRP bp) =? 0) then 2 else 0 in
  let m := PUT m (HDRP bp) (PACK size tag) in
  let m := PUT m (FTRP m bp) (PACK size tag) in
  let '(s, rt) := coalesce (set_mem s m) bp in
  add_start s rt.

Definition mm_free (s : state) (bp : Z) : state :=
  if bp =? 0 then s
  else
    let size := GET_SIZE (mem s) (HDRP bp) in
    let s := if heap_listp s =? 0 then fst (mm_init s) else s in
    free_body s bp size.

(** Number of bytes [mm_realloc] hands to [memcpy]. *)
Definition realloc_copy_len (m : memory) (ptr size : Z) : Z :=
  let oldsize := GET_SIZE m (HDRP ptr) in
  if size <? oldsize then size else oldsize.

Definition mm_realloc (fuel : nat) (s : state) (ptr size : Z)
  : option (state * Z) :=
  if size =? 0 then Some (mm_free s ptr, 0)
  else if ptr =? NULL then mm_malloc fuel s size
  else
    match mm_malloc fuel s size with
    | None => None
    | Some (s, newptr) =>
        if newptr =? 0 then Some (s, 0)
        else
          let oldsize := realloc_copy_len (mem s) ptr size in
          let s := set_mem s (memcpy (mem s) newptr ptr oldsize) in
          Some (mm_free s ptr, newptr)
    end.

(** A fresh process: no heap yet, memory zeroed, provider region
    [[base, base + cap)]. *)
Definition fresh (base cap : Z) : state :=
  mkState NULL 0 (fun _ => 0) base (base + cap).

(** A header word: size, allocated bit, previous-allocated bit. *)
Definition hdr (size : Z) (alloc prev_alloc : bool) : Z :=
  size + (if alloc then 1 else 0) + (if prev_alloc then 2 else 0).

Definition size_ok (size : Z) : Prop := 0 <= size < two32 /\ size mod 8 = 0.

(** ** Abstract view of the heap

    A heap is described by the list of its blocks in address order.  A
    block is allocated ([KA]), free and linked into its class list ([KF]),
    or free but not linked ([KU]: the state of a block between the moment
    its header says free and the moment [add_start] links it). *)

Inductive kind : Type := KA | KF | KU.

Record blk : Type := mkBlk { bsz : Z; bkind : kind; bpa : bool }.

Definition is_alloc (k : kind) : bool :=
  match k with KA => true | _ => false end.

Definition set_kind (b : blk) (k : kind) : blk := mkBlk (bsz b) k (bpa b).
Definition set_pa (b : blk) (pa : bool) : blk := mkBlk (bsz b) (bkind b) pa.

Definition size_wf (b : blk) : Prop := 16 <= bsz b /\ bsz b mod 8 = 0.

Fixpoint total (l : list blk) : Z :=
  match l with
  | [] => 0
  | b :: r => bsz b + total r
  end.

(** Header address of every block of [l] laid out from [h]. *)
Fixpoint layout (h : Z) (l : list blk) : list (Z * blk) :=
  match l with
  | [] => []
  | b :: r => (h, b) :: layout (h + bsz b) r
  end.

(** What the memory holds for a block with header at [h]: the packed
    header, and for a free block the same word as footer. *)
Definition blk_at (m : memory) (h : Z) (b : blk) : Prop :=
  GET m h = hdr (bsz b) (is_alloc (bkind b)) (bpa b) /\
  (bkind b <> KA -> GET m (h + bsz b - 4) = hdr (bsz b) false (bpa b)).

(** A stretch of a free list: [p] is the offset stored as predecessor of
    the first element, [n] the offset stored as successor of the last. *)
Fixpoint seg (m : memory) (hs p : Z) (l : list Z) (n : Z) : Prop :=
  match l with
  | [] => True
  | b :: r =>
      GET m b = p /\
      GET m (b + 4) = match r with [] => n | c :: _ => c - hs end /\
      seg m hs (b - hs) r n
  end.

Definition head_off (hs : Z) (l : list Z) : Z :=
  match l with [] => 0 | b :: _ => b - hs end.

Definition first_off (hs : Z) (l : list Z) (n : Z) : Z :=
  match l with [] => n | c :: _ => c - hs end.

Fixpoint last_off (hs p : Z) (l : list Z) : Z :=
  match l with [] => p | b :: r => last_off hs (b - hs) r end.

(** Payload pointers in a list are pairwise at least a minimum block
    apart. *)
Definition spaced (l : list Z) : Prop :=
  forall b c, In b l -> In c l -> b = c \/ b + 16 <= c \/ c + 16 <= b.

(** A payload pointer whose offset from [hs] is a valid compressed
    pointer. *)
Definition okp (hs b : Z) : Prop :=
  hs < b /\ b - hs < two32 /\ 0 <= b < two64.

(** Header address of the first block. *)
Definition first_hdr (hs : Z) : Z := hs + 92.

(** The memory of [s] represents blocks [bl], an epilogue whose
    previous-allocated bit is [epa], and the class lists [fl]. *)
Record Rep (s : state) (bl : list blk) (epa : bool) (fl : Z -> list Z)
  : Prop := mkRep {
  rep_hl : heap_listp s = heap_start s + 8;
  rep_hs : 0 <= heap_start s;
  rep_brk : first_hdr (heap_start s) + total bl + 4 = mem_brk s;
  rep_max : mem_brk s <= mem_max_addr s;
  rep_fit : mem_max_addr s - heap_start s < two32;
  rep_64 : mem_max_addr s < two64;
  rep_sizes : Forall size_wf bl;
  rep_blocks : forall h b,
      In (h, b) (layout (first_hdr (heap_start s)) bl) -> blk_at (mem s) h b;
  rep_epi : GET (mem s) (first_hdr (heap_start s) + total bl) = hdr 0 true epa;
  rep_roots : forall i, 0 <= i < 20 ->
      GET (mem s) (root_addr (heap_listp s) i) = head_off (heap_start s) (fl i);
  rep_chain : forall i, 0 <= i < 20 ->
      seg (mem s) (heap_start s) 0 (fl i) 0;
  rep_listed : forall i bp,
      In bp (fl i) <->
      exists b, In (bp - 4, b) (layout (first_hdr (heap_start s)) bl)
                /\ bkind b = KF /\ get_list (bsz b) = i;
  rep_nodup : forall i, NoDup (fl i)
}.

(** The header that follows a stretch of blocks: the first block of
    [post], or the epilogue. *)
Definition set_next_pa (q : bool) (post : list blk) : list blk :=
  match post with [] => [] | Y :: r => set_pa Y q :: r end.

Definition next_epa (q : bool) (post : list blk) (epa : bool) : bool :=
  match post with [] => q | _ :: _ => epa end.

Definition next_is_alloc (post : list blk) : bool :=
  match post with [] => true | Y :: _ => is_alloc (bkind Y) end.

Definition next_word (post : list blk) (pa : bool) : Z :=
  match post with
  | [] => hdr 0 true pa
  | Y :: _ => hdr (bsz Y) (is_alloc (bkind Y)) pa
  end.

Definition next_pa (post : list blk) (epa : bool) : bool :=
  match post with [] => epa | Y :: _ => bpa Y end.

(** Allocated status of what ends a stretch [l] that follows something
    of status [p]; [end_alloc true pre] is the status of the block before
    the one that follows [pre], the prologue counting as allocated. *)
Fixpoint end_alloc (p : bool) (l : list blk) : bool :=
  match l with
  | [] => p
  | b :: r => end_alloc (is_alloc (bkind b)) r
  end.

(** Class lists after unlinking or linking [bp] in class [i]. *)
Definition fl_remove (fl : Z -> list Z) (i bp : Z) : Z -> list Z :=
  fun j => if j =? i then remove Z.eq_dec bp (fl i) else fl j.

Definition fl_add (fl : Z -> list Z) (i bp : Z) : Z -> list Z :=
  fun j => if j =? i then bp :: fl i else fl j.

(** Previous-allocated bits agree with the block before: [p] is the
    allocated status of what precedes [l]. *)
Fixpoint pa_chain (p : bool) (l : list blk) (epa : bool) : Prop :=
  match l with
  | [] => epa = p
  | b :: r => bpa b = p /\ pa_chain (is_alloc (bkind b)) r epa
  end.

Fixpoint no_adj_free (l : list blk) : Prop :=
  match l with
  | [] => True
  | b :: r =>
      match r with
      | [] => True
      | c :: _ => is_alloc (bkind b) = true \/ is_alloc (bkind c) = true
      end /\ no_adj_free r
  end.

(** Previous-allocated bits of the blocks after the first one of
    [post]; the first one (or the epilogue) may still be stale. *)
Definition pa_tail (post : list blk) (epa : bool) : Prop :=
  match post with
  | [] => True
  | Y :: r => pa_chain (is_alloc (bkind Y)) r epa
  end.

Definition no_KU (l : list blk) : Prop := Forall (fun b => bkind b <> KU) l.

(** State in which [coalesce] is called on the block [X] that follows
    [pre]: [X] is free and unlinked, it knows whether its predecessor is
    allocated, and no two of the other blocks are adjacent and free. *)
Definition coalesce_pre (pre : list blk) (X : blk) (post : list blk)
    (epa : bool) : Prop :=
  bkind X = KU /\ no_KU pre /\ no_KU post /\
  pa_chain true pre (bpa X) /\ pa_tail post epa /\
  no_adj_free (pre ++ set_kind X KA :: post).

(** State in which [coalesce] returns the block [M] that follows [pre]:
    all bits agree and [M] has no free neighbour. *)
Definition coalesce_post (pre : list blk) (M : blk) (post : list blk)
    (epa : bool) : Prop :=
  bkind M = KU /\ no_KU pre /\ no_KU post /\
  pa_chain true (pre ++ M :: post) epa /\
  no_adj_free (pre ++ set_kind M KF :: post).

(** [bp] is the payload of an allocated block of size [sz]. *)
Definition is_KA (h0 : Z) (bl : list blk) (bp sz : Z) : Prop :=
  exists b, In (bp - 4, b) (layout h0 bl) /\ bkind b = KA /\ bsz b = sz.

(** The words of the payloads of the allocated blocks of [bl] read the same
    in [m'] as in [m], and so do the words below the roots of the class
    lists (the padding word and the prologue).  The payload of an allocated
    block runs from its payload pointer to the header of the next block; the
    first root is 80 bytes below the first header. *)
Definition keeps (h0 : Z) (bl : list blk) (m m' : memory) : Prop :=
  (forall q sz, is_KA h0 bl q sz ->
   forall a, q <= a -> a + 4 <= q + sz - 4 -> GET m' a = GET m a) /\
  (forall a, a + 4 <= h0 - 80 -> GET m' a = GET m a).

(** ** First fit over the class lists

    The first pointer of [l] whose block holds [asize] bytes, or [NULL]. *)
Fixpoint first_in (size_of : Z -> Z) (asize : Z) (l : list Z) : Z :=
  match l with
  | [] => NULL
  | b :: r => if asize <=? size_of b then b else first_in size_of asize r
  end.

(** The lists of classes [i], [i+1], ..., 19 one after the other ([k]
    bounds the number of classes). *)
Fixpoint cands (k : nat) (fl : Z -> list Z) (i : Z) : list Z :=
  match k with
  | O => []
  | S k' => if i <=? 19 then fl i ++ cands k' fl (i + 1) else []
  end.

Definition first_addr (l : list Z) : Z :=
  match l with [] => NULL | b :: _ => b end.

(** The representation together with the list conditions of the
    invariant. *)
Definition Good (s : state) (bl : list blk) (epa : bool)
    (fl : Z -> list Z) : Prop :=
  Rep s bl epa fl /\ no_KU bl /\ pa_chain true bl epa /\ no_adj_free bl.

(** The heap invariant between public calls. *)
Definition Inv (s : state) : Prop :=
  exists bl epa fl,
    Rep s bl epa fl /\
    no_KU bl /\
    pa_chain true bl epa /\
    no_adj_free bl.

(** ** Physical walk over the memory, as the checker does it *)

(** Block pointers met by [for (bp = heap_listp + 22*WSIZE;
    GET_SIZE(HDRP(bp)) > 0; bp = NEXT_BLKP(bp))]. *)
Inductive phys_block (s : state) : Z -> Prop :=
| phys_first :
    0 < GET_SIZE (mem s) (HDRP (heap_listp s + 22 * WSIZE)) ->
    phys_block s (heap_listp s + 22 * WSIZE)
| phys_next bp :
    phys_block s bp ->
    0 < GET_SIZE (mem s) (HDRP (NEXT_BLKP (mem s) bp)) ->
    phys_block s (NEXT_BLKP (mem s) bp).

(** The checker's "2 consecutive free blocks" condition never fires. *)
Definition no_consecutive_free (s : state) : Prop :=
  forall bp, phys_block s bp ->
    ~ (GET_ALLOC (mem s) (HDRP bp) = 0 /\
       GET_ALLOC (mem s) (HDRP (NEXT_BLKP (mem s) bp)) = 0).

(** A pointer that [mm_malloc] handed out and that was not freed since: a
    block of the walk whose allocated bit is set. *)
Definition live (s : state) (bp : Z) : Prop :=
  phys_block s bp /\ GET_ALLOC (mem s) (HDRP bp) <> 0.

(** The checker's prologue test passes: the prologue header, the word below
    [heap_listp], has size [DSIZE] and the allocated bit. *)
Definition prologue_ok (s : state) : Prop :=
  GET_SIZE (mem s) (HDRP (heap_listp s)) = DSIZE /\
  GET_ALLOC (mem s) (HDRP (heap_listp s)) <> 0.

(** [s'] has the heap pointer of [s], and the words below the first root,
    which are the padding word and the prologue, are as in [s]. *)
Definition same_low (s s' : state) : Prop :=
  heap_listp s' = heap_listp s /\
  forall a, a + 4 <= heap_listp s + 4 -> GET (mem s') a = GET (mem s) a.

(** The bytes that the user of block [bp] owns, from [bp] up to the header
    of the next block, are in [s'] what they are in [s]. *)
Definition same_payload (s s' : state) (bp : Z) : Prop :=
  forall x, bp <= x < bp + GET_SIZE (mem s) (HDRP bp) - WSIZE ->
            byte_at (mem s') x = byte_at (mem s) x.

(** ** List walk of a class, as the checker does it *)

(** Block pointers met by [for (bp = get_addr(GET(heap_listp +
    WSIZE*(i+1))); bp != NULL; bp = get_succ(bp))]. *)
Inductive in_class (s : state) (i : Z) : Z -> Prop :=
| class_first :
    get_addr (heap_start s) (GET (mem s) (heap_listp s + WSIZE * (i + 1)))
    <> NULL ->
    in_class s i
      (get_addr (heap_start s) (GET (mem s) (heap_listp s + WSIZE * (i + 1))))
| class_next bp :
    in_class s i bp ->
    get_succ (mem s) (heap_start s) bp <> NULL ->
    in_class s i (get_succ (mem s) (heap_start s) bp).

(** The same walk as a function: the pointers of a list from [bp] on;
    [fuel] bounds their number. *)
Fixpoint list_walk (fuel : nat) (m : memory) (hs bp : Z) : list Z :=
  match fuel with
  | O => []
  | S fuel' =>
      if bp =? NULL then []
      else bp :: list_walk fuel' m hs (get_succ m hs bp)
  end.

Definition class_list (fuel : nat) (s : state) (i : Z) : list Z :=
  list_walk fuel (mem s) (heap_start s)
    (get_addr (heap_start s) (GET (mem s) (heap_listp s + WSIZE * (i + 1)))).

(** [ALIGN(p)] and [aligned(p)]; [~0x7] acts on a [size_t] here. *)
Definition ALIGN (p : Z) : Z :=
  Z.land (u64 (p + (ALIGNMENT - 1))) (two64 - 8).

Definition aligned (p : Z) : bool := ALIGN p =? p.

(** The walk of the checker as a function: the block pointers from [bp]
    up to the first header of size 0; [fuel] bounds their number. *)
Fixpoint heap_walk (fuel : nat) (m : memory) (bp : Z) : list Z :=
  match fuel with
  | O => []
  | S fuel' =>
      if 0 <? GET_SIZE m (HDRP bp)
      then bp :: heap_walk fuel' m (NEXT_BLKP m bp)
      else []
  end.

(** What the header of [bp] says about its block. *)
Definition read_blk (m : memory) (bp : Z) : blk :=
  mkBlk (GET_SIZE m (HDRP bp))
        (if GET_ALLOC m (HDRP bp) =? 0 then KF else KA)
        (negb (GET_PREV_ALLOC m (HDRP bp) =? 0)).

(** State and pointer of a finished call, for evaluating traces. *)
Definition state_of (r : option (state * Z)) : state :=
  match r with Some (s, _) => s | None => fresh 0 0 end.

Definition ptr_of (r : option (state * Z)) : option Z :=
  match r with Some (_, p) => Some p | None => None end.

(** The state in which [mm_free] calls [coalesce]: header and footer of
    [bp] say "free", the lists do not hold the block yet. *)
Definition mark_free (s : state) (bp : Z) : state :=
  let m := mem s in
  let size := GET_SIZE m (HDRP bp) in
  let tag := if negb (GET_PREV_ALLOC m (HDRP bp) =? 0) then 2 else 0 in
  let m := PUT m (HDRP bp) (PACK size tag) in
  let m := PUT m (FTRP m bp) (PACK size tag) in
  set_mem s m.

(** ** Example heaps

    A provider region of 100000 bytes at address 4096; the first payload
    then lies at 4192.  Three requests of 8 bytes give the blocks at 4192,
    4208 and 4224 and leave a free block at 4240. *)
Definition heap0 : state := fst (mm_init (fresh 4096 100000)).
Definition heap1 : state := state_of (mm_malloc 100 heap0 8).
Definition heap2 : state := state_of (mm_malloc 100 heap1 8).
Definition heap3 : state := state_of (mm_malloc 100 heap2 8).
(** After [free(4192)], and after [free(4224)] as well. *)
Definition heap3a : state := mm_free heap3 4192.
Definition heap3ac : state := mm_free heap3a 4224.
(** A provider with room for the initial heap only, after one request. *)
Definition small1 : state :=
  state_of (mm_malloc 100 (fst (mm_init (fresh 4096 352))) 8).

(** ** Reference formulas of the specification *)

Definition round_up_8 (x : Z) : Z := 8 * ((x + 7) / 8).

(** [asize = max(16, round_up_8(n + 4))], over unbounded integers. *)
Definition asize_spec (n : Z) : Z := Z.max 16 (round_up_8 (n + 4)).

(** * Properties *)

(** ** Loads and stores *)

Lemma u32_range x : 0 <= u32 x < two32.
Proof. unfold u32, two32. apply Z.mod_pos_bound. lia. Qed.

Lemma u64_range x : 0 <= u64 x < two64.
Proof. unfold u64, two64. apply Z.mod_pos_bound. lia. Qed.

Lemma u32_small x : 0 <= x < two32 -> u32 x = x.
Proof. intros. unfold u32. apply Z.mod_small. assumption. Qed.

Lemma u64_small x : 0 <= x < two64 -> u64 x = x.
Proof. intros. unfold u64. apply Z.mod_small. assumption. Qed.

Lemma GET_range m p : 0 <= GET m p < two32.
Proof.
  unfold GET, byte_at, two32.
  pose proof (Z.mod_pos_bound (m p) 256).
  pose proof (Z.mod_pos_bound (m (p + 1)) 256).
  pose proof (Z.mod_pos_bound (m (p + 2)) 256).
  pose proof (Z.mod_pos_bound (m (p + 3)) 256).
  lia.
Qed.

Lemma bytes_recompose v :
  0 <= v < two32 ->
  (v mod 256) mod 256 + 256 * ((v / 256) mod 256 mod 256)
  + 65536 * ((v / 65536) mod 256 mod 256)
  + 16777216 * ((v / 16777216) mod 256 mod 256) = v.
Proof.
  unfold two32. intros Hv.
  rewrite !Z.mod_mod by lia.
  Z.to_euclidean_division_equations. lia.
Qed.

Lemma GET_PUT_same m p v : GET (PUT m p v) p = u32 v.
Proof.
  unfold GET, PUT, byte_at.
  rewrite Z.eqb_refl.
  replace (p + 1 =? p) with false by (symmetry; apply Z.eqb_neq; lia).
  replace (p + 2 =? p) with false by (symmetry; apply Z.eqb_neq; lia).
  replace (p + 3 =? p) with false by (symmetry; apply Z.eqb_neq; lia).
  replace (p + 2 =? p + 1) with false by (symmetry; apply Z.eqb_neq; lia).
  replace (p + 3 =? p + 1) with false by (symmetry; apply Z.eqb_neq; lia).
  replace (p + 3 =? p + 2) with false by (symmetry; apply Z.eqb_neq; lia).
  rewrite !Z.eqb_refl.
  apply bytes_recompose. apply u32_range.
Qed.

Lemma PUT_other_byte m p v a : a < p \/ p + 4 <= a -> PUT m p v a = m a.
Proof.
  intros H. unfold PUT.
  replace (a =? p) with false by (symmetry; apply Z.eqb_neq; lia).
  replace (a =? p + 1) with false by (symmetry; apply Z.eqb_neq; lia).
  replace (a =? p + 2) with false by (symmetry; apply Z.eqb_neq; lia).
  replace (a =? p + 3) with false by (symmetry; apply Z.eqb_neq; lia).
  reflexivity.
Qed.

Lemma GET_PUT_other m p v q :
  q + 4 <= p \/ p + 4 <= q -> GET (PUT m p v) q = GET m q.
Proof.
  intros H. unfold GET, byte_at.
  rewrite !PUT_other_byte by lia. reflexivity.
Qed.

Lemma memcpy_inside m dst src n a :
  dst <= a < dst + n -> memcpy m dst src n a = m (src + (a - dst)).
Proof.
  intros H. unfold memcpy.
  replace ((dst <=? a) && (a <? dst + n)) with true; [reflexivity|].
  symmetry. apply andb_true_iff. split; [apply Z.leb_le | apply Z.ltb_lt]; lia.
Qed.

Lemma memcpy_outside m dst src n a :
  a < dst \/ dst + n <= a -> memcpy m dst src n a = m a.
Proof.
  intros H. unfold memcpy.
  replace ((dst <=? a) && (a <? dst + n)) with false; [reflexivity|].
  symmetry. apply andb_false_iff.
  destruct H; [left; apply Z.leb_gt | right; apply Z.ltb_ge]; lia.
Qed.

Lemma GET_memcpy_outside m dst src n q :
  q + 4 <= dst \/ dst + n <= q -> GET (memcpy m dst src n) q = GET m q.
Proof.
  intros H. unfold GET, byte_at.
  rewrite !memcpy_outside by lia. reflexivity.
Qed.

(** ** Bit-packing of header words *)

Lemma land_disjoint_sum w a b :
  Z.land a b = 0 -> Z.land w (Z.lor a b) = Z.land w a + Z.land w b.
Proof.
  intros H. rewrite Z.land_lor_distr_r.
  pose proof (Z.add_lor_land (Z.land w a) (Z.land w b)) as S.
  assert (E : Z.land (Z.land w a) (Z.land w b) = 0).
  { apply Z.bits_inj'. intros n Hn.
    rewrite !Z.land_spec, Z.bits_0.
    assert (Hb : Z.testbit (Z.land a b) n = false) by (rewrite H; apply Z.bits_0).
    rewrite Z.land_spec in Hb.
    destruct (Z.testbit w n), (Z.testbit a n), (Z.testbit b n);
      simpl in *; congruence. }
  rewrite E in S. lia.
Qed.

Lemma land_ones32 w : 0 <= w < two32 -> Z.land w (Z.ones 32) = w.
Proof.
  intros H. rewrite Z.land_ones by lia. apply Z.mod_small. exact H.
Qed.

Lemma land_7 w : Z.land w 7 = w mod 8.
Proof. change 7 with (Z.ones 3). rewrite Z.land_ones by lia. reflexivity. Qed.

Lemma land_1 w : Z.land w 1 = w mod 2.
Proof. change 1 with (Z.ones 1). rewrite Z.land_ones by lia. reflexivity. Qed.

Lemma land_2 w : Z.land w 2 = 2 * ((w / 2) mod 2).
Proof.
  change 2 with (Z.land 3 2) at 1. rewrite Z.land_assoc.
  change 3 with (Z.ones 2). rewrite Z.land_ones by lia.
  change (2 ^ 2) with 4.
  assert (H : 0 <= w mod 4 < 4) by (apply Z.mod_pos_bound; lia).
  assert (C : w mod 4 = 0 \/ w mod 4 = 1 \/ w mod 4 = 2 \/ w mod 4 = 3) by lia.
  destruct C as [C|[C|[C|C]]]; rewrite C;
    match goal with
    | |- ?l = _ => let v := eval vm_compute in l in change l with v
    end;
    Z.to_euclidean_division_equations; lia.
Qed.

Lemma land_NOT7 w : 0 <= w < two32 -> Z.land w NOT7 = w - w mod 8.
Proof.
  intros H. pose proof (land_ones32 w H) as E.
  change (Z.ones 32) with (Z.lor NOT7 7) in E.
  rewrite land_disjoint_sum in E by reflexivity.
  rewrite land_7 in E. lia.
Qed.

Lemma land_NOT2 w : 0 <= w < two32 -> Z.land w NOT2 = w - 2 * ((w / 2) mod 2).
Proof.
  intros H. pose proof (land_ones32 w H) as E.
  change (Z.ones 32) with (Z.lor NOT2 2) in E.
  rewrite land_disjoint_sum in E by reflexivity.
  rewrite land_2 in E. lia.
Qed.

Lemma lor_2 w : Z.lor w 2 = w + 2 - 2 * ((w / 2) mod 2).
Proof.
  pose proof (Z.add_lor_land w 2) as E. rewrite land_2 in E. lia.
Qed.

Lemma PACK_add size tag :
  size mod 8 = 0 -> 0 <= tag < 8 -> PACK size tag = size + tag.
Proof.
  intros Hs Ht. unfold PACK.
  pose proof (Z.add_lor_land size tag) as E.
  assert (Z.land size tag = 0) as E0.
  { replace tag with (Z.land 7 tag).
    - rewrite Z.land_assoc, land_7, Hs. apply Z.land_0_l.
    - rewrite Z.land_comm, land_7. apply Z.mod_small. lia. }
  lia.
Qed.

Lemma hdr_range size a pa : size_ok size -> 0 <= hdr size a pa < two32.
Proof.
  unfold size_ok, hdr, two32. intros [H1 H2].
  destruct a, pa; Z.to_euclidean_division_equations; lia.
Qed.

Lemma hdr_size size a pa : size_ok size -> Z.land (hdr size a pa) NOT7 = size.
Proof.
  intros H. rewrite land_NOT7 by (apply hdr_range; exact H).
  destruct H as [H1 H2]. unfold hdr.
  destruct a, pa; Z.to_euclidean_division_equations; lia.
Qed.

Lemma hdr_alloc size a pa :
  size_ok size -> Z.land (hdr size a pa) 1 = if a then 1 else 0.
Proof.
  intros [H1 H2]. rewrite land_1. unfold hdr.
  destruct a, pa; Z.to_euclidean_division_equations; lia.
Qed.

Lemma hdr_prev_alloc size a pa :
  size_ok size -> Z.land (hdr size a pa) 2 = if pa then 2 else 0.
Proof.
  intros [H1 H2]. rewrite land_2. unfold hdr.
  destruct a, pa; Z.to_euclidean_division_equations; lia.
Qed.

Lemma hdr_clear_prev size a pa :
  size_ok size -> Z.land (hdr size a pa) NOT2 = hdr size a false.
Proof.
  intros H. rewrite land_NOT2 by (apply hdr_range; exact H).
  destruct H as [H1 H2]. unfold hdr.
  destruct a, pa; Z.to_euclidean_division_equations; lia.
Qed.

Lemma hdr_set_prev size a pa :
  size_ok size -> PACK (hdr size a pa) 2 = hdr size a true.
Proof.
  intros [H1 H2]. unfold PACK. rewrite lor_2. unfold hdr.
  destruct a, pa; Z.to_euclidean_division_equations; lia.
Qed.

Lemma PACK_hdr size (a pa : bool) :
  size mod 8 = 0 ->
  PACK size ((if a then 1 else 0) + (if pa then 2 else 0)) = hdr size a pa.
Proof.
  intros H. rewrite PACK_add by (destruct a, pa; lia).
  unfold hdr. lia.
Qed.

(** ** Size classes *)

Ltac split_leb :=
  repeat match goal with
  | |- context [?a <=? ?b] => destruct (Z.leb_spec a b); try lia
  | |- context [?a <? ?b] => destruct (Z.ltb_spec a b); try lia
  end.

Lemma get_list_small S : 16 <= S <= 96 -> get_list S = (S - 16) / 8.
Proof.
  intros H. unfold get_list.
  destruct (Z.leb_spec S 96); [|lia].
  rewrite u32_small by (unfold two32; lia). reflexivity.
Qed.

Lemma get_list_large S : 49152 < S -> get_list S = 19.
Proof.
  intros H. unfold get_list.
  destruct (Z.leb_spec S 96); [lia|].
  destruct (Z.ltb_spec 96 S); [|lia].
  destruct (Z.leb_spec S 49152); [lia|]. reflexivity.
Qed.

(** In the doubling range the class is [10 + k] for the position [k] of the
    interval [(96 * 2^(k-1), 192 * 2^(k-1)]] that holds [S]. *)
Lemma get_list_mid S k :
  1 <= k <= 9 -> 96 * 2 ^ (k - 1) < S <= 192 * 2 ^ (k - 1) ->
  get_list S = 10 + k.
Proof.
  intros Hk HS.
  assert (C : k = 1 \/ k = 2 \/ k = 3 \/ k = 4 \/ k = 5 \/ k = 6 \/ k = 7
              \/ k = 8 \/ k = 9) by lia.
  unfold get_list.
  destruct (Z.leb_spec S 96) as [H96|H96].
  { exfalso. assert (1 <= 2 ^ (k - 1)) by (apply Z.pow_le_mono_r with (b := 0); lia).
    lia. }
  destruct (Z.ltb_spec 96 S); [|lia].
  destruct (Z.leb_spec S 49152) as [Hm|Hm].
  2:{ exfalso. assert (2 ^ (k - 1) <= 2 ^ 8) by (apply Z.pow_le_mono_r; lia).
      change (2 ^ 8) with 256 in *. lia. }
  cbn [andb].
  repeat (destruct C as [C|C]); subst k; cbn in HS;
    cbv [get_list_loop u32 two32]; cbn [Z.mul Z.modulo Z.div Z.add];
    cbn; split_leb; reflexivity.
Qed.

(** Every class index is one of the twenty roots. *)
Lemma get_list_range S : 16 <= S -> 0 <= get_list S <= 19.
Proof.
  intros H16.
  destruct (Z_le_gt_dec S 96).
  { rewrite get_list_small by lia. Z.to_euclidean_division_equations; lia. }
  destruct (Z_le_gt_dec S 49152).
  2:{ rewrite get_list_large by lia. lia. }
  assert (C : S <= 192 \/ 192 < S <= 384 \/ 384 < S <= 768
              \/ 768 < S <= 1536 \/ 1536 < S <= 3072 \/ 3072 < S <= 6144
              \/ 6144 < S <= 12288 \/ 12288 < S <= 24576 \/ 24576 < S) by lia.
  destruct C as [C|[C|[C|[C|[C|[C|[C|[C|C]]]]]]]];
    [rewrite (get_list_mid S 1)|rewrite (get_list_mid S 2)
    |rewrite (get_list_mid S 3)|rewrite (get_list_mid S 4)
    |rewrite (get_list_mid S 5)|rewrite (get_list_mid S 6)
    |rewrite (get_list_mid S 7)|rewrite (get_list_mid S 8)
    |rewrite (get_list_mid S 9)]; cbn; lia.
Qed.

(** C2 (amended): for every size [S] with [16 <= S < 2^32], the values of
    the [unsigned int] parameter, the class function [get_list] returns
    [(S - 16) / 8] when [S <= 96]; when [96 < S <= 49152] it returns
    [10 + k] for the smallest positive [k] with [S <= 192 * 2^(k-1)];
    above 49152 it returns 19.  Every result lies in [0..19]. *)
Theorem get_list_classes S :
  16 <= S < two32 ->
  (S <= 96 -> get_list S = (S - 16) / 8) /\
  (96 < S <= 49152 ->
   exists k, 1 <= k /\ S <= 192 * 2 ^ (k - 1) /\
             (forall j, 1 <= j < k -> ~ S <= 192 * 2 ^ (j - 1)) /\
             get_list S = 10 + k) /\
  (49152 < S -> get_list S = 19) /\
  0 <= get_list S <= 19.
Proof.
  intros [H16 _].
  assert (Mid : 96 < S <= 49152 ->
          exists k, 1 <= k <= 9 /\ 96 * 2 ^ (k - 1) < S <= 192 * 2 ^ (k - 1)).
  { intros HS.
    assert (C : S <= 192 \/ 192 < S <= 384 \/ 384 < S <= 768
                \/ 768 < S <= 1536 \/ 1536 < S <= 3072 \/ 3072 < S <= 6144
                \/ 6144 < S <= 12288 \/ 12288 < S <= 24576 \/ 24576 < S) by lia.
    destruct C as [C|[C|[C|[C|[C|[C|[C|[C|C]]]]]]]];
      [exists 1|exists 2|exists 3|exists 4|exists 5|exists 6|exists 7
      |exists 8|exists 9]; cbn; lia. }
  repeat split.
  - intros. apply get_list_small. lia.
  - intros HS. destruct (Mid HS) as (k & Hk & Hr).
    exists k. repeat split; try lia.
    + intros j Hj Hle.
      assert (2 ^ (j - 1) <= 2 ^ (k - 2)) by (apply Z.pow_le_mono_r; lia).
      assert (2 ^ (k - 1) = 2 * 2 ^ (k - 2)).
      { replace (k - 1) with (Z.succ (k - 2)) by lia.
        apply Z.pow_succ_r. lia. }
      lia.
    + apply get_list_mid; assumption.
  - apply get_list_large.
  - destruct (Z_le_gt_dec S 96).
    + rewrite get_list_small by lia. Z.to_euclidean_division_equations; lia.
    + destruct (Z_le_gt_dec S 49152).
      * destruct Mid as (k & Hk & Hr); [lia|].
        rewrite (get_list_mid S k) by assumption. lia.
      * rewrite get_list_large by lia. lia.
  - destruct (Z_le_gt_dec S 96).
    + rewrite get_list_small by lia. Z.to_euclidean_division_equations; lia.
    + destruct (Z_le_gt_dec S 49152).
      * destruct Mid as (k & Hk & Hr); [lia|].
        rewrite (get_list_mid S k) by assumption. lia.
      * rewrite get_list_large by lia. lia.
Qed.

Lemma get_list_classes_witness :
  16 <= 200 < two32 /\ 0 <= get_list 200 <= 19.
Proof.
  split; [unfold two32; lia|].
  destruct (get_list_classes 200) as (_ & _ & _ & H);
    [unfold two32; lia|exact H].
Defined.

(** C2 as stated fails for sizes of [2^32] and more.  [get_list] takes an
    [unsigned int], and [find_fit] hands it the [size_t] block size, which
    is truncated at the call.  [mm_malloc(2^32 + 4)] adjusts the request to
    [2^32 + 8] and asks for its class: the argument arrives as 8, the
    unsigned [8 - 16] wraps, and the class is 536870911, outside [0..19],
    where the claim says 19.  The size [2^32 + 16] gets class 0. *)
Lemma get_list_truncated_size :
  adjust_size (two32 + 4) = two32 + 8 /\
  16 <= two32 + 8 /\
  get_list (u32 (two32 + 8)) = 536870911 /\
  ~ (0 <= get_list (u32 (two32 + 8)) <= 19) /\
  get_list (u32 (two32 + 16)) = 0.
Proof.
  assert (E : get_list (u32 (two32 + 8)) = 536870911)
    by (vm_compute; reflexivity).
  split; [vm_compute; reflexivity|].
  split; [unfold two32; lia|].
  split; [exact E|].
  split; [rewrite E; lia|].
  vm_compute; reflexivity.
Qed.

(** ** Request sizing *)

(** Inside the range where [n + 11] does not wrap, [mm_malloc] computes the
    adjusted size of the specification. *)
Lemma adjust_size_in_range n :
  0 < n <= two64 - 12 ->
  adjust_size n = asize_spec n /\ adjust_size n mod 8 = 0
  /\ 16 <= adjust_size n /\ n + 4 <= adjust_size n <= Z.max 16 (n + 11).
Proof.
  unfold two64. intros H.
  unfold adjust_size, asize_spec, round_up_8, DSIZE, WSIZE.
  destruct (Z.leb_spec n (8 + 4)).
  - repeat split; try (Z.to_euclidean_division_equations; lia).
  - rewrite (u64_small (n + 4 + (8 - 1))) by (unfold two64; lia).
    rewrite u64_small by (unfold two64; Z.to_euclidean_division_equations; lia).
    repeat split; Z.to_euclidean_division_equations; lia.
Qed.

(** C8: at [n = 2^64 - 1] the sum [size + WSIZE + (DSIZE-1)] wraps around
    and [mm_malloc] computes the adjusted size 8, which is below the
    minimum block size 16 and differs from [max(16, round_up_8(n + 4))]. *)
Theorem adjust_size_wraps :
  adjust_size (two64 - 1) = 8 /\
  asize_spec (two64 - 1) = two64 + 8 /\
  ~ 16 <= adjust_size (two64 - 1).
Proof.
  repeat split; try reflexivity.
  vm_compute. intros H. apply H. reflexivity.
Qed.

(** ** Pointer compression *)

(** C9: [get_offset(NULL) = 0], [get_addr(0) = NULL], and every non-null
    pointer [bp] other than [heap_start] whose distance from [heap_start]
    fits 32 bits is recovered: [get_addr(get_offset(bp)) = bp]. *)
Theorem get_addr_get_offset hs bp :
  get_offset hs NULL = 0 /\
  get_addr hs 0 = NULL /\
  (bp <> NULL -> bp <> hs -> 0 <= bp - hs < two32 -> 0 <= bp < two64 ->
   get_addr hs (get_offset hs bp) = bp).
Proof.
  repeat split.
  intros Hn Hs Hr Hp. unfold get_addr, get_offset, NULL in *.
  destruct (Z.eqb_spec bp 0); [contradiction|].
  rewrite u32_small by assumption.
  destruct (Z.eqb_spec (bp - hs) 0); [lia|].
  replace (bp - hs + hs) with bp by lia.
  apply u64_small. assumption.
Qed.

Lemma get_addr_get_offset_witness :
  get_addr 4096 (get_offset 4096 4192) = 4192.
Proof.
  destruct (get_addr_get_offset 4096 4192) as (_ & _ & H).
  apply H; unfold NULL, two32, two64; lia.
Defined.


(** ** Fields other than the memory *)

Lemma del_list_set_mem s bp : exists m, del_list s bp = set_mem s m.
Proof. unfold del_list. eexists. reflexivity. Qed.

Lemma add_start_set_mem s bp : exists m, add_start s bp = set_mem s m.
Proof. unfold add_start. eexists. reflexivity. Qed.

Lemma set_mem_set_mem s m m' : set_mem (set_mem s m) m' = set_mem s m'.
Proof. reflexivity. Qed.

Lemma coalesce_set_mem s bp : exists m, fst (coalesce s bp) = set_mem s m.
Proof.
  unfold coalesce. cbv zeta.
  destruct (negb (GET_PREV_ALLOC (mem s) (HDRP bp) =? 0) &&
            negb (GET_ALLOC (mem s) (HDRP (NEXT_BLKP (mem s) bp)) =? 0)).
  { eexists. reflexivity. }
  destruct (negb (GET_PREV_ALLOC (mem s) (HDRP bp) =? 0) &&
            (GET_ALLOC (mem s) (HDRP (NEXT_BLKP (mem s) bp)) =? 0)).
  { eexists. reflexivity. }
  destruct ((GET_PREV_ALLOC (mem s) (HDRP bp) =? 0) &&
            negb (GET_ALLOC (mem s) (HDRP (NEXT_BLKP (mem s) bp)) =? 0)).
  { eexists. reflexivity. }
  eexists. reflexivity.
Qed.

Lemma mem_sbrk_Some s incr p s' :
  mem_sbrk s incr = Some (p, s') ->
  p = mem_brk s /\ 0 <= incr /\ mem_brk s + incr <= mem_max_addr s /\
  s' = mkState (heap_start s) (heap_listp s) (mem s) (mem_brk s + incr)
               (mem_max_addr s).
Proof.
  unfold mem_sbrk.
  destruct (Z.leb_spec 0 incr); cbn [andb]; [|discriminate].
  destruct (Z.leb_spec (mem_brk s + incr) (mem_max_addr s)); [|discriminate].
  intros E. inversion E. auto.
Qed.

Lemma extend_heap_fields s w :
  heap_listp (fst (extend_heap s w)) = heap_listp s /\
  heap_start (fst (extend_heap s w)) = heap_start s /\
  mem_max_addr (fst (extend_heap s w)) = mem_max_addr s.
Proof.
  unfold extend_heap. cbv zeta.
  destruct (mem_sbrk s (extend_bytes w)) as [[bp s1]|] eqn:E; [|auto].
  apply mem_sbrk_Some in E. destruct E as (_ & _ & _ & ->).
  match goal with |- context [coalesce ?a ?b] =>
    destruct (coalesce_set_mem a b) as [m' Hc];
    destruct (coalesce a b) as [s2 rp] end.
  cbn [fst] in *. subst s2.
  match goal with |- context [add_start ?a ?b] =>
    destruct (add_start_set_mem a b) as [m2 ->] end.
  cbn. auto.
Qed.

(** ** Out of memory *)

Lemma extend_heap_refused s w :
  mem_sbrk s (extend_bytes w) = None -> extend_heap s w = (s, NULL).
Proof. intros H. unfold extend_heap. cbv zeta. rewrite H. reflexivity. Qed.

(** C6 as stated fails when the heap pointer is still unset: the
    self-initialising [mm_malloc] builds the heap, the provider then
    refuses the extension for the request, null is returned, and the heap
    pointer and the memory have changed. *)
Lemma oom_uninitialised_changes_state :
  let s0 := fresh 4096 352 in
  let r := mm_malloc 1 s0 1000 in
  ptr_of r = Some NULL /\
  mem_sbrk (state_of r)
    (extend_bytes (MAX (adjust_size 1000) CHUNKSIZE / WSIZE)) = None /\
  heap_listp (state_of r) <> heap_listp s0 /\
  GET (mem (state_of r)) 4188 <> GET (mem s0) 4188.
Proof.
  repeat split; vm_compute; (reflexivity || discriminate).
Qed.
(** ** Reallocation *)

Lemma realloc_copy_len_min m ptr n :
  realloc_copy_len m ptr n = Z.min (GET_SIZE m (HDRP ptr)) n.
Proof.
  unfold realloc_copy_len. cbv zeta.
  destruct (Z.ltb_spec n (GET_SIZE m (HDRP ptr))); lia.
Qed.

(** C1 (amended): for [ptr] non-null and [n > 0], when the new block is
    obtained, [mm_realloc] copies exactly [min(size(ptr), n)] bytes, where
    [size(ptr)] is the block size read from the header of [ptr] (header
    included), from [ptr] to the new block, leaves every other byte as
    [mm_malloc] left it, then frees [ptr] and returns the new pointer. *)
Theorem mm_realloc_copies fuel s ptr n s1 newptr :
  ptr <> NULL -> 0 < n ->
  mm_malloc fuel s n = Some (s1, newptr) -> newptr <> NULL ->
  let len := Z.min (GET_SIZE (mem s1) (HDRP ptr)) n in
  let m2 := memcpy (mem s1) newptr ptr len in
  mm_realloc fuel s ptr n = Some (mm_free (set_mem s1 m2) ptr, newptr) /\
  (forall i, 0 <= i < len -> m2 (newptr + i) = mem s1 (ptr + i)) /\
  (forall a, a < newptr \/ newptr + len <= a -> m2 a = mem s1 a).
Proof.
  intros Hp Hn Hm Hnew len m2. repeat split.
  - unfold mm_realloc.
    destruct (Z.eqb_spec n 0); [lia|].
    destruct (Z.eqb_spec ptr NULL); [contradiction|].
    rewrite Hm.
    destruct (Z.eqb_spec newptr 0); [contradiction|].
    cbv zeta. rewrite realloc_copy_len_min. reflexivity.
  - intros i Hi. unfold m2. rewrite memcpy_inside by lia.
    f_equal. lia.
  - intros a Ha. unfold m2. apply memcpy_outside. exact Ha.
Qed.

Lemma result_of_ptr (r : option (state * Z)) p :
  ptr_of r = Some p -> r = Some (state_of r, p).
Proof.
  destruct r as [[s q]|]; cbn; [|discriminate].
  intros E. inversion E. reflexivity.
Qed.

Lemma mm_realloc_copies_witness :
  let s := state_of (mm_malloc 1 (fresh 4096 4096) 8) in
  let s1 := state_of (mm_malloc 1 s 100) in
  mm_realloc 1 s 4192 100
  = Some (mm_free (set_mem s1 (memcpy (mem s1) 4208 4192
                    (Z.min (GET_SIZE (mem s1) (HDRP 4192)) 100))) 4192,
          4208).
Proof.
  intros s s1.
  apply (mm_realloc_copies 1 s 4192 100 s1 4208);
    [discriminate | lia | | discriminate].
  apply result_of_ptr. vm_compute. reflexivity.
Defined.

(** C1 as stated fails: reallocating the 16-byte block at 4192 (12 bytes
    of payload) to 100 bytes copies 16 bytes, not [min(16 - 4, 100) = 12];
    the four bytes after the payload, which hold the header of the next
    block, arrive in the new block. *)
Lemma realloc_copies_block_size :
  let s := state_of (mm_malloc 1 (fresh 4096 4096) 8) in
  let s1 := state_of (mm_malloc 1 s 100) in
  let r := mm_realloc 1 s 4192 100 in
  ptr_of (mm_malloc 1 (fresh 4096 4096) 8) = Some 4192 /\
  ptr_of (mm_malloc 1 s 100) = Some 4208 /\
  ptr_of r = Some 4208 /\
  realloc_copy_len (mem s1) 4192 100 = 16 /\
  Z.min (GET_SIZE (mem s1) (HDRP 4192) - WSIZE) 100 = 12 /\
  GET (mem s1) (4192 + 12) = 107 /\
  GET (mem s1) (4208 + 12) = 0 /\
  GET (mem (state_of r)) (4208 + 12) = 107.
Proof.
  repeat split; vm_compute; reflexivity.
Qed.

(** ** Geometry of a block list *)

Lemma total_app l1 l2 : total (l1 ++ l2) = total l1 + total l2.
Proof. induction l1 as [|b r IH]; simpl; lia. Qed.

Lemma layout_app h l1 l2 :
  layout h (l1 ++ l2) = layout h l1 ++ layout (h + total l1) l2.
Proof.
  revert h. induction l1 as [|b r IH]; intros h; simpl.
  - rewrite Z.add_0_r. reflexivity.
  - rewrite IH, Z.add_assoc. reflexivity.
Qed.

Lemma total_nonneg l : Forall size_wf l -> 0 <= total l.
Proof.
  induction 1 as [|b r [H1 H2] _ IH]; simpl; lia.
Qed.

Lemma layout_bounds h l h1 b1 :
  Forall size_wf l -> In (h1, b1) (layout h l) ->
  h <= h1 /\ h1 + bsz b1 <= h + total l /\ size_wf b1.
Proof.
  intros Hwf. revert h. induction Hwf as [|b r Hb Hr IH]; intros h; simpl.
  - contradiction.
  - pose proof (total_nonneg r Hr). destruct Hb as [Hb1 Hb2].
    intros [E|Hin].
    + inversion E; subst. repeat split; lia.
    + destruct (IH _ Hin) as (A & B & C). repeat split; try lia; apply C.
Qed.

Lemma layout_sep h l h1 b1 h2 b2 :
  Forall size_wf l ->
  In (h1, b1) (layout h l) -> In (h2, b2) (layout h l) ->
  (h1 = h2 /\ b1 = b2) \/ h1 + bsz b1 <= h2 \/ h2 + bsz b2 <= h1.
Proof.
  intros Hwf. revert h. induction Hwf as [|b r Hb Hr IH]; intros h; simpl.
  - contradiction.
  - intros [E1|H1] [E2|H2].
    + inversion E1; inversion E2; subst. left. split; reflexivity.
    + inversion E1; subst.
      pose proof (layout_bounds _ _ _ _ Hr H2). lia.
    + inversion E2; subst.
      pose proof (layout_bounds _ _ _ _ Hr H1). lia.
    + eapply IH; eassumption.
Qed.

Lemma layout_mid h pre X post :
  In (h + total pre, X) (layout h (pre ++ X :: post)).
Proof.
  rewrite layout_app. apply in_or_app. right. left. reflexivity.
Qed.

Lemma layout_split h l h1 b1 :
  In (h1, b1) (layout h l) ->
  exists pre post, l = pre ++ b1 :: post /\ h1 = h + total pre.
Proof.
  revert h. induction l as [|b r IH]; intros h; simpl.
  - contradiction.
  - intros [E|Hin].
    + inversion E; subst. exists [], r. split; [reflexivity|simpl; lia].
    + destruct (IH _ Hin) as (pre & post & -> & ->).
      exists (b :: pre), post. split; [reflexivity|simpl; lia].
Qed.

Lemma layout_in_app h l1 l2 h1 b1 :
  In (h1, b1) (layout h (l1 ++ l2)) <->
  In (h1, b1) (layout h l1) \/ In (h1, b1) (layout (h + total l1) l2).
Proof. rewrite layout_app. apply in_app_iff. Qed.

Lemma Forall_size_wf_app l1 l2 :
  Forall size_wf (l1 ++ l2) <-> Forall size_wf l1 /\ Forall size_wf l2.
Proof. apply Forall_app. Qed.

(** ** Free-list segments *)

Lemma seg_unfold m hs p b r n :
  seg m hs p (b :: r) n <->
  GET m b = p /\ GET m (b + 4) = first_off hs r n /\ seg m hs (b - hs) r n.
Proof. reflexivity. Qed.

Lemma first_off_app hs l1 l2 n :
  first_off hs (l1 ++ l2) n = first_off hs l1 (first_off hs l2 n).
Proof. destruct l1; reflexivity. Qed.

Lemma last_off_app hs p l1 l2 :
  last_off hs p (l1 ++ l2) = last_off hs (last_off hs p l1) l2.
Proof. revert p. induction l1 as [|b r IH]; intros p; simpl; auto. Qed.

Lemma seg_app m hs p l1 l2 n :
  seg m hs p (l1 ++ l2) n <->
  seg m hs p l1 (first_off hs l2 n) /\ seg m hs (last_off hs p l1) l2 n.
Proof.
  revert p. induction l1 as [|b r IH]; intros p.
  - simpl. tauto.
  - rewrite <- app_comm_cons. rewrite !seg_unfold.
    rewrite first_off_app. rewrite IH. simpl last_off. tauto.
Qed.

Lemma seg_frame m m' hs p l n :
  (forall b, In b l -> GET m' b = GET m b /\ GET m' (b + 4) = GET m (b + 4)) ->
  seg m hs p l n -> seg m' hs p l n.
Proof.
  revert p. induction l as [|b r IH]; intros p Hf; [auto|].
  rewrite !seg_unfold. intros (A & B & C).
  destruct (Hf b (or_introl eq_refl)) as [E1 E2].
  repeat split; [congruence|congruence|].
  apply IH; [|exact C]. intros c Hc. apply Hf. right. exact Hc.
Qed.

Lemma seg_PUT_other m hs p l n a v :
  (forall b, In b l -> a + 4 <= b \/ b + 8 <= a) ->
  seg m hs p l n -> seg (PUT m a v) hs p l n.
Proof.
  intros H. apply seg_frame. intros b Hb. specialize (H b Hb).
  split; apply GET_PUT_other; lia.
Qed.

(** Changing the predecessor stored in the first element. *)
Lemma seg_set_pred m hs p p' b r n :
  spaced (b :: r) -> NoDup (b :: r) ->
  seg m hs p (b :: r) n -> seg (PUT m b p') hs (u32 p') (b :: r) n.
Proof.
  intros Hs Hn. rewrite !seg_unfold. intros (A & B & C).
  repeat split.
  - apply GET_PUT_same.
  - rewrite GET_PUT_other by lia. exact B.
  - apply seg_PUT_other; [|exact C]. intros c Hc.
    inversion Hn; subst.
    destruct (Hs b c (or_introl eq_refl) (or_intror Hc)) as [E|E]; [|lia].
    subst. contradiction.
Qed.

(** Changing the successor stored in the last element. *)
Lemma seg_set_succ m hs p l x n n' :
  spaced (l ++ [x]) -> NoDup (l ++ [x]) ->
  seg m hs p (l ++ [x]) n ->
  seg (PUT m (x + 4) n') hs p (l ++ [x]) (u32 n').
Proof.
  intros Hs Hn. rewrite !seg_app. intros [A B]. split.
  - apply seg_PUT_other; [|exact A]. intros c Hc.
    assert (c <> x).
    { intros ->. apply NoDup_remove_2 in Hn. apply Hn.
      rewrite app_nil_r. exact Hc. }
    destruct (Hs c x) as [E|E]; [apply in_or_app; auto
      |apply in_or_app; right; left; reflexivity| |]; [contradiction|lia].
  - revert B. rewrite !seg_unfold. intros (B1 & B2 & B3).
    repeat split.
    + rewrite GET_PUT_other by lia. exact B1.
    + simpl. apply GET_PUT_same.
Qed.

Lemma spaced_incl l l' : incl l' l -> spaced l -> spaced l'.
Proof. intros Hi Hs b c Hb Hc. apply Hs; apply Hi; assumption. Qed.

Lemma get_addr_off hs b : okp hs b -> get_addr hs (b - hs) = b.
Proof.
  intros (A & B & C). unfold get_addr.
  destruct (Z.eqb_spec (b - hs) 0); [lia|].
  replace (b - hs + hs) with b by lia. apply u64_small. exact C.
Qed.

Lemma get_offset_off hs b : 0 <= hs -> okp hs b -> get_offset hs b = b - hs.
Proof.
  intros H (A & B & C). unfold get_offset, NULL.
  destruct (Z.eqb_spec b 0); [lia|].
  apply u32_small. lia.
Qed.

Lemma okp_nonnull hs b : 0 <= hs -> okp hs b -> (b =? NULL) = false.
Proof. intros H (A & _). apply Z.eqb_neq. unfold NULL. lia. Qed.

(** ** [del_list] and [add_start] on a well-formed list *)

Lemma NoDup_app_disj (l1 l2 : list Z) x :
  NoDup (l1 ++ l2) -> In x l1 -> In x l2 -> False.
Proof.
  induction l1 as [|a r IH]; simpl; intros H H1 H2; [contradiction|].
  apply NoDup_cons_iff in H. destruct H as [Ha Hr].
  destruct H1 as [->|H1].
  - apply Ha. apply in_or_app. auto.
  - eauto.
Qed.

Lemma list_last_case (l : list Z) : l = [] \/ exists l' x, l = l' ++ [x].
Proof.
  destruct l as [|a r]; [left; reflexivity|right].
  destruct (@exists_last _ (a :: r)) as (l' & x & E); [discriminate|].
  exists l', x. exact E.
Qed.

Section DelList.
Variables (s : state) (bp : Z) (l1 l2 : list Z).
Let m := mem s.
Let hs := heap_start s.
Let ra := root_addr (heap_listp s) (get_list (GET_SIZE m (HDRP bp))).
Hypothesis Hhs : 0 <= hs.
Hypothesis Hseg : seg m hs 0 (l1 ++ bp :: l2) 0.
Hypothesis Hroot : GET m ra = head_off hs (l1 ++ bp :: l2).
Hypothesis Hok : forall b, In b (l1 ++ bp :: l2) -> okp hs b /\ ra + 4 <= b.
Hypothesis Hsp : spaced (l1 ++ bp :: l2).
Hypothesis Hnd : NoDup (l1 ++ bp :: l2).

Let m' := mem (del_list s bp).

Lemma del_list_pred_nil : l1 = [] -> get_pred m hs bp = NULL.
Proof.
intros E. apply seg_app in Hseg. destruct Hseg as [_ H].
apply seg_unfold in H. destruct H as (H & _).
unfold get_pred, PRED. cbv zeta. fold m. rewrite H. subst l1.
reflexivity.
Qed.

Lemma del_list_pred_last l p : l1 = l ++ [p] -> get_pred m hs bp = p.
Proof.
intros E. apply seg_app in Hseg. destruct Hseg as [_ H].
apply seg_unfold in H. destruct H as (H & _).
unfold get_pred, PRED. cbv zeta. fold m. rewrite H.
assert (In p (l1 ++ bp :: l2)) as Hin.
{ apply in_or_app. left. rewrite E. apply in_or_app. right. left. auto. }
destruct (Hok p Hin) as [Hp _].
rewrite E, last_off_app. simpl.
pose proof Hp as (A & B & C).
destruct (Z.eqb_spec (p - hs) 0); [lia|].
apply get_addr_off. exact Hp.
Qed.

Lemma del_list_succ : get_succ m hs bp = match l2 with [] => NULL | c :: _ => c end.
Proof.
apply seg_app in Hseg. destruct Hseg as [_ H].
apply seg_unfold in H. destruct H as (_ & H & _).
unfold get_succ, SUCC, WSIZE. cbv zeta. fold m. rewrite H.
destruct l2 as [|c r]; [reflexivity|]. simpl.
assert (In c (l1 ++ bp :: c :: r)) as Hin.
{ apply in_or_app. right. right. left. reflexivity. }
destruct (Hok c Hin) as [Hp _]. pose proof Hp as (A & B & C).
destruct (Z.eqb_spec (c - hs) 0); [lia|].
apply get_addr_off. exact Hp.
Qed.

Lemma del_list_mem_eq :
m' = let pred := get_pred m hs bp in
 let succ := get_succ m hs bp in
 if (pred =? NULL) && (succ =? NULL) then PUT m ra NULL
 else if (pred =? NULL) && negb (succ =? NULL) then
 PUT (PUT m ra (get_offset hs succ)) succ NULL
 else if negb (pred =? NULL) && (succ =? NULL) then
 PUT m (pred + WSIZE) NULL
 else PUT (PUT m (pred + WSIZE) (get_offset hs succ)) succ
(get_offset hs pred).
Proof. reflexivity. Qed.

Lemma del_list_mem :
seg m' hs 0 (l1 ++ l2) 0 /\
GET m' ra = head_off hs (l1 ++ l2) /\
(forall a, a + 4 <= ra \/ ra + 4 <= a ->
 (forall b, In b (l1 ++ l2) -> a + 4 <= b \/ b + 8 <= a) ->
 GET m' a = GET m a).
Proof.
rewrite del_list_mem_eq. cbv zeta. rewrite del_list_succ.
pose proof (NoDup_remove_1 _ _ _ Hnd) as Hnd'.
assert (Hsp' : spaced (l1 ++ l2)).
{ eapply spaced_incl; [|exact Hsp]. intros x Hx.
apply in_app_or in Hx. apply in_or_app. simpl. tauto. }
assert (Hok' : forall b, In b (l1 ++ l2) -> okp hs b /\ ra + 4 <= b).
{ intros b Hb. apply Hok. apply in_app_or in Hb. apply in_or_app.
simpl. tauto. }
pose proof Hseg as Hseg0.
apply seg_app in Hseg0. destruct Hseg0 as [S1 S2].
apply seg_unfold in S2. destruct S2 as (S2 & S3 & S4).
destruct (list_last_case l1) as [E|(l & p & E)].
- rewrite (del_list_pred_nil E). subst l1. simpl app in *.
destruct l2 as [|c r].
+ cbn [NULL Z.eqb andb]. split; [|split].
* exact I.
* rewrite GET_PUT_same. reflexivity.
* intros a Ha _. apply GET_PUT_other. lia.
+ destruct (Hok' c (or_introl eq_refl)) as [Hc Hrc].
rewrite (okp_nonnull hs c Hhs Hc). cbn [NULL Z.eqb andb negb].
rewrite (get_offset_off hs c Hhs Hc).
split; [|split].
* change 0 with (u32 0) at 1.
apply seg_set_pred with (p := bp - hs); [exact Hsp'|exact Hnd'|].
apply seg_PUT_other; [|exact S4].
intros b Hb. destruct (Hok' b Hb). lia.
* rewrite GET_PUT_other by lia. rewrite GET_PUT_same.
simpl. apply u32_small. destruct Hc as (A & B & C). lia.
* intros a Ha Hb. specialize (Hb c (or_introl eq_refl)).
rewrite !GET_PUT_other by lia. reflexivity.
- rewrite (del_list_pred_last l p E). subst l1.
assert (Hinp : In p ((l ++ [p]) ++ l2)).
{ apply in_or_app. left. apply in_or_app. right. left. reflexivity. }
destruct (Hok' p Hinp) as [Hp Hrp].
rewrite (okp_nonnull hs p Hhs Hp).
assert (Hhead : forall r, head_off hs ((l ++ [p]) ++ r)
= head_off hs (l ++ [p])).
{ intros r. destruct l; reflexivity. }
destruct l2 as [|c r].
+ cbn [NULL Z.eqb andb negb]. rewrite app_nil_r in *.
split; [|split].
* change 0 with (u32 0) at 2. unfold WSIZE.
apply seg_set_succ with (n := bp - hs); assumption.
* rewrite GET_PUT_other by (unfold WSIZE; lia).
rewrite Hroot. apply (Hhead [bp]).
* intros a Ha Hb. specialize (Hb p Hinp).
apply GET_PUT_other. unfold WSIZE. lia.
+ assert (Hinc : In c ((l ++ [p]) ++ c :: r)).
{ apply in_or_app. right. left. reflexivity. }
destruct (Hok' c Hinc) as [Hc Hrc].
rewrite (okp_nonnull hs c Hhs Hc). cbn [NULL Z.eqb andb negb].
rewrite (get_offset_off hs c Hhs Hc), (get_offset_off hs p Hhs Hp).
assert (Hpc : p + 16 <= c \/ c + 16 <= p).
{ destruct (Hsp' p c Hinp Hinc) as [->|]; [|assumption].
exfalso. eapply (NoDup_app_disj (l ++ [c]) (c :: r)); [exact Hnd'| |].
- apply in_or_app. right. left. reflexivity.
- left. reflexivity. }
unfold WSIZE.
split; [|split].
* apply seg_app. split.
-- simpl first_off. apply seg_PUT_other.
 ++ intros b Hb.
assert (Hb' : In b ((l ++ [p]) ++ c :: r))
by (apply in_or_app; auto).
destruct (Hsp' b c Hb' Hinc) as [->|]; [|lia].
exfalso. eapply (NoDup_app_disj (l ++ [p]) (c :: r));
[exact Hnd'|exact Hb|left; reflexivity].
 ++ replace (c - hs) with (u32 (c - hs)) at 2
by (apply u32_small; destruct Hc as (A & B & C); lia).
apply seg_set_succ with (n := bp - hs).
** eapply spaced_incl; [|exact Hsp'].
 intros x Hx. apply in_or_app. auto.
** eapply NoDup_app_remove_r. exact Hnd'.
** exact S1.
-- rewrite last_off_app. simpl last_off.
 replace (p - hs) with (u32 (p - hs)) at 2
 by (apply u32_small; destruct Hp as (A & B & C); lia).
 apply seg_set_pred with (p := bp - hs).
 ++ eapply spaced_incl; [|exact Hsp'].
intros x Hx. apply in_or_app. auto.
 ++ eapply NoDup_app_remove_l. exact Hnd'.
 ++ apply seg_PUT_other; [|].
** intros b Hb.
 assert (Hb' : In b ((l ++ [p]) ++ c :: r))
 by (apply in_or_app; auto).
 destruct (Hsp' p b Hinp Hb') as [->|]; [|lia].
 exfalso. eapply (NoDup_app_disj (l ++ [b]) (c :: r));
 [exact Hnd'| |exact Hb].
 apply in_or_app. right. left. reflexivity.
** exact S4.
* rewrite !GET_PUT_other by lia. rewrite Hroot.
rewrite !Hhead. reflexivity.
* intros a Ha Hb.
pose proof (Hb p Hinp). pose proof (Hb c Hinc).
rewrite !GET_PUT_other by lia. reflexivity.
Qed.
End DelList.

Lemma seg_set_pred_eq m hs p p' q b r n :
  u32 p' = q -> spaced (b :: r) -> NoDup (b :: r) ->
  seg m hs p (b :: r) n -> seg (PUT m b p') hs q (b :: r) n.
Proof. intros <-. apply seg_set_pred. Qed.

Section AddStart.
Variables (s : state) (bp : Z) (l : list Z).
Let m := mem s.
Let hs := heap_start s.
Let ra := root_addr (heap_listp s) (get_list (GET_SIZE m (HDRP bp))).
Hypothesis Hhs : 0 <= hs.
Hypothesis Hseg : seg m hs 0 l 0.
Hypothesis Hroot : GET m ra = head_off hs l.
Hypothesis Hok : forall b, In b (bp :: l) -> okp hs b /\ ra + 4 <= b.
Hypothesis Hsp : spaced (bp :: l).
Hypothesis Hnd : NoDup (bp :: l).

Let m' := mem (add_start s bp).

Lemma add_start_mem :
seg m' hs 0 (bp :: l) 0 /\
GET m' ra = bp - hs /\
(forall a, a + 4 <= ra \/ ra + 4 <= a ->
 (forall b, In b (bp :: l) -> a + 4 <= b \/ b + 8 <= a) ->
 GET m' a = GET m a).
Proof.
unfold m', add_start. cbv zeta. cbn [mem set_mem].
fold m. fold hs. fold ra. rewrite Hroot.
destruct (Hok bp (or_introl eq_refl)) as [Hbp Hrb].
rewrite (get_offset_off hs bp Hhs Hbp).
assert (Ubp : u32 (bp - hs) = bp - hs)
by (apply u32_small; destruct Hbp as (A & B & C); lia).
unfold WSIZE.
destruct l as [|c r].
- cbn [head_off get_addr Z.eqb NULL get_offset].
split; [|split].
+ apply seg_unfold. split; [|split].
* rewrite GET_PUT_other by lia. apply GET_PUT_same.
* apply GET_PUT_same.
* exact I.
+ rewrite !GET_PUT_other by lia. rewrite GET_PUT_same. exact Ubp.
+ intros a Ha Hb. specialize (Hb bp (or_introl eq_refl)).
rewrite !GET_PUT_other by lia. reflexivity.
- destruct (Hok c (or_intror (or_introl eq_refl))) as [Hc Hrc].
cbn [head_off]. rewrite (get_addr_off hs c Hc).
rewrite (okp_nonnull hs c Hhs Hc).
rewrite (get_offset_off hs c Hhs Hc).
assert (Uc : u32 (c - hs) = c - hs)
by (apply u32_small; destruct Hc as (A & B & C); lia).
assert (Hbc : bp + 16 <= c \/ c + 16 <= bp).
{ destruct (Hsp bp c) as [->|]; [left; reflexivity
|right; left; reflexivity| |assumption].
apply NoDup_cons_iff in Hnd. destruct Hnd as [Hn _].
exfalso. apply Hn. left. reflexivity. }
split; [|split].
+ apply seg_unfold. split; [|split].
* rewrite !GET_PUT_other by lia. apply GET_PUT_same.
* rewrite GET_PUT_other by lia. rewrite GET_PUT_same. exact Uc.
* apply seg_set_pred_eq with (p := 0); [exact Ubp| | |].
-- eapply spaced_incl; [|exact Hsp]. intros x Hx. right. exact Hx.
-- apply NoDup_cons_iff in Hnd. apply Hnd.
-- assert (F : forall b, In b (c :: r) -> bp + 16 <= b \/ b + 16 <= bp).
 { intros b Hb. destruct (Hsp bp b) as [->|]; [left; reflexivity
 |right; exact Hb| |assumption].
 apply NoDup_cons_iff in Hnd. destruct Hnd as [Hn _].
 contradiction. }
 apply seg_PUT_other;
 [intros b Hb; specialize (F b Hb); lia|].
 apply seg_PUT_other;
 [intros b Hb; specialize (F b Hb); lia|].
 apply seg_PUT_other; [|exact Hseg].
 intros b Hb. destruct (Hok b (or_intror Hb)). lia.
+ rewrite !GET_PUT_other by lia. rewrite GET_PUT_same. exact Ubp.
+ intros a Ha Hb.
pose proof (Hb bp (or_introl eq_refl)).
pose proof (Hb c (or_intror (or_introl eq_refl))).
rewrite !GET_PUT_other by lia. reflexivity.
Qed.
End AddStart.

(** ** Consequences of the representation *)

Section RepFacts.
Variables (s : state) (bl : list blk) (epa : bool) (fl : Z -> list Z).
Hypothesis R : Rep s bl epa fl.
Let m := mem s.
Let hs := heap_start s.
Let H0 := first_hdr hs.

Lemma rep_total : 0 <= total bl /\ H0 + total bl + 4 <= hs + two32 - 1
/\ H0 + total bl + 4 < two64.
Proof.
pose proof (total_nonneg bl (rep_sizes _ _ _ _ R)).
pose proof (rep_brk _ _ _ _ R). pose proof (rep_max _ _ _ _ R).
pose proof (rep_fit _ _ _ _ R). pose proof (rep_64 _ _ _ _ R).
unfold H0, hs. lia.
Qed.

Lemma rep_in h b :
In (h, b) (layout H0 bl) ->
H0 <= h /\ h + bsz b <= H0 + total bl /\ size_wf b /\ size_ok (bsz b).
Proof.
intros Hin.
destruct (layout_bounds _ _ _ _ (rep_sizes _ _ _ _ R) Hin) as (A & B & C).
pose proof rep_total as (T1 & T2 & T3).
pose proof (rep_hs _ _ _ _ R).
repeat split; try assumption; try apply C;
destruct C; unfold H0, first_hdr, hs in *; lia.
Qed.

Lemma rep_hdr h b :
In (h, b) (layout H0 bl) ->
GET m h = hdr (bsz b) (is_alloc (bkind b)) (bpa b) /\
GET_SIZE m h = bsz b /\
GET_ALLOC m h = (if is_alloc (bkind b) then 1 else 0) /\
GET_PREV_ALLOC m h = (if bpa b then 2 else 0).
Proof.
intros Hin. destruct (rep_in h b Hin) as (_ & _ & _ & Hok).
destruct (rep_blocks _ _ _ _ R h b Hin) as [Hh _].
unfold GET_SIZE, GET_ALLOC, GET_PREV_ALLOC. fold m in Hh. rewrite Hh.
rewrite hdr_size, hdr_alloc, hdr_prev_alloc by exact Hok. auto.
Qed.

Lemma rep_ftr h b :
In (h, b) (layout H0 bl) -> bkind b <> KA ->
GET m (h + bsz b - 4) = hdr (bsz b) false (bpa b) /\
GET_SIZE m (h + bsz b - 4) = bsz b.
Proof.
intros Hin Hk. destruct (rep_in h b Hin) as (_ & _ & _ & Hok).
destruct (rep_blocks _ _ _ _ R h b Hin) as [_ Hf].
specialize (Hf Hk). fold m in Hf. unfold GET_SIZE. rewrite Hf.
rewrite hdr_size by exact Hok. auto.
Qed.

Lemma rep_okp h b :
In (h, b) (layout H0 bl) ->
okp hs (h + 4) /\
forall i, 0 <= i < 20 -> root_addr (heap_listp s) i + 4 <= h.
Proof.
intros Hin. destruct (rep_in h b Hin) as (A & B & (C1 & C2) & D).
pose proof rep_total as (T1 & T2 & T3).
pose proof (rep_hs _ _ _ _ R) as Hhs. fold hs in Hhs.
split.
- unfold okp, H0, first_hdr in *. lia.
- intros i Hi. rewrite (rep_hl _ _ _ _ R). fold hs.
unfold root_addr, WSIZE, H0, first_hdr in *. lia.
Qed.

Lemma rep_spaced h1 b1 h2 b2 :
In (h1, b1) (layout H0 bl) -> In (h2, b2) (layout H0 bl) ->
(h1 = h2 /\ b1 = b2) \/ h1 + 16 <= h2 \/ h2 + 16 <= h1.
Proof.
intros I1 I2.
destruct (rep_in _ _ I1) as (_ & _ & (A1 & _) & _).
destruct (rep_in _ _ I2) as (_ & _ & (A2 & _) & _).
destruct (layout_sep _ _ _ _ _ _ (rep_sizes _ _ _ _ R) I1 I2)
as [E|[E|E]]; [left; exact E|right; left; lia|right; right; lia].
Qed.

Lemma rep_fl_in i bp :
In bp (fl i) ->
exists b, In (bp - 4, b) (layout H0 bl) /\ bkind b = KF
/\ get_list (bsz b) = i /\ 0 <= i < 20.
Proof.
intros Hin. apply (rep_listed _ _ _ _ R) in Hin.
destruct Hin as (b & I & K & G). exists b. repeat split; try assumption.
- destruct (rep_in _ _ I) as (_ & _ & (A & _) & _).
pose proof (get_list_range (bsz b) A) as Hr. lia.
- destruct (rep_in _ _ I) as (_ & _ & (A & _) & _).
pose proof (get_list_range (bsz b) A) as Hr. lia.
Qed.

Lemma rep_fl_okp i bp :
In bp (fl i) ->
okp hs bp /\ forall j, 0 <= j < 20 -> root_addr (heap_listp s) j + 4 <= bp.
Proof.
intros Hin. destruct (rep_fl_in i bp Hin) as (b & I & _).
destruct (rep_okp _ _ I) as [A B].
replace (bp - 4 + 4) with bp in A by lia. split; [exact A|].
intros j Hj. specialize (B j Hj). lia.
Qed.

Lemma rep_fl_spaced i j b c :
In b (fl i) -> In c (fl j) ->
(b = c /\ i = j) \/ b + 16 <= c \/ c + 16 <= b.
Proof.
intros Hb Hc.
destruct (rep_fl_in i b Hb) as (x & Ix & _ & Gx & _).
destruct (rep_fl_in j c Hc) as (y & Iy & _ & Gy & _).
destruct (rep_spaced _ _ _ _ Ix Iy) as [[E1 E2]|[E|E]].
- left. subst y. split; [lia|congruence].
- right. left. lia.
- right. right. lia.
Qed.

Lemma rep_fl_spaced_list i : spaced (fl i).
Proof.
intros b c Hb Hc.
destruct (rep_fl_spaced i i b c Hb Hc) as [[E _]|E]; auto.
Qed.

Lemma rep_empty_class i : ~ 0 <= i < 20 -> fl i = [].
Proof.
intros Hi. destruct (fl i) as [|b r] eqn:E; [reflexivity|].
exfalso. apply Hi.
destruct (rep_fl_in i b) as (_ & _ & _ & _ & H); [rewrite E; left; auto|].
exact H.
Qed.
End RepFacts.

(** ** Linking and unlinking a block *)

Lemma set_mem_eta s : set_mem s (mem s) = s.
Proof. destruct s; reflexivity. Qed.

Lemma layout_in_mid h pre X post h1 b1 :
  In (h1, b1) (layout h (pre ++ X :: post)) <->
  In (h1, b1) (layout h pre) \/ (h1 = h + total pre /\ b1 = X)
  \/ In (h1, b1) (layout (h + total pre + bsz X) post).
Proof.
  rewrite layout_in_app. simpl. split.
  - intros [H|[H|H]]; auto. inversion H; subst. auto.
  - intros [H|[[-> ->]|H]]; auto.
Qed.

Lemma is_KA_mid h0 pre X post bp sz :
  is_KA h0 (pre ++ X :: post) bp sz <->
  is_KA h0 pre bp sz
  \/ (bp - 4 = h0 + total pre /\ bkind X = KA /\ bsz X = sz)
  \/ is_KA (h0 + total pre + bsz X) post bp sz.
Proof.
  unfold is_KA. split.
  - intros (b & I & K & S). apply layout_in_mid in I.
    destruct I as [I|[[E1 E2]|I]]; [left|right; left|right; right]; eauto.
    subst. auto.
  - intros [(b & I & K & S)|[(E & K & S)|(b & I & K & S)]].
    + exists b. split; [apply layout_in_mid; auto|auto].
    + exists X. split; [apply layout_in_mid; auto|auto].
    + exists b. split; [apply layout_in_mid; auto|auto].
Qed.

Lemma is_KA_rekind h0 pre X k post p sz :
  k <> KA ->
  p - 4 <> h0 + total pre ->
  is_KA h0 (pre ++ X :: post) p sz ->
  is_KA h0 (pre ++ set_kind X k :: post) p sz.
Proof.
  intros Hk Hp H. apply is_KA_mid in H. apply is_KA_mid.
  destruct H as [H|[(E & _)|H]]; [auto|contradiction|auto].
Qed.

Lemma is_KA_rekind_free h0 pre X k post p sz :
  bkind X <> KA ->
  is_KA h0 (pre ++ X :: post) p sz ->
  is_KA h0 (pre ++ set_kind X k :: post) p sz.
Proof.
  intros Hk H. apply is_KA_mid in H. apply is_KA_mid.
  destruct H as [H|[(_ & K & _)|H]]; [auto|contradiction|auto].
Qed.

(** *** Payloads that a step leaves alone *)

Lemma keeps_refl h0 bl m : keeps h0 bl m m.
Proof. split; [intros q sz _ a _ _|intros a _]; reflexivity. Qed.

Lemma keeps_trans h0 bl m1 m2 m3 :
  keeps h0 bl m1 m2 -> keeps h0 bl m2 m3 -> keeps h0 bl m1 m3.
Proof.
  intros [A1 A2] [B1 B2]. split.
  - intros q sz K a H1 H2.
    rewrite (B1 q sz K a H1 H2). exact (A1 q sz K a H1 H2).
  - intros a Ha. rewrite (B2 a Ha). exact (A2 a Ha).
Qed.

Lemma keeps_mono h0 bl bl' m m' :
  (forall q sz, is_KA h0 bl q sz -> is_KA h0 bl' q sz) ->
  keeps h0 bl' m m' -> keeps h0 bl m m'.
Proof.
  intros I [A1 A2]. split; [|exact A2].
  intros q sz K. apply (A1 q sz). apply I. exact K.
Qed.

(** A step that writes only inside a stretch of blocks none of which is
    allocated, or into the header word that follows the stretch. *)
Lemma keeps_outside h0 pre mid post m m' :
  Forall size_wf (pre ++ mid ++ post) ->
  Forall (fun b => bkind b <> KA) mid ->
  (forall a, a + 4 <= h0 + total pre \/ h0 + total pre + total mid + 4 <= a ->
             GET m' a = GET m a) ->
  keeps h0 (pre ++ mid ++ post) m m'.
Proof.
  intros W Hm F.
  apply Forall_app in W. destruct W as [W1 W].
  apply Forall_app in W. destruct W as [W2 W3].
  split; [|intros a Ha; apply F; pose proof (total_nonneg _ W1); lia].
  intros q sz (b & I & K & S) a H1 H2. apply F.
  apply layout_in_app in I. destruct I as [I|I].
  - destruct (layout_bounds _ _ _ _ W1 I) as (_ & B & _). lia.
  - apply layout_in_app in I. destruct I as [I|I].
    + exfalso. rewrite Forall_forall in Hm. apply (Hm b); [|exact K].
      clear - I. revert I. generalize (h0 + total pre).
      induction mid as [|y r IH]; simpl; intros h I; [contradiction|].
      destruct I as [E|I]; [inversion E; auto|right; eapply IH; eauto].
    + destruct (layout_bounds _ _ _ _ W3 I) as (B & _). lia.
Qed.

Section Relist.
Variables (s : state) (pre : list blk) (X : blk) (post : list blk).
Variables (epa : bool) (fl : Z -> list Z).
Variables (k' : kind) (m' : memory) (L' : list Z).
Hypothesis R : Rep s (pre ++ X :: post) epa fl.
Hypothesis HkX : bkind X <> KA.
Hypothesis Hk' : k' <> KA.
Let m := mem s.
Let hs := heap_start s.
Let H0 := first_hdr hs.
Let hX := H0 + total pre.
Let bp := hX + 4.
Let i := get_list (bsz X).
Let ra := root_addr (heap_listp s) i.
Hypothesis Hseg : seg m' hs 0 L' 0.
Hypothesis Hroot : GET m' ra = head_off hs L'.
Hypothesis Hframe : forall a,
a + 4 <= ra \/ ra + 4 <= a ->
(forall b, In b (bp :: fl i) -> a + 4 <= b \/ b + 8 <= a) ->
GET m' a = GET m a.
Hypothesis HL : forall c,
In c L' <-> (In c (fl i) /\ c <> bp) \/ (c = bp /\ k' = KF).
Hypothesis Hnd : NoDup L'.

Let InX : In (hX, X) (layout H0 (pre ++ X :: post)).
Proof. apply layout_mid. Qed.

Let Hi : 0 <= i < 20.
Proof.
destruct (rep_in _ _ _ _ R _ _ InX) as (_ & _ & (A & _) & _).
pose proof (get_list_range (bsz X) A) as Hr.
unfold i. lia.
Qed.

(** Every link word that may change lies inside some block, past its
header and before its footer. *)
Let link_in_block b :
In b (bp :: fl i) -> exists x, In (b - 4, x) (layout H0 (pre ++ X :: post)).
Proof.
intros [<-|Hb].
- exists X. unfold bp. replace (hX + 4 - 4) with hX by lia. exact InX.
- destruct (rep_fl_in _ _ _ _ R i b Hb) as (x & Ix & _). exists x. exact Ix.
Qed.

Let frame_blk h b :
In (h, b) (layout H0 (pre ++ X :: post)) ->
GET m' h = GET m h /\ GET m' (h + bsz b - 4) = GET m (h + bsz b - 4).
Proof.
intros Hin.
destruct (rep_in _ _ _ _ R _ _ Hin) as (A & B & (C1 & C2) & D).
destruct (rep_okp _ _ _ _ R _ _ Hin) as [_ Hr]. specialize (Hr i Hi).
fold ra in Hr.
split; apply Hframe; try lia; intros c Hc;
destruct (link_in_block c Hc) as (x & Ix);
destruct (rep_in _ _ _ _ R _ _ Ix) as (_ & _ & (X1 & _) & _);
destruct (layout_sep _ _ _ _ _ _ (rep_sizes _ _ _ _ R) Hin Ix)
as [[E1 E2]|[E|E]]; try subst x; lia.
Qed.

Let frame_epi :
GET m' (H0 + total (pre ++ X :: post))
= GET m (H0 + total (pre ++ X :: post)).
Proof.
destruct (rep_okp _ _ _ _ R _ _ InX) as [_ Hr]. specialize (Hr i Hi).
fold ra in Hr.
destruct (rep_in _ _ _ _ R _ _ InX) as (A & B & (C1 & C2) & D).
apply Hframe; [unfold hX, H0, hs in *; lia|]. intros c Hc.
destruct (link_in_block c Hc) as (x & Ix).
destruct (rep_in _ _ _ _ R _ _ Ix) as (_ & Bx & (X1 & _) & _).
unfold hX, H0, hs in *; lia.
Qed.

Ltac ulia := unfold bp, hX, H0, hs in *; lia.

Lemma Rep_relist :
Rep (set_mem s m') (pre ++ set_kind X k' :: post) epa
(fun j => if j =? i then L' else fl j).
Proof.
assert (Tot : total (pre ++ set_kind X k' :: post)
= total (pre ++ X :: post))
by (rewrite !total_app; reflexivity).
constructor; cbn [heap_listp heap_start mem mem_brk mem_max_addr set_mem];
try rewrite Tot.
- apply (rep_hl _ _ _ _ R).
- apply (rep_hs _ _ _ _ R).
- apply (rep_brk _ _ _ _ R).
- apply (rep_max _ _ _ _ R).
- apply (rep_fit _ _ _ _ R).
- apply (rep_64 _ _ _ _ R).
- pose proof (rep_sizes _ _ _ _ R) as W.
apply Forall_app in W. destruct W as [W1 W2].
apply Forall_app. split; [exact W1|].
inversion W2; subst. constructor; assumption.
- intros h b Hin. fold hs H0 in Hin |- *.
apply layout_in_mid in Hin. cbn [bsz set_kind] in Hin.
assert (Hold : forall b0, In (h, b0) (layout H0 (pre ++ X :: post)) ->
(b = b0 \/ (b0 = X /\ b = set_kind X k')) -> blk_at m' h b).
{ intros b0 I0 Hb.
destruct (frame_blk h b0 I0) as [F1 F2].
destruct (rep_blocks _ _ _ _ R h b0 I0) as [B1 B2].
fold m in B1, B2.
destruct Hb as [->|[-> ->]].
- split; [congruence|]. intros K. rewrite F2. auto.
- split; cbn [bsz bkind bpa set_kind].
+ rewrite F1, B1. destruct (bkind X), k'; try contradiction;
reflexivity.
+ intros _. rewrite F2. apply B2. exact HkX. }
destruct Hin as [Hin|[[-> ->]|Hin]].
+ apply (Hold b); [|auto]. apply layout_in_mid. auto.
+ apply (Hold X); [exact InX|auto].
+ apply (Hold b); [|auto]. apply layout_in_mid. auto.
- fold hs H0. rewrite frame_epi. apply (rep_epi _ _ _ _ R).
- intros j Hj. cbv beta.
destruct (Z.eqb_spec j i) as [->|Hne].
+ exact Hroot.
+ rewrite <- (rep_roots _ _ _ _ R j Hj). apply Hframe.
* unfold ra, root_addr, WSIZE. ulia.
* intros c Hc. destruct (link_in_block c Hc) as (x & Ix).
destruct (rep_okp _ _ _ _ R _ _ Ix) as [_ Hr].
specialize (Hr j Hj). ulia.
- intros j Hj. fold hs. cbv beta.
destruct (Z.eqb_spec j i) as [->|Hne].
+ exact Hseg.
+ apply seg_frame with (m := m); [|apply (rep_chain _ _ _ _ R j Hj)].
intros c Hc.
destruct (rep_fl_in _ _ _ _ R j c Hc) as (y & Iy & Ky & Gy & _).
destruct (rep_okp _ _ _ _ R _ _ Iy) as [_ Hr]. specialize (Hr i Hi).
fold ra in Hr.
assert (Sp : forall b, In b (bp :: fl i) -> c + 16 <= b \/ b + 16 <= c).
{ intros b Hb. destruct (link_in_block b Hb) as (x & Ix).
destruct (rep_spaced _ _ _ _ R _ _ _ _ Iy Ix) as [[E1 E2]|E];
[|ulia].
exfalso. assert (b = c) by ulia. subst b x.
destruct Hb as [Hb|Hb].
- assert (c - 4 = hX) by ulia.
destruct (layout_sep _ _ _ _ _ _ (rep_sizes _ _ _ _ R) Iy InX)
as [[_ E]|[E|E]].
+ subst y. apply Hne. symmetry. exact Gy.
+ destruct (rep_in _ _ _ _ R _ _ Iy) as (_ & _ & (A & _) & _). ulia.
+ destruct (rep_in _ _ _ _ R _ _ InX) as (_ & _ & (A & _) & _). ulia.
- destruct (rep_fl_spaced _ _ _ _ R j i c c Hc Hb) as [[_ E]|E];
[contradiction|ulia]. }
split; apply Hframe; try ulia;
intros b Hb; specialize (Sp b Hb); ulia.
- intros j c. fold hs H0. cbv beta. split.
+ intros Hin.
assert (Hc : In c (fl j) /\ c <> bp \/ (c = bp /\ k' = KF /\ j = i)).
{ destruct (Z.eqb_spec j i) as [->|Hne].
- apply HL in Hin. tauto.
- left. split; [exact Hin|]. intros ->.
destruct (rep_fl_in _ _ _ _ R j bp Hin) as (y & Iy & Ky & Gy & _).
unfold bp in Iy. replace (hX + 4 - 4) with hX in Iy by ulia.
destruct (layout_sep _ _ _ _ _ _ (rep_sizes _ _ _ _ R) Iy InX)
as [[_ E]|[E|E]].
+ subst y. apply Hne. symmetry. exact Gy.
+ destruct (rep_in _ _ _ _ R _ _ Iy) as (_ & _ & (A & _) & _). ulia.
+ destruct (rep_in _ _ _ _ R _ _ InX) as (_ & _ & (A & _) & _). ulia. }
destruct Hc as [[Hc Hn]|(-> & -> & ->)].
* destruct (rep_fl_in _ _ _ _ R j c Hc) as (y & Iy & Ky & Gy & _).
exists y. split; [|auto].
apply layout_in_mid in Iy. apply layout_in_mid. cbn [bsz set_kind].
destruct Iy as [Iy|[[E _]|Iy]]; auto.
exfalso. apply Hn. ulia.
* exists (set_kind X KF). split; [|auto].
apply layout_in_mid. right. left. split; [ulia|auto].
+ intros (y & Iy & Ky & Gy).
apply layout_in_mid in Iy. cbn [bsz set_kind] in Iy.
assert (Hold : In (c - 4, y) (layout H0 (pre ++ X :: post)) ->
 c - 4 <> hX ->
 In c (if j =? i then L' else fl j)).
{ intros I0 Hne.
assert (In c (fl j)).
{ apply (rep_listed _ _ _ _ R). exists y. auto. }
destruct (Z.eqb_spec j i) as [->|_]; [|assumption].
apply HL. left. split; [assumption|]. unfold bp. ulia. }
destruct Iy as [Iy|[[E1 E2]|Iy]].
* apply Hold; [apply layout_in_mid; auto|].
pose proof (rep_sizes _ _ _ _ R) as W.
apply Forall_app in W. destruct W as [W1 _].
destruct (layout_bounds _ _ _ _ W1 Iy) as (_ & B & (C & _)).
unfold hX. ulia.
* subst y. cbn [bkind set_kind bsz] in Ky, Gy. subst k'.
fold i in Gy. subst j. rewrite Z.eqb_refl.
apply HL. right. split; [ulia|reflexivity].
* apply Hold; [apply layout_in_mid; auto|].
pose proof (rep_sizes _ _ _ _ R) as W.
apply Forall_app in W. destruct W as [_ W2].
inversion W2 as [|? ? [W3 _] W4]; subst.
destruct (layout_bounds _ _ _ _ W4 Iy) as (A & _).
unfold hX in *. ulia.
- intros j. cbv beta. destruct (j =? i); [exact Hnd|apply (rep_nodup _ _ _ _ R)].
Qed.

Lemma relist_keeps : keeps H0 (pre ++ X :: post) m m'.
Proof.
split.
2:{ intros a Ha. pose proof (rep_hl _ _ _ _ R) as Hl.
apply Hframe.
- unfold ra, root_addr, WSIZE. unfold H0, first_hdr, hs in Ha. lia.
- intros c Hc. destruct (link_in_block c Hc) as (x & Ix).
destruct (layout_bounds _ _ _ _ (rep_sizes _ _ _ _ R) Ix) as (B & _).
lia. }
intros q sz (b & Ib & Kb & Sb) a H1 H2.
destruct (rep_okp _ _ _ _ R _ _ Ib) as [_ Hr]. specialize (Hr i Hi).
fold ra in Hr.
apply Hframe; [lia|]. intros c Hc.
destruct (link_in_block c Hc) as (x & Ix).
assert (Kx : bkind x <> KA).
{ destruct Hc as [<-|Hc].
- destruct (layout_sep _ _ _ _ _ _ (rep_sizes _ _ _ _ R) Ix InX)
as [[_ E]|[E|E]].
+ subst x. exact HkX.
+ destruct (rep_in _ _ _ _ R _ _ Ix) as (_ & _ & (A & _) & _). ulia.
+ destruct (rep_in _ _ _ _ R _ _ InX) as (_ & _ & (A & _) & _). ulia.
- destruct (rep_fl_in _ _ _ _ R i c Hc) as (y & Iy & Ky & _).
destruct (layout_sep _ _ _ _ _ _ (rep_sizes _ _ _ _ R) Ix Iy)
as [[_ E]|[E|E]].
+ subst x. rewrite Ky. discriminate.
+ destruct (rep_in _ _ _ _ R _ _ Ix) as (_ & _ & (A & _) & _). lia.
+ destruct (rep_in _ _ _ _ R _ _ Iy) as (_ & _ & (A & _) & _). lia. }
destruct (rep_in _ _ _ _ R _ _ Ix) as (_ & _ & (A & _) & _).
destruct (layout_sep _ _ _ _ _ _ (rep_sizes _ _ _ _ R) Ib Ix)
as [[_ E]|[E|E]]; [subst x; contradiction|lia|lia].
Qed.

Lemma relist_full :
Rep (set_mem s m') (pre ++ set_kind X k' :: post) epa
(fun j => if j =? i then L' else fl j)
/\ keeps H0 (pre ++ X :: post) m m'.
Proof. split; [exact Rep_relist|exact relist_keeps]. Qed.
End Relist.

Lemma remove_mid (l1 l2 : list Z) x :
  NoDup (l1 ++ x :: l2) -> remove Z.eq_dec x (l1 ++ x :: l2) = l1 ++ l2.
Proof.
  intros H. apply NoDup_remove in H. destruct H as [_ Hn].
  rewrite remove_app. simpl. destruct (Z.eq_dec x x); [|contradiction].
  rewrite !notin_remove; [reflexivity| |]; intros Hi; apply Hn;
    apply in_or_app; auto.
Qed.

Section Unlink.
Variables (s : state) (pre : list blk) (X : blk) (post : list blk).
Variables (epa : bool) (fl : Z -> list Z).
Hypothesis R : Rep s (pre ++ X :: post) epa fl.
Let hs := heap_start s.
Let bp := first_hdr hs + total pre + 4.
Let i := get_list (bsz X).

Let InX : In (bp - 4, X) (layout (first_hdr hs) (pre ++ X :: post)).
Proof.
unfold bp. replace (first_hdr hs + total pre + 4 - 4)
with (first_hdr hs + total pre) by lia.
apply layout_mid.
Qed.

Lemma block_size_read : GET_SIZE (mem s) (HDRP bp) = bsz X.
Proof.
destruct (rep_hdr _ _ _ _ R _ _ InX) as (_ & H & _). exact H.
Qed.

Lemma unlisted_not_in : bkind X <> KF -> forall j, ~ In bp (fl j).
Proof.
intros HK j Hin.
destruct (rep_fl_in _ _ _ _ R j bp Hin) as (y & Iy & Ky & _).
destruct (layout_sep _ _ _ _ _ _ (rep_sizes _ _ _ _ R) Iy InX)
as [[_ E]|[E|E]].
- subst y. contradiction.
- destruct (rep_in _ _ _ _ R _ _ Iy) as (_ & _ & (A & _) & _). lia.
- destruct (rep_in _ _ _ _ R _ _ InX) as (_ & _ & (A & _) & _). lia.
Qed.

Lemma del_list_full :
bkind X = KF ->
Rep (del_list s bp) (pre ++ set_kind X KU :: post) epa
(fun j => if j =? i then remove Z.eq_dec bp (fl i) else fl j)
/\ keeps (first_hdr hs) (pre ++ X :: post) (mem s) (mem (del_list s bp)).
Proof.
intros HK.
assert (Hin : In bp (fl i)).
{ apply (rep_listed _ _ _ _ R). exists X. auto. }
destruct (in_split _ _ Hin) as (l1 & l2 & E).
pose proof (rep_nodup _ _ _ _ R i) as Hnd. rewrite E in Hnd.
rewrite E, (remove_mid _ _ _ Hnd).
destruct (rep_fl_in _ _ _ _ R i bp Hin) as (_ & _ & _ & _ & Hi).
pose proof (del_list_mem s bp l1 l2) as D.
rewrite block_size_read in D. fold i in D. fold hs in D.
destruct D as (D1 & D2 & D3).
- apply (rep_hs _ _ _ _ R).
- rewrite <- E. apply (rep_chain _ _ _ _ R i Hi).
- rewrite <- E. apply (rep_roots _ _ _ _ R i Hi).
- rewrite <- E. intros b Hb.
destruct (rep_fl_okp _ _ _ _ R i b Hb) as [A B]. split; [exact A|].
apply B. exact Hi.
- rewrite <- E. apply (rep_fl_spaced_list _ _ _ _ R).
- exact Hnd.
- replace (del_list s bp) with (set_mem s (mem (del_list s bp)))
by reflexivity.
apply relist_full; try assumption; try (rewrite HK; discriminate);
try discriminate.
+ fold hs bp i. intros a Ha Hb. apply D3; [exact Ha|].
intros b Hb'. apply Hb. right. rewrite E.
apply in_app_or in Hb'. apply in_or_app. simpl. tauto.
+ fold hs bp i. intros c. rewrite E. split.
* intros Hc. left. split.
-- apply in_app_or in Hc. apply in_or_app. simpl. tauto.
-- intros ->. apply NoDup_remove_2 in Hnd. contradiction.
* intros [[Hc Hn]|[_ Hf]]; [|discriminate].
apply in_app_or in Hc. apply in_or_app. simpl in Hc.
destruct Hc as [Hc|[Hc|Hc]]; auto. congruence.
+ eapply NoDup_remove_1. exact Hnd.
Qed.

Lemma Rep_del_list :
bkind X = KF ->
Rep (del_list s bp) (pre ++ set_kind X KU :: post) epa
(fun j => if j =? i then remove Z.eq_dec bp (fl i) else fl j).
Proof. intros HK. exact (proj1 (del_list_full HK)). Qed.

Lemma add_start_full :
bkind X = KU ->
Rep (add_start s bp) (pre ++ set_kind X KF :: post) epa
(fun j => if j =? i then bp :: fl i else fl j)
/\ keeps (first_hdr hs) (pre ++ X :: post) (mem s) (mem (add_start s bp)).
Proof.
intros HK.
assert (Hnin : ~ In bp (fl i)).
{ apply unlisted_not_in. rewrite HK. discriminate. }
destruct (rep_in _ _ _ _ R _ _ InX) as (_ & _ & (Sz & _) & _).
assert (Hi : 0 <= i < 20).
{ pose proof (get_list_range (bsz X) Sz) as Hr.
unfold i. lia. }
assert (Hsp : spaced (bp :: fl i)).
{ intros b c Hb Hc.
assert (Hblk : forall x, In x (bp :: fl i) ->
exists y, In (x - 4, y) (layout (first_hdr hs) (pre ++ X :: post))).
{ intros x [<-|Hx]; [exists X; exact InX|].
destruct (rep_fl_in _ _ _ _ R i x Hx) as (y & Iy & _). eauto. }
destruct (Hblk b Hb) as (y1 & I1). destruct (Hblk c Hc) as (y2 & I2).
destruct (rep_spaced _ _ _ _ R _ _ _ _ I1 I2) as [[E _]|E]; lia. }
pose proof (add_start_mem s bp (fl i)) as D.
rewrite block_size_read in D. fold i in D. fold hs in D.
destruct D as (D1 & D2 & D3).
- apply (rep_hs _ _ _ _ R).
- apply (rep_chain _ _ _ _ R i Hi).
- apply (rep_roots _ _ _ _ R i Hi).
- intros b [<-|Hb].
+ destruct (rep_okp _ _ _ _ R _ _ InX) as [A B].
replace (bp - 4 + 4) with bp in A by lia. split; [exact A|].
specialize (B i Hi). lia.
+ destruct (rep_fl_okp _ _ _ _ R i b Hb) as [A B]. split; [exact A|].
apply B. exact Hi.
- exact Hsp.
- constructor; [exact Hnin|apply (rep_nodup _ _ _ _ R)].
- replace (add_start s bp) with (set_mem s (mem (add_start s bp)))
by reflexivity.
apply relist_full; try assumption; try (rewrite HK; discriminate);
try discriminate.
+ fold hs bp i. intros c. simpl. split.
* intros [<-|Hc]; [right; auto|left]. split; [exact Hc|].
intros ->. contradiction.
* intros [[Hc _]|[-> _]]; auto.
+ constructor; [exact Hnin|apply (rep_nodup _ _ _ _ R)].
Qed.

Lemma Rep_add_start :
bkind X = KU ->
Rep (add_start s bp) (pre ++ set_kind X KF :: post) epa
(fun j => if j =? i then bp :: fl i else fl j).
Proof. intros HK. exact (proj1 (add_start_full HK)). Qed.
End Unlink.

(** ** Rewriting the headers of a stretch of unlinked blocks *)

Lemma layout_in_3 h pre mid post h1 b1 :
  In (h1, b1) (layout h (pre ++ mid ++ post)) <->
  In (h1, b1) (layout h pre)
  \/ In (h1, b1) (layout (h + total pre) mid)
  \/ In (h1, b1) (layout (h + total pre + total mid) post).
Proof. rewrite !layout_in_app. tauto. Qed.

Section Surgery.
Variables (s : state) (pre mid mid' post : list blk).
Variables (epa epa' : bool) (fl : Z -> list Z) (m' : memory).
Hypothesis R : Rep s (pre ++ mid ++ post) epa fl.
Hypothesis Hmid : Forall (fun b => bkind b <> KF) mid.
Hypothesis Hmid' : Forall (fun b => bkind b <> KF) mid'.
Hypothesis Htot : total mid' = total mid.
Hypothesis Hwf : Forall size_wf mid'.
Let m := mem s.
Let hs := heap_start s.
Let H0 := first_hdr hs.
Let lo := H0 + total pre.
Let hi := lo + total mid.
Let E := H0 + total (pre ++ mid ++ post).
Hypothesis Hblk : forall h b, In (h, b) (layout lo mid') -> blk_at m' h b.
Hypothesis Hepi : GET m' E = hdr 0 true epa'.
Hypothesis Hframe : forall a,
a + 4 <= lo \/ hi <= a -> a + 4 <= E \/ E + 4 <= a ->
GET m' a = GET m a.

Ltac ulia := unfold E, hi, lo, H0, hs in *; lia.

Let Wf : Forall size_wf pre /\ Forall size_wf mid /\ Forall size_wf post.
Proof.
pose proof (rep_sizes _ _ _ _ R) as W.
apply Forall_app in W. destruct W as [W1 W].
apply Forall_app in W. tauto.
Qed.

Let Etot : E = hi + total post.
Proof. unfold E. rewrite !total_app. ulia. Qed.

Let Tot' : total (pre ++ mid' ++ post) = total (pre ++ mid ++ post).
Proof. rewrite !total_app. lia. Qed.

(** Blocks outside the stretch keep their header and footer. *)
Let outside h b :
In (h, b) (layout H0 pre) \/ In (h, b) (layout hi post) ->
In (h, b) (layout H0 (pre ++ mid ++ post)) /\
GET m' h = GET m h /\ GET m' (h + bsz b - 4) = GET m (h + bsz b - 4) /\
GET m' (h + 4) = GET m (h + 4) /\ GET m' (h + 8) = GET m (h + 8).
Proof.
destruct Wf as (W1 & W2 & W3).
pose proof (total_nonneg _ W1). pose proof (total_nonneg _ W2).
pose proof (total_nonneg _ W3).
intros [Hin|Hin].
- split; [apply layout_in_3; auto|].
destruct (layout_bounds _ _ _ _ W1 Hin) as (A & B & (C & _)).
repeat split; apply Hframe; ulia.
- split; [apply layout_in_3; right; right; exact Hin|].
destruct (layout_bounds _ _ _ _ W3 Hin) as (A & B & (C & _)).
repeat split; apply Hframe; ulia.
Qed.

Let listed_outside c y :
In (c - 4, y) (layout H0 (pre ++ mid ++ post)) -> bkind y = KF ->
In (c - 4, y) (layout H0 pre) \/ In (c - 4, y) (layout hi post).
Proof.
intros Iy Ky. apply layout_in_3 in Iy. destruct Iy as [Iy|[Iy|Iy]]; auto.
exfalso. apply layout_split in Iy. destruct Iy as (p1 & p2 & Em & _).
rewrite Em in Hmid. apply Forall_app in Hmid. destruct Hmid as [_ Hm].
inversion Hm; subst. contradiction.
Qed.

Lemma Rep_surgery : Rep (set_mem s m') (pre ++ mid' ++ post) epa' fl.
Proof.
destruct Wf as (W1 & W2 & W3).
pose proof (total_nonneg _ W1). pose proof (total_nonneg _ W2).
pose proof (total_nonneg _ W3).
pose proof (rep_hs _ _ _ _ R) as Hhs.
constructor; cbn [heap_listp heap_start mem mem_brk mem_max_addr set_mem];
try rewrite Tot'.
- apply (rep_hl _ _ _ _ R).
- apply (rep_hs _ _ _ _ R).
- apply (rep_brk _ _ _ _ R).
- apply (rep_max _ _ _ _ R).
- apply (rep_fit _ _ _ _ R).
- apply (rep_64 _ _ _ _ R).
- apply Forall_app. split; [exact W1|]. apply Forall_app. auto.
- intros h b Hin. apply layout_in_3 in Hin. rewrite Htot in Hin.
destruct Hin as [Hin|[Hin|Hin]].
+ destruct (outside h b (or_introl Hin)) as (I0 & F1 & F2 & _).
destruct (rep_blocks _ _ _ _ R h b I0) as [B1 B2].
split; [rewrite F1; exact B1|]. intros K. rewrite F2. auto.
+ apply Hblk. exact Hin.
+ destruct (outside h b (or_intror Hin)) as (I0 & F1 & F2 & _).
destruct (rep_blocks _ _ _ _ R h b I0) as [B1 B2].
split; [rewrite F1; exact B1|]. intros K. rewrite F2. auto.
- exact Hepi.
- intros j Hj. rewrite <- (rep_roots _ _ _ _ R j Hj). apply Hframe.
+ rewrite (rep_hl _ _ _ _ R). unfold root_addr, WSIZE, first_hdr in *.
ulia.
+ rewrite (rep_hl _ _ _ _ R). unfold root_addr, WSIZE, first_hdr in *.
ulia.
- intros j Hj.
apply seg_frame with (m := m); [|apply (rep_chain _ _ _ _ R j Hj)].
intros c Hc.
destruct (rep_fl_in _ _ _ _ R j c Hc) as (y & Iy & Ky & _).
destruct (outside (c - 4) y (listed_outside c y Iy Ky))
as (_ & _ & _ & F3 & F4).
replace (c - 4 + 4) with c in F3 by lia.
replace (c - 4 + 8) with (c + 4) in F4 by lia. auto.
- intros j c. rewrite (rep_listed _ _ _ _ R j c).
split; intros (y & Iy & Ky & Gy); exists y; (split; [|auto]).
+ destruct (listed_outside c y Iy Ky) as [I|I]; apply layout_in_3;
[auto|right; right; rewrite Htot; exact I].
+ apply layout_in_3 in Iy. rewrite Htot in Iy.
destruct Iy as [Iy|[Iy|Iy]].
* apply layout_in_3. auto.
* exfalso. apply layout_split in Iy.
destruct Iy as (p1 & p2 & Em & _).
rewrite Em in Hmid'. apply Forall_app in Hmid'.
destruct Hmid' as [_ Hm]. inversion Hm; subst. contradiction.
* apply layout_in_3. auto.
- apply (rep_nodup _ _ _ _ R).
Qed.
End Surgery.

(** ** The header after a stretch, and merged blocks *)

Lemma size_ok_0 : size_ok 0.
Proof. unfold size_ok, two32. split; [lia|reflexivity]. Qed.

Section NextHeader.
Variables (s : state) (pre post : list blk) (epa : bool) (fl : Z -> list Z).
Hypothesis R : Rep s (pre ++ post) epa fl.
Let m := mem s.
Let hN := first_hdr (heap_start s) + total pre.

Lemma next_size_ok :
size_ok (match post with [] => 0 | Y :: _ => bsz Y end).
Proof.
destruct post as [|Y r]; [exact size_ok_0|].
assert (I : In (hN, Y) (layout (first_hdr (heap_start s)) (pre ++ Y :: r)))
by apply layout_mid.
apply (rep_in _ _ _ _ R _ _ I).
Qed.

Lemma next_read : GET m hN = next_word post (next_pa post epa).
Proof.
destruct post as [|Y r]; simpl.
- pose proof (rep_epi _ _ _ _ R) as H. rewrite total_app in H. simpl in H.
rewrite Z.add_0_r in H. exact H.
- assert (I : In (hN, Y) (layout (first_hdr (heap_start s)) (pre ++ Y :: r)))
by apply layout_mid.
apply (rep_hdr _ _ _ _ R _ _ I).
Qed.

Lemma next_alloc_read :
GET_ALLOC m hN = if next_is_alloc post then 1 else 0.
Proof.
unfold GET_ALLOC. rewrite next_read.
pose proof next_size_ok as Hs.
destruct post as [|Y r]; simpl; apply hdr_alloc; exact Hs.
Qed.

Lemma next_clear :
Z.land (GET m hN) NOT2 = next_word post false.
Proof.
rewrite next_read. pose proof next_size_ok as Hs.
destruct post as [|Y r]; simpl; apply hdr_clear_prev; exact Hs.
Qed.

Lemma next_set :
PACK (GET m hN) 2 = next_word post true.
Proof.
rewrite next_read. pose proof next_size_ok as Hs.
destruct post as [|Y r]; simpl; apply hdr_set_prev; exact Hs.
Qed.

Lemma next_word_range q : 0 <= next_word post q < two32.
Proof.
pose proof next_size_ok as Hs.
destruct post as [|Y r]; simpl; apply hdr_range; exact Hs.
Qed.

(** Rewriting the previous-allocated bit of the header that follows
[pre], when that header belongs to an allocated block or is the
epilogue. *)
Lemma Rep_next_pa q v :
next_is_alloc post = true -> u32 v = next_word post q ->
Rep (set_mem s (PUT m hN v)) (pre ++ set_next_pa q post)
(next_epa q post epa) fl.
Proof.
intros Ha Hv.
destruct post as [|Y r]; simpl in *.
- change (pre ++ []) with (pre ++ [] ++ []) in R |- *.
apply (Rep_surgery s pre [] [] [] epa q fl _ R).
+ constructor.
+ constructor.
+ reflexivity.
+ constructor.
+ intros h b [].
+ rewrite total_app. simpl. rewrite Z.add_0_r.
rewrite GET_PUT_same. exact Hv.
+ intros a _ Ha'. apply GET_PUT_other.
rewrite total_app in Ha'. simpl in Ha'. unfold hN. lia.
- change (pre ++ set_pa Y q :: r) with (pre ++ [set_pa Y q] ++ r).
change (pre ++ Y :: r) with (pre ++ [Y] ++ r) in R.
assert (I : In (hN, Y) (layout (first_hdr (heap_start s)) (pre ++ [Y] ++ r)))
by apply layout_mid.
destruct (rep_in _ _ _ _ R _ _ I) as (A & B & (C1 & C2) & D).
assert (KY : bkind Y = KA) by (destruct (bkind Y); auto; discriminate).
apply (Rep_surgery s pre [Y] [set_pa Y q] r epa epa fl _ R).
+ constructor; [rewrite KY; discriminate|constructor].
+ constructor; [simpl; rewrite KY; discriminate|constructor].
+ reflexivity.
+ constructor; [split; assumption|constructor].
+ intros h b [E|[]]. inversion E; subst. split.
* rewrite GET_PUT_same. exact Hv.
* simpl. intros K. contradiction.
+ rewrite GET_PUT_other.
* apply (rep_epi _ _ _ _ R).
* rewrite !total_app. simpl.
assert (Forall size_wf r).
{ pose proof (rep_sizes _ _ _ _ R) as W.
apply Forall_app in W. destruct W as [_ W].
apply Forall_app in W. tauto. }
pose proof (total_nonneg _ H). unfold hN. lia.
+ intros a Ha' _. apply GET_PUT_other. simpl in Ha'. unfold hN. lia.
Qed.
End NextHeader.

Lemma total_mod8 l : Forall size_wf l -> total l mod 8 = 0.
Proof.
  induction 1 as [|b r [H1 H2] _ IH]; simpl; [reflexivity|].
  rewrite Z.add_mod, H2, IH by lia. reflexivity.
Qed.

Lemma total_ge16 l : Forall size_wf l -> l <> [] -> 16 <= total l.
Proof.
  intros H Hn. destruct H as [|b r [H1 H2] Hr]; [contradiction|].
  simpl. pose proof (total_nonneg _ Hr). lia.
Qed.

Section Merge.
Variables (s : state) (pre mid post : list blk).
Variables (epa : bool) (fl : Z -> list Z) (pa : bool) (m' : memory).
Hypothesis R : Rep s (pre ++ mid ++ post) epa fl.
Hypothesis Hne : mid <> [].
Hypothesis Hmid : Forall (fun b => bkind b <> KF) mid.
Let lo := first_hdr (heap_start s) + total pre.
Let sz := total mid.
Hypothesis Hh : GET m' lo = hdr sz false pa.
Hypothesis Hf : GET m' (lo + sz - 4) = hdr sz false pa.
Hypothesis Hframe : forall a,
a + 4 <= lo \/ lo + sz <= a -> GET m' a = GET (mem s) a.

(** A stretch of unlinked blocks rewritten as one free block. *)
Lemma Rep_merge :
Rep (set_mem s m') (pre ++ [mkBlk sz KU pa] ++ post) epa fl.
Proof.
pose proof (rep_sizes _ _ _ _ R) as W.
apply Forall_app in W. destruct W as [W1 W].
apply Forall_app in W. destruct W as [W2 W3].
pose proof (total_nonneg _ W3) as T3.
pose proof (total_ge16 _ W2 Hne) as T2.
apply (Rep_surgery s pre mid [mkBlk sz KU pa] post epa epa fl m' R).
- exact Hmid.
- constructor; [simpl; discriminate|constructor].
- simpl. unfold sz. lia.
- constructor; [|constructor]. split; simpl; [exact T2|].
apply total_mod8. exact W2.
- intros h b [E|[]]. inversion E; subst. split; simpl.
+ exact Hh.
+ intros _. exact Hf.
- rewrite Hframe.
+ apply (rep_epi _ _ _ _ R).
+ right. rewrite !total_app. unfold lo, sz. lia.
- intros a Ha _. apply Hframe. exact Ha.
Qed.
End Merge.

(** ** Reading around a block *)

Section Around.
Variables (s : state) (pre : list blk) (X : blk) (post : list blk).
Variables (epa : bool) (fl : Z -> list Z).
Hypothesis R : Rep s (pre ++ X :: post) epa fl.
Let m := mem s.
Let hX := first_hdr (heap_start s) + total pre.
Let bp := hX + 4.

Let InX : In (hX, X) (layout (first_hdr (heap_start s)) (pre ++ X :: post)).
Proof. apply layout_mid. Qed.

Lemma read_size : GET_SIZE m (HDRP bp) = bsz X.
Proof.
unfold HDRP, WSIZE, bp. replace (hX + 4 - 4) with hX by lia.
apply (rep_hdr _ _ _ _ R _ _ InX).
Qed.

Lemma read_prev_alloc :
GET_PREV_ALLOC m (HDRP bp) = if bpa X then 2 else 0.
Proof.
unfold HDRP, WSIZE, bp. replace (hX + 4 - 4) with hX by lia.
apply (rep_hdr _ _ _ _ R _ _ InX).
Qed.

Lemma read_alloc :
GET_ALLOC m (HDRP bp) = if is_alloc (bkind X) then 1 else 0.
Proof.
unfold HDRP, WSIZE, bp. replace (hX + 4 - 4) with hX by lia.
apply (rep_hdr _ _ _ _ R _ _ InX).
Qed.

Lemma read_next : NEXT_BLKP m bp = bp + bsz X.
Proof.
unfold NEXT_BLKP. f_equal. apply read_size.
Qed.

Lemma read_next_hdr : HDRP (NEXT_BLKP m bp) = hX + bsz X.
Proof. rewrite read_next. unfold HDRP, WSIZE, bp. lia. Qed.

Let R' : Rep s ((pre ++ [X]) ++ post) epa fl.
Proof. rewrite <- app_assoc. exact R. Qed.

Let hN_eq : first_hdr (heap_start s) + total (pre ++ [X]) = hX + bsz X.
Proof. rewrite total_app. simpl. unfold hX. lia. Qed.

Lemma read_next_alloc :
GET_ALLOC m (HDRP (NEXT_BLKP m bp)) = if next_is_alloc post then 1 else 0.
Proof.
rewrite read_next_hdr, <- hN_eq. apply (next_alloc_read _ _ _ _ _ R').
Qed.

Lemma read_next_word :
GET m (HDRP (NEXT_BLKP m bp)) = next_word post (next_pa post epa).
Proof.
rewrite read_next_hdr, <- hN_eq. apply (next_read _ _ _ _ _ R').
Qed.

(** Last step of [coalesce] and of the split branch of [place]. *)
Lemma Rep_clear_next :
next_is_alloc post = true ->
Rep (set_mem s (clear_prev_alloc_of_next m bp))
(pre ++ X :: set_next_pa false post) (next_epa false post epa) fl.
Proof.
intros Ha. unfold clear_prev_alloc_of_next.
rewrite read_next_hdr, <- hN_eq.
replace (pre ++ X :: set_next_pa false post)
with ((pre ++ [X]) ++ set_next_pa false post)
by (rewrite <- app_assoc; reflexivity).
apply (Rep_next_pa _ _ _ _ _ R'); [exact Ha|]. unfold m.
rewrite (next_clear _ _ _ _ _ R').
apply u32_small. apply (next_word_range _ _ _ _ _ R').
Qed.

(** Last step of the whole-block branch of [place]. *)
Lemma Rep_set_next :
next_is_alloc post = true ->
Rep (set_mem s (PUT m (HDRP (NEXT_BLKP m bp))
(PACK (GET m (HDRP (NEXT_BLKP m bp))) 2)))
(pre ++ X :: set_next_pa true post) (next_epa true post epa) fl.
Proof.
intros Ha.
rewrite read_next_hdr, <- hN_eq.
replace (pre ++ X :: set_next_pa true post)
with ((pre ++ [X]) ++ set_next_pa true post)
by (rewrite <- app_assoc; reflexivity).
apply (Rep_next_pa _ _ _ _ _ R'); [exact Ha|]. unfold m.
rewrite (next_set _ _ _ _ _ R').
apply u32_small. apply (next_word_range _ _ _ _ _ R').
Qed.
End Around.

(** ** Writing a header and its footer *)

Lemma PACK_tag sz (pa : bool) :
  sz mod 8 = 0 -> PACK sz (if pa then 2 else 0) = hdr sz false pa.
Proof. intros H. apply (PACK_hdr sz false pa H). Qed.

Lemma PACK_tag_alloc sz (pa : bool) :
  sz mod 8 = 0 -> PACK sz (if pa then 3 else 1) = hdr sz true pa.
Proof.
  intros H. rewrite <- (PACK_hdr sz true pa H). destruct pa; reflexivity.
Qed.

Lemma tag_of_read (pa : bool) :
  (if negb ((if pa then 2 else 0) =? 0) then 2 else 0)
  = if pa then 2 else 0.
Proof. destruct pa; reflexivity. Qed.

Lemma GET_SIZE_PUT_hdr m h sz a pa :
  size_ok sz -> GET_SIZE (PUT m h (hdr sz a pa)) h = sz.
Proof.
  intros H. unfold GET_SIZE. rewrite GET_PUT_same.
  rewrite u32_small by (apply hdr_range; exact H).
  apply hdr_size. exact H.
Qed.

Lemma put_pair m a1 a2 w lo sz :
  0 <= w < two32 -> 16 <= sz ->
  (a1 = lo /\ a2 = lo + sz - 4) \/ (a2 = lo /\ a1 = lo + sz - 4) ->
  let m' := PUT (PUT m a1 w) a2 w in
  GET m' lo = w /\ GET m' (lo + sz - 4) = w /\
  (forall a, a + 4 <= lo \/ lo + sz <= a -> GET m' a = GET m a).
Proof.
  intros Hw Hs Ha m'. unfold m'.
  destruct Ha as [[-> ->]|[-> ->]].
  - split; [|split].
    + rewrite GET_PUT_other by lia. rewrite GET_PUT_same.
      apply u32_small. exact Hw.
    + rewrite GET_PUT_same. apply u32_small. exact Hw.
    + intros a Ha. rewrite !GET_PUT_other by lia. reflexivity.
  - split; [|split].
    + rewrite GET_PUT_same. apply u32_small. exact Hw.
    + rewrite GET_PUT_other by lia. rewrite GET_PUT_same.
      apply u32_small. exact Hw.
    + intros a Ha. rewrite !GET_PUT_other by lia. reflexivity.
Qed.

(** Header first, footer located through the new header: the pattern of
    [mm_free], [extend_heap] and the first two cases of [coalesce]. *)
Lemma put_hdr_ftr m bp sz pa :
  size_ok sz -> 16 <= sz ->
  let m1 := PUT m (HDRP bp) (hdr sz false pa) in
  let m2 := PUT m1 (FTRP m1 bp) (hdr sz false pa) in
  GET m2 (bp - 4) = hdr sz false pa /\
  GET m2 (bp - 4 + sz - 4) = hdr sz false pa /\
  (forall a, a + 4 <= bp - 4 \/ bp - 4 + sz <= a -> GET m2 a = GET m a).
Proof.
  intros Hok Hs m1 m2.
  assert (E : FTRP m1 bp = bp - 4 + sz - 4).
  { unfold FTRP, m1. rewrite GET_SIZE_PUT_hdr by exact Hok.
    unfold DSIZE. lia. }
  unfold m2. rewrite E. unfold m1, HDRP, WSIZE.
  apply (put_pair m (bp - 4) (bp - 4 + sz - 4) (hdr sz false pa) (bp - 4) sz).
  - apply hdr_range. exact Hok.
  - exact Hs.
  - left. split; reflexivity.
Qed.

(** ** The four cases of [coalesce] *)

Lemma blk_eq X sz k pa :
  bsz X = sz -> bkind X = k -> bpa X = pa -> X = mkBlk sz k pa.
Proof. destruct X; simpl; intros; subst; reflexivity. Qed.

Section Coalesce1.
Variables (s : state) (pre : list blk) (X : blk) (post : list blk).
Variables (epa : bool) (fl : Z -> list Z).
Hypothesis R : Rep s (pre ++ X :: post) epa fl.
Hypothesis HK : bkind X = KU.
Hypothesis Hpa : bpa X = true.
Hypothesis Hna : next_is_alloc post = true.
Let bp := first_hdr (heap_start s) + total pre + 4.

Lemma coalesce_case1 :
snd (coalesce s bp) = bp /\
Rep (fst (coalesce s bp)) (pre ++ X :: set_next_pa false post)
(next_epa false post epa) fl /\
keeps (first_hdr (heap_start s)) (pre ++ X :: post) (mem s)
(mem (fst (coalesce s bp))).
Proof.
assert (InX : In (bp - 4, X)
 (layout (first_hdr (heap_start s)) (pre ++ X :: post))).
{ unfold bp. replace (first_hdr (heap_start s) + total pre + 4 - 4)
with (first_hdr (heap_start s) + total pre) by lia. apply layout_mid. }
destruct (rep_in _ _ _ _ R _ _ InX) as (_ & _ & (S1 & S2) & Sok).
unfold coalesce. unfold bp in *. cbv zeta.
rewrite (read_prev_alloc _ _ _ _ _ _ R), (read_next_alloc _ _ _ _ _ _ R).
rewrite (read_size _ _ _ _ _ _ R).
rewrite Hpa, Hna. cbn [Z.eqb negb andb fst snd].
split; [reflexivity|].
rewrite (PACK_tag _ true S2).
set (bp' := first_hdr (heap_start s) + total pre + 4) in *.
pose proof (put_hdr_ftr (mem s) bp' (bsz X) true Sok S1) as P.
cbv zeta in P. destruct P as (P1 & P2 & P3).
match goal with |- Rep (set_mem (set_mem s ?m2) _) _ _ _ /\ _ =>
assert (R2 : Rep (set_mem s m2) (pre ++ X :: post) epa fl)
end.
{ assert (EX : pre ++ X :: post
 = pre ++ [mkBlk (total [X]) KU true] ++ post).
{ simpl. do 2 f_equal. apply blk_eq; auto. lia. }
rewrite EX.
apply (Rep_merge s pre [X] post epa fl true _ R).
- discriminate.
- constructor; [rewrite HK; discriminate|constructor].
- simpl. rewrite Z.add_0_r.
replace (first_hdr (heap_start s) + total pre) with (bp' - 4)
by (unfold bp'; lia). exact P1.
- simpl. rewrite Z.add_0_r.
replace (first_hdr (heap_start s) + total pre) with (bp' - 4)
by (unfold bp'; lia). exact P2.
- simpl. rewrite Z.add_0_r.
replace (first_hdr (heap_start s) + total pre) with (bp' - 4)
by (unfold bp'; lia). exact P3. }
split; [apply (Rep_clear_next _ _ _ _ _ _ R2 Hna)|].
cbn [mem set_mem].
apply (keeps_outside _ pre [X] post); [exact (rep_sizes _ _ _ _ R)| |].
{ constructor; [rewrite HK; discriminate|constructor]. }
intros a Ha. simpl in Ha. unfold clear_prev_alloc_of_next.
pose proof (read_next_hdr _ _ _ _ _ _ R2) as EN.
cbn [mem heap_start set_mem] in EN. fold bp' in EN. rewrite EN.
rewrite GET_PUT_other by lia. apply P3. unfold bp'. lia.
Qed.
End Coalesce1.

Lemma heap_start_del_list s b : heap_start (del_list s b) = heap_start s.
Proof. reflexivity. Qed.

Section Coalesce2.
Variables (s : state) (pre : list blk) (X Y : blk) (r : list blk).
Variables (epa : bool) (fl : Z -> list Z).
Hypothesis R : Rep s (pre ++ X :: Y :: r) epa fl.
Hypothesis HK : bkind X = KU.
Hypothesis HKY : bkind Y = KF.
Hypothesis Hpa : bpa X = true.
Hypothesis Hna : next_is_alloc r = true.
Let bp := first_hdr (heap_start s) + total pre + 4.

Lemma coalesce_case2 :
snd (coalesce s bp) = bp /\
Rep (fst (coalesce s bp))
(pre ++ mkBlk (bsz X + bsz Y) KU true :: set_next_pa false r)
(next_epa false r epa)
(fl_remove fl (get_list (bsz Y)) (bp + bsz X)) /\
keeps (first_hdr (heap_start s)) (pre ++ X :: Y :: r) (mem s)
(mem (fst (coalesce s bp))).
Proof.
assert (R' : Rep s ((pre ++ [X]) ++ Y :: r) epa fl)
by (rewrite <- app_assoc; exact R).
pose proof (proj2 (del_list_full _ _ _ _ _ _ R' HKY)) as K1.
rewrite <- app_assoc in K1. cbn [app] in K1.
assert (Ebp : bp + bsz X
= first_hdr (heap_start s) + total (pre ++ [X]) + 4).
{ rewrite total_app. simpl. unfold bp. lia. }
assert (Enext : NEXT_BLKP (mem s) bp
= first_hdr (heap_start s) + total (pre ++ [X]) + 4).
{ rewrite <- Ebp. apply (read_next _ _ _ _ _ _ R). }
pose proof (Rep_del_list _ _ _ _ _ _ R' HKY) as R1.
rewrite Ebp.
set (A := first_hdr (heap_start s) + total (pre ++ [X]) + 4) in *.
change (Rep (del_list s A) ((pre ++ [X]) ++ set_kind Y KU :: r) epa
(fl_remove fl (get_list (bsz Y)) A)) in R1.
assert (EX : GET_PREV_ALLOC (mem s) (HDRP bp) = 2).
{ unfold bp. rewrite (read_prev_alloc _ _ _ _ _ _ R), Hpa. reflexivity. }
assert (EN : GET_ALLOC (mem s) (HDRP (NEXT_BLKP (mem s) bp)) = 0).
{ unfold bp. rewrite (read_next_alloc _ _ _ _ _ _ R). simpl.
rewrite HKY. reflexivity. }
assert (ES : GET_SIZE (mem s) (HDRP bp) = bsz X)
by apply (read_size _ _ _ _ _ _ R).
unfold coalesce. cbv zeta. rewrite EX, EN, ES, Enext.
cbn [Z.eqb negb andb fst snd].
split; [reflexivity|].
set (s1 := del_list s A) in *.
assert (R1b : Rep s1 (pre ++ X :: set_kind Y KU :: r) epa
(fl_remove fl (get_list (bsz Y)) A))
by (rewrite <- app_assoc in R1; exact R1).
assert (E1 : NEXT_BLKP (mem s1) bp = A).
{ rewrite <- Ebp. apply (read_next _ _ _ _ _ _ R1b). }
assert (E2 : GET_SIZE (mem s1) (HDRP A) = bsz Y)
by apply (read_size _ _ _ _ _ _ R1).
rewrite E1, E2.
assert (InX : In (bp - 4, X)
 (layout (first_hdr (heap_start s)) (pre ++ X :: Y :: r))).
{ unfold bp. replace (first_hdr (heap_start s) + total pre + 4 - 4)
with (first_hdr (heap_start s) + total pre) by lia. apply layout_mid. }
assert (InY : In (A - 4, Y)
 (layout (first_hdr (heap_start s)) ((pre ++ [X]) ++ Y :: r))).
{ replace (A - 4)
with (first_hdr (heap_start s) + total (pre ++ [X])) by (unfold A; lia).
apply layout_mid. }
destruct (rep_in _ _ _ _ R _ _ InX) as (_ & _ & (S1 & S2) & _).
destruct (rep_in _ _ _ _ R' _ _ InY) as (_ & BY & (Y1 & Y2) & _).
pose proof (rep_total _ _ _ _ R') as (_ & T2 & _).
pose proof (rep_hs _ _ _ _ R) as Hhs.
assert (Tpre : 0 <= total pre).
{ apply total_nonneg. pose proof (rep_sizes _ _ _ _ R) as W.
apply Forall_app in W. tauto. }
assert (Sok : size_ok (bsz X + bsz Y)).
{ split.
- clear - BY T2 Hhs Tpre Ebp S1 Y1.
unfold bp, first_hdr, two32 in *. lia.
- rewrite Z.add_mod, S2, Y2 by lia. reflexivity. }
rewrite (PACK_tag _ true (proj2 Sok)).
pose proof (put_hdr_ftr (mem s1) bp (bsz X + bsz Y) true Sok
ltac:(lia)) as P.
cbv zeta in P. destruct P as (P1 & P2 & P3).
assert (Elo : first_hdr (heap_start s1) + total pre = bp - 4)
by (unfold bp; change (heap_start s1) with (heap_start s); lia).
match goal with |- Rep (set_mem (set_mem s1 ?m2) _) _ _ _ /\ _ =>
assert (R2 : Rep (set_mem s1 m2)
 (pre ++ mkBlk (bsz X + bsz Y) KU true :: r) epa
 (fl_remove fl (get_list (bsz Y)) A))
end.
{ assert (ET : total [X; set_kind Y KU] = bsz X + bsz Y)
by (simpl; lia).
match goal with |- Rep (set_mem s1 ?m2) _ _ _ =>
pose proof (Rep_merge s1 pre [X; set_kind Y KU] r epa _ true m2 R1b)
as M
end.
rewrite ET, Elo in M. apply M.
- discriminate.
- constructor; [rewrite HK; discriminate|].
constructor; [simpl; discriminate|constructor].
- exact P1.
- exact P2.
- exact P3. }
split; [apply (Rep_clear_next _ _ _ _ _ _ R2 Hna)|].
cbn [mem set_mem].
apply (keeps_trans _ _ _ (mem s1)); [exact K1|].
apply (keeps_outside _ pre [X; Y] r); [exact (rep_sizes _ _ _ _ R)| |].
{ constructor; [rewrite HK; discriminate|].
constructor; [rewrite HKY; discriminate|constructor]. }
intros a Ha. simpl in Ha. unfold clear_prev_alloc_of_next.
pose proof (read_next_hdr _ _ _ _ _ _ R2) as EN'.
cbn [mem heap_start set_mem bsz] in EN'.
change (heap_start s1) with (heap_start s) in EN'. fold bp in EN'.
rewrite EN'.
rewrite GET_PUT_other by lia. apply P3. unfold bp. lia.
Qed.
End Coalesce2.

Lemma GET_SIZE_PUT_other m p v q :
  q + 4 <= p \/ p + 4 <= q -> GET_SIZE (PUT m p v) q = GET_SIZE m q.
Proof. intros H. unfold GET_SIZE. rewrite GET_PUT_other by exact H. reflexivity. Qed.

Lemma read_prev s pre0 P X post epa fl :
  Rep s (pre0 ++ P :: X :: post) epa fl -> bkind P <> KA ->
  let bp := first_hdr (heap_start s) + total pre0 + bsz P + 4 in
  GET_SIZE (mem s) (bp - DSIZE) = bsz P /\ PREV_BLKP (mem s) bp = bp - bsz P.
Proof.
  intros R HP bp.
  assert (InP : In (first_hdr (heap_start s) + total pre0, P)
                   (layout (first_hdr (heap_start s)) (pre0 ++ P :: X :: post)))
    by apply layout_mid.
  destruct (rep_ftr _ _ _ _ R _ _ InP HP) as [_ F].
  assert (E : GET_SIZE (mem s) (bp - DSIZE) = bsz P).
  { unfold bp, DSIZE.
    replace (first_hdr (heap_start s) + total pre0 + bsz P + 4 - 8)
      with (first_hdr (heap_start s) + total pre0 + bsz P - 4) by lia.
    exact F. }
  split; [exact E|]. unfold PREV_BLKP. rewrite E. reflexivity.
Qed.

Section Coalesce3.
Variables (s : state) (pre0 : list blk) (P X : blk) (post : list blk).
Variables (epa : bool) (fl : Z -> list Z).
Hypothesis R : Rep s (pre0 ++ P :: X :: post) epa fl.
Hypothesis HK : bkind X = KU.
Hypothesis HKP : bkind P = KF.
Hypothesis Hpa : bpa X = false.
Hypothesis Hna : next_is_alloc post = true.
Let bp := first_hdr (heap_start s) + total pre0 + bsz P + 4.

Lemma coalesce_case3 :
snd (coalesce s bp) = bp - bsz P /\
Rep (fst (coalesce s bp))
(pre0 ++ mkBlk (bsz P + bsz X) KU (bpa P) :: set_next_pa false post)
(next_epa false post epa)
(fl_remove fl (get_list (bsz P)) (bp - bsz P)) /\
keeps (first_hdr (heap_start s)) (pre0 ++ P :: X :: post) (mem s)
(mem (fst (coalesce s bp))).
Proof.
pose proof (proj2 (del_list_full _ _ _ _ _ _ R HKP)) as K1.
assert (R' : Rep s ((pre0 ++ [P]) ++ X :: post) epa fl)
by (rewrite <- app_assoc; exact R).
assert (Ebp : bp = first_hdr (heap_start s) + total (pre0 ++ [P]) + 4).
{ rewrite total_app. simpl. unfold bp. lia. }
assert (EP : bp - bsz P = first_hdr (heap_start s) + total pre0 + 4)
by (unfold bp; lia).
assert (HPA : bkind P <> KA) by (rewrite HKP; discriminate).
destruct (read_prev _ _ _ _ _ _ _ R HPA) as [_ Eprev]. fold bp in Eprev.
rewrite EP in Eprev.
pose proof (Rep_del_list _ _ _ _ _ _ R HKP) as R1.
rewrite EP.
set (A := first_hdr (heap_start s) + total pre0 + 4) in *.
change (Rep (del_list s A) (pre0 ++ set_kind P KU :: X :: post) epa
(fl_remove fl (get_list (bsz P)) A)) in R1.
assert (EX : GET_PREV_ALLOC (mem s) (HDRP bp) = 0).
{ rewrite Ebp, (read_prev_alloc _ _ _ _ _ _ R'), Hpa. reflexivity. }
assert (EN : GET_ALLOC (mem s) (HDRP (NEXT_BLKP (mem s) bp)) = 1).
{ rewrite Ebp, (read_next_alloc _ _ _ _ _ _ R'), Hna. reflexivity. }
assert (ES : GET_SIZE (mem s) (HDRP bp) = bsz X)
by (rewrite Ebp; apply (read_size _ _ _ _ _ _ R')).
unfold coalesce. cbv zeta. rewrite EX, EN, ES, Eprev.
cbn [Z.eqb negb andb fst snd].
set (s1 := del_list s A) in *.
assert (HPU : bkind (set_kind P KU) <> KA) by (simpl; discriminate).
destruct (read_prev _ _ _ _ _ _ _ R1 HPU) as [Fsz Eprev1].
change (heap_start s1) with (heap_start s) in Fsz, Eprev1.
cbn [bsz set_kind] in Fsz, Eprev1. fold bp in Fsz, Eprev1.
rewrite EP in Eprev1.
assert (R1' : Rep s1 ((pre0 ++ [set_kind P KU]) ++ X :: post) epa
(fl_remove fl (get_list (bsz P)) A))
by (rewrite <- app_assoc; exact R1).
assert (Ebp1 : first_hdr (heap_start s1)
 + total (pre0 ++ [set_kind P KU]) + 4 = bp).
{ rewrite total_app. simpl. unfold bp.
change (heap_start s1) with (heap_start s). lia. }
assert (ES1 : GET_SIZE (mem s1) (HDRP bp) = bsz X).
{ pose proof (read_size _ _ _ _ _ _ R1') as Q. rewrite Ebp1 in Q.
exact Q. }
assert (EPS : GET_SIZE (mem s1) (HDRP A) = bsz P)
by apply (read_size _ _ _ _ _ _ R1).
assert (EPP : GET_PREV_ALLOC (mem s1) (HDRP A) = if bpa P then 2 else 0)
by apply (read_prev_alloc _ _ _ _ _ _ R1).
assert (EF : FTRP (mem s1) bp = A - 4 + (bsz P + bsz X) - 4).
{ unfold FTRP. rewrite ES1. unfold DSIZE, A, bp. lia. }
rewrite Eprev1, EPS, EPP, tag_of_read, EF.
assert (InX : In (bp - 4, X)
 (layout (first_hdr (heap_start s)) ((pre0 ++ [P]) ++ X :: post))).
{ rewrite Ebp.
replace (first_hdr (heap_start s) + total (pre0 ++ [P]) + 4 - 4)
with (first_hdr (heap_start s) + total (pre0 ++ [P])) by lia.
apply layout_mid. }
assert (InP : In (A - 4, P)
 (layout (first_hdr (heap_start s)) (pre0 ++ P :: X :: post))).
{ replace (A - 4) with (first_hdr (heap_start s) + total pre0)
by (unfold A; lia).
apply layout_mid. }
destruct (rep_in _ _ _ _ R' _ _ InX) as (_ & BX & (S1 & S2) & _).
destruct (rep_in _ _ _ _ R _ _ InP) as (AP & _ & (P1 & P2) & _).
pose proof (rep_total _ _ _ _ R') as (_ & T2 & _).
pose proof (rep_hs _ _ _ _ R) as Hhs.
assert (Sok : size_ok (bsz P + bsz X)).
{ split.
- clear - BX T2 Hhs AP EP S1 P1.
unfold first_hdr, two32 in *. lia.
- rewrite Z.add_mod, S2, P2 by lia. reflexivity. }
replace (bsz X + bsz P) with (bsz P + bsz X) by lia.
rewrite (PACK_tag _ (bpa P) (proj2 Sok)).
set (w := hdr (bsz P + bsz X) false (bpa P)).
set (m2 := PUT (mem s1) (A - 4 + (bsz P + bsz X) - 4) w).
assert (Eprev2 : PREV_BLKP m2 bp = A).
{ unfold PREV_BLKP, m2. rewrite GET_SIZE_PUT_other.
- exact Eprev1.
- unfold DSIZE, A, bp. lia. }
rewrite Eprev2.
set (m3 := PUT m2 (HDRP A) w).
assert (Eprev3 : PREV_BLKP m3 bp = A).
{ unfold PREV_BLKP, m3. rewrite GET_SIZE_PUT_other.
- exact Eprev2.
- unfold HDRP, WSIZE, DSIZE, A, bp. lia. }
rewrite Eprev3. split; [reflexivity|].
pose proof (put_pair (mem s1) (A - 4 + (bsz P + bsz X) - 4) (HDRP A) w
(A - 4) (bsz P + bsz X)) as PP.
cbv zeta in PP. fold m2 m3 in PP.
destruct PP as (Q1 & Q2 & Q3).
{ apply hdr_range. exact Sok. }
{ lia. }
{ right. split; [unfold HDRP, WSIZE; lia|reflexivity]. }
assert (Elo : first_hdr (heap_start s1) + total pre0 = A - 4)
by (unfold A; change (heap_start s1) with (heap_start s); lia).
assert (R2 : Rep (set_mem s1 m3)
 (pre0 ++ mkBlk (bsz P + bsz X) KU (bpa P) :: post) epa
 (fl_remove fl (get_list (bsz P)) A)).
{ assert (ET : total [set_kind P KU; X] = bsz P + bsz X)
by (simpl; lia).
pose proof (Rep_merge s1 pre0 [set_kind P KU; X] post epa _ (bpa P) m3 R1)
as M.
rewrite ET, Elo in M. apply M.
- discriminate.
- constructor; [simpl; discriminate|].
constructor; [rewrite HK; discriminate|constructor].
- exact Q1.
- exact Q2.
- exact Q3. }
split; [apply (Rep_clear_next _ _ _ _ _ _ R2 Hna)|].
cbn [mem set_mem].
apply (keeps_trans _ _ _ (mem s1)); [exact K1|].
apply (keeps_outside _ pre0 [P; X] post); [exact (rep_sizes _ _ _ _ R)| |].
{ constructor; [rewrite HKP; discriminate|].
constructor; [rewrite HK; discriminate|constructor]. }
intros a Ha. simpl in Ha. unfold clear_prev_alloc_of_next.
pose proof (read_next_hdr _ _ _ _ _ _ R2) as EN'.
cbn [mem heap_start set_mem bsz] in EN'.
change (heap_start s1) with (heap_start s) in EN'. fold A in EN'.
rewrite EN'.
rewrite GET_PUT_other by (unfold A; lia). apply Q3. unfold A. lia.
Qed.
End Coalesce3.

Section Coalesce4.
Variables (s : state) (pre0 : list blk) (P X Y : blk) (r : list blk).
Variables (epa : bool) (fl : Z -> list Z).
Hypothesis R : Rep s (pre0 ++ P :: X :: Y :: r) epa fl.
Hypothesis HK : bkind X = KU.
Hypothesis HKP : bkind P = KF.
Hypothesis HKY : bkind Y = KF.
Hypothesis Hpa : bpa X = false.
Hypothesis Hna : next_is_alloc r = true.
Let bp := first_hdr (heap_start s) + total pre0 + bsz P + 4.

Lemma coalesce_case4 :
snd (coalesce s bp) = bp - bsz P /\
Rep (fst (coalesce s bp))
(pre0 ++ mkBlk (bsz P + bsz X + bsz Y) KU (bpa P)
:: set_next_pa false r)
(next_epa false r epa)
(fl_remove (fl_remove fl (get_list (bsz P)) (bp - bsz P))
 (get_list (bsz Y)) (bp + bsz X)) /\
keeps (first_hdr (heap_start s)) (pre0 ++ P :: X :: Y :: r) (mem s)
(mem (fst (coalesce s bp))).
Proof.
pose proof (proj2 (del_list_full _ _ _ _ _ _ R HKP)) as K1.
assert (R' : Rep s ((pre0 ++ [P]) ++ X :: Y :: r) epa fl)
by (rewrite <- app_assoc; exact R).
assert (Ebp : bp = first_hdr (heap_start s) + total (pre0 ++ [P]) + 4).
{ rewrite total_app. simpl. unfold bp. lia. }
assert (EP : bp - bsz P = first_hdr (heap_start s) + total pre0 + 4)
by (unfold bp; lia).
assert (HPA : bkind P <> KA) by (rewrite HKP; discriminate).
destruct (read_prev _ _ _ _ _ _ _ R HPA) as [_ Eprev]. fold bp in Eprev.
rewrite EP in Eprev.
pose proof (Rep_del_list _ _ _ _ _ _ R HKP) as R1.
rewrite EP.
set (A := first_hdr (heap_start s) + total pre0 + 4) in *.
change (Rep (del_list s A) (pre0 ++ set_kind P KU :: X :: Y :: r) epa
(fl_remove fl (get_list (bsz P)) A)) in R1.
assert (EX : GET_PREV_ALLOC (mem s) (HDRP bp) = 0).
{ rewrite Ebp, (read_prev_alloc _ _ _ _ _ _ R'), Hpa. reflexivity. }
assert (EN : GET_ALLOC (mem s) (HDRP (NEXT_BLKP (mem s) bp)) = 0).
{ rewrite Ebp, (read_next_alloc _ _ _ _ _ _ R'). simpl. rewrite HKY.
reflexivity. }
assert (ES : GET_SIZE (mem s) (HDRP bp) = bsz X)
by (rewrite Ebp; apply (read_size _ _ _ _ _ _ R')).
unfold coalesce. cbv zeta. rewrite EX, EN, ES, Eprev.
cbn [Z.eqb negb andb fst snd].
set (s1 := del_list s A) in *.
(* the state after unlinking the previous block *)
assert (R1' : Rep s1 ((pre0 ++ [set_kind P KU]) ++ X :: Y :: r) epa
(fl_remove fl (get_list (bsz P)) A))
by (rewrite <- app_assoc; exact R1).
assert (Ebp1 : first_hdr (heap_start s1)
 + total (pre0 ++ [set_kind P KU]) + 4 = bp).
{ rewrite total_app. simpl. unfold bp.
change (heap_start s1) with (heap_start s). lia. }
assert (EN1 : NEXT_BLKP (mem s1) bp = bp + bsz X).
{ pose proof (read_next _ _ _ _ _ _ R1') as Q. rewrite Ebp1 in Q.
exact Q. }
rewrite EN1.
assert (R1'' : Rep s1 ((pre0 ++ [set_kind P KU; X]) ++ Y :: r) epa
 (fl_remove fl (get_list (bsz P)) A)).
{ rewrite <- app_assoc. exact R1. }
assert (EB : first_hdr (heap_start s1)
 + total (pre0 ++ [set_kind P KU; X]) + 4 = bp + bsz X).
{ rewrite total_app. simpl. unfold bp.
change (heap_start s1) with (heap_start s). lia. }
pose proof (Rep_del_list _ _ _ _ _ _ R1'' HKY) as R2.
pose proof (proj2 (del_list_full _ _ _ _ _ _ R1'' HKY)) as K2.
rewrite EB in R2, K2. rewrite <- app_assoc in K2. cbn [app] in K2.
set (B := bp + bsz X) in *.
change (Rep (del_list s1 B)
((pre0 ++ [set_kind P KU; X]) ++ set_kind Y KU :: r) epa
(fl_remove (fl_remove fl (get_list (bsz P)) A)
 (get_list (bsz Y)) B)) in R2.
set (s2 := del_list s1 B) in *.
set (fl2 := fl_remove (fl_remove fl (get_list (bsz P)) A)
(get_list (bsz Y)) B) in *.
assert (R2a : Rep s2 (pre0 ++ set_kind P KU :: X :: set_kind Y KU :: r)
epa fl2)
by (rewrite <- app_assoc in R2; exact R2).
assert (R2b : Rep s2 ((pre0 ++ [set_kind P KU]) ++ X :: set_kind Y KU :: r)
epa fl2)
by (rewrite <- app_assoc; exact R2a).
assert (HPU : bkind (set_kind P KU) <> KA) by (simpl; discriminate).
destruct (read_prev _ _ _ _ _ _ _ R2a HPU) as [_ Eprev2].
change (heap_start s2) with (heap_start s) in Eprev2.
cbn [bsz set_kind] in Eprev2. fold bp in Eprev2. rewrite EP in Eprev2.
assert (EPS : GET_SIZE (mem s2) (HDRP A) = bsz P)
by apply (read_size _ _ _ _ _ _ R2a).
assert (EPP : GET_PREV_ALLOC (mem s2) (HDRP A) = if bpa P then 2 else 0)
by apply (read_prev_alloc _ _ _ _ _ _ R2a).
assert (EN2 : NEXT_BLKP (mem s2) bp = B).
{ pose proof (read_next _ _ _ _ _ _ R2b) as Q.
change (heap_start s2) with (heap_start s1) in Q.
rewrite Ebp1 in Q. exact Q. }
assert (EYS : GET_SIZE (mem s2) (HDRP B) = bsz Y).
{ pose proof (read_size _ _ _ _ _ _ R2) as Q.
change (heap_start s2) with (heap_start s1) in Q.
rewrite EB in Q. exact Q. }
assert (InY : In (B - 4, set_kind Y KU)
 (layout (first_hdr (heap_start s2))
((pre0 ++ [set_kind P KU; X]) ++ set_kind Y KU :: r))).
{ replace (B - 4) with (first_hdr (heap_start s2)
+ total (pre0 ++ [set_kind P KU; X])).
- apply layout_mid.
- change (heap_start s2) with (heap_start s1). lia. }
assert (EFY : FTRP (mem s2) B = B - 4 + bsz Y - 4).
{ unfold FTRP. rewrite EYS. unfold DSIZE. lia. }
assert (EYF : GET_SIZE (mem s2) (B - 4 + bsz Y - 4) = bsz Y).
{ destruct (rep_ftr _ _ _ _ R2 _ _ InY) as [_ F];
[simpl; discriminate|exact F]. }
rewrite Eprev2, EPS, EPP, tag_of_read, EN2, EFY, EYF.
(* sizes *)
assert (InX : In (bp - 4, X)
(layout (first_hdr (heap_start s))
 ((pre0 ++ [P]) ++ X :: Y :: r))).
{ rewrite Ebp.
replace (first_hdr (heap_start s) + total (pre0 ++ [P]) + 4 - 4)
with (first_hdr (heap_start s) + total (pre0 ++ [P])) by lia.
apply layout_mid. }
assert (InP : In (A - 4, P)
(layout (first_hdr (heap_start s))
 (pre0 ++ P :: X :: Y :: r))).
{ replace (A - 4) with (first_hdr (heap_start s) + total pre0)
by (unfold A; lia).
apply layout_mid. }
destruct (rep_in _ _ _ _ R' _ _ InX) as (_ & _ & (S1 & S2) & _).
destruct (rep_in _ _ _ _ R _ _ InP) as (AP & _ & (P1 & P2) & _).
destruct (rep_in _ _ _ _ R2 _ _ InY) as (_ & BY & (Y1 & Y2) & _).
cbn [bsz set_kind] in BY, Y1, Y2.
pose proof (rep_total _ _ _ _ R2) as (_ & T2 & _).
change (heap_start s2) with (heap_start s) in BY, T2.
pose proof (rep_hs _ _ _ _ R) as Hhs.
assert (Sok : size_ok (bsz P + bsz X + bsz Y)).
{ split.
- clear - BY T2 Hhs AP EP S1 P1 Y1.
unfold B, first_hdr, two32 in *. lia.
- rewrite Z.add_mod, (Z.add_mod (bsz P)), S2, P2, Y2 by lia.
reflexivity. }
replace (bsz X + (bsz P + bsz Y)) with (bsz P + bsz X + bsz Y) by lia.
rewrite (PACK_tag _ (bpa P) (proj2 Sok)).
set (w := hdr (bsz P + bsz X + bsz Y) false (bpa P)).
set (m3 := PUT (mem s2) (HDRP A) w).
assert (EN3 : NEXT_BLKP m3 bp = B).
{ unfold NEXT_BLKP, m3. rewrite GET_SIZE_PUT_other.
- exact EN2.
- unfold HDRP, WSIZE, A, bp. lia. }
assert (EF3 : FTRP m3 B = B - 4 + bsz Y - 4).
{ unfold FTRP, m3. rewrite GET_SIZE_PUT_other.
- exact EFY.
- unfold HDRP, WSIZE, A, B, bp. lia. }
rewrite EN3, EF3.
set (m4 := PUT m3 (B - 4 + bsz Y - 4) w).
assert (Eprev4 : PREV_BLKP m4 bp = A).
{ unfold PREV_BLKP, m4, m3. rewrite !GET_SIZE_PUT_other.
- exact Eprev2.
- unfold HDRP, WSIZE, DSIZE, A, bp. lia.
- unfold DSIZE, B. lia. }
rewrite Eprev4. split; [reflexivity|].
pose proof (put_pair (mem s2) (HDRP A) (B - 4 + bsz Y - 4) w
(A - 4) (bsz P + bsz X + bsz Y)) as PP.
cbv zeta in PP. fold m3 m4 in PP.
destruct PP as (Q1 & Q2 & Q3).
{ apply hdr_range. exact Sok. }
{ lia. }
{ left. split; [unfold HDRP, WSIZE; lia|unfold B, A, bp; lia]. }
assert (Elo : first_hdr (heap_start s2) + total pre0 = A - 4)
by (unfold A; change (heap_start s2) with (heap_start s); lia).
assert (R3 : Rep (set_mem s2 m4)
 (pre0 ++ mkBlk (bsz P + bsz X + bsz Y) KU (bpa P) :: r) epa
 fl2).
{ assert (ET : total [set_kind P KU; X; set_kind Y KU]
 = bsz P + bsz X + bsz Y)
by (simpl; lia).
pose proof (Rep_merge s2 pre0 [set_kind P KU; X; set_kind Y KU] r epa _
(bpa P) m4 R2a) as M.
rewrite ET, Elo in M. apply M.
- discriminate.
- constructor; [simpl; discriminate|].
constructor; [rewrite HK; discriminate|].
constructor; [simpl; discriminate|constructor].
- exact Q1.
- exact Q2.
- exact Q3. }
split; [apply (Rep_clear_next _ _ _ _ _ _ R3 Hna)|].
cbn [mem set_mem].
apply (keeps_trans _ _ _ (mem s1)); [exact K1|].
apply (keeps_trans _ _ _ (mem s2)).
{ apply (keeps_mono _ _ (pre0 ++ set_kind P KU :: X :: Y :: r));
[|exact K2].
intros q sz. apply is_KA_rekind_free. rewrite HKP. discriminate. }
apply (keeps_outside _ pre0 [P; X; Y] r); [exact (rep_sizes _ _ _ _ R)| |].
{ constructor; [rewrite HKP; discriminate|].
constructor; [rewrite HK; discriminate|].
constructor; [rewrite HKY; discriminate|constructor]. }
intros a Ha. simpl in Ha. unfold clear_prev_alloc_of_next.
pose proof (read_next_hdr _ _ _ _ _ _ R3) as EN'.
cbn [mem heap_start set_mem bsz] in EN'.
change (heap_start s2) with (heap_start s) in EN'. fold A in EN'.
rewrite EN'.
rewrite GET_PUT_other by (unfold A; lia). apply Q3. unfold A. lia.
Qed.
End Coalesce4.

(** ** Previous-allocated bits and adjacency, on block lists *)

Lemma pa_chain_end p l q : pa_chain p l q -> q = end_alloc p l.
Proof.
  revert p. induction l as [|b r IH]; intros p; simpl.
  - auto.
  - intros [_ H]. apply IH. exact H.
Qed.

Lemma pa_mid p pre X post e :
  pa_chain p (pre ++ X :: post) e <->
  pa_chain p pre (bpa X) /\ pa_chain (is_alloc (bkind X)) post e.
Proof.
  revert p. induction pre as [|b r IH]; intros p; simpl.
  - tauto.
  - rewrite IH. tauto.
Qed.

Lemma pa_chain_app p l1 l2 e :
  pa_chain p (l1 ++ l2) e <->
  pa_chain p l1 (end_alloc p l1) /\ pa_chain (end_alloc p l1) l2 e.
Proof.
  revert p. induction l1 as [|b r IH]; intros p; simpl.
  - tauto.
  - rewrite IH. tauto.
Qed.

Lemma end_alloc_app p l1 l2 :
  end_alloc p (l1 ++ l2) = end_alloc (end_alloc p l1) l2.
Proof. revert p. induction l1 as [|b r IH]; intros p; simpl; auto. Qed.

Lemma naf_cons X post :
  no_adj_free (X :: post) <->
  (is_alloc (bkind X) = true \/ next_is_alloc post = true)
  /\ no_adj_free post.
Proof. destruct post as [|Y r]; simpl; tauto. Qed.

Lemma naf_mid pre X post :
  no_adj_free (pre ++ X :: post) <->
  no_adj_free (pre ++ [X]) /\ no_adj_free (X :: post).
Proof.
  induction pre as [|b r IH].
  - simpl. destruct post; tauto.
  - rewrite <- !app_comm_cons.
    rewrite (naf_cons b (r ++ X :: post)), (naf_cons b (r ++ [X])), IH.
    assert (E : next_is_alloc (r ++ X :: post) = next_is_alloc (r ++ [X]))
      by (destruct r; reflexivity).
    rewrite E. tauto.
Qed.

Lemma naf_snoc pre X :
  no_adj_free (pre ++ [X]) <->
  no_adj_free pre /\ (end_alloc true pre = true \/ is_alloc (bkind X) = true).
Proof.
  assert (G : forall p, (p = true \/ next_is_alloc (pre ++ [X]) = true)
                        /\ no_adj_free (pre ++ [X]) <->
              (p = true \/ next_is_alloc pre = true) /\ no_adj_free pre /\
              (end_alloc p pre = true \/ is_alloc (bkind X) = true)).
  { induction pre as [|b r IH]; intros p.
    - simpl. tauto.
    - rewrite <- app_comm_cons.
      rewrite (naf_cons b (r ++ [X])), (naf_cons b r).
      cbn [next_is_alloc end_alloc].
      rewrite (IH (is_alloc (bkind b))). tauto. }
  specialize (G true). tauto.
Qed.

Lemma naf_kind_irrelevant pre X X' post :
  is_alloc (bkind X) = is_alloc (bkind X') ->
  no_adj_free (pre ++ X :: post) -> no_adj_free (pre ++ X' :: post).
Proof.
  intros E.
  rewrite (naf_mid pre X post), (naf_mid pre X' post).
  rewrite (naf_snoc pre X), (naf_snoc pre X').
  rewrite (naf_cons X post), (naf_cons X' post), E. tauto.
Qed.

Lemma next_is_alloc_set q post :
  next_is_alloc (set_next_pa q post) = next_is_alloc post.
Proof. destruct post; reflexivity. Qed.

Lemma naf_set_next q post :
  no_adj_free (set_next_pa q post) <-> no_adj_free post.
Proof.
  destruct post as [|Y r]; [simpl; tauto|].
  cbn [set_next_pa]. rewrite !naf_cons. simpl. tauto.
Qed.

Lemma no_KU_set_next q post : no_KU post -> no_KU (set_next_pa q post).
Proof.
  destruct post as [|Y r]; [auto|]. intros H. inversion H; subst.
  constructor; assumption.
Qed.

Lemma pa_set_next q post epa :
  pa_tail post epa -> pa_chain q (set_next_pa q post) (next_epa q post epa).
Proof.
  destruct post as [|Y r]; simpl; auto.
Qed.

Lemma no_KU_app l1 l2 : no_KU (l1 ++ l2) <-> no_KU l1 /\ no_KU l2.
Proof. apply Forall_app. Qed.

Lemma not_alloc_KF k : k <> KU -> is_alloc k = false -> k = KF.
Proof. destruct k; simpl; intros; congruence. Qed.

Lemma is_alloc_KA k : is_alloc k = true -> k = KA.
Proof. destruct k; simpl; intros; congruence. Qed.

(** ** Allocated blocks stay where they are *)

Lemma blk_last_case (l : list blk) : l = [] \/ exists l' x, l = l' ++ [x].
Proof.
  destruct l as [|a r]; [left; reflexivity|right].
  destruct (@exists_last _ (a :: r)) as (l' & x & E); [discriminate|].
  exists l', x. exact E.
Qed.

Lemma layout_set_next h q post h1 b :
  In (h1, b) (layout h post) ->
  exists b', In (h1, b') (layout h (set_next_pa q post))
             /\ bkind b' = bkind b /\ bsz b' = bsz b.
Proof.
  destruct post as [|Y r]; simpl; [contradiction|].
  intros [E|H].
  - inversion E; subst. exists (set_pa b q). auto.
  - exists b. auto.
Qed.

Lemma is_KA_set_next h q post bp sz :
  is_KA h post bp sz -> is_KA h (set_next_pa q post) bp sz.
Proof.
  intros (b & I & K & S).
  destruct (layout_set_next h q post _ _ I) as (b' & I' & K' & S').
  exists b'. repeat split; congruence.
Qed.

Lemma is_KA_cons_free h Y r bp sz :
  bkind Y <> KA -> is_KA h (Y :: r) bp sz -> is_KA (h + bsz Y) r bp sz.
Proof.
  intros HY (b & I & K & S). simpl in I. destruct I as [E|I].
  - inversion E; subst. contradiction.
  - exists b. auto.
Qed.

Lemma is_KA_snoc_free h l P bp sz :
  bkind P <> KA -> is_KA h (l ++ [P]) bp sz -> is_KA h l bp sz.
Proof.
  intros HP H. apply is_KA_mid in H.
  destruct H as [H|[(_ & K & _)|(b & [] & _)]]; [exact H|contradiction].
Qed.

(** ** [coalesce] as a whole *)

Lemma coalesce_spec s pre X post epa fl :
  Rep s (pre ++ X :: post) epa fl -> coalesce_pre pre X post epa ->
  exists pre' M post' epa' fl',
    snd (coalesce s (first_hdr (heap_start s) + total pre + 4))
    = first_hdr (heap_start s) + total pre' + 4 /\
    Rep (fst (coalesce s (first_hdr (heap_start s) + total pre + 4)))
        (pre' ++ M :: post') epa' fl' /\
    coalesce_post pre' M post' epa' /\
    bsz X <= bsz M /\
    total pre' <= total pre /\
    total pre + bsz X <= total pre' + bsz M /\
    (forall p sz, is_KA (first_hdr (heap_start s)) (pre ++ X :: post) p sz ->
                  is_KA (first_hdr (heap_start s)) (pre' ++ M :: post') p sz) /\
    keeps (first_hdr (heap_start s)) (pre ++ X :: post) (mem s)
      (mem (fst (coalesce s (first_hdr (heap_start s) + total pre + 4)))).
Proof.
  intros R (HK & Hpre & Hpost & Hpa & Htail & Hnaf).
  pose proof (pa_chain_end _ _ _ Hpa) as Eend.
  apply naf_mid in Hnaf. destruct Hnaf as [N1 N2].
  apply naf_snoc in N1. destruct N1 as [N1 _].
  apply naf_cons in N2. destruct N2 as [_ N2].
  assert (SzX : 16 <= bsz X).
  { assert (I : In ((first_hdr (heap_start s)) + total pre, X) (layout (first_hdr (heap_start s)) (pre ++ X :: post)))
      by apply layout_mid.
    apply (rep_in _ _ _ _ R _ _ I). }
  destruct (bpa X) eqn:EpaX.
  - (* the previous block is allocated *)
    destruct (next_is_alloc post) eqn:Ena.
    + (* Case 1 *)
      destruct (coalesce_case1 s pre X post epa fl R HK EpaX Ena) as (C1 & C2 & C3).
      exists pre, X, (set_next_pa false post), (next_epa false post epa), fl.
      split; [exact C1|]. split; [exact C2|].
      split; [|split; [lia|split; [lia|split; [lia|]]]].
      * split; [exact HK|]. split; [exact Hpre|].
        split; [apply no_KU_set_next; exact Hpost|]. split.
        -- apply pa_mid. split; [rewrite EpaX; exact Hpa|].
           rewrite HK. apply pa_set_next. exact Htail.
        -- apply naf_mid. split.
           ++ apply naf_snoc. split; [exact N1|]. left. congruence.
           ++ apply naf_cons. split.
              ** right. rewrite next_is_alloc_set. exact Ena.
              ** apply naf_set_next. exact N2.
      * split; [|exact C3].
        intros p sz H. apply is_KA_mid in H. apply is_KA_mid.
        destruct H as [H|[H|H]]; auto.
        right. right. apply is_KA_set_next. exact H.
    + (* Case 2 *)
      destruct post as [|Y r]; [discriminate|].
      simpl in Ena. inversion Hpost as [|? ? KY Hr]; subst.
      pose proof (not_alloc_KF _ KY Ena) as HKY.
      apply naf_cons in N2. destruct N2 as [[N2|N2] N3];
        [congruence|].
      destruct (coalesce_case2 s pre X Y r epa fl R HK HKY EpaX N2)
        as (C1 & C2 & C3).
      exists pre, (mkBlk (bsz X + bsz Y) KU true), (set_next_pa false r),
        (next_epa false r epa),
        (fl_remove fl (get_list (bsz Y))
           (first_hdr (heap_start s) + total pre + 4 + bsz X)).
      split; [exact C1|]. split; [exact C2|].
      assert (SzY : 16 <= bsz Y).
      { assert (I : In ((first_hdr (heap_start s)) + total (pre ++ [X]), Y)
                      (layout (first_hdr (heap_start s)) ((pre ++ [X]) ++ Y :: r)))
          by apply layout_mid.
        rewrite <- app_assoc in I. apply (rep_in _ _ _ _ R _ _ I). }
      split; [|split; [simpl; lia|split; [rewrite ?total_app; simpl; lia|split; [rewrite ?total_app; simpl; lia|]]]].
      * split; [reflexivity|]. split; [exact Hpre|].
        split; [apply no_KU_set_next; exact Hr|]. split.
        -- apply pa_mid. split; [exact Hpa|].
           simpl is_alloc. apply pa_set_next.
           simpl in Htail. rewrite HKY in Htail. simpl in Htail.
           destruct r as [|Z r']; [exact I|]. simpl in Htail. apply Htail.
        -- apply naf_mid. split.
           ++ apply naf_snoc. split; [exact N1|]. left. congruence.
           ++ apply naf_cons. split.
              ** right. rewrite next_is_alloc_set. exact N2.
              ** apply naf_set_next. exact N3.
      * split; [|exact C3].
        intros p sz H. apply is_KA_mid in H. apply is_KA_mid.
        destruct H as [H|[(_ & K & _)|H]]; [auto|congruence|].
        right. right. cbn [bsz]. apply is_KA_set_next.
        replace ((first_hdr (heap_start s)) + total pre + (bsz X + bsz Y))
          with ((first_hdr (heap_start s)) + total pre + bsz X + bsz Y) by lia.
        apply is_KA_cons_free; [rewrite HKY; discriminate|exact H].
  - (* the previous block is free *)
    destruct (blk_last_case pre) as [->|(pre0 & P & ->)];
      [simpl in Hpa; discriminate|].
    rewrite end_alloc_app in Eend. simpl in Eend.
    apply no_KU_app in Hpre. destruct Hpre as [Hpre0 HP].
    inversion HP as [|? ? KP _]; subst.
    pose proof (not_alloc_KF _ KP (eq_sym Eend)) as HKP.
    rewrite <- app_assoc in R. simpl in R.
    apply naf_snoc in N1. destruct N1 as [N0 NP].
    destruct NP as [NP|NP]; [|congruence].
    assert (Hpa0 : pa_chain true pre0 (bpa P)).
    { replace (pre0 ++ [P]) with (pre0 ++ P :: []) in Hpa by reflexivity.
      apply pa_mid in Hpa. apply Hpa. }
    assert (Ebp : first_hdr (heap_start s) + total (pre0 ++ [P]) + 4
                  = first_hdr (heap_start s) + total pre0 + bsz P + 4).
    { rewrite total_app. simpl. lia. }
    rewrite Ebp.
    assert (SzP : 16 <= bsz P).
    { assert (I : In ((first_hdr (heap_start s)) + total pre0, P) (layout (first_hdr (heap_start s)) (pre0 ++ P :: X :: post)))
        by apply layout_mid.
      apply (rep_in _ _ _ _ R _ _ I). }
    assert (KAkeep : forall p sz post' q,
              (forall p sz, is_KA ((first_hdr (heap_start s)) + total pre0 + bsz P + bsz X) post p sz ->
                            is_KA ((first_hdr (heap_start s)) + total pre0 + q) post' p sz) ->
              forall M, bsz M = q -> bkind M = KU ->
              is_KA (first_hdr (heap_start s)) ((pre0 ++ [P]) ++ X :: post) p sz ->
              is_KA (first_hdr (heap_start s)) (pre0 ++ M :: post') p sz).
    { intros p sz post' q Hp M EM KM H.
      apply is_KA_mid in H. apply is_KA_mid.
      destruct H as [H|[(_ & K & _)|H]]; [|congruence|].
      - left. apply (is_KA_snoc_free _ _ P); [rewrite HKP; discriminate|].
        exact H.
      - right. right. rewrite EM. apply Hp.
        rewrite total_app in H. simpl in H.
        replace ((first_hdr (heap_start s)) + total pre0 + bsz P + bsz X)
          with ((first_hdr (heap_start s)) + (total pre0 + (bsz P + 0)) + bsz X) by lia.
        exact H. }
    destruct (next_is_alloc post) eqn:Ena.
    + (* Case 3 *)
      destruct (coalesce_case3 s pre0 P X post epa fl R HK HKP EpaX Ena)
        as (C1 & C2 & C3).
      exists pre0, (mkBlk (bsz P + bsz X) KU (bpa P)),
        (set_next_pa false post), (next_epa false post epa),
        (fl_remove fl (get_list (bsz P))
           (first_hdr (heap_start s) + total pre0 + bsz P + 4 - bsz P)).
      split; [rewrite C1; lia|]. split; [exact C2|].
      split; [|split; [simpl; lia|split; [rewrite ?total_app; simpl; lia|split; [rewrite ?total_app; simpl; lia|]]]].
      * split; [reflexivity|]. split; [exact Hpre0|].
        split; [apply no_KU_set_next; exact Hpost|]. split.
        -- apply pa_mid. split; [exact Hpa0|].
           simpl is_alloc. apply pa_set_next. exact Htail.
        -- apply naf_mid. split.
           ++ apply naf_snoc. split; [exact N0|]. left. exact NP.
           ++ apply naf_cons. split.
              ** right. rewrite next_is_alloc_set. exact Ena.
              ** apply naf_set_next. exact N2.
      * split; [|rewrite <- app_assoc; exact C3].
        intros p sz. apply (KAkeep p sz _ (bsz P + bsz X)); try reflexivity.
        intros p' sz' H. apply is_KA_set_next.
        replace ((first_hdr (heap_start s)) + total pre0 + (bsz P + bsz X))
          with ((first_hdr (heap_start s)) + total pre0 + bsz P + bsz X) by lia. exact H.
    + (* Case 4 *)
      destruct post as [|Y r]; [discriminate|].
      simpl in Ena. inversion Hpost as [|? ? KY Hr]; subst.
      pose proof (not_alloc_KF _ KY Ena) as HKY.
      apply naf_cons in N2. destruct N2 as [[N2|N2] N3];
        [congruence|].
      destruct (coalesce_case4 s pre0 P X Y r epa fl R HK HKP HKY EpaX N2)
        as (C1 & C2 & C3).
      exists pre0, (mkBlk (bsz P + bsz X + bsz Y) KU (bpa P)),
        (set_next_pa false r), (next_epa false r epa),
        (fl_remove
           (fl_remove fl (get_list (bsz P))
              (first_hdr (heap_start s) + total pre0 + bsz P + 4 - bsz P))
           (get_list (bsz Y))
           (first_hdr (heap_start s) + total pre0 + bsz P + 4 + bsz X)).
      split; [rewrite C1; lia|]. split; [exact C2|].
      assert (SzY : 16 <= bsz Y).
      { assert (I : In ((first_hdr (heap_start s)) + total (pre0 ++ [P; X]), Y)
                      (layout (first_hdr (heap_start s)) ((pre0 ++ [P; X]) ++ Y :: r)))
          by apply layout_mid.
        rewrite <- app_assoc in I. apply (rep_in _ _ _ _ R _ _ I). }
      split; [|split; [simpl; lia|split; [rewrite ?total_app; simpl; lia|split; [rewrite ?total_app; simpl; lia|]]]].
      * split; [reflexivity|]. split; [exact Hpre0|].
        split; [apply no_KU_set_next; exact Hr|]. split.
        -- apply pa_mid. split; [exact Hpa0|].
           simpl is_alloc. apply pa_set_next.
           simpl in Htail. rewrite HKY in Htail. simpl in Htail.
           destruct r as [|Z r']; [exact I|]. simpl in Htail. apply Htail.
        -- apply naf_mid. split.
           ++ apply naf_snoc. split; [exact N0|]. left. exact NP.
           ++ apply naf_cons. split.
              ** right. rewrite next_is_alloc_set. exact N2.
              ** apply naf_set_next. exact N3.
      * split; [|rewrite <- app_assoc; exact C3].
        intros p sz.
        apply (KAkeep p sz _ (bsz P + bsz X + bsz Y)); try reflexivity.
        intros p' sz' H. apply is_KA_set_next.
        replace ((first_hdr (heap_start s)) + total pre0 + (bsz P + bsz X + bsz Y))
          with ((first_hdr (heap_start s)) + total pre0 + bsz P + bsz X + bsz Y) by lia.
        apply is_KA_cons_free; [rewrite HKY; discriminate|exact H].
Qed.

(** ** [mm_free] *)

Lemma pa_chain_kind p pre X X' post e :
  is_alloc (bkind X) = is_alloc (bkind X') -> bpa X = bpa X' ->
  pa_chain p (pre ++ X :: post) e -> pa_chain p (pre ++ X' :: post) e.
Proof.
  intros E1 E2. rewrite !pa_mid, E1, E2. tauto.
Qed.

Lemma no_KU_mid pre X post :
  no_KU (pre ++ X :: post) <-> no_KU pre /\ bkind X <> KU /\ no_KU post.
Proof.
  unfold no_KU. rewrite Forall_app. split.
  - intros [A B]. inversion B; subst. auto.
  - intros (A & B & C). split; [exact A|constructor; assumption].
Qed.

Lemma Rep_heap_listp s bl epa fl : Rep s bl epa fl -> heap_listp s <> 0.
Proof.
  intros R. rewrite (rep_hl _ _ _ _ R).
  pose proof (rep_hs _ _ _ _ R). lia.
Qed.

Lemma coalesce_heap_start s bp :
  heap_start (fst (coalesce s bp)) = heap_start s.
Proof. destruct (coalesce_set_mem s bp) as [m ->]. reflexivity. Qed.

Section Free.
Variables (s : state) (pre : list blk) (X : blk) (post : list blk).
Variables (epa : bool) (fl : Z -> list Z).
Hypothesis R : Rep s (pre ++ X :: post) epa fl.
Hypothesis HK : bkind X = KA.
Hypothesis HU : no_KU (pre ++ X :: post).
Hypothesis Hpa : pa_chain true (pre ++ X :: post) epa.
Hypothesis Hnaf : no_adj_free (pre ++ X :: post).
Let bp := first_hdr (heap_start s) + total pre + 4.

(** First step of [mm_free]: header and footer say free. *)
Lemma free_mark :
let m := mem s in
let tag := if negb (GET_PREV_ALLOC m (HDRP bp) =? 0) then 2 else 0 in
let m1 := PUT m (HDRP bp) (PACK (GET_SIZE m (HDRP bp)) tag) in
let m2 := PUT m1 (FTRP m1 bp) (PACK (GET_SIZE m (HDRP bp)) tag) in
Rep (set_mem s m2) (pre ++ set_kind X KU :: post) epa fl /\
keeps (first_hdr (heap_start s)) (pre ++ set_kind X KU :: post) m m2.
Proof.
cbv zeta. unfold bp.
rewrite (read_prev_alloc _ _ _ _ _ _ R), (read_size _ _ _ _ _ _ R).
rewrite tag_of_read.
assert (InX : In (bp - 4, X)
 (layout (first_hdr (heap_start s)) (pre ++ X :: post))).
{ unfold bp. replace (first_hdr (heap_start s) + total pre + 4 - 4)
with (first_hdr (heap_start s) + total pre) by lia. apply layout_mid. }
destruct (rep_in _ _ _ _ R _ _ InX) as (_ & _ & (S1 & S2) & Sok).
rewrite (PACK_tag _ (bpa X) S2). fold bp.
pose proof (put_hdr_ftr (mem s) bp (bsz X) (bpa X) Sok S1) as P.
cbv zeta in P. destruct P as (P1 & P2 & P3).
assert (EX : pre ++ set_kind X KU :: post
 = pre ++ [mkBlk (total [X]) KU (bpa X)] ++ post).
{ simpl. do 2 f_equal. unfold set_kind. f_equal. lia. }
rewrite EX.
assert (Elo : first_hdr (heap_start s) + total pre = bp - 4)
by (unfold bp; lia).
match goal with |- Rep (set_mem s ?m2) _ _ _ /\ _ =>
pose proof (Rep_merge s pre [X] post epa fl (bpa X) m2 R) as M
end.
assert (ET : total [X] = bsz X) by (simpl; lia).
rewrite Elo in M.
match type of M with _ -> _ -> _ -> _ -> _ -> ?C =>
assert (R2 : C)
end.
{ apply M; try rewrite ET.
- discriminate.
- constructor; [rewrite HK; discriminate|constructor].
- exact P1.
- exact P2.
- exact P3. }
split; [exact R2|].
apply keeps_outside; [exact (rep_sizes _ _ _ _ R2)| |].
{ constructor; [discriminate|constructor]. }
intros a Ha. apply P3. simpl in Ha. unfold bp. lia.
Qed.

Lemma free_spec :
exists bl' epa' fl',
Rep (mm_free s bp) bl' epa' fl' /\
no_KU bl' /\ pa_chain true bl' epa' /\ no_adj_free bl' /\
(forall p sz, p <> bp ->
 is_KA (first_hdr (heap_start s)) (pre ++ X :: post) p sz ->
 is_KA (first_hdr (heap_start s)) bl' p sz) /\
(forall sz, ~ is_KA (first_hdr (heap_start s)) bl' bp sz) /\
keeps (first_hdr (heap_start s)) (pre ++ set_kind X KU :: post) (mem s)
(mem (mm_free s bp)).
Proof.
pose proof free_mark as R1. cbv zeta in R1. destruct R1 as [R1 K1].
apply no_KU_mid in HU. destruct HU as (U1 & _ & U2).
assert (CP : coalesce_pre pre (set_kind X KU) post epa).
{ apply pa_mid in Hpa. destruct Hpa as [A B].
split; [reflexivity|]. split; [exact U1|]. split; [exact U2|].
split; [exact A|]. split.
- destruct post as [|Y r]; [exact I|]. simpl in B |- *. apply B.
- eapply naf_kind_irrelevant; [|exact Hnaf]. simpl. rewrite HK.
reflexivity. }
destruct (coalesce_spec _ _ _ _ _ _ R1 CP)
as (pre' & M & post' & epa' & fl' & C1 & C2 & C3 & _ & V1 & V2 & C5 & C6).
cbn [heap_start set_mem mem] in C1, C2, C5, C6. fold bp in C1, C2, C6.
assert (Hbp : (bp =? 0) = false).
{ apply Z.eqb_neq. pose proof (rep_hs _ _ _ _ R).
assert (0 <= total pre).
{ apply total_nonneg. pose proof (rep_sizes _ _ _ _ R) as W.
apply Forall_app in W. tauto. }
unfold bp, first_hdr. lia. }
assert (Hhl : (heap_listp s =? 0) = false)
by (apply Z.eqb_neq; apply (Rep_heap_listp _ _ _ _ R)).
unfold mm_free. rewrite Hbp, Hhl. unfold free_body. cbv zeta.
match type of C2 with Rep (fst (coalesce ?s1 _)) _ _ _ =>
pose proof (coalesce_heap_start s1 bp) as Ehs;
destruct (coalesce s1 bp) as [s2 rt] eqn:EC
end.
cbn [fst snd heap_start set_mem] in C1, C2, Ehs. subst rt.
destruct C3 as (KM & UM1 & UM2 & PM & NM).
pose proof (Rep_add_start _ _ _ _ _ _ C2 KM) as R3.
pose proof (proj2 (add_start_full _ _ _ _ _ _ C2 KM)) as K3.
rewrite Ehs in R3, K3.
eexists _, _, _. split; [exact R3|].
split; [|split; [|split; [|split; [|split]]]].
- apply no_KU_mid. split; [exact UM1|]. split; [simpl; discriminate|].
exact UM2.
- eapply pa_chain_kind; [| |exact PM]; [rewrite KM|]; reflexivity.
- exact NM.
- intros p sz Hp H.
apply is_KA_rekind_free; [rewrite KM; discriminate|].
apply C5. apply is_KA_rekind; [discriminate|unfold bp in Hp; lia|].
exact H.
- intros sz H.
pose proof (rep_sizes _ _ _ _ C2) as W.
apply Forall_app in W. destruct W as [W1 W2].
inversion W2 as [|? ? WM W3]; subst.
assert (SX : 16 <= bsz X).
{ assert (IX : In (first_hdr (heap_start s) + total pre, X)
 (layout (first_hdr (heap_start s)) (pre ++ X :: post)))
by apply layout_mid.
apply (rep_in _ _ _ _ R _ _ IX). }
cbn [bsz set_kind] in V2.
apply is_KA_mid in H.
destruct H as [(b & Ib & _)|[(_ & K & _)|(b & Ib & _)]].
+ destruct (layout_bounds _ _ _ _ W1 Ib) as (_ & B2 & (B3 & _)).
unfold bp in B2. lia.
+ simpl in K. discriminate.
+ destruct (layout_bounds _ _ _ _ W3 Ib) as (B1 & _).
cbn [bsz set_kind] in B1. unfold bp in B1. lia.
- apply (keeps_trans _ _ _ _ _ K1). apply (keeps_trans _ _ _ _ _ C6).
apply (keeps_mono _ _ _ _ _ C5 K3).
Qed.
End Free.

(** ** [place] *)

Lemma put_split m bp asize rem pa :
  size_ok asize -> size_ok rem -> 16 <= asize -> 16 <= rem ->
  let m2 := PUT m (HDRP bp) (hdr asize true pa) in
  let bp2 := NEXT_BLKP m2 bp in
  let m3 := PUT m2 (HDRP bp2) (hdr rem false true) in
  let m4 := PUT m3 (FTRP m3 bp2) (hdr rem false true) in
  bp2 = bp + asize /\
  GET m4 (bp - 4) = hdr asize true pa /\
  GET m4 (bp - 4 + asize) = hdr rem false true /\
  GET m4 (bp - 4 + asize + rem - 4) = hdr rem false true /\
  (forall a, a + 4 <= bp - 4 \/ bp - 4 + asize + rem <= a ->
             GET m4 a = GET m a).
Proof.
  intros Ha Hr Ha16 Hr16 m2 bp2 m3 m4.
  assert (E2 : bp2 = bp + asize).
  { unfold bp2, NEXT_BLKP, m2.
    change (bp - WSIZE) with (HDRP bp).
    rewrite GET_SIZE_PUT_hdr by exact Ha. reflexivity. }
  pose proof (put_hdr_ftr m2 bp2 rem true Hr Hr16) as P.
  cbv zeta in P. fold m3 m4 in P. destruct P as (P1 & P2 & P3).
  rewrite E2 in P1, P2, P3.
  split; [exact E2|]. split; [|split; [|split]].
  - rewrite P3 by lia. unfold m2, HDRP, WSIZE.
    rewrite GET_PUT_same. apply u32_small. apply hdr_range. exact Ha.
  - replace (bp - 4 + asize) with (bp + asize - 4) by lia. exact P1.
  - replace (bp - 4 + asize + rem - 4) with (bp + asize - 4 + rem - 4) by lia.
    exact P2.
  - intros a Hx. rewrite P3 by lia. unfold m2, HDRP, WSIZE.
    apply GET_PUT_other. lia.
Qed.

Lemma heap_start_set_mem s m : heap_start (set_mem s m) = heap_start s.
Proof. reflexivity. Qed.

Section Place.
Variables (s : state) (pre : list blk) (X : blk) (post : list blk).
Variables (epa : bool) (fl : Z -> list Z) (asize : Z).
Hypothesis R : Rep s (pre ++ X :: post) epa fl.
Hypothesis HK : bkind X = KF.
Hypothesis HU : no_KU (pre ++ X :: post).
Hypothesis Hpa : pa_chain true (pre ++ X :: post) epa.
Hypothesis Hnaf : no_adj_free (pre ++ X :: post).
Hypothesis Ha16 : 16 <= asize.
Hypothesis Ha8 : asize mod 8 = 0.
Hypothesis Hfit : asize <= bsz X.
Let bp := first_hdr (heap_start s) + total pre + 4.
Let H0 := first_hdr (heap_start s).

Let InX : In (bp - 4, X) (layout H0 (pre ++ X :: post)).
Proof.
unfold bp. replace (first_hdr (heap_start s) + total pre + 4 - 4)
with (first_hdr (heap_start s) + total pre) by lia. apply layout_mid.
Qed.

Let Hnext : next_is_alloc post = true.
Proof.
pose proof Hnaf as Hnaf'.
apply naf_mid in Hnaf'. destruct Hnaf' as [_ N].
apply naf_cons in N. destruct N as [[N|N] _]; [|exact N].
rewrite HK in N. discriminate.
Qed.

Let R1 : Rep (del_list s bp) (pre ++ set_kind X KU :: post) epa
 (fl_remove fl (get_list (bsz X)) bp).
Proof. apply (Rep_del_list _ _ _ _ _ _ R HK). Qed.

Let K1 : keeps H0 (pre ++ X :: post) (mem s) (mem (del_list s bp)).
Proof. apply (del_list_full _ _ _ _ _ _ R HK). Qed.

Lemma place_cond :
(2 * DSIZE <=? u64 (GET_SIZE (mem s) (HDRP bp) - asize))
= (16 <=? bsz X - asize).
Proof.
unfold bp. rewrite (read_size _ _ _ _ _ _ R).
destruct (rep_in _ _ _ _ R _ _ InX) as (_ & _ & _ & (Sok & _)).
rewrite u64_small by (unfold two32, two64 in *; lia). reflexivity.
Qed.

(** The whole-block branch. *)
Lemma place_whole :
bsz X - asize < 16 ->
Rep (place s bp asize) (pre ++ set_kind X KA :: set_next_pa true post)
(next_epa true post epa) (fl_remove fl (get_list (bsz X)) bp) /\
keeps H0 (pre ++ X :: post) (mem s) (mem (place s bp asize)).
Proof.
intros Hw. unfold place. cbv zeta. rewrite place_cond.
destruct (Z.leb_spec 16 (bsz X - asize)); [lia|].
set (s1 := del_list s bp) in *.
assert (EP : GET_PREV_ALLOC (mem s1) (HDRP bp) = if bpa X then 2 else 0)
by apply (read_prev_alloc _ _ _ _ _ _ R1).
assert (ES : GET_SIZE (mem s) (HDRP bp) = bsz X)
by apply (read_size _ _ _ _ _ _ R).
destruct (rep_in _ _ _ _ R _ _ InX) as (_ & _ & (S1 & S2) & Sok).
rewrite EP, ES.
assert (EW : (if negb ((if bpa X then 2 else 0) =? 0)
then PUT (mem s1) (HDRP bp) (PACK (bsz X) 3)
else PUT (mem s1) (HDRP bp) (PACK (bsz X) 1))
 = PUT (mem s1) (HDRP bp) (hdr (bsz X) true (bpa X))).
{ rewrite <- (PACK_tag_alloc _ (bpa X) S2). destruct (bpa X); reflexivity. }
rewrite EW.
set (m2 := PUT (mem s1) (HDRP bp) (hdr (bsz X) true (bpa X))).
assert (R2 : Rep (set_mem s1 m2) (pre ++ set_kind X KA :: post) epa
 (fl_remove fl (get_list (bsz X)) bp)).
{ change (pre ++ set_kind X KA :: post)
with (pre ++ [set_kind X KA] ++ post).
apply (Rep_surgery s1 pre [set_kind X KU] [set_kind X KA] post
 epa epa _ m2 R1).
- constructor; [simpl; discriminate|constructor].
- constructor; [simpl; discriminate|constructor].
- reflexivity.
- constructor; [split; assumption|constructor].
- intros h b [E|[]]. inversion E; subst. split.
+ unfold m2, HDRP, WSIZE, bp. cbn [bsz bkind bpa set_kind is_alloc].
replace (first_hdr (heap_start s) + total pre + 4 - 4)
with (first_hdr (heap_start s1) + total pre)
by (change (heap_start s1) with (heap_start s); lia).
rewrite GET_PUT_same. apply u32_small. apply hdr_range. exact Sok.
+ simpl. intros K. contradiction.
- unfold m2. rewrite GET_PUT_other.
+ apply (rep_epi _ _ _ _ R1).
+ right. change (heap_start s1) with (heap_start s).
rewrite total_app. simpl.
assert (0 <= total post).
{ apply total_nonneg. pose proof (rep_sizes _ _ _ _ R) as W.
apply Forall_app in W. destruct W as [_ W].
inversion W; assumption. }
unfold HDRP, WSIZE, bp. lia.
- intros a Hx _. unfold m2. apply GET_PUT_other.
change (heap_start s1) with (heap_start s) in Hx. simpl in Hx.
unfold HDRP, WSIZE, bp. lia. }
split; [apply (Rep_set_next _ _ _ _ _ _ R2 Hnext)|].
cbn [mem set_mem].
apply (keeps_trans _ _ _ (mem s1)); [exact K1|].
apply (keeps_outside _ pre [X] post); [exact (rep_sizes _ _ _ _ R)| |].
{ constructor; [rewrite HK; discriminate|constructor]. }
intros a Ha. simpl in Ha.
pose proof (read_next_hdr _ _ _ _ _ _ R2) as EN.
cbn [mem heap_start set_mem bsz set_kind] in EN.
change (heap_start s1) with (heap_start s) in EN. fold bp in EN.
rewrite EN. unfold m2.
rewrite !GET_PUT_other by (unfold H0, HDRP, WSIZE, bp in *; lia).
reflexivity.
Qed.

(** The split branch. *)
Lemma place_split :
16 <= bsz X - asize ->
Rep (place s bp asize)
(pre ++ mkBlk asize KA (bpa X)
 :: mkBlk (bsz X - asize) KF true :: set_next_pa false post)
(next_epa false post epa)
(fl_add (fl_remove fl (get_list (bsz X)) bp)
(get_list (bsz X - asize)) (bp + asize)) /\
keeps H0 (pre ++ X :: post) (mem s) (mem (place s bp asize)).
Proof.
intros Hs. unfold place. cbv zeta. rewrite place_cond.
destruct (Z.leb_spec 16 (bsz X - asize)); [|lia].
set (s1 := del_list s bp) in *.
assert (EP : GET_PREV_ALLOC (mem s1) (HDRP bp) = if bpa X then 2 else 0)
by apply (read_prev_alloc _ _ _ _ _ _ R1).
assert (ES : GET_SIZE (mem s) (HDRP bp) = bsz X)
by apply (read_size _ _ _ _ _ _ R).
destruct (rep_in _ _ _ _ R _ _ InX) as (_ & _ & (S1 & S2) & (Sok & _)).
rewrite EP, ES.
assert (Hrem : u64 (bsz X - asize) = bsz X - asize)
by (apply u64_small; unfold two32, two64 in *; lia).
rewrite Hrem.
assert (Aok : size_ok asize) by (split; [lia|exact Ha8]).
assert (Rok : size_ok (bsz X - asize)).
{ split; [lia|]. rewrite Zminus_mod, S2, Ha8. reflexivity. }
assert (EW : (if negb ((if bpa X then 2 else 0) =? 0)
then PUT (mem s1) (HDRP bp) (PACK asize 3)
else PUT (mem s1) (HDRP bp) (PACK asize 1))
 = PUT (mem s1) (HDRP bp) (hdr asize true (bpa X))).
{ rewrite <- (PACK_tag_alloc _ (bpa X) Ha8). destruct (bpa X); reflexivity. }
rewrite EW.
rewrite (PACK_tag _ true (proj2 Rok)).
pose proof (put_split (mem s1) bp asize (bsz X - asize) (bpa X)
Aok Rok Ha16 Hs) as P.
cbv zeta in P. destruct P as (E2 & P1 & P2 & P3 & P4).
rewrite E2 in *.
match goal with
| |- Rep (add_start (set_mem s1 (clear_prev_alloc_of_next ?mm _)) _) _ _ _
/\ _ =>
set (m4 := mm) in *
end.
set (A := mkBlk asize KA (bpa X)).
set (Rm := mkBlk (bsz X - asize) KU true).
assert (Tpost : 0 <= total post).
{ apply total_nonneg. pose proof (rep_sizes _ _ _ _ R) as W.
apply Forall_app in W. destruct W as [_ W]. inversion W; assumption. }
assert (Elo : first_hdr (heap_start s1) + total pre = bp - 4)
by (change (heap_start s1) with (heap_start s); unfold bp; lia).
assert (R2 : Rep (set_mem s1 m4) (pre ++ [A; Rm] ++ post) epa
 (fl_remove fl (get_list (bsz X)) bp)).
{ apply (Rep_surgery s1 pre [set_kind X KU] [A; Rm] post
 epa epa _ m4 R1).
- constructor; [simpl; discriminate|constructor].
- constructor; [simpl; discriminate|].
constructor; [simpl; discriminate|constructor].
- simpl. lia.
- constructor; [split; simpl; assumption|].
constructor; [split; simpl; [lia|apply Rok]|constructor].
- rewrite Elo. intros h b [E|[E|[]]]; inversion E; subst; split.
+ exact P1.
+ simpl. intros K. contradiction.
+ exact P2.
+ intros _. cbn [bsz Rm A].
replace (bp - 4 + asize + (bsz X - asize) - 4)
with (bp - 4 + asize + (bsz X - asize) - 4) by lia.
exact P3.
- rewrite P4.
+ apply (rep_epi _ _ _ _ R1).
+ right. rewrite total_app. simpl.
change (heap_start s1) with (heap_start s). unfold bp. lia.
- intros a Hx _. apply P4. rewrite Elo in Hx. simpl in Hx. lia. }
assert (R2' : Rep (set_mem s1 m4) ((pre ++ [A]) ++ Rm :: post) epa
(fl_remove fl (get_list (bsz X)) bp))
by (rewrite <- app_assoc; exact R2).
assert (Ebp2 : first_hdr (heap_start (set_mem s1 m4))
 + total (pre ++ [A]) + 4 = bp + asize).
{ rewrite total_app. simpl.
change (heap_start (set_mem s1 m4)) with (heap_start s).
unfold bp. lia. }
pose proof (Rep_clear_next _ _ _ _ _ _ R2' Hnext) as R3.
rewrite Ebp2 in R3. cbn [mem set_mem] in R3.
pose proof (Rep_add_start _ _ _ _ _ _ R3 eq_refl) as R4.
pose proof (proj2 (add_start_full _ _ _ _ _ _ R3 eq_refl)) as K4.
change (heap_start
(set_mem (set_mem s1 m4)
 (clear_prev_alloc_of_next m4 (bp + asize))))
with (heap_start (set_mem s1 m4)) in R4, K4.
rewrite Ebp2 in R4, K4. rewrite <- app_assoc in R4, K4.
split; [exact R4|].
cbn [mem set_mem heap_start app] in K4. fold H0 in K4.
apply (keeps_trans _ _ _ (mem s1)); [exact K1|].
apply (keeps_trans _ _ _ (clear_prev_alloc_of_next m4 (bp + asize))).
- apply (keeps_outside _ pre [X] post); [exact (rep_sizes _ _ _ _ R)| |].
{ constructor; [rewrite HK; discriminate|constructor]. }
intros a Ha. simpl in Ha. unfold clear_prev_alloc_of_next.
pose proof (read_next_hdr _ _ _ _ _ _ R2') as EN.
rewrite Ebp2 in EN. rewrite total_app in EN.
cbn [mem heap_start set_mem bsz Rm A total] in EN.
rewrite EN.
rewrite GET_PUT_other by (unfold H0, bp in *; lia).
apply P4. unfold H0, bp in *. lia.
- apply (keeps_mono _ _ (pre ++ A :: Rm :: set_next_pa false post));
[|exact K4].
intros q sz Hq. apply is_KA_mid in Hq. apply is_KA_mid.
destruct Hq as [Hq|[(_ & K & _)|Hq]]; [auto|congruence|].
right. right. destruct Hq as (b & Ib & Kb & Sb).
destruct (layout_set_next (H0 + total pre + bsz X) false post _ _ Ib)
as (b' & Ib' & Kb' & Sb').
exists b'. split; [|split; congruence].
simpl. right.
replace (H0 + total pre + asize + (bsz X - asize))
with (H0 + total pre + bsz X) by lia.
exact Ib'.
Qed.

Lemma place_spec :
exists bl' epa' fl',
Rep (place s bp asize) bl' epa' fl' /\
no_KU bl' /\ pa_chain true bl' epa' /\ no_adj_free bl' /\
(exists sz, asize <= sz /\ is_KA H0 bl' bp sz) /\
(forall p sz, is_KA H0 (pre ++ X :: post) p sz -> is_KA H0 bl' p sz) /\
keeps H0 (pre ++ X :: post) (mem s) (mem (place s bp asize)).
Proof.
pose proof HU as HU'. pose proof Hpa as Hpa'. pose proof Hnaf as Hnaf'.
apply no_KU_mid in HU'. destruct HU' as (U1 & _ & U2).
apply pa_mid in Hpa'. destruct Hpa' as [PA1 PA2].
rewrite HK in PA2. simpl in PA2.
assert (PT : pa_tail post epa).
{ destruct post as [|Y r]; [exact I|]. simpl in PA2 |- *. apply PA2. }
apply naf_mid in Hnaf'. destruct Hnaf' as [N1 N2].
apply naf_snoc in N1. destruct N1 as [N1 _].
apply naf_cons in N2. destruct N2 as [_ N2].
destruct (Z_lt_ge_dec (bsz X - asize) 16) as [Hw|Hs].
- exists (pre ++ set_kind X KA :: set_next_pa true post),
(next_epa true post epa), (fl_remove fl (get_list (bsz X)) bp).
split; [apply place_whole; exact Hw|].
split; [|split; [|split; [|split; [|split]]]];
[| | | | |apply place_whole; exact Hw].
+ apply no_KU_mid. split; [exact U1|]. split; [simpl; discriminate|].
apply no_KU_set_next. exact U2.
+ apply pa_mid. split; [exact PA1|]. simpl. apply pa_set_next. exact PT.
+ apply naf_mid. split.
* apply naf_snoc. split; [exact N1|]. right. reflexivity.
* apply naf_cons. split; [left; reflexivity|].
apply naf_set_next. exact N2.
+ exists (bsz X). split; [exact Hfit|]. apply is_KA_mid. right. left.
split; [unfold bp, H0; lia|split; reflexivity].
+ intros p sz H. apply is_KA_mid in H. apply is_KA_mid.
destruct H as [H|[(_ & K & _)|H]]; [auto|congruence|].
right. right. apply is_KA_set_next. exact H.
- exists (pre ++ mkBlk asize KA (bpa X)
:: mkBlk (bsz X - asize) KF true :: set_next_pa false post),
(next_epa false post epa),
(fl_add (fl_remove fl (get_list (bsz X)) bp)
(get_list (bsz X - asize)) (bp + asize)).
split; [apply place_split; lia|].
split; [|split; [|split; [|split; [|split]]]];
[| | | | |apply place_split; lia].
+ apply no_KU_mid. split; [exact U1|]. split; [simpl; discriminate|].
constructor; [simpl; discriminate|]. apply no_KU_set_next. exact U2.
+ apply pa_mid. split; [exact PA1|]. simpl. split; [reflexivity|].
apply pa_set_next. exact PT.
+ apply naf_mid. split.
* apply naf_snoc. split; [exact N1|]. right. reflexivity.
* apply naf_cons. split; [left; reflexivity|].
apply naf_cons. split.
-- right. rewrite next_is_alloc_set. exact Hnext.
-- apply naf_set_next. exact N2.
+ exists asize. split; [lia|]. apply is_KA_mid. right. left.
split; [unfold bp, H0; lia|split; reflexivity].
+ intros p sz H. apply is_KA_mid in H. apply is_KA_mid.
destruct H as [H|[(_ & K & _)|H]]; [auto|congruence|].
right. right. cbn [bsz].
destruct H as (b & Ib & Kb & Sb).
destruct (layout_set_next (H0 + total pre + bsz X) false post _ _ Ib)
as (b' & Ib' & Kb' & Sb').
exists b'. split; [|split; congruence].
simpl. right.
replace (H0 + total pre + asize + (bsz X - asize))
with (H0 + total pre + bsz X) by lia.
exact Ib'.
Qed.
End Place.

(** ** [extend_heap] *)

Section Extend.
Variables (s : state) (bl : list blk) (epa : bool) (fl : Z -> list Z).
Variable size : Z.
Hypothesis R : Rep s bl epa fl.
Hypothesis Hs16 : 16 <= size.
Hypothesis Hs8 : size mod 8 = 0.
Hypothesis Hroom : mem_brk s + size <= mem_max_addr s.
Let E := first_hdr (heap_start s) + total bl.
Let bp := mem_brk s.
Let s1 := mkState (heap_start s) (heap_listp s) (mem s)
(mem_brk s + size) (mem_max_addr s).

Let Ebp : bp = E + 4.
Proof. unfold bp, E. pose proof (rep_brk _ _ _ _ R). lia. Qed.

Let Sok : size_ok size.
Proof.
split; [|exact Hs8].
pose proof (rep_total _ _ _ _ R) as (T1 & _ & _).
pose proof (rep_brk _ _ _ _ R). pose proof (rep_fit _ _ _ _ R).
pose proof (rep_hs _ _ _ _ R). unfold first_hdr in *. lia.
Qed.

Lemma extend_tag :
GET_PREV_ALLOC (mem s) (HDRP bp) = if epa then 2 else 0.
Proof.
unfold GET_PREV_ALLOC, HDRP, WSIZE. rewrite Ebp.
replace (E + 4 - 4) with E by lia. unfold E.
rewrite (rep_epi _ _ _ _ R). apply hdr_prev_alloc. exact size_ok_0.
Qed.

Lemma Rep_extend :
let m1 := PUT (mem s) (HDRP bp) (hdr size false epa) in
let m2 := PUT m1 (FTRP m1 bp) (hdr size false epa) in
let m3 := PUT m2 (HDRP (NEXT_BLKP m2 bp)) (PACK 0 1) in
Rep (set_mem s1 m3) (bl ++ [mkBlk size KU epa]) false fl.
Proof.
intros m1 m2 m3.
pose proof (put_hdr_ftr (mem s) bp size epa Sok Hs16) as P.
cbv zeta in P. fold m1 m2 in P. destruct P as (P1 & P2 & P3).
assert (EN : HDRP (NEXT_BLKP m2 bp) = E + size).
{ unfold NEXT_BLKP, HDRP, WSIZE, GET_SIZE. rewrite P1.
rewrite hdr_size by exact Sok. lia. }
assert (F : forall a, a + 4 <= E -> GET m3 a = GET (mem s) a).
{ intros a Ha. unfold m3. rewrite EN, GET_PUT_other by lia.
apply P3. lia. }
pose proof (rep_sizes _ _ _ _ R) as W.
pose proof (total_nonneg _ W) as T.
pose proof (rep_hs _ _ _ _ R) as Hhs.
assert (Tot : total (bl ++ [mkBlk size KU epa]) = total bl + size)
by (rewrite total_app; simpl; lia).
constructor; cbn [heap_listp heap_start mem mem_brk mem_max_addr set_mem s1];
try rewrite Tot.
- apply (rep_hl _ _ _ _ R).
- exact Hhs.
- pose proof (rep_brk _ _ _ _ R). lia.
- exact Hroom.
- apply (rep_fit _ _ _ _ R).
- apply (rep_64 _ _ _ _ R).
- apply Forall_app. split; [exact W|].
constructor; [split; assumption|constructor].
- intros h b Hin. apply layout_in_app in Hin. destruct Hin as [Hin|Hin].
+ destruct (layout_bounds _ _ _ _ W Hin) as (A & B & (C & _)).
destruct (rep_blocks _ _ _ _ R h b Hin) as [B1 B2].
split.
* rewrite F by (unfold E; lia). exact B1.
* intros K. rewrite F by (unfold E; lia). auto.
+ simpl in Hin. destruct Hin as [Eq|[]]. inversion Eq; subst.
fold E. split; cbn [bsz bkind bpa is_alloc].
* unfold m3. rewrite EN, GET_PUT_other by lia.
replace E with (bp - 4) by lia. exact P1.
* intros _. unfold m3. rewrite EN, GET_PUT_other by lia.
replace (E + size - 4) with (bp - 4 + size - 4) by lia. exact P2.
- replace (first_hdr (heap_start s) + (total bl + size)) with (E + size)
by (unfold E; lia).
unfold m3. rewrite EN, GET_PUT_same. reflexivity.
- intros i Hi. rewrite <- (rep_roots _ _ _ _ R i Hi). apply F.
rewrite (rep_hl _ _ _ _ R). unfold root_addr, WSIZE, E, first_hdr. lia.
- intros i Hi.
apply seg_frame with (m := mem s); [|apply (rep_chain _ _ _ _ R i Hi)].
intros c Hc.
destruct (rep_fl_in _ _ _ _ R i c Hc) as (y & Iy & _).
destruct (layout_bounds _ _ _ _ W Iy) as (A & B & (C & _)).
split; apply F; unfold E; lia.
- intros i c. rewrite (rep_listed _ _ _ _ R i c).
split; intros (y & Iy & Ky & Gy); exists y; (split; [|auto]).
+ apply layout_in_app. left. exact Iy.
+ apply layout_in_app in Iy. destruct Iy as [Iy|Iy]; [exact Iy|].
simpl in Iy. destruct Iy as [Eq|[]]. inversion Eq; subst.
discriminate.
- apply (rep_nodup _ _ _ _ R).
Qed.

Lemma extend_keeps :
let m1 := PUT (mem s) (HDRP bp) (hdr size false epa) in
let m2 := PUT m1 (FTRP m1 bp) (hdr size false epa) in
let m3 := PUT m2 (HDRP (NEXT_BLKP m2 bp)) (PACK 0 1) in
keeps (first_hdr (heap_start s)) bl (mem s) m3.
Proof.
intros m1 m2 m3.
pose proof (put_hdr_ftr (mem s) bp size epa Sok Hs16) as P.
cbv zeta in P. fold m1 m2 in P. destruct P as (P1 & P2 & P3).
assert (EN : HDRP (NEXT_BLKP m2 bp) = E + size).
{ unfold NEXT_BLKP, HDRP, WSIZE, GET_SIZE. rewrite P1.
rewrite hdr_size by exact Sok. lia. }
pose proof (total_nonneg _ (rep_sizes _ _ _ _ R)) as T.
split.
2:{ intros a Ha.
unfold m3. rewrite EN, GET_PUT_other by (unfold E; lia).
apply P3. unfold E in *. lia. }
intros q sz (b & Ib & Kb & Sb) a H1 H2.
destruct (layout_bounds _ _ _ _ (rep_sizes _ _ _ _ R) Ib) as (_ & B & _).
unfold m3. rewrite EN, GET_PUT_other by (unfold E; lia).
apply P3. unfold E in *. lia.
Qed.
End Extend.

Lemma add_start_heap_start s bp : heap_start (add_start s bp) = heap_start s.
Proof. reflexivity. Qed.

Lemma extend_heap_spec s bl epa fl words :
  Rep s bl epa fl -> no_KU bl -> pa_chain true bl epa -> no_adj_free bl ->
  16 <= extend_bytes words -> extend_bytes words mod 8 = 0 ->
  (mem_sbrk s (extend_bytes words) = None /\ extend_heap s words = (s, NULL))
  \/
  (exists pre' M post' epa' fl',
     snd (extend_heap s words) = first_hdr (heap_start s) + total pre' + 4 /\
     Rep (fst (extend_heap s words)) (pre' ++ M :: post') epa' fl' /\
     bkind M = KF /\ extend_bytes words <= bsz M /\
     no_KU (pre' ++ M :: post') /\
     pa_chain true (pre' ++ M :: post') epa' /\
     no_adj_free (pre' ++ M :: post') /\
     heap_start (fst (extend_heap s words)) = heap_start s /\
     (forall p sz, is_KA (first_hdr (heap_start s)) bl p sz ->
        is_KA (first_hdr (heap_start s)) (pre' ++ M :: post') p sz) /\
     mem_brk (fst (extend_heap s words)) = mem_brk s + extend_bytes words /\
     post' = [] /\
     keeps (first_hdr (heap_start s)) bl (mem s)
       (mem (fst (extend_heap s words)))).
Proof.
  intros R HU Hpa Hnaf H16 H8.
  set (size := extend_bytes words) in *.
  unfold extend_heap. cbv zeta. fold size.
  destruct (mem_sbrk s size) as [[bp s1]|] eqn:Es; [right|left; auto].
  apply mem_sbrk_Some in Es. destruct Es as (-> & _ & Hroom & ->).
  cbn [mem].
  rewrite (extend_tag _ _ _ _ R), tag_of_read, (PACK_tag _ epa H8).
  pose proof (Rep_extend s bl epa fl size R H16 H8 Hroom) as R1.
  pose proof (extend_keeps s bl epa fl size R H16 H8 Hroom) as K1.
  cbv zeta in R1, K1.
  match type of R1 with Rep ?st _ _ _ => set (s2 := st) in * end.
  change (keeps (first_hdr (heap_start s)) bl (mem s) (mem s2)) in K1.
  assert (CP : coalesce_pre bl (mkBlk size KU epa) [] false).
  { split; [reflexivity|]. split; [exact HU|]. split; [constructor|].
    split; [exact Hpa|]. split; [exact I|].
    apply naf_snoc. split; [exact Hnaf|]. right. reflexivity. }
  destruct (coalesce_spec _ _ _ _ _ _ R1 CP)
    as (pre' & M & post' & epa' & fl' & C1 & C2 & C3 & C4 & V1 & V2 & C5
        & C6).
  change (heap_start s2) with (heap_start s) in C1, C2, C5, C6.
  assert (Ebp : first_hdr (heap_start s) + total bl + 4 = mem_brk s)
    by apply (rep_brk _ _ _ _ R).
  rewrite Ebp in C1, C2, C6.
  pose proof (coalesce_heap_start s2 (mem_brk s)) as Ehs.
  change (heap_start s2) with (heap_start s) in Ehs.
  destruct (coalesce s2 (mem_brk s)) as [s3 rt] eqn:EC.
  cbn [fst snd] in *. subst rt.
  destruct C3 as (KM & UM1 & UM2 & PM & NM).
  pose proof (Rep_add_start _ _ _ _ _ _ C2 KM) as R3.
  pose proof (proj2 (add_start_full _ _ _ _ _ _ C2 KM)) as K3.
  rewrite Ehs in R3, K3.
  exists pre', (set_kind M KF), post', epa'. eexists.
  split; [reflexivity|]. split; [exact R3|].
  split; [reflexivity|]. split; [exact C4|].
  assert (Eb3 : mem_brk s3 = mem_brk s + size).
  { destruct (coalesce_set_mem s2 (mem_brk s)) as (m3 & Em3).
    rewrite EC in Em3. cbn [fst] in Em3. rewrite Em3. reflexivity. }
  assert (In1 : forall p sz, is_KA (first_hdr (heap_start s)) bl p sz ->
            is_KA (first_hdr (heap_start s)) (bl ++ [mkBlk size KU epa]) p sz).
  { intros p sz H. apply is_KA_mid. left. exact H. }
  split; [|split; [|split; [|split; [|split; [|split; [|split]]]]]];
    [| | | | | | |
     apply (keeps_trans _ _ _ _ _ K1);
     apply (keeps_trans _ _ _ (mem s3));
     [exact (keeps_mono _ _ _ _ _ In1 C6)
     |apply (keeps_mono _ _ (pre' ++ M :: post')); [|exact K3];
      intros p sz H; apply C5, In1, H]].
  - apply no_KU_mid. split; [exact UM1|]. split; [simpl; discriminate|].
    exact UM2.
  - eapply pa_chain_kind; [| |exact PM]; [rewrite KM|]; reflexivity.
  - exact NM.
  - exact Ehs.
  - intros p sz H.
    apply is_KA_rekind_free; [rewrite KM; discriminate|].
    apply C5. apply is_KA_mid. left. exact H.
  - exact Eb3.
  - pose proof (rep_brk _ _ _ _ C2) as B. rewrite Eb3, Ehs in B.
    pose proof (rep_sizes _ _ _ _ C2) as W.
    apply Forall_app in W. destruct W as [_ W].
    inversion W as [|? ? _ W3]; subst.
    rewrite total_app in B. simpl in B, V2.
    destruct post' as [|Y r]; [reflexivity|exfalso].
    inversion W3 as [|? ? (SY & _) W4]; subst.
    pose proof (total_nonneg _ W4). simpl in B. lia.
Qed.

(** ** [mm_init] *)

Lemma init_roots_spec n m hl i0 :
  0 <= i0 ->
  (forall j, i0 <= j < i0 + Z.of_nat n -> j < 20 ->
             GET (init_roots n m hl i0) (hl + (3 + j) * 4) = 0) /\
  (forall a, a + 4 <= hl + (3 + i0) * 4 \/ hl + 92 <= a ->
             GET (init_roots n m hl i0) a = GET m a).
Proof.
  revert m i0. induction n as [|n IH]; intros m i0 Hi0.
  - split; [intros j Hj; lia|reflexivity].
  - cbn [init_roots]. destruct (Z.ltb_spec i0 20) as [Hlt|Hge].
    + destruct (IH (PUT m (hl + (3 + i0) * WSIZE) NULL) (i0 + 1)) as [A B];
        [lia|].
      split.
      * intros j Hj Hj20.
        destruct (Z.eq_dec j i0) as [->|Hne].
        -- rewrite B by lia. unfold WSIZE. rewrite GET_PUT_same. reflexivity.
        -- apply A; lia.
      * intros a Ha. rewrite B by lia. apply GET_PUT_other.
        unfold WSIZE. lia.
    + split; [intros j Hj Hj20; lia|reflexivity].
Qed.

Section Init.
Variable s : state.
Hypothesis Hbrk : 0 <= mem_brk s.
Hypothesis Hroom : mem_brk s + 96 <= mem_max_addr s.
Hypothesis Hfit : mem_max_addr s - mem_brk s < two32.
Hypothesis H64 : mem_max_addr s < two64.
Let hl := mem_brk s.

(** The state [mm_init] builds before it extends the heap: no block yet,
twenty empty class lists, and the epilogue after the prologue. *)
Lemma Rep_init :
let m := PUT (mem s) hl 0 in
let m := PUT m (hl + 1 * WSIZE) (PACK DSIZE 1) in
let m := PUT m (hl + 2 * WSIZE) (PACK DSIZE 1) in
let m := init_roots 20 m hl 0 in
let m := PUT m (hl + 23 * WSIZE) (PACK 0 3) in
Rep (mkState hl (hl + 2 * WSIZE) m (hl + 24 * WSIZE) (mem_max_addr s))
[] true (fun _ => []).
Proof.
cbv zeta. unfold WSIZE, DSIZE.
constructor; cbn [heap_listp heap_start mem mem_brk mem_max_addr total
layout]; unfold first_hdr; fold hl; try lia.
- constructor.
- intros h b [].
- rewrite Z.add_0_r. replace (hl + 23 * 4) with (hl + 92) by lia.
rewrite GET_PUT_same. reflexivity.
- intros i Hi. unfold root_addr, WSIZE, head_off.
rewrite GET_PUT_other by lia.
match goal with |- GET (init_roots 20 ?m0 hl 0) _ = _ =>
destruct (init_roots_spec 20 m0 hl 0) as [A _]; [lia|]
end.
replace (hl + 2 * 4 + 4 * (i + 1)) with (hl + (3 + i) * 4) by lia.
apply A; lia.
- intros i Hi. exact I.
- intros i bp. simpl. split; [intros []|intros (b & [] & _)].
- intros i. constructor.
Qed.

Lemma mm_init_spec :
Inv (fst (mm_init s)) /\ heap_start (fst (mm_init s)) = mem_brk s.
Proof.
unfold mm_init.
assert (Es : mem_sbrk s (24 * WSIZE)
 = Some (mem_brk s,
 mkState (heap_start s) (heap_listp s) (mem s)
 (mem_brk s + 24 * WSIZE) (mem_max_addr s))).
{ unfold mem_sbrk, WSIZE.
destruct (Z.leb_spec 0 (24 * 4)); [|lia].
destruct (Z.leb_spec (mem_brk s + 24 * 4) (mem_max_addr s)); [|lia].
reflexivity. }
rewrite Es. cbv zeta. cbn [mem mem_brk mem_max_addr].
pose proof Rep_init as R0. cbv zeta in R0. fold hl.
match type of R0 with Rep ?st _ _ _ => set (s0 := st) in * end.
assert (E256 : extend_bytes (CHUNKSIZE / WSIZE) = 256) by reflexivity.
destruct (extend_heap_spec s0 [] true (fun _ => []) (CHUNKSIZE / WSIZE) R0)
as [[_ Ef]|(pre' & M & post' & epa' & fl' & C1 & C2 & _ & _ & U & P & N
 & Ehs & _)];
try (constructor; fail); try reflexivity;
try (rewrite E256; lia); try (rewrite E256; reflexivity).
- rewrite Ef. cbn [fst NULL Z.eqb]. split; [|reflexivity].
exists [], true, (fun _ => []). split; [exact R0|].
split; [constructor|]. split; [reflexivity|exact I].
- destruct (extend_heap s0 (CHUNKSIZE / WSIZE)) as [s1 bp] eqn:E.
cbn [fst snd] in *.
assert (X : fst (if bp =? NULL then (s1, -1) else (s1, 0)) = s1)
by (destruct (bp =? NULL); reflexivity).
rewrite X. split; [|exact Ehs].
exists (pre' ++ M :: post'), epa', fl'. auto.
Qed.
End Init.

(** ** [find_fit] *)

Lemma get_list_loop_nonneg n size i count :
  0 <= count -> 0 <= get_list_loop n size i count.
Proof.
  revert i count.
  induction n as [|n IH]; intros i count Hc; cbn [get_list_loop]; [lia|].
  destruct (i <=? 49152); [|lia].
  destruct ((size <=? i) && (i / 2 <? size)); [lia|].
  apply IH. lia.
Qed.

Lemma get_list_nonneg x : 0 <= get_list x.
Proof.
  unfold get_list. destruct (x <=? 96).
  - pose proof (u32_range (x - 16)). apply Z.div_pos; lia.
  - destruct ((96 <? x) && (x <=? 49152)); [|lia].
    apply get_list_loop_nonneg. lia.
Qed.

Lemma first_in_app sz a l1 l2 :
  (forall b, In b l1 -> b <> NULL) ->
  first_in sz a (l1 ++ l2)
  = if first_in sz a l1 =? NULL then first_in sz a l2 else first_in sz a l1.
Proof.
  induction l1 as [|b r IH]; intros Hn; simpl.
  - reflexivity.
  - destruct (a <=? sz b) eqn:E.
    + destruct (Z.eqb_spec b NULL) as [E0|_]; [|reflexivity].
      exfalso. apply (Hn b); [left; reflexivity|exact E0].
    + apply IH. intros c Hc. apply Hn. right. exact Hc.
Qed.

Lemma first_in_spec sz a l :
  (forall b, In b l -> b <> NULL) ->
  (first_in sz a l = NULL /\ forall b, In b l -> sz b < a)
  \/ (exists l1 l2, l = l1 ++ first_in sz a l :: l2
                    /\ a <= sz (first_in sz a l)
                    /\ forall b, In b l1 -> sz b < a).
Proof.
  induction l as [|b r IH]; intros Hn; simpl.
  - left. split; [reflexivity|intros b []].
  - destruct (Z.leb_spec a (sz b)) as [Hle|Hgt].
    + right. exists [], r. split; [reflexivity|]. split; [exact Hle|].
      intros c [].
    + destruct IH as [[E H]|(l1 & l2 & E & H1 & H2)].
      * intros c Hc. apply Hn. right. exact Hc.
      * left. split; [exact E|]. intros c [<-|Hc]; auto.
      * right. exists (b :: l1), l2. split; [simpl; f_equal; exact E|].
        split; [exact H1|]. intros c [<-|Hc]; auto.
Qed.

Lemma in_cands k fl i b :
  In b (cands k fl i) <->
  exists j, i <= j < i + Z.of_nat k /\ j <= 19 /\ In b (fl j).
Proof.
  revert i. induction k as [|k IH]; intros i.
  - simpl. split; [intros []|intros (j & H & _); lia].
  - cbn [cands]. destruct (Z.leb_spec i 19) as [Hle|Hgt].
    + rewrite in_app_iff, IH. split.
      * intros [H|(j & Hj & Hj19 & H)].
        -- exists i. split; [lia|]. auto.
        -- exists j. split; [lia|]. auto.
      * intros (j & Hj & Hj19 & H).
        destruct (Z.eq_dec j i) as [->|Hne]; [left; exact H|right].
        exists j. split; [lia|]. auto.
    + split; [intros []|intros (j & Hj & Hj19 & _); lia].
Qed.

Section FindFit.
Variables (s : state) (bl : list blk) (epa : bool) (fl : Z -> list Z).
Hypothesis R : Rep s bl epa fl.
Let m := mem s.
Let hs := heap_start s.
Let size_of (b : Z) : Z := GET_SIZE m (HDRP b).

Lemma scan_list_spec fuel asize p l :
seg m hs p l 0 -> (forall b, In b l -> okp hs b) ->
(length l < fuel)%nat ->
scan_list fuel m hs (first_addr l) asize
= Some (first_in size_of asize l).
Proof.
revert fuel p. induction l as [|b r IH]; intros fuel p Hseg Hok Hf.
- destruct fuel; [simpl in Hf; lia|]. reflexivity.
- destruct fuel as [|fuel]; [simpl in Hf; lia|].
apply seg_unfold in Hseg. destruct Hseg as (_ & S2 & S3).
pose proof (rep_hs _ _ _ _ R) as Hhs. fold hs in Hhs.
cbn [scan_list first_addr first_in].
rewrite (okp_nonnull hs b Hhs (Hok b (or_introl eq_refl))).
fold (size_of b). destruct (asize <=? size_of b); [reflexivity|].
assert (E : get_succ m hs b = first_addr r).
{ unfold get_succ, SUCC, WSIZE. cbv zeta. rewrite S2.
destruct r as [|c r']; [reflexivity|]. simpl.
assert (Hc : okp hs c) by (apply Hok; right; left; reflexivity).
pose proof Hc as (A & _).
destruct (Z.eqb_spec (c - hs) 0); [lia|].
apply get_addr_off. exact Hc. }
rewrite E. apply (IH fuel (b - hs)).
+ exact S3.
+ intros c Hc. apply Hok. right. exact Hc.
+ simpl in Hf. lia.
Qed.

Lemma root_first i :
0 <= i < 20 ->
get_addr hs (GET m (root_addr (heap_listp s) i)) = first_addr (fl i).
Proof.
intros Hi. unfold m. rewrite (rep_roots _ _ _ _ R i Hi). fold hs.
destruct (fl i) as [|b r] eqn:E; [reflexivity|]. simpl.
apply get_addr_off. apply (rep_fl_okp _ _ _ _ R i). rewrite E. left.
reflexivity.
Qed.

Lemma find_fit_loop_spec k fuel i asize :
0 <= i -> (forall j, (length (fl j) < fuel)%nat) ->
find_fit_loop k fuel s i asize
= Some (first_in size_of asize (cands k fl i)).
Proof.
revert i. induction k as [|k IH]; intros i Hi Hf; [reflexivity|].
cbn [find_fit_loop cands]. destruct (Z.leb_spec i 19) as [Hle|Hgt];
[|reflexivity].
fold m hs. rewrite (root_first i) by lia.
rewrite (scan_list_spec fuel asize 0 (fl i)).
- rewrite first_in_app.
+ destruct (first_in size_of asize (fl i) =? NULL); [|reflexivity].
apply IH; [lia|exact Hf].
+ intros b Hb. destruct (rep_fl_okp _ _ _ _ R i b Hb) as [(A & _) _].
pose proof (rep_hs _ _ _ _ R). unfold NULL. fold hs in H. lia.
- apply (rep_chain _ _ _ _ R i). lia.
- intros b Hb. apply (rep_fl_okp _ _ _ _ R i b Hb).
- apply Hf.
Qed.

(** [find_fit] returns the first block, in the order class
[get_list asize], ..., 19 and head to tail inside a class, that is
large enough. *)
Lemma find_fit_spec fuel asize :
(forall j, (length (fl j) < fuel)%nat) ->
find_fit fuel s asize
= Some (first_in size_of asize (cands 20 fl (get_list (u32 asize)))).
Proof.
intros Hf. unfold find_fit. cbv zeta.
apply find_fit_loop_spec; [apply get_list_nonneg|exact Hf].
Qed.
End FindFit.

(** ** [mm_malloc] *)

Lemma Good_Inv s bl epa fl : Good s bl epa fl -> Inv s.
Proof. intros H. exists bl, epa, fl. exact H. Qed.

Lemma extend_bytes_even x :
  0 <= x < two64 -> x mod 8 = 0 -> extend_bytes (x / WSIZE) = x.
Proof.
  intros Hx H8. unfold extend_bytes, WSIZE.
  assert (E : (x / 4) mod 2 = 0)
    by (clear Hx; Z.to_euclidean_division_equations; lia).
  rewrite E. cbn [Z.eqb negb].
  assert (E4 : x / 4 * 4 = x)
    by (clear Hx; Z.to_euclidean_division_equations; lia).
  rewrite E4. apply u64_small. exact Hx.
Qed.

Lemma MAX_spec x y : MAX x y = Z.max x y.
Proof. unfold MAX. destruct (Z.ltb_spec y x); lia. Qed.

Lemma place_heap_start s bp asize :
  heap_start (place s bp asize) = heap_start s.
Proof.
  unfold place. cbv zeta.
  destruct (2 * DSIZE <=? u64 (GET_SIZE (mem s) (HDRP bp) - asize));
    reflexivity.
Qed.

(** An address holds one block: where a block that is not allocated
    starts, no allocated block starts. *)
Lemma not_KA_at h0 bl h b sz :
  Forall size_wf bl -> In (h, b) (layout h0 bl) -> bkind b <> KA ->
  ~ is_KA h0 bl (h + 4) sz.
Proof.
  intros W I K (b' & I' & K' & _).
  replace (h + 4 - 4) with h in I' by lia.
  destruct (layout_bounds _ _ _ _ W I) as (_ & _ & (S1 & _)).
  destruct (layout_bounds _ _ _ _ W I') as (_ & _ & (S2 & _)).
  destruct (layout_sep _ _ _ _ _ _ W I I') as [[_ E]|[L|L]];
    [subst; contradiction|lia|lia].
Qed.

Section Malloc.
Variables (s : state) (bl : list blk) (epa : bool) (fl : Z -> list Z).
Variables (fuel : nat) (n : Z).
Hypothesis G : Good s bl epa fl.
Hypothesis Hn : 0 <= n <= two64 - 12.
Hypothesis Hfuel : forall j, (length (fl j) < fuel)%nat.
Let H0 := first_hdr (heap_start s).

Lemma malloc_spec :
exists s' p bl' epa' fl',
mm_malloc fuel s n = Some (s', p) /\
Good s' bl' epa' fl' /\
heap_start s' = heap_start s /\
(p <> NULL -> exists sz, n + 4 <= sz /\ is_KA H0 bl' p sz) /\
(forall q sz, is_KA H0 bl q sz -> is_KA H0 bl' q sz) /\
(p <> NULL -> forall sz, ~ is_KA H0 bl p sz) /\
keeps H0 bl (mem s) (mem s').
Proof.
destruct G as (R & HU & Hpa & Hnaf).
unfold mm_malloc.
destruct (Z.eqb_spec (heap_listp s) 0) as [E0|_];
[exfalso; apply (Rep_heap_listp _ _ _ _ R); exact E0|].
unfold malloc_body.
destruct (Z.eqb_spec n 0) as [->|Hn0].
{ exists s, NULL, bl, epa, fl. split; [reflexivity|].
split; [exact G|]. split; [reflexivity|].
split; [intros H; contradiction|].
split; [auto|]. split; [intros H; contradiction|apply keeps_refl]. }
cbv zeta.
destruct (adjust_size_in_range n) as (_ & A8 & A16 & A4 & Amax); [lia|].
set (asize := adjust_size n) in *.
rewrite (find_fit_spec _ _ _ _ R fuel asize Hfuel).
set (size_of := fun b => GET_SIZE (mem s) (HDRP b)).
set (cs := cands 20 fl (get_list (u32 asize))).
assert (Hnn : forall b, In b cs -> b <> NULL).
{ intros b Hb. apply in_cands in Hb. destruct Hb as (j & _ & _ & Hb).
destruct (rep_fl_okp _ _ _ _ R j b Hb) as [(A & _) _].
pose proof (rep_hs _ _ _ _ R). unfold NULL. lia. }
destruct (first_in_spec size_of asize cs Hnn)
as [[E _]|(l1 & l2 & E & Hsz & _)].
- (* no fit: extend the heap *)
fold size_of cs. rewrite E. cbn [NULL Z.eqb negb].
assert (Ex : extend_bytes (MAX asize CHUNKSIZE / WSIZE)
 = Z.max asize 256).
{ rewrite MAX_spec. change CHUNKSIZE with 256.
apply extend_bytes_even.
- unfold two64 in *. lia.
- destruct (Z.max_spec asize 256) as [[_ ->]|[_ ->]];
[reflexivity|exact A8]. }
destruct (extend_heap_spec s bl epa fl (MAX asize CHUNKSIZE / WSIZE)
R HU Hpa Hnaf)
as [[_ Ef]|(pre' & M & post' & epa' & fl' & C1 & C2 & KM & SM & U & P
 & N & Ehs & Keep & _ & _ & KE)].
+ rewrite Ex. lia.
+ rewrite Ex. destruct (Z.max_spec asize 256) as [[_ ->]|[_ ->]];
[reflexivity|exact A8].
+ rewrite Ef. cbn [NULL Z.eqb].
exists s, 0, bl, epa, fl. split; [reflexivity|].
split; [exact G|]. split; [reflexivity|].
split; [intros H; contradiction|].
split; [auto|]. split; [intros H; contradiction|apply keeps_refl].
+ destruct (extend_heap s (MAX asize CHUNKSIZE / WSIZE)) as [s1 bp] eqn:EE.
cbn [fst snd] in *. subst bp.
assert (Hbp : (first_hdr (heap_start s) + total pre' + 4 =? NULL)
= false).
{ apply Z.eqb_neq. pose proof (rep_hs _ _ _ _ R).
assert (0 <= total pre').
{ apply total_nonneg. pose proof (rep_sizes _ _ _ _ C2) as W.
apply Forall_app in W. tauto. }
unfold first_hdr, NULL. lia. }
rewrite Hbp. rewrite <- Ehs.
rewrite <- Ehs in Keep.
destruct (place_spec s1 pre' M post' epa' fl' asize C2 KM U P N A16 A8)
as (bl2 & epa2 & fl2 & R2 & U2 & P2 & N2 & (sz & Hsz & HKA) & Keep2 & KP).
{ rewrite Ex in SM. lia. }
eexists _, _, bl2, epa2, fl2. split; [reflexivity|].
split; [exact (conj R2 (conj U2 (conj P2 N2)))|].
split; [rewrite place_heap_start; reflexivity|].
unfold H0. rewrite <- Ehs. split; [|split; [|split]].
* intros _. exists sz. split; [lia|exact HKA].
* intros q sz' H. apply Keep2. apply Keep. exact H.
* intros _ sz' H. apply Keep in H. revert H.
apply not_KA_at with (b := M).
-- apply (rep_sizes _ _ _ _ C2).
-- apply layout_mid.
-- rewrite KM. discriminate.
* rewrite Ehs. apply (keeps_trans _ _ _ _ _ KE).
rewrite <- Ehs. exact (keeps_mono _ _ _ _ _ Keep KP).
- (* a fit was found *)
fold size_of cs.
set (b := first_in size_of asize cs) in *.
assert (Hb : In b cs) by (rewrite E; apply in_or_app; right; left; auto).
pose proof (Hnn b Hb) as Hbn.
destruct (Z.eqb_spec b NULL) as [|_]; [contradiction|]. cbn [negb].
apply in_cands in Hb. destruct Hb as (j & _ & _ & Hb).
destruct (rep_fl_in _ _ _ _ R j b Hb) as (X & IX & KX & _).
destruct (layout_split _ _ _ _ IX) as (pre & post & Ebl & Eh).
subst bl.
assert (Eb : b = first_hdr (heap_start s) + total pre + 4) by lia.
assert (Esz : size_of b = bsz X).
{ unfold size_of. rewrite Eb. apply (read_size _ _ _ _ _ _ R). }
rewrite Esz in Hsz. rewrite Eb.
destruct (place_spec s pre X post epa fl asize R KX HU Hpa Hnaf A16 A8 Hsz)
as (bl2 & epa2 & fl2 & R2 & U2 & P2 & N2 & (sz & Hsz2 & HKA) & Keep2 & KP).
eexists _, _, bl2, epa2, fl2. split; [reflexivity|].
split; [exact (conj R2 (conj U2 (conj P2 N2)))|].
split; [apply place_heap_start|]. split; [|split; [|split]].
+ intros _. exists sz. split; [lia|exact HKA].
+ exact Keep2.
+ intros _ sz' H. revert H.
apply not_KA_at with (b := X).
* apply (rep_sizes _ _ _ _ R).
* apply layout_mid.
* rewrite KX. discriminate.
+ exact KP.
Qed.
End Malloc.

(** ** [mm_realloc] *)

Lemma mm_free_heap_start_Good s bl epa fl pre X post :
  Rep s bl epa fl -> bl = pre ++ X :: post ->
  heap_start (mm_free s (first_hdr (heap_start s) + total pre + 4))
  = heap_start s.
Proof.
  intros R Ebl. unfold mm_free.
  destruct (_ =? 0); [reflexivity|].
  destruct (Z.eqb_spec (heap_listp s) 0) as [E0|_];
    [exfalso; apply (Rep_heap_listp _ _ _ _ R); exact E0|].
  unfold free_body. cbv zeta.
  match goal with |- context [coalesce ?a ?b] =>
    pose proof (coalesce_heap_start a b) as E;
    destruct (coalesce a b) as [s2 rt]
  end.
  cbn [fst] in E. rewrite add_start_heap_start. exact E.
Qed.

(** Copying into the payload of an allocated block leaves the
    representation alone. *)
Lemma Rep_memcpy s bl epa fl dst src len sz :
  Rep s bl epa fl -> is_KA (first_hdr (heap_start s)) bl dst sz ->
  len + 4 <= sz ->
  Rep (set_mem s (memcpy (mem s) dst src len)) bl epa fl.
Proof.
  intros R (N & IN & KN & SN) Hlen.
  destruct (layout_split _ _ _ _ IN) as (pre & post & -> & Eh).
  change (pre ++ N :: post) with (pre ++ [N] ++ post) in *.
  pose proof (rep_sizes _ _ _ _ R) as W.
  apply Forall_app in W. destruct W as [W1 W].
  apply Forall_app in W. destruct W as [W2 W3].
  pose proof (total_nonneg _ W3) as T3.
  apply (Rep_surgery s pre [N] [N] post epa epa fl _ R).
  - constructor; [rewrite KN; discriminate|constructor].
  - constructor; [rewrite KN; discriminate|constructor].
  - reflexivity.
  - exact W2.
  - intros h b [E|[]]. inversion E; subst. split.
    + rewrite GET_memcpy_outside by lia.
      apply (rep_blocks _ _ _ _ R). apply layout_mid.
    + intros K. contradiction.
  - rewrite GET_memcpy_outside.
    + apply (rep_epi _ _ _ _ R).
    + right. rewrite !total_app. simpl. lia.
  - intros a Ha _. apply GET_memcpy_outside. simpl in Ha. lia.
Qed.

(** ** The physical walk and the block list *)

Section Walk.
Variables (s : state) (bl : list blk) (epa : bool) (fl : Z -> list Z).
Hypothesis R : Rep s bl epa fl.

Lemma epi_size :
GET_SIZE (mem s) (first_hdr (heap_start s) + total bl) = 0.
Proof.
unfold GET_SIZE. rewrite (rep_epi _ _ _ _ R).
apply (hdr_size 0 true epa). split; [unfold two32; lia|reflexivity].
Qed.

Lemma walk_first :
0 < GET_SIZE (mem s) (HDRP (heap_listp s + 22 * WSIZE)) ->
exists b, In (heap_listp s + 22 * WSIZE - 4, b)
 (layout (first_hdr (heap_start s)) bl).
Proof.
rewrite (rep_hl _ _ _ _ R). unfold HDRP, WSIZE.
replace (heap_start s + 8 + 22 * 4 - 4) with (first_hdr (heap_start s))
by (unfold first_hdr; lia).
pose proof epi_size as Z0. revert Z0. generalize bl.
intros [|X r] Z0 H.
- simpl in Z0. rewrite Z.add_0_r in Z0. lia.
- exists X. left. reflexivity.
Qed.

Lemma walk_next bp b :
In (bp - 4, b) (layout (first_hdr (heap_start s)) bl) ->
0 < GET_SIZE (mem s) (HDRP (NEXT_BLKP (mem s) bp)) ->
exists c, In (NEXT_BLKP (mem s) bp - 4, c)
 (layout (first_hdr (heap_start s)) bl).
Proof.
intros I H.
destruct (layout_split _ _ _ _ I) as (pre & post & E & Eh).
pose proof epi_size as Z0. pose proof R as R'.
rewrite E in Z0, R' |- *.
assert (Ebp : bp = first_hdr (heap_start s) + total pre + 4) by lia.
rewrite Ebp in H |- *.
rewrite (read_next s pre b post epa fl R') in H |- *.
destruct post as [|Y r].
- exfalso.
rewrite total_app in Z0. simpl in Z0.
unfold HDRP, WSIZE in H.
replace (first_hdr (heap_start s) + total pre + 4 + bsz b - 4)
with (first_hdr (heap_start s) + (total pre + (bsz b + 0))) in H
by lia.
lia.
- exists Y.
replace (first_hdr (heap_start s) + total pre + 4 + bsz b - 4)
with (first_hdr (heap_start s) + total (pre ++ [b])).
+ replace (pre ++ b :: Y :: r) with ((pre ++ [b]) ++ Y :: r)
by (rewrite <- app_assoc; reflexivity).
apply layout_mid.
+ rewrite total_app. simpl. lia.
Qed.

Lemma phys_block_in bp :
phys_block s bp ->
exists b, In (bp - 4, b) (layout (first_hdr (heap_start s)) bl).
Proof.
induction 1 as [H|bp P IH H].
- apply walk_first. exact H.
- destruct IH as (b & I). apply (walk_next bp b I H).
Qed.

Lemma live_is_KA bp :
live s bp ->
exists sz, is_KA (first_hdr (heap_start s)) bl bp sz.
Proof.
intros (P & A). destruct (phys_block_in _ P) as (b & I).
exists (bsz b), b. split; [exact I|]. split; [|reflexivity].
destruct (rep_hdr _ _ _ _ R _ _ I) as (_ & _ & GA & _).
unfold HDRP, WSIZE in A. rewrite GA in A.
destruct (bkind b); simpl in A; congruence.
Qed.

Lemma no_adj_free_walk :
no_adj_free bl -> no_consecutive_free s.
Proof.
intros N bp P (A1 & A2).
destruct (phys_block_in _ P) as (b & I).
destruct (layout_split _ _ _ _ I) as (pre & post & E & Eh).
pose proof R as R'. rewrite E in R', N.
assert (Ebp : bp = first_hdr (heap_start s) + total pre + 4) by lia.
rewrite Ebp in A1, A2.
rewrite (read_alloc s pre b post epa fl R') in A1.
rewrite (read_next_alloc s pre b post epa fl R') in A2.
apply naf_mid in N. destruct N as (_ & N).
apply naf_cons in N. destruct N as ([K|K] & _); rewrite K in *; lia.
Qed.
End Walk.

(** ** The walks of the checker and the representation *)

Lemma layout_length h l : length (layout h l) = length l.
Proof.
  revert h. induction l as [|b r IH]; intros h; simpl;
    [reflexivity|rewrite IH; reflexivity].
Qed.

Lemma sizes_length l : Forall size_wf l -> 16 * Z.of_nat (length l) <= total l.
Proof.
  induction 1 as [|b r (Hb & _) Hr IH]; simpl length; simpl total; lia.
Qed.

Lemma NoDup_map_hdr (l : list Z) :
  NoDup l -> NoDup (map (fun bp => bp - 4) l).
Proof.
  induction 1 as [|x r Hx Hr IH]; simpl; constructor; [|exact IH].
  intros Hin. apply in_map_iff in Hin. destruct Hin as (y & E & Hy).
  assert (y = x) by lia. subst y. contradiction.
Qed.

Section Views.
Variables (s : state) (bl : list blk) (epa : bool) (fl : Z -> list Z).
Hypothesis R : Rep s bl epa fl.

(** Every block of the list is met by the walk. *)
Lemma in_phys_block pre X post :
bl = pre ++ X :: post ->
phys_block s (first_hdr (heap_start s) + total pre + 4).
Proof.
revert X post. induction pre as [|P pre0 IH] using rev_ind;
intros X post E.
- pose proof R as R'. rewrite E in R'.
pose proof (read_size s [] X post epa fl R') as Sz.
assert (I : In (first_hdr (heap_start s) + total [], X)
 (layout (first_hdr (heap_start s)) ([] ++ X :: post)))
by apply layout_mid.
destruct (rep_in _ _ _ _ R' _ _ I) as (_ & _ & (S1 & _) & _).
simpl total in *.
replace (first_hdr (heap_start s) + 0 + 4)
with (heap_listp s + 22 * WSIZE) in *
by (rewrite (rep_hl _ _ _ _ R); unfold first_hdr, WSIZE; lia).
apply phys_first. lia.
- rewrite <- app_assoc in E. simpl in E.
pose proof (IH P (X :: post) E) as PB.
pose proof R as R'. rewrite E in R'.
pose proof (read_next s pre0 P (X :: post) epa fl R') as En.
assert (E2 : pre0 ++ P :: X :: post = (pre0 ++ [P]) ++ X :: post)
by (rewrite <- app_assoc; reflexivity).
pose proof R' as R2. rewrite E2 in R2.
pose proof (read_size s (pre0 ++ [P]) X post epa fl R2) as Sz.
assert (I : In (first_hdr (heap_start s) + total (pre0 ++ [P]), X)
 (layout (first_hdr (heap_start s))
((pre0 ++ [P]) ++ X :: post)))
by apply layout_mid.
destruct (rep_in _ _ _ _ R2 _ _ I) as (_ & _ & (S1 & _) & _).
assert (Ea : first_hdr (heap_start s) + total (pre0 ++ [P]) + 4
 = NEXT_BLKP (mem s)
 (first_hdr (heap_start s) + total pre0 + 4)).
{ rewrite En, total_app. simpl. lia. }
rewrite Ea in Sz |- *.
apply phys_next; [exact PB|lia].
Qed.

Lemma in_layout_phys h b :
In (h, b) (layout (first_hdr (heap_start s)) bl) -> phys_block s (h + 4).
Proof.
intros I. destruct (layout_split _ _ _ _ I) as (pre & post & E & ->).
apply (in_phys_block pre b post E).
Qed.

Lemma is_KA_live bp sz :
is_KA (first_hdr (heap_start s)) bl bp sz ->
live s bp /\ GET_SIZE (mem s) (HDRP bp) = sz.
Proof.
intros (b & I & K & S).
destruct (rep_hdr _ _ _ _ R _ _ I) as (_ & GS & GA & _).
unfold live, HDRP, WSIZE. rewrite GS, GA, K. simpl.
split; [|exact S]. split; [|lia].
replace bp with (bp - 4 + 4) by lia. apply (in_layout_phys _ _ I).
Qed.

(** The lists hold no more pointers than the heap has blocks. *)
Lemma fl_length j : (length (fl j) <= length bl)%nat.
Proof.
assert (L : length (map fst (layout (first_hdr (heap_start s)) bl))
= length bl).
{ rewrite length_map. apply layout_length. }
rewrite <- L, <- (length_map (fun bp => bp - 4) (fl j)).
apply NoDup_incl_length.
- apply NoDup_map_hdr. apply (rep_nodup _ _ _ _ R).
- intros h Hh. apply in_map_iff in Hh. destruct Hh as (bp & <- & Hbp).
apply (rep_listed _ _ _ _ R) in Hbp. destruct Hbp as (b & I & _).
apply in_map_iff. exists (bp - 4, b). split; [reflexivity|exact I].
Qed.

Lemma bl_length : 16 * Z.of_nat (length bl) <= total bl.
Proof.
apply sizes_length. apply (rep_sizes _ _ _ _ R).
Qed.

Lemma fuel_enough fuel :
mem_brk s - heap_start s < 16 * Z.of_nat fuel ->
forall j, (length (fl j) < fuel)%nat.
Proof.
intros H j. pose proof (fl_length j). pose proof bl_length.
pose proof (rep_brk _ _ _ _ R). unfold first_hdr in *. lia.
Qed.
End Views.

Section ClassWalk.
Variables (s : state) (bl : list blk) (epa : bool) (fl : Z -> list Z).
Hypothesis R : Rep s bl epa fl.
Variable i : Z.
Hypothesis Hi : 0 <= i < 20.

Lemma class_head :
get_addr (heap_start s) (GET (mem s) (heap_listp s + WSIZE * (i + 1)))
= first_addr (fl i).
Proof.
pose proof (rep_roots _ _ _ _ R i Hi) as E. unfold root_addr in E.
rewrite E. destruct (fl i) as [|b r] eqn:Efl; [reflexivity|].
simpl. apply get_addr_off.
apply (rep_fl_okp _ _ _ _ R i b). rewrite Efl. left. reflexivity.
Qed.

Lemma class_succ l1 bp l2 :
fl i = l1 ++ bp :: l2 ->
get_succ (mem s) (heap_start s) bp = first_addr l2.
Proof.
intros E. pose proof (rep_chain _ _ _ _ R i Hi) as Hseg.
rewrite E in Hseg. apply seg_app in Hseg. destruct Hseg as [_ H].
apply seg_unfold in H. destruct H as (_ & H & _).
unfold get_succ, SUCC, WSIZE. cbv zeta. rewrite H.
destruct l2 as [|c r]; [reflexivity|]. simpl.
assert (In c (fl i)) as Hin.
{ rewrite E. apply in_or_app. right. right. left. reflexivity. }
destruct (rep_fl_okp _ _ _ _ R i c Hin) as [Hp _].
pose proof Hp as (A & B & C).
destruct (Z.eqb_spec (c - heap_start s) 0); [lia|].
apply get_addr_off. exact Hp.
Qed.

Lemma class_pred l1 p bp l2 :
fl i = (l1 ++ [p]) ++ bp :: l2 ->
get_pred (mem s) (heap_start s) bp = p.
Proof.
intros E. pose proof (rep_chain _ _ _ _ R i Hi) as Hseg.
rewrite E in Hseg. apply seg_app in Hseg. destruct Hseg as [_ H].
apply seg_unfold in H. destruct H as (H & _).
unfold get_pred, PRED. cbv zeta. rewrite H.
rewrite last_off_app. simpl.
assert (In p (fl i)) as Hin.
{ rewrite E. apply in_or_app. left. apply in_or_app. right. left. auto. }
destruct (rep_fl_okp _ _ _ _ R i p Hin) as [Hp _].
pose proof Hp as (A & B & C).
destruct (Z.eqb_spec (p - heap_start s) 0); [lia|].
apply get_addr_off. exact Hp.
Qed.

Lemma fl_nonnull b : In b (fl i) -> b <> NULL.
Proof.
intros Hb. destruct (rep_fl_okp _ _ _ _ R i b Hb) as [(A & _) _].
pose proof (rep_hs _ _ _ _ R). unfold NULL. lia.
Qed.

Lemma in_class_In bp : in_class s i bp -> In bp (fl i).
Proof.
induction 1 as [H|bp _ IH H].
- rewrite class_head in H |- *.
destruct (fl i) as [|b r]; [contradiction|left; reflexivity].
- destruct (in_split _ _ IH) as (l1 & l2 & E).
rewrite (class_succ l1 bp l2 E) in H |- *.
rewrite E. destruct l2 as [|c r]; [contradiction|].
apply in_or_app. right. right. left. reflexivity.
Qed.

Lemma In_in_class bp : In bp (fl i) -> in_class s i bp.
Proof.
intros Hin. destruct (in_split _ _ Hin) as (l1 & l2 & E).
clear Hin. revert bp l2 E.
induction l1 as [|p l0 IH] using rev_ind; intros bp l2 E.
- simpl in E.
assert (Eh : first_addr (fl i) = bp) by (rewrite E; reflexivity).
rewrite <- Eh, <- class_head. apply class_first.
rewrite class_head, Eh. apply fl_nonnull. rewrite E. left. reflexivity.
- rewrite <- app_assoc in E. simpl in E.
pose proof (IH p (bp :: l2) E) as Hp.
pose proof (class_succ l0 p (bp :: l2) E) as Es. simpl in Es.
rewrite <- Es. apply class_next; [exact Hp|].
rewrite Es. apply fl_nonnull. rewrite E.
apply in_or_app. right. right. left. reflexivity.
Qed.
End ClassWalk.

(** ** What the invariant says about the memory *)

Lemma heap_walk_phys s fuel bp0 :
  (0 < GET_SIZE (mem s) (HDRP bp0) -> phys_block s bp0) ->
  forall bp, In bp (heap_walk fuel (mem s) bp0) -> phys_block s bp.
Proof.
  revert bp0. induction fuel as [|f IH]; intros bp0 H0 bp; simpl;
    [contradiction|].
  destruct (Z.ltb_spec 0 (GET_SIZE (mem s) (HDRP bp0))) as [L|L];
    [|contradiction].
  intros [<-|Hin]; [auto|].
  apply (IH (NEXT_BLKP (mem s) bp0)); [|exact Hin].
  intros L2. apply phys_next; auto.
Qed.

Lemma heap_walk_live s fuel bp :
  In bp (heap_walk fuel (mem s) (heap_listp s + 22 * WSIZE)) ->
  GET_ALLOC (mem s) (HDRP bp) <> 0 -> live s bp.
Proof.
  intros H A. split; [|exact A].
  apply (heap_walk_phys s fuel (heap_listp s + 22 * WSIZE)); [|exact H].
  apply phys_first.
Qed.

Lemma map_layout (f : Z -> blk) h0 l :
  (forall h b, In (h, b) (layout h0 l) -> f (h + 4) = b) ->
  map f (map (fun hb => fst hb + 4) (layout h0 l)) = l.
Proof.
  revert h0. induction l as [|b r IH]; intros h0 H; simpl; [reflexivity|].
  rewrite (H h0 b) by (left; reflexivity).
  f_equal. apply IH. intros h b' I. apply H. right. exact I.
Qed.

Section GoodFacts.
Variables (s : state) (bl : list blk) (epa : bool) (fl : Z -> list Z).
Hypothesis G : Good s bl epa fl.
Let H0 := first_hdr (heap_start s).

Lemma Good_Rep : Rep s bl epa fl.
Proof. exact (proj1 G). Qed.

Lemma walk_layout fuel pre post :
bl = pre ++ post -> (length post <= fuel)%nat ->
heap_walk fuel (mem s) (H0 + total pre + 4)
= map (fun hb => fst hb + 4) (layout (H0 + total pre) post).
Proof.
pose proof Good_Rep as R.
revert fuel pre. induction post as [|X r IH]; intros fuel pre E L.
- rewrite app_nil_r in E. subst pre.
pose proof (epi_size _ _ _ _ R) as Z0. fold H0 in Z0.
destruct fuel as [|f]; simpl; [reflexivity|].
unfold HDRP, WSIZE.
replace (H0 + total bl + 4 - 4) with (H0 + total bl) by lia.
rewrite Z0. reflexivity.
- destruct fuel as [|f]; [simpl in L; lia|].
pose proof R as R'. rewrite E in R'.
pose proof (read_size s pre X r epa fl R') as Sz.
pose proof (read_next s pre X r epa fl R') as Nx.
fold H0 in Sz, Nx.
assert (I : In (H0 + total pre, X) (layout H0 (pre ++ X :: r)))
by apply layout_mid.
destruct (rep_in _ _ _ _ R' _ _ I) as (_ & _ & (S1 & _) & _).
cbn [heap_walk]. rewrite Sz.
destruct (Z.ltb_spec 0 (bsz X)); [|lia].
cbn [layout map fst]. f_equal. rewrite Nx.
replace (H0 + total pre + 4 + bsz X)
with (H0 + total (pre ++ [X]) + 4)
by (rewrite total_app; simpl; lia).
replace (H0 + total pre + bsz X) with (H0 + total (pre ++ [X]))
by (rewrite total_app; simpl; lia).
apply IH; [rewrite <- app_assoc; exact E|simpl in L; lia].
Qed.

Lemma read_blk_layout h b :
In (h, b) (layout H0 bl) -> read_blk (mem s) (h + 4) = b.
Proof.
intros I. destruct G as (R & U & _).
destruct (rep_hdr _ _ _ _ R _ _ I) as (_ & GS & GA & GP).
unfold read_blk, HDRP, WSIZE. replace (h + 4 - 4) with h by lia.
rewrite GS, GA, GP.
assert (K : bkind b <> KU).
{ unfold no_KU in U. rewrite Forall_forall in U. apply U.
destruct (layout_split _ _ _ _ I) as (pre & post & -> & _).
apply in_or_app. right. left. reflexivity. }
destruct b as [sz k pa]. simpl in *.
destruct k, pa; simpl; try reflexivity; contradiction.
Qed.

(** The block list is what the walk reads from the headers. *)
Lemma Good_blocks fuel :
mem_brk s - heap_start s < 16 * Z.of_nat fuel ->
bl = map (read_blk (mem s))
 (heap_walk fuel (mem s) (heap_listp s + 22 * WSIZE)).
Proof.
intros Hf. pose proof Good_Rep as R.
pose proof (bl_length _ _ _ _ R) as L.
pose proof (rep_brk _ _ _ _ R) as B.
replace (heap_listp s + 22 * WSIZE) with (H0 + total [] + 4)
by (rewrite (rep_hl _ _ _ _ R); unfold H0, first_hdr, WSIZE; simpl; lia).
rewrite (walk_layout fuel [] bl);
[|reflexivity|unfold first_hdr in *; lia].
simpl total. rewrite Z.add_0_r. symmetry.
apply map_layout. exact read_blk_layout.
Qed.

Lemma phys_view bp :
phys_block s bp ->
exists pre X post,
bl = pre ++ X :: post /\ bp = H0 + total pre + 4 /\
bkind X <> KU /\ size_wf X /\ Forall size_wf pre.
Proof.
intros P. destruct G as (R & U & _).
destruct (phys_block_in _ _ _ _ R _ P) as (b & I).
destruct (layout_split _ _ _ _ I) as (pre & post & E & Eh).
exists pre, b, post. split; [exact E|]. split; [unfold H0; lia|].
pose proof (rep_sizes _ _ _ _ R) as W. rewrite E in W, U.
apply no_KU_mid in U. apply Forall_app in W. destruct W as [W1 W2].
inversion W2; subst. tauto.
Qed.

Lemma phys_geometry bp :
phys_block s bp ->
16 <= GET_SIZE (mem s) (HDRP bp) /\
GET_SIZE (mem s) (HDRP bp) mod 8 = 0 /\
(bp - heap_start s) mod 8 = 0 /\
heap_listp s + 22 * WSIZE <= bp /\
bp + GET_SIZE (mem s) (HDRP bp) <= mem_brk s.
Proof.
intros P. destruct (phys_view bp P) as (pre & X & post & E & Ebp & _ & (S1 & S2) & W1).
pose proof Good_Rep as R. pose proof R as R'. rewrite E in R'.
rewrite Ebp. unfold H0. rewrite (read_size s pre X post epa fl R').
pose proof (rep_brk _ _ _ _ R') as B. rewrite total_app in B. simpl in B.
pose proof (rep_sizes _ _ _ _ R') as W. apply Forall_app in W.
destruct W as [_ W]. inversion W as [|? ? _ W3]; subst.
pose proof (total_nonneg _ W1). pose proof (total_nonneg _ W3).
pose proof (total_mod8 _ W1) as M.
rewrite (rep_hl _ _ _ _ R). unfold first_hdr, WSIZE in *.
repeat split; try lia.
replace (heap_start s + 92 + total pre + 4 - heap_start s)
with (total pre + 12 * 8) by lia.
rewrite Z.mod_add by lia. exact M.
Qed.

Lemma phys_footer bp :
phys_block s bp -> GET_ALLOC (mem s) (HDRP bp) = 0 ->
GET (mem s) (FTRP (mem s) bp) = GET (mem s) (HDRP bp).
Proof.
intros P A. destruct (phys_view bp P) as (pre & X & post & E & Ebp & _).
pose proof Good_Rep as R. pose proof R as R'. rewrite E in R'.
assert (I : In (H0 + total pre, X) (layout H0 (pre ++ X :: post)))
by apply layout_mid.
rewrite Ebp in A |- *. unfold H0 in *.
rewrite (read_alloc s pre X post epa fl R') in A.
assert (K : bkind X <> KA) by (destruct (bkind X); simpl in A; congruence).
destruct (rep_ftr _ _ _ _ R' _ _ I K) as (F & _).
destruct (rep_hdr _ _ _ _ R' _ _ I) as (Hd & _).
unfold FTRP. rewrite (read_size s pre X post epa fl R').
unfold HDRP, WSIZE, DSIZE.
replace (first_hdr (heap_start s) + total pre + 4 + bsz X - 8)
with (first_hdr (heap_start s) + total pre + bsz X - 4) by lia.
replace (first_hdr (heap_start s) + total pre + 4 - 4)
with (first_hdr (heap_start s) + total pre) by lia.
rewrite F, Hd. destruct (bkind X); simpl in *; congruence.
Qed.

Lemma phys_prev_alloc bp :
phys_block s bp ->
GET_PREV_ALLOC (mem s) (HDRP (NEXT_BLKP (mem s) bp))
= 2 * GET_ALLOC (mem s) (HDRP bp).
Proof.
intros P. destruct (phys_view bp P) as (pre & X & post & E & Ebp & _).
destruct G as (R & _ & Hpa & _). pose proof R as R'. rewrite E in R', Hpa.
rewrite Ebp. unfold H0.
rewrite (read_alloc s pre X post epa fl R').
unfold GET_PREV_ALLOC.
rewrite (read_next_word s pre X post epa fl R').
apply pa_mid in Hpa. destruct Hpa as [_ Hp].
assert (En : next_pa post epa = is_alloc (bkind X)).
{ destruct post as [|Y r]; simpl in *; tauto. }
rewrite En.
assert (Ok : size_ok (match post with [] => 0 | Y :: _ => bsz Y end)).
{ destruct post as [|Y r]; [apply size_ok_0|].
assert (I : In (first_hdr (heap_start s) + total (pre ++ [X]), Y)
 (layout (first_hdr (heap_start s))
((pre ++ [X]) ++ Y :: r))) by apply layout_mid.
rewrite <- app_assoc in I. apply (rep_in _ _ _ _ R' _ _ I). }
unfold next_word. destruct post as [|Y r];
rewrite hdr_prev_alloc by exact Ok;
destruct (is_alloc (bkind X)); reflexivity.
Qed.

Lemma first_prev_alloc :
0 < GET_SIZE (mem s) (HDRP (heap_listp s + 22 * WSIZE)) ->
GET_PREV_ALLOC (mem s) (HDRP (heap_listp s + 22 * WSIZE)) = 2.
Proof.
intros L. destruct G as (R & _ & Hpa & _).
destruct (walk_first _ _ _ _ R L) as (b & I).
destruct (layout_split _ _ _ _ I) as (pre & post & E & Eh).
assert (pre = []) as ->.
{ destruct pre as [|c r]; [reflexivity|exfalso].
pose proof (rep_sizes _ _ _ _ R) as W. rewrite E in W.
inversion W as [|? ? (Wc & _) Wr]; subst.
apply Forall_app in Wr. destruct Wr as [Wr _].
pose proof (total_nonneg _ Wr).
rewrite (rep_hl _ _ _ _ R) in Eh. simpl in Eh.
unfold first_hdr, WSIZE in Eh. lia. }
simpl in E. rewrite E in Hpa. simpl in Hpa. destruct Hpa as [Hb _].
destruct (rep_hdr _ _ _ _ R _ _ I) as (_ & _ & _ & GP).
unfold HDRP. change WSIZE with 4 in *. rewrite GP, Hb. reflexivity.
Qed.

Lemma walk_end bp :
phys_block s bp ->
GET_SIZE (mem s) (HDRP (NEXT_BLKP (mem s) bp)) = 0 ->
NEXT_BLKP (mem s) bp = mem_brk s /\
GET_ALLOC (mem s) (HDRP (NEXT_BLKP (mem s) bp)) = 1.
Proof.
intros P Z0. destruct (phys_view bp P) as (pre & X & post & E & Ebp & _).
pose proof Good_Rep as R. pose proof R as R'. rewrite E in R'.
rewrite Ebp in Z0 |- *. unfold H0 in *.
rewrite (read_next_alloc s pre X post epa fl R').
rewrite (read_next s pre X post epa fl R').
unfold GET_SIZE in Z0. rewrite (read_next_word s pre X post epa fl R') in Z0.
destruct post as [|Y r].
- pose proof (rep_brk _ _ _ _ R') as B. rewrite total_app in B.
simpl in B. simpl. split; [lia|reflexivity].
- exfalso.
assert (I : In (first_hdr (heap_start s) + total (pre ++ [X]), Y)
 (layout (first_hdr (heap_start s))
((pre ++ [X]) ++ Y :: r))) by apply layout_mid.
rewrite <- app_assoc in I.
destruct (rep_in _ _ _ _ R' _ _ I) as (_ & _ & (S1 & _) & Ok).
simpl in Z0. rewrite hdr_size in Z0 by exact Ok. lia.
Qed.

Lemma empty_walk_end :
GET_SIZE (mem s) (HDRP (heap_listp s + 22 * WSIZE)) = 0 ->
heap_listp s + 22 * WSIZE = mem_brk s /\
GET_ALLOC (mem s) (HDRP (heap_listp s + 22 * WSIZE)) = 1.
Proof.
intros Z0. pose proof Good_Rep as R.
assert (C : forall l : list blk, l = [] \/ exists X r, l = X :: r)
by (intros [|X r]; eauto).
assert (Ea : HDRP (heap_listp s + 22 * WSIZE) = first_hdr (heap_start s))
by (rewrite (rep_hl _ _ _ _ R); unfold HDRP, first_hdr, WSIZE; lia).
destruct (C bl) as [E|(X & r & E)].
- pose proof (rep_brk _ _ _ _ R) as B.
pose proof (rep_epi _ _ _ _ R) as Ep.
rewrite E in B, Ep. simpl in B, Ep. rewrite Z.add_0_r in Ep.
rewrite Ea. unfold GET_ALLOC. rewrite Ep.
rewrite (rep_hl _ _ _ _ R). unfold first_hdr, WSIZE in *.
split; [lia|destruct epa; reflexivity].
- exfalso. pose proof R as R'. rewrite E in R'.
pose proof (read_size s [] X r epa fl R') as Sz.
assert (I : In (first_hdr (heap_start s) + total [], X)
 (layout (first_hdr (heap_start s)) ([] ++ X :: r)))
by apply layout_mid.
destruct (rep_in _ _ _ _ R' _ _ I) as (_ & _ & (S1 & _) & _).
rewrite Ea in Z0. unfold HDRP, WSIZE in Sz. simpl total in Sz.
replace (first_hdr (heap_start s) + 0 + 4 - 4)
with (first_hdr (heap_start s)) in Sz by lia.
lia.
Qed.

Lemma phys_disjoint p q :
phys_block s p -> phys_block s q -> p <> q ->
p + GET_SIZE (mem s) (HDRP p) <= q \/ q + GET_SIZE (mem s) (HDRP q) <= p.
Proof.
intros Pp Pq Hne. pose proof Good_Rep as R.
destruct (phys_block_in _ _ _ _ R _ Pp) as (b & Ib).
destruct (phys_block_in _ _ _ _ R _ Pq) as (c & Ic).
destruct (rep_hdr _ _ _ _ R _ _ Ib) as (_ & Sb & _).
destruct (rep_hdr _ _ _ _ R _ _ Ic) as (_ & Sc & _).
unfold HDRP, WSIZE. rewrite Sb, Sc.
destruct (layout_sep _ _ _ _ _ _ (rep_sizes _ _ _ _ R) Ib Ic)
as [[E _]|[L|L]]; lia.
Qed.

Lemma class_view i bp :
0 <= i < 20 ->
(in_class s i bp <->
 phys_block s bp /\ GET_ALLOC (mem s) (HDRP bp) = 0 /\
 get_list (GET_SIZE (mem s) (HDRP bp)) = i).
Proof.
intros Hi. destruct G as (R & U & _). split.
- intros C. apply (in_class_In _ _ _ _ R i Hi) in C.
apply (rep_listed _ _ _ _ R) in C. destruct C as (b & I & K & Gl).
destruct (rep_hdr _ _ _ _ R _ _ I) as (_ & GS & GA & _).
unfold HDRP, WSIZE. rewrite GS, GA, K. simpl.
split; [|split; [reflexivity|exact Gl]].
replace bp with (bp - 4 + 4) by lia.
apply (in_layout_phys _ _ _ _ R _ _ I).
- intros (P & A & Gl).
destruct (phys_block_in _ _ _ _ R _ P) as (b & I).
destruct (rep_hdr _ _ _ _ R _ _ I) as (_ & GS & GA & _).
unfold HDRP, WSIZE in A, Gl. rewrite GS in Gl. rewrite GA in A.
apply (In_in_class _ _ _ _ R i Hi).
apply (rep_listed _ _ _ _ R). exists b. split; [exact I|].
split; [|exact Gl].
apply not_alloc_KF.
+ unfold no_KU in U. rewrite Forall_forall in U. apply U.
destruct (layout_split _ _ _ _ I) as (pre & post & -> & _).
apply in_or_app. right. left. reflexivity.
+ destruct (is_alloc (bkind b)); [discriminate|reflexivity].
Qed.

Lemma class_links i bp :
0 <= i < 20 -> in_class s i bp ->
get_succ (mem s) (heap_start s) bp <> NULL ->
get_pred (mem s) (heap_start s) (get_succ (mem s) (heap_start s) bp) = bp.
Proof.
intros Hi C Hs. pose proof Good_Rep as R.
apply (in_class_In _ _ _ _ R i Hi) in C.
destruct (in_split _ _ C) as (l1 & l2 & E).
rewrite (class_succ _ _ _ _ R i Hi l1 bp l2 E) in Hs |- *.
destruct l2 as [|c r]; [contradiction|]. simpl.
apply (class_pred _ _ _ _ R i Hi l1 bp c r).
rewrite <- app_assoc. exact E.
Qed.
End GoodFacts.

(** ** The public operations on states that satisfy the invariant *)

Lemma live_nonnull s bp : Inv s -> live s bp -> bp <> NULL.
Proof.
  intros (bl & epa & fl & G) (P & _).
  destruct (phys_geometry _ _ _ _ G bp P) as (_ & _ & _ & L & _).
  destruct G as (R & _).
  pose proof (rep_hl _ _ _ _ R). pose proof (rep_hs _ _ _ _ R).
  unfold WSIZE, NULL in *. lia.
Qed.

Lemma malloc_state fuel s n :
  Inv s -> 0 <= n <= two64 - 12 ->
  mem_brk s - heap_start s < 16 * Z.of_nat fuel ->
  exists s' p,
    mm_malloc fuel s n = Some (s', p) /\ Inv s' /\
    heap_start s' = heap_start s /\
    (p <> NULL ->
     live s' p /\ ~ live s p /\ n + 4 <= GET_SIZE (mem s') (HDRP p)) /\
    (forall q, live s q ->
       live s' q /\
       GET_SIZE (mem s') (HDRP q) = GET_SIZE (mem s) (HDRP q)).
Proof.
  intros (bl & epa & fl & G) Hn Hf.
  pose proof (proj1 G) as R.
  destruct (malloc_spec s bl epa fl fuel n G Hn
              (fuel_enough _ _ _ _ R fuel Hf))
    as (s' & p & bl' & epa' & fl' & Em & G' & Ehs & Hnew & Keep & Fresh & _).
  pose proof (proj1 G') as R'.
  exists s', p. split; [exact Em|].
  split; [exact (Good_Inv _ _ _ _ G')|]. split; [exact Ehs|]. split.
  - intros Hp. destruct (Hnew Hp) as (sz & Hsz & HKA).
    rewrite <- Ehs in HKA.
    destruct (is_KA_live _ _ _ _ R' p sz HKA) as [L S].
    split; [exact L|]. split; [|rewrite S; lia].
    intros Lp. destruct (live_is_KA _ _ _ _ R p Lp) as (sz0 & K).
    exact (Fresh Hp sz0 K).
  - intros q Lq. destruct (live_is_KA _ _ _ _ R q Lq) as (sz & K).
    destruct (is_KA_live _ _ _ _ R q sz K) as [_ S0].
    apply Keep in K. rewrite <- Ehs in K.
    destruct (is_KA_live _ _ _ _ R' q sz K) as [L S].
    split; [exact L|]. rewrite S, S0. reflexivity.
Qed.

Lemma free_state s bp :
  Inv s -> live s bp ->
  Inv (mm_free s bp) /\
  heap_start (mm_free s bp) = heap_start s /\
  ~ live (mm_free s bp) bp /\
  (forall q, q <> bp -> live s q ->
     live (mm_free s bp) q /\
     GET_SIZE (mem (mm_free s bp)) (HDRP q) = GET_SIZE (mem s) (HDRP q)).
Proof.
  intros (bl & epa & fl & G) L.
  destruct G as (R & HU & Hpa & Hnaf).
  destruct (live_is_KA _ _ _ _ R bp L) as (sz & (X & IX & KX & _)).
  destruct (layout_split _ _ _ _ IX) as (pre & post & E & Eh).
  assert (Ep : bp = first_hdr (heap_start s) + total pre + 4) by lia.
  pose proof (mm_free_heap_start_Good s bl epa fl pre X post R E) as Ehs.
  rewrite <- Ep in Ehs.
  subst bl.
  destruct (free_spec s pre X post epa fl R KX HU Hpa Hnaf)
    as (bl' & epa' & fl' & R' & U' & P' & N' & Keep & Gone & KP).
  rewrite <- Ep in R', Keep, Gone, KP.
  split; [exists bl', epa', fl'; tauto|]. split; [exact Ehs|]. split.
  - intros L'. destruct (live_is_KA _ _ _ _ R' bp L') as (sz' & K).
    rewrite Ehs in K. exact (Gone sz' K).
  - intros q Hq Lq. destruct (live_is_KA _ _ _ _ R q Lq) as (sz' & K).
    destruct (is_KA_live _ _ _ _ R q sz' K) as [_ S0].
    apply (Keep q sz' Hq) in K. rewrite <- Ehs in K.
    destruct (is_KA_live _ _ _ _ R' q sz' K) as [L' S].
    split; [exact L'|]. rewrite S, S0. reflexivity.
Qed.

Lemma memcpy_state s dst src len :
  Inv s -> live s dst -> len + 4 <= GET_SIZE (mem s) (HDRP dst) ->
  Inv (set_mem s (memcpy (mem s) dst src len)) /\
  (forall q, live s q ->
     live (set_mem s (memcpy (mem s) dst src len)) q /\
     GET_SIZE (memcpy (mem s) dst src len) (HDRP q)
     = GET_SIZE (mem s) (HDRP q)).
Proof.
  intros (bl & epa & fl & G) L Hlen.
  destruct G as (R & HU & Hpa & Hnaf).
  destruct (live_is_KA _ _ _ _ R dst L) as (sz & K).
  destruct (is_KA_live _ _ _ _ R dst sz K) as [_ S0].
  rewrite S0 in Hlen.
  pose proof (Rep_memcpy s bl epa fl dst src len sz R K Hlen) as R'.
  split; [exists bl, epa, fl; tauto|].
  intros q Lq. destruct (live_is_KA _ _ _ _ R q Lq) as (sz' & Kq).
  destruct (is_KA_live _ _ _ _ R q sz' Kq) as [_ Sq].
  destruct (is_KA_live _ _ _ _ R' q sz' Kq) as [L' S'].
  split; [exact L'|]. cbn [mem set_mem] in S'. rewrite S', Sq. reflexivity.
Qed.

Lemma realloc_state fuel s ptr n :
  Inv s -> live s ptr -> 0 <= n <= two64 - 12 ->
  mem_brk s - heap_start s < 16 * Z.of_nat fuel ->
  exists s' p,
    mm_realloc fuel s ptr n = Some (s', p) /\ Inv s' /\
    (n = 0 -> p = NULL /\ ~ live s' ptr) /\
    (p <> NULL ->
     live s' p /\ ~ live s p /\ n + 4 <= GET_SIZE (mem s') (HDRP p) /\
     ~ live s' ptr) /\
    (n <> 0 -> p = NULL ->
     live s' ptr /\
     GET_SIZE (mem s') (HDRP ptr) = GET_SIZE (mem s) (HDRP ptr)) /\
    (forall q, q <> ptr -> live s q ->
       live s' q /\
       GET_SIZE (mem s') (HDRP q) = GET_SIZE (mem s) (HDRP q)).
Proof.
  intros I L Hn Hf. unfold mm_realloc.
  destruct (Z.eqb_spec n 0) as [->|Hn0].
  { destruct (free_state s ptr I L) as (I' & _ & Gone & Keep).
    eexists _, _. split; [reflexivity|]. split; [exact I'|].
    split; [intros _; split; [reflexivity|exact Gone]|].
    split; [intros H; exfalso; apply H; reflexivity|].
    split; [intros H; contradiction|exact Keep]. }
  destruct (Z.eqb_spec ptr NULL) as [E0|_];
    [exfalso; exact (live_nonnull s ptr I L E0)|].
  destruct (malloc_state fuel s n I Hn Hf)
    as (s1 & p & Em & I1 & Ehs & Hnew & Keep1).
  rewrite Em.
  destruct (Z.eqb_spec p 0) as [->|Hp].
  { exists s1, 0. split; [reflexivity|]. split; [exact I1|].
    split; [intros; contradiction|].
    split; [intros H; exfalso; apply H; reflexivity|].
    split; [intros _ _; apply Keep1; exact L|].
    intros q _ Lq. apply Keep1. exact Lq. }
  destruct (Hnew Hp) as (Lp & Fp & Sp).
  cbv zeta.
  set (len := realloc_copy_len (mem s1) ptr n).
  assert (Hlen : len <= n).
  { unfold len. rewrite realloc_copy_len_min. lia. }
  destruct (memcpy_state s1 p ptr len I1 Lp) as (I2 & Keep2); [lia|].
  set (s2 := set_mem s1 (memcpy (mem s1) p ptr len)) in *.
  assert (Hne : p <> ptr) by (intros ->; contradiction).
  destruct (Keep1 ptr L) as (L1 & S1).
  destruct (Keep2 ptr L1) as (L2 & S2).
  destruct (Keep2 p Lp) as (Lp2 & Sp2).
  destruct (free_state s2 ptr I2 L2) as (I3 & _ & Gone & Keep3).
  destruct (Keep3 p Hne Lp2) as (Lp3 & Sp3).
  eexists _, _. split; [reflexivity|]. split; [exact I3|].
  split; [intros; contradiction|].
  split.
  { intros _. split; [exact Lp3|]. split; [exact Fp|].
    split; [|exact Gone].
    rewrite Sp3. cbn [mem set_mem s2]. rewrite Sp2. exact Sp. }
  split; [intros _ H; contradiction|].
  intros q Hq Lq.
  destruct (Keep1 q Lq) as (Lq1 & Sq1).
  destruct (Keep2 q Lq1) as (Lq2 & Sq2).
  destruct (Keep3 q Hq Lq2) as (Lq3 & Sq3).
  split; [exact Lq3|].
  rewrite Sq3. cbn [mem set_mem s2]. rewrite Sq2. exact Sq1.
Qed.

(** ** The payloads of allocated blocks *)

Lemma GET_bytes m m' a k :
  GET m' a = GET m a -> 0 <= k < 4 ->
  byte_at m' (a + k) = byte_at m (a + k).
Proof.
  unfold GET, byte_at. intros E Hk.
  pose proof (Z.mod_pos_bound (m a) 256 ltac:(lia)).
  pose proof (Z.mod_pos_bound (m (a + 1)) 256 ltac:(lia)).
  pose proof (Z.mod_pos_bound (m (a + 2)) 256 ltac:(lia)).
  pose proof (Z.mod_pos_bound (m (a + 3)) 256 ltac:(lia)).
  pose proof (Z.mod_pos_bound (m' a) 256 ltac:(lia)).
  pose proof (Z.mod_pos_bound (m' (a + 1)) 256 ltac:(lia)).
  pose proof (Z.mod_pos_bound (m' (a + 2)) 256 ltac:(lia)).
  pose proof (Z.mod_pos_bound (m' (a + 3)) 256 ltac:(lia)).
  assert (C : k = 0 \/ k = 1 \/ k = 2 \/ k = 3) by lia.
  destruct C as [->|[->|[->| ->]]]; rewrite ?Z.add_0_r; lia.
Qed.

Lemma keeps_bytes h0 bl m m' q sz :
  keeps h0 bl m m' -> is_KA h0 bl q sz -> 16 <= sz ->
  forall x, q <= x < q + sz - 4 -> byte_at m' x = byte_at m x.
Proof.
  intros [K _] HK Hs x Hx.
  destruct (Z_le_gt_dec (x + 4) (q + sz - 4)) as [H|H].
  - replace x with (x + 0) by lia.
    apply GET_bytes; [|lia]. apply (K q sz HK); lia.
  - replace x with (q + sz - 8 + (x - (q + sz - 8))) by lia.
    apply GET_bytes; [|lia]. apply (K q sz HK); lia.
Qed.

Lemma keeps_payload s s' bl epa fl q :
  Rep s bl epa fl -> keeps (first_hdr (heap_start s)) bl (mem s) (mem s') ->
  live s q -> same_payload s s' q.
Proof.
  intros R K L x Hx.
  destruct (live_is_KA _ _ _ _ R q L) as (sz & HK).
  destruct (is_KA_live _ _ _ _ R q sz HK) as [_ S].
  rewrite S in Hx. unfold WSIZE in Hx.
  apply (keeps_bytes _ _ _ _ q sz K HK); [|exact Hx].
  destruct HK as (b & I & _ & <-).
  apply (rep_in _ _ _ _ R _ _ I).
Qed.

Lemma malloc_payload fuel s n s' p q :
  Inv s -> 0 <= n <= two64 - 12 ->
  mem_brk s - heap_start s < 16 * Z.of_nat fuel ->
  mm_malloc fuel s n = Some (s', p) -> live s q -> same_payload s s' q.
Proof.
  intros (bl & epa & fl & G) Hn Hf Em L.
  pose proof (proj1 G) as R.
  destruct (malloc_spec s bl epa fl fuel n G Hn
              (fuel_enough _ _ _ _ R fuel Hf))
    as (s1 & p1 & bl' & epa' & fl' & Em1 & _ & _ & _ & _ & _ & K).
  rewrite Em in Em1. inversion Em1; subst s1 p1.
  exact (keeps_payload _ _ _ _ _ q R K L).
Qed.

Lemma free_payload s bp q :
  Inv s -> live s bp -> live s q -> q <> bp ->
  same_payload s (mm_free s bp) q.
Proof.
  intros (bl & epa & fl & G) L Lq Hq.
  destruct G as (R & HU & Hpa & Hnaf).
  destruct (live_is_KA _ _ _ _ R bp L) as (sz & (X & IX & KX & _)).
  destruct (layout_split _ _ _ _ IX) as (pre & post & E & Eh).
  assert (Ep : bp = first_hdr (heap_start s) + total pre + 4) by lia.
  subst bl.
  destruct (free_spec s pre X post epa fl R KX HU Hpa Hnaf)
    as (bl' & epa' & fl' & _ & _ & _ & _ & _ & _ & K).
  rewrite <- Ep in K.
  intros x Hx.
  destruct (live_is_KA _ _ _ _ R q Lq) as (sz' & HK).
  destruct (is_KA_live _ _ _ _ R q sz' HK) as [_ S].
  rewrite S in Hx. unfold WSIZE in Hx.
  assert (S16 : 16 <= sz').
  { destruct HK as (b & I & _ & <-). apply (rep_in _ _ _ _ R _ _ I). }
  apply (keeps_bytes _ _ _ _ q sz' K); [|exact S16|exact Hx].
  apply is_KA_rekind; [discriminate|lia|exact HK].
Qed.

Lemma realloc_payload fuel s ptr n s' p :
  Inv s -> live s ptr -> 0 <= n <= two64 - 12 ->
  mem_brk s - heap_start s < 16 * Z.of_nat fuel ->
  mm_realloc fuel s ptr n = Some (s', p) ->
  (p <> NULL ->
   forall k, 0 <= k < n -> k < GET_SIZE (mem s) (HDRP ptr) - WSIZE ->
             byte_at (mem s') (p + k) = byte_at (mem s) (ptr + k)) /\
  (n <> 0 -> p = NULL -> same_payload s s' ptr) /\
  (forall q, q <> ptr -> live s q -> same_payload s s' q).
Proof.
  intros I L Hn Hf. unfold mm_realloc.
  destruct (Z.eqb_spec n 0) as [->|Hn0].
  { intros E. inversion E; subst s' p.
    split; [intros H; exfalso; apply H; reflexivity|].
    split; [intros H; contradiction|].
    intros q Hq Lq. apply free_payload; assumption. }
  destruct (Z.eqb_spec ptr NULL) as [E0|_];
    [exfalso; exact (live_nonnull s ptr I L E0)|].
  destruct (malloc_state fuel s n I Hn Hf)
    as (s1 & p1 & Em & I1 & Ehs & Hnew & Keep1).
  rewrite Em.
  assert (MP : forall q, live s q -> same_payload s s1 q).
  { intros q Lq. exact (malloc_payload fuel s n s1 p1 q I Hn Hf Em Lq). }
  destruct (Z.eqb_spec p1 0) as [->|Hp].
  { intros E. inversion E; subst s' p.
    split; [intros H; exfalso; apply H; reflexivity|].
    split; [intros _ _; apply MP; exact L|].
    intros q _ Lq. apply MP. exact Lq. }
  destruct (Hnew Hp) as (Lp & Fp & Sp).
  cbv zeta.
  set (len := realloc_copy_len (mem s1) ptr n).
  destruct (Keep1 ptr L) as (L1 & S1).
  assert (Elen : len = Z.min (GET_SIZE (mem s) (HDRP ptr)) n).
  { unfold len. rewrite realloc_copy_len_min, S1. reflexivity. }
  destruct (memcpy_state s1 p1 ptr len I1 Lp) as (I2 & Keep2); [lia|].
  set (s2 := set_mem s1 (memcpy (mem s1) p1 ptr len)) in *.
  assert (Hne : p1 <> ptr) by (intros ->; contradiction).
  destruct (Keep2 ptr L1) as (L2 & S2).
  destruct (Keep2 p1 Lp) as (Lp2 & Sp2).
  intros E. inversion E; subst s' p. clear E.
  split; [|split; [intros _ H; contradiction|]].
  - intros _ k Hk Hk'. unfold WSIZE in Hk'.
    rewrite (free_payload s2 ptr p1 I2 L2 Lp2 Hne).
    + unfold byte_at at 1. cbn [mem set_mem s2].
      rewrite memcpy_inside by lia.
      replace (ptr + (p1 + k - p1)) with (ptr + k) by lia.
      apply (MP ptr L). unfold WSIZE. lia.
    + cbn [mem set_mem s2]. rewrite Sp2. unfold WSIZE. lia.
  - intros q Hq Lq x Hx.
    destruct (Keep1 q Lq) as (Lq1 & Sq1).
    destruct (Keep2 q Lq1) as (Lq2 & Sq2).
    rewrite (free_payload s2 ptr q I2 L2 Lq2 Hq).
    + unfold byte_at at 1. cbn [mem set_mem s2].
      rewrite memcpy_outside.
      * apply (MP q Lq). exact Hx.
      * assert (Hpq : p1 <> q) by (intros ->; contradiction).
        destruct I1 as (bl & epa & fl & G).
        destruct (phys_disjoint _ _ _ _ G p1 q (proj1 Lp) (proj1 Lq1) Hpq);
          unfold WSIZE in *; lia.
    + cbn [mem set_mem s2]. rewrite Sq2, Sq1. exact Hx.
Qed.

(** ** The padding word and the prologue *)

Lemma same_low_refl s : same_low s s.
Proof. split; [reflexivity|intros a _; reflexivity]. Qed.

Lemma same_low_trans s1 s2 s3 :
  same_low s1 s2 -> same_low s2 s3 -> same_low s1 s3.
Proof.
  intros [A1 A2] [B1 B2]. split; [congruence|].
  intros a Ha. rewrite B2 by (rewrite A1; exact Ha). apply A2. exact Ha.
Qed.

Lemma keeps_low s s' bl epa fl :
  Rep s bl epa fl -> keeps (first_hdr (heap_start s)) bl (mem s) (mem s') ->
  Inv s' -> heap_start s' = heap_start s -> same_low s s'.
Proof.
  intros R [_ K] (bl' & epa' & fl' & (R' & _)) Ehs.
  pose proof (rep_hl _ _ _ _ R) as Hl. pose proof (rep_hl _ _ _ _ R') as Hl'.
  split; [lia|].
  intros a Ha. apply K. unfold first_hdr. lia.
Qed.

Lemma malloc_low fuel s n s' p :
  Inv s -> 0 <= n <= two64 - 12 ->
  mem_brk s - heap_start s < 16 * Z.of_nat fuel ->
  mm_malloc fuel s n = Some (s', p) -> same_low s s'.
Proof.
  intros (bl & epa & fl & G) Hn Hf Em.
  pose proof (proj1 G) as R.
  destruct (malloc_spec s bl epa fl fuel n G Hn
              (fuel_enough _ _ _ _ R fuel Hf))
    as (s1 & p1 & bl' & epa' & fl' & Em1 & G' & Ehs & _ & _ & _ & K).
  rewrite Em in Em1. inversion Em1; subst s1 p1.
  exact (keeps_low _ _ _ _ _ R K (Good_Inv _ _ _ _ G') Ehs).
Qed.

Lemma free_low s bp :
  Inv s -> live s bp -> same_low s (mm_free s bp).
Proof.
  intros I L.
  destruct (free_state s bp I L) as (I' & Ehs & _).
  destruct I as (bl & epa & fl & G).
  destruct G as (R & HU & Hpa & Hnaf).
  destruct (live_is_KA _ _ _ _ R bp L) as (sz & (X & IX & KX & _)).
  destruct (layout_split _ _ _ _ IX) as (pre & post & E & Eh).
  assert (Ep : bp = first_hdr (heap_start s) + total pre + 4) by lia.
  subst bl.
  destruct (free_spec s pre X post epa fl R KX HU Hpa Hnaf)
    as (bl' & epa' & fl' & _ & _ & _ & _ & _ & _ & K).
  rewrite <- Ep in K.
  pose proof (rep_hl _ _ _ _ R) as Hl.
  destruct I' as (bl2 & epa2 & fl2 & (R2 & _)).
  pose proof (rep_hl _ _ _ _ R2) as Hl2.
  split; [lia|].
  intros a Ha. apply (proj2 K). unfold first_hdr. lia.
Qed.

Lemma realloc_low fuel s ptr n s' p :
  Inv s -> ptr = NULL \/ live s ptr -> 0 <= n <= two64 - 12 ->
  mem_brk s - heap_start s < 16 * Z.of_nat fuel ->
  mm_realloc fuel s ptr n = Some (s', p) -> same_low s s'.
Proof.
  intros I Hp Hn Hf. unfold mm_realloc.
  assert (F0 : mm_free s NULL = s) by reflexivity.
  destruct (Z.eqb_spec n 0) as [->|Hn0].
  { intros E. inversion E; subst s' p.
    destruct Hp as [->|L]; [rewrite F0; apply same_low_refl|].
    apply free_low; assumption. }
  destruct (Z.eqb_spec ptr NULL) as [E0|Hne0].
  { apply malloc_low; assumption. }
  destruct Hp as [E0|L]; [contradiction|].
  destruct (malloc_state fuel s n I Hn Hf)
    as (s1 & p1 & Em & I1 & Ehs & Hnew & Keep1).
  rewrite Em.
  pose proof (malloc_low fuel s n s1 p1 I Hn Hf Em) as M.
  destruct (Z.eqb_spec p1 0) as [->|Hp1].
  { intros E. inversion E; subst s' p. exact M. }
  destruct (Hnew Hp1) as (Lp & Fp & Sp).
  cbv zeta.
  set (len := realloc_copy_len (mem s1) ptr n).
  assert (Hlen : len <= n).
  { unfold len. rewrite realloc_copy_len_min. lia. }
  destruct (memcpy_state s1 p1 ptr len I1 Lp) as (I2 & Keep2); [lia|].
  set (s2 := set_mem s1 (memcpy (mem s1) p1 ptr len)) in *.
  destruct (Keep1 ptr L) as (L1 & _).
  destruct (Keep2 ptr L1) as (L2 & _).
  intros E. inversion E; subst s' p. clear E.
  apply (same_low_trans _ s1); [exact M|].
  apply (same_low_trans _ s2); [|apply free_low; assumption].
  split; [reflexivity|].
  intros a Ha. cbn [mem set_mem s2]. apply GET_memcpy_outside. left.
  destruct I1 as (bl & epa & fl & G).
  destruct (phys_geometry _ _ _ _ G p1 (proj1 Lp)) as (_ & _ & _ & Lo & _).
  unfold WSIZE in Lo. lia.
Qed.

Lemma same_low_prologue s s' :
  same_low s s' -> prologue_ok s -> prologue_ok s'.
Proof.
  intros [E K] [A B]. unfold prologue_ok, GET_SIZE, GET_ALLOC in *.
  rewrite E. rewrite K by (unfold HDRP, WSIZE; lia). auto.
Qed.

(** ** The class lists read from the memory *)

Lemma cands_ext k (f g : Z -> list Z) i :
  0 <= i -> (forall j, 0 <= j < 20 -> f j = g j) ->
  cands k f i = cands k g i.
Proof.
  revert i. induction k as [|k IH]; intros i Hi H; simpl; [reflexivity|].
  destruct (Z.leb_spec i 19); [|reflexivity].
  rewrite (H i) by lia. rewrite (IH (i + 1)) by (lia || exact H).
  reflexivity.
Qed.

Section ClassList.
Variables (s : state) (bl : list blk) (epa : bool) (fl : Z -> list Z).
Hypothesis R : Rep s bl epa fl.

Lemma list_walk_fl i fuel l1 l2 :
0 <= i < 20 -> fl i = l1 ++ l2 -> (length l2 < fuel)%nat ->
list_walk fuel (mem s) (heap_start s) (first_addr l2) = l2.
Proof.
intros Hi. revert fuel l1.
induction l2 as [|b r IH]; intros fuel l1 E L.
- destruct fuel as [|f]; reflexivity.
- destruct fuel as [|f]; [simpl in L; lia|].
cbn [list_walk first_addr].
assert (Hb : b <> NULL).
{ apply (fl_nonnull _ _ _ _ R i). rewrite E.
apply in_or_app. right. left. reflexivity. }
destruct (Z.eqb_spec b NULL) as [|_]; [contradiction|].
f_equal. rewrite (class_succ _ _ _ _ R i Hi l1 b r E).
apply (IH f (l1 ++ [b])); [rewrite <- app_assoc; exact E|].
simpl in L. lia.
Qed.

Lemma class_list_fl i fuel :
0 <= i < 20 -> (length (fl i) < fuel)%nat -> class_list fuel s i = fl i.
Proof.
intros Hi L. unfold class_list.
rewrite (class_head _ _ _ _ R i Hi).
apply (list_walk_fl i fuel [] (fl i) Hi); [reflexivity|exact L].
Qed.

Lemma cands_class_list fuel k i :
0 <= i -> (forall j, (length (fl j) < fuel)%nat) ->
cands k (class_list fuel s) i = cands k fl i.
Proof.
intros Hi L. apply cands_ext; [exact Hi|].
intros j Hj. apply class_list_fl; [exact Hj|apply L].
Qed.
End ClassList.

(** X26: [find_fit] is first fit over the class lists: with the lists of
    the classes from [get_list(asize)] to 19 written one after the other,
    each from head to tail, it returns the first block of size at least
    [asize], or null when there is none.  The search returns for every
    bound above the number of blocks the heap has room for. *)
Theorem find_fit_first_fit fuel s asize :
  Inv s -> mem_brk s - heap_start s < 16 * Z.of_nat fuel ->
  find_fit fuel s asize
  = Some (first_in (fun b => GET_SIZE (mem s) (HDRP b)) asize
            (cands 20 (class_list fuel s) (get_list (u32 asize)))).
Proof.
  intros (bl & epa & fl & (R & _)) Hf.
  pose proof (fuel_enough _ _ _ _ R fuel Hf) as L.
  rewrite (cands_class_list _ _ _ _ R fuel 20 _ (get_list_nonneg _) L).
  apply (find_fit_spec _ _ _ _ R fuel asize L).
Qed.

Section Relink.
Variables (s : state) (i bp : Z) (fuel : nat).
Hypothesis HI : Inv s.
Hypothesis Hi : 0 <= i < 20.
Hypothesis Hc : in_class s i bp.
Hypothesis Hf : mem_brk s - heap_start s < 16 * Z.of_nat fuel.

(** X28: [del_list] takes a listed free block out of the list of its
    class, keeps the order of the other elements, leaves the other lists
    alone and changes no header. *)
Theorem del_list_unlinks :
(forall j, 0 <= j < 20 ->
 class_list fuel (del_list s bp) j
 = if j =? i then remove Z.eq_dec bp (class_list fuel s i)
 else class_list fuel s j) /\
(forall q, phys_block s q ->
 GET (mem (del_list s bp)) (HDRP q) = GET (mem s) (HDRP q)).
Proof.
destruct HI as (bl & epa & fl & (R & U & _)).
pose proof (in_class_In _ _ _ _ R i Hi bp Hc) as Hin.
pose proof Hin as Hl. apply (rep_listed _ _ _ _ R) in Hl.
destruct Hl as (X & IX & KX & GX).
destruct (layout_split _ _ _ _ IX) as (pre & post & E & Eh).
assert (Ebp : bp = first_hdr (heap_start s) + total pre + 4) by lia.
pose proof R as R0. rewrite E in R0.
pose proof (Rep_del_list s pre X post epa fl R0 KX) as R1.
rewrite <- Ebp, GX in R1.
pose proof (fuel_enough _ _ _ _ R fuel Hf) as L.
pose proof (fuel_enough _ _ _ _ R1 fuel Hf) as L1.
split.
- intros j Hj.
rewrite (class_list_fl _ _ _ _ R1 j fuel Hj (L1 j)).
rewrite (class_list_fl _ _ _ _ R i fuel Hi (L i)).
destruct (Z.eqb_spec j i); [reflexivity|].
rewrite (class_list_fl _ _ _ _ R j fuel Hj (L j)). reflexivity.
- intros q P.
destruct (phys_block_in _ _ _ _ R q P) as (b & Ib).
destruct (rep_hdr _ _ _ _ R _ _ Ib) as (Hd & _).
unfold HDRP, WSIZE. rewrite Hd.
rewrite E in Ib. apply layout_in_mid in Ib.
assert (Ib' : exists b', In (q - 4, b')
 (layout (first_hdr (heap_start s))
(pre ++ set_kind X KU :: post))
 /\ bsz b' = bsz b /\ bpa b' = bpa b
 /\ is_alloc (bkind b') = is_alloc (bkind b)).
{ destruct Ib as [Ib|[[Eq ->]|Ib]].
- exists b. split; [apply layout_in_mid; auto|auto].
- exists (set_kind X KU). split.
+ apply layout_in_mid. right. left. auto.
+ rewrite KX. auto.
- exists b. split; [apply layout_in_mid; auto|auto]. }
destruct Ib' as (b' & Ib' & E1 & E2 & E3).
destruct (rep_hdr _ _ _ _ R1 _ _ Ib') as (Hd' & _).
change (heap_start (del_list s bp)) with (heap_start s) in Hd'.
rewrite Hd', E1, E2, E3. reflexivity.
Qed.

(** X29: [add_start] puts a block at the head of the list of its class
    (last in, first out): unlinking a listed free block and linking it
    again moves it to the front of its list, leaves the other lists alone
    and keeps the invariant. *)
Theorem add_start_moves_to_front :
Inv (add_start (del_list s bp) bp) /\
(forall j, 0 <= j < 20 ->
 class_list fuel (add_start (del_list s bp) bp) j
 = if j =? i then bp :: remove Z.eq_dec bp (class_list fuel s i)
 else class_list fuel s j).
Proof.
destruct HI as (bl & epa & fl & (R & U & Pa & Na)).
pose proof (in_class_In _ _ _ _ R i Hi bp Hc) as Hin.
pose proof Hin as Hl. apply (rep_listed _ _ _ _ R) in Hl.
destruct Hl as (X & IX & KX & GX).
destruct (layout_split _ _ _ _ IX) as (pre & post & E & Eh).
assert (Ebp : bp = first_hdr (heap_start s) + total pre + 4) by lia.
pose proof R as R0. rewrite E in R0.
pose proof (Rep_del_list s pre X post epa fl R0 KX) as R1.
pose proof (Rep_add_start _ _ _ _ _ _ R1 (eq_refl : bkind (set_kind X KU) = KU))
as R2.
change (heap_start (del_list s (first_hdr (heap_start s) + total pre + 4)))
with (heap_start s) in R2.
assert (EX : set_kind (set_kind X KU) KF = X)
by (destruct X; simpl in *; subst; reflexivity).
cbn [bsz set_kind] in R2. rewrite <- Ebp, GX in R2.
change (set_kind (mkBlk (bsz X) KU (bpa X)) KF)
with (set_kind (set_kind X KU) KF) in R2.
rewrite EX, <- E in R2.
split; [exists bl; eexists _, _; exact (conj R2 (conj U (conj Pa Na)))|].
pose proof (fuel_enough _ _ _ _ R fuel Hf) as L.
pose proof (fuel_enough _ _ _ _ R2 fuel Hf) as L2.
intros j Hj.
rewrite (class_list_fl _ _ _ _ R2 j fuel Hj (L2 j)).
rewrite (class_list_fl _ _ _ _ R i fuel Hi (L i)).
destruct (Z.eqb_spec j i) as [->|Hne].
- rewrite Z.eqb_refl. reflexivity.
- rewrite (class_list_fl _ _ _ _ R j fuel Hj (L j)). reflexivity.
Qed.
End Relink.

(** ** [place] on states that satisfy the invariant *)

Lemma next_fields s pre post epa fl :
  Rep s (pre ++ post) epa fl ->
  GET_SIZE (mem s) (first_hdr (heap_start s) + total pre)
  = match post with [] => 0 | Y :: _ => bsz Y end /\
  GET_ALLOC (mem s) (first_hdr (heap_start s) + total pre)
  = (if next_is_alloc post then 1 else 0) /\
  GET_PREV_ALLOC (mem s) (first_hdr (heap_start s) + total pre)
  = (if next_pa post epa then 2 else 0).
Proof.
  intros R. pose proof (next_read s pre post epa fl R) as E.
  pose proof (next_size_ok s pre post epa fl R) as Ok.
  unfold GET_SIZE, GET_ALLOC, GET_PREV_ALLOC. rewrite E.
  destruct post as [|Y r]; simpl;
    rewrite hdr_size, hdr_alloc, hdr_prev_alloc by exact Ok; auto.
Qed.

Lemma next_fields_set s pre post epa fl q :
  Rep s (pre ++ set_next_pa q post) (next_epa q post epa) fl ->
  GET_SIZE (mem s) (first_hdr (heap_start s) + total pre)
  = match post with [] => 0 | Y :: _ => bsz Y end /\
  GET_ALLOC (mem s) (first_hdr (heap_start s) + total pre)
  = (if next_is_alloc post then 1 else 0) /\
  GET_PREV_ALLOC (mem s) (first_hdr (heap_start s) + total pre)
  = (if q then 2 else 0).
Proof.
  intros R. destruct (next_fields _ _ _ _ _ R) as (A & B & C).
  rewrite A, B, C. destruct post as [|Y r]; simpl; auto.
Qed.

Lemma free_view s bp :
  Inv s -> phys_block s bp -> GET_ALLOC (mem s) (HDRP bp) = 0 ->
  exists pre X post epa fl,
    Good s (pre ++ X :: post) epa fl /\
    bp = first_hdr (heap_start s) + total pre + 4 /\
    bkind X = KF /\ bsz X = GET_SIZE (mem s) (HDRP bp).
Proof.
  intros (bl & epa & fl & G) P A.
  destruct (phys_view _ _ _ _ G bp P) as (pre & X & post & E & Ebp & KU' & _).
  subst bl. exists pre, X, post, epa, fl.
  pose proof (proj1 G) as R.
  split; [exact G|]. split; [exact Ebp|].
  rewrite Ebp in A |- *.
  rewrite (read_alloc s pre X post epa fl R) in A.
  rewrite (read_size s pre X post epa fl R).
  split; [|reflexivity].
  apply not_alloc_KF; [exact KU'|].
  destruct (is_alloc (bkind X)); [discriminate|reflexivity].
Qed.

Section PlaceState.
Variables (s : state) (bp asize : Z).
Hypothesis HI : Inv s.
Hypothesis HP : phys_block s bp.
Hypothesis HA : GET_ALLOC (mem s) (HDRP bp) = 0.
Hypothesis Ha16 : 16 <= asize.
Hypothesis Ha8 : asize mod 8 = 0.
Hypothesis Hfit : asize <= GET_SIZE (mem s) (HDRP bp).
Let csize := GET_SIZE (mem s) (HDRP bp).

Lemma place_state :
Inv (place s bp asize) /\
live (place s bp asize) bp /\
asize <= GET_SIZE (mem (place s bp asize)) (HDRP bp) /\
(forall q, live s q ->
 live (place s bp asize) q /\
 GET_SIZE (mem (place s bp asize)) (HDRP q)
 = GET_SIZE (mem s) (HDRP q)).
Proof.
destruct (free_view s bp HI HP HA)
as (pre & X & post & epa & fl & (R & U & Pa & Na) & Ebp & KX & SX).
rewrite <- SX in Hfit.
destruct (place_spec s pre X post epa fl asize R KX U Pa Na Ha16 Ha8 Hfit)
as (bl' & epa' & fl' & R' & U' & P' & N' & (sz & Hsz & HKA) & Keep & _).
rewrite <- Ebp in R', HKA.
assert (Ehs : heap_start (place s bp asize) = heap_start s)
by apply place_heap_start.
rewrite <- Ehs in HKA, Keep.
split; [exists bl', epa', fl'; tauto|].
destruct (is_KA_live _ _ _ _ R' bp sz HKA) as [L S].
split; [exact L|]. split; [rewrite S; exact Hsz|].
intros q Lq. destruct (live_is_KA _ _ _ _ R q Lq) as (sz' & K).
destruct (is_KA_live _ _ _ _ R q sz' K) as [_ S0].
rewrite <- Ehs in K. apply Keep in K.
destruct (is_KA_live _ _ _ _ R' q sz' K) as [L' S'].
split; [exact L'|]. rewrite S', S0. reflexivity.
Qed.

Lemma place_whole_state :
csize - asize < 16 ->
GET_SIZE (mem (place s bp asize)) (HDRP bp) = csize /\
GET_ALLOC (mem (place s bp asize)) (HDRP bp) = 1 /\
GET_PREV_ALLOC (mem (place s bp asize)) (HDRP bp)
= GET_PREV_ALLOC (mem s) (HDRP bp) /\
GET_SIZE (mem (place s bp asize)) (HDRP (NEXT_BLKP (mem s) bp))
= GET_SIZE (mem s) (HDRP (NEXT_BLKP (mem s) bp)) /\
GET_ALLOC (mem (place s bp asize)) (HDRP (NEXT_BLKP (mem s) bp))
= GET_ALLOC (mem s) (HDRP (NEXT_BLKP (mem s) bp)) /\
GET_PREV_ALLOC (mem (place s bp asize)) (HDRP (NEXT_BLKP (mem s) bp)) = 2 /\
(forall j, 0 <= j < 20 -> ~ in_class (place s bp asize) j bp).
Proof.
intros Hw.
destruct (free_view s bp HI HP HA)
as (pre & X & post & epa & fl & (R & U & Pa & Na) & Ebp & KX & SX).
fold csize in SX. pose proof Hfit as Hfit'. fold csize in Hfit'.
rewrite <- SX in Hw, Hfit'.
pose proof (proj1 (place_whole s pre X post epa fl asize R KX Na Ha16 Hfit'
Hw)) as R'.
rewrite <- Ebp in R'.
assert (Ehs : heap_start (place s bp asize) = heap_start s)
by apply place_heap_start.
assert (IX : In (bp - 4, set_kind X KA)
 (layout (first_hdr (heap_start (place s bp asize)))
  (pre ++ set_kind X KA :: set_next_pa true post))).
{ rewrite Ehs. replace (bp - 4)
with (first_hdr (heap_start s) + total pre) by lia.
apply layout_mid. }
destruct (rep_hdr _ _ _ _ R' _ _ IX) as (_ & GS & GA & GP).
assert (En : HDRP (NEXT_BLKP (mem s) bp)
 = first_hdr (heap_start s) + total (pre ++ [X])).
{ rewrite Ebp, (read_next s pre X post epa fl R), total_app.
unfold HDRP, WSIZE. simpl. lia. }
rewrite En.
assert (R0 : Rep s ((pre ++ [X]) ++ post) epa fl)
by (rewrite <- app_assoc; exact R).
destruct (next_fields _ _ _ _ _ R0) as (A0 & B0 & C0).
assert (R1 : Rep (place s bp asize)
 ((pre ++ [set_kind X KA]) ++ set_next_pa true post)
 (next_epa true post epa)
 (fl_remove fl (get_list (bsz X)) bp))
by (rewrite <- app_assoc; exact R').
destruct (next_fields_set _ _ _ _ _ _ R1) as (A1 & B1 & C1).
rewrite Ehs in A1, B1, C1.
replace (total (pre ++ [set_kind X KA])) with (total (pre ++ [X]))
in A1, B1, C1 by (rewrite !total_app; reflexivity).
unfold HDRP, WSIZE in *. rewrite GS, GA, GP, A1, B1, C1, A0, B0.
rewrite Ebp. replace (first_hdr (heap_start s) + total pre + 4 - 4)
with (first_hdr (heap_start s) + total pre) by lia.
assert (IX0 : In (first_hdr (heap_start s) + total pre, X)
(layout (first_hdr (heap_start s)) (pre ++ X :: post)))
by apply layout_mid.
destruct (rep_hdr _ _ _ _ R _ _ IX0) as (_ & _ & _ & GP0).
rewrite GP0. cbn [bsz bkind bpa set_kind is_alloc].
repeat split; try reflexivity; try exact SX.
rewrite <- Ebp. intros j Hj C. apply (in_class_In _ _ _ _ R' j Hj) in C.
apply (rep_listed _ _ _ _ R') in C. destruct C as (b & Ib & Kb & _).
rewrite Ehs in Ib.
assert (IX' : In (bp - 4, set_kind X KA)
 (layout (first_hdr (heap_start s))
  (pre ++ set_kind X KA :: set_next_pa true post))).
{ rewrite <- Ehs. exact IX. }
destruct (layout_sep _ _ _ _ _ _ (rep_sizes _ _ _ _ R') Ib IX')
as [[_ E]|[L|L]].
- subst b. simpl in Kb. discriminate.
- destruct (layout_bounds _ _ _ _ (rep_sizes _ _ _ _ R') Ib)
as (_ & _ & (S1 & _)). lia.
- destruct (layout_bounds _ _ _ _ (rep_sizes _ _ _ _ R') IX')
as (_ & _ & (S1 & _)). simpl in S1, L. lia.
Qed.
Lemma place_split_state :
16 <= csize - asize ->
GET_SIZE (mem (place s bp asize)) (HDRP bp) = asize /\
GET_ALLOC (mem (place s bp asize)) (HDRP bp) = 1 /\
GET_PREV_ALLOC (mem (place s bp asize)) (HDRP bp)
= GET_PREV_ALLOC (mem s) (HDRP bp) /\
GET (mem (place s bp asize)) (HDRP (bp + asize)) = csize - asize + 2 /\
GET (mem (place s bp asize)) (FTRP (mem (place s bp asize)) (bp + asize))
= csize - asize + 2 /\
in_class (place s bp asize) (get_list (csize - asize)) (bp + asize) /\
GET_SIZE (mem (place s bp asize)) (HDRP (NEXT_BLKP (mem s) bp))
= GET_SIZE (mem s) (HDRP (NEXT_BLKP (mem s) bp)) /\
GET_ALLOC (mem (place s bp asize)) (HDRP (NEXT_BLKP (mem s) bp))
= GET_ALLOC (mem s) (HDRP (NEXT_BLKP (mem s) bp)) /\
GET_PREV_ALLOC (mem (place s bp asize)) (HDRP (NEXT_BLKP (mem s) bp)) = 0.
Proof.
intros Hs.
destruct (free_view s bp HI HP HA)
as (pre & X & post & epa & fl & (R & U & Pa & Na) & Ebp & KX & SX).
fold csize in SX. pose proof Hfit as Hfit'. fold csize in Hfit'.
rewrite <- SX in Hs, Hfit' |- *.
pose proof (proj1 (place_split s pre X post epa fl asize R KX Na Ha16 Ha8
Hfit' Hs)) as R'.
rewrite <- Ebp in R'.
set (s' := place s bp asize) in *.
set (A := mkBlk asize KA (bpa X)) in *.
set (B := mkBlk (bsz X - asize) KF true) in *.
assert (Ehs : heap_start s' = heap_start s) by apply place_heap_start.
assert (IA : In (bp - 4, A)
 (layout (first_hdr (heap_start s'))
  (pre ++ A :: B :: set_next_pa false post))).
{ rewrite Ehs. replace (bp - 4)
with (first_hdr (heap_start s) + total pre) by lia.
apply layout_mid. }
assert (IB : In (bp + asize - 4, B)
 (layout (first_hdr (heap_start s'))
  (pre ++ A :: B :: set_next_pa false post))).
{ rewrite Ehs.
replace (pre ++ A :: B :: set_next_pa false post)
with ((pre ++ [A]) ++ B :: set_next_pa false post)
by (rewrite <- app_assoc; reflexivity).
replace (bp + asize - 4)
with (first_hdr (heap_start s) + total (pre ++ [A]))
by (rewrite total_app; simpl; lia).
apply layout_mid. }
destruct (rep_hdr _ _ _ _ R' _ _ IA) as (_ & GS & GA & GP).
destruct (rep_hdr _ _ _ _ R' _ _ IB) as (HB & SB & _).
destruct (rep_ftr _ _ _ _ R' _ _ IB) as (FB & _); [discriminate|].
assert (En : HDRP (NEXT_BLKP (mem s) bp)
 = first_hdr (heap_start s) + total (pre ++ [X])).
{ rewrite Ebp, (read_next s pre X post epa fl R), total_app.
unfold HDRP, WSIZE. simpl. lia. }
rewrite En.
assert (R0 : Rep s ((pre ++ [X]) ++ post) epa fl)
by (rewrite <- app_assoc; exact R).
destruct (next_fields _ _ _ _ _ R0) as (A0 & B0 & C0).
assert (R1 : Rep s' ((pre ++ [A; B]) ++ set_next_pa false post)
 (next_epa false post epa)
 (fl_add (fl_remove fl (get_list (bsz X)) bp)
  (get_list (bsz X - asize)) (bp + asize)))
by (rewrite <- app_assoc; exact R').
destruct (next_fields_set _ _ _ _ _ _ R1) as (A1 & B1 & C1).
rewrite Ehs in A1, B1, C1.
replace (total (pre ++ [A; B])) with (total (pre ++ [X]))
in A1, B1, C1 by (rewrite !total_app; simpl; lia).
assert (IX0 : In (first_hdr (heap_start s) + total pre, X)
(layout (first_hdr (heap_start s)) (pre ++ X :: post)))
by apply layout_mid.
destruct (rep_hdr _ _ _ _ R _ _ IX0) as (_ & _ & _ & GP0).
unfold FTRP, HDRP, WSIZE, DSIZE in *.
rewrite SB, GS, GA, GP, A1, B1, C1, A0, B0, HB.
replace (bp + asize + bsz B - 8) with (bp + asize - 4 + bsz B - 4) by lia.
rewrite FB.
replace (bp - 4) with (first_hdr (heap_start s) + total pre) by lia.
rewrite GP0. cbn [bsz bkind bpa A B is_alloc]. unfold hdr.
split; [reflexivity|]. split; [reflexivity|]. split; [reflexivity|].
split; [lia|]. split; [lia|].
split; [|split; [reflexivity|split; reflexivity]].
assert (Hr : 0 <= get_list (bsz X - asize) < 20).
{ pose proof (get_list_range (bsz X - asize) Hs). lia. }
apply (In_in_class _ _ _ _ R' _ Hr).
unfold fl_add. rewrite Z.eqb_refl. left. reflexivity.
Qed.
End PlaceState.

(** ** [coalesce] as [mm_free] calls it *)

Lemma live_view s bp :
  Inv s -> live s bp ->
  exists pre X post epa fl,
    Good s (pre ++ X :: post) epa fl /\
    bp = first_hdr (heap_start s) + total pre + 4 /\
    bkind X = KA /\ bsz X = GET_SIZE (mem s) (HDRP bp) /\
    Rep (mark_free s bp) (pre ++ set_kind X KU :: post) epa fl.
Proof.
  intros (bl & epa & fl & G) L. pose proof (proj1 G) as R.
  destruct (live_is_KA _ _ _ _ R bp L) as (sz & (X & IX & KX & SX)).
  destruct (layout_split _ _ _ _ IX) as (pre & post & E & Eh).
  assert (Ebp : bp = first_hdr (heap_start s) + total pre + 4) by lia.
  subst bl. exists pre, X, post, epa, fl.
  split; [exact G|]. split; [exact Ebp|]. split; [exact KX|].
  split.
  - rewrite Ebp. symmetry. apply (read_size s pre X post epa fl R).
  - pose proof (proj1 (free_mark s pre X post epa fl R KX)) as M.
    cbv zeta in M. rewrite <- Ebp in M. exact M.
Qed.

Lemma merged_read s2 pre' M post0 epa fl' :
  Rep s2 (pre' ++ M :: set_next_pa false post0) (next_epa false post0 epa)
      fl' ->
  bkind M <> KA ->
  GET (mem s2) (HDRP (first_hdr (heap_start s2) + total pre' + 4))
  = bsz M + (if bpa M then 2 else 0) /\
  GET (mem s2)
      (FTRP (mem s2) (first_hdr (heap_start s2) + total pre' + 4))
  = bsz M + (if bpa M then 2 else 0) /\
  GET_PREV_ALLOC (mem s2)
      (HDRP (first_hdr (heap_start s2) + total pre' + 4 + bsz M)) = 0.
Proof.
  intros R K.
  assert (I : In (first_hdr (heap_start s2) + total pre', M)
                (layout (first_hdr (heap_start s2))
                   (pre' ++ M :: set_next_pa false post0)))
    by apply layout_mid.
  destruct (rep_hdr _ _ _ _ R _ _ I) as (Hd & Sz & _).
  destruct (rep_ftr _ _ _ _ R _ _ I K) as (Ft & _).
  assert (R1 : Rep s2 ((pre' ++ [M]) ++ set_next_pa false post0)
                 (next_epa false post0 epa) fl')
    by (rewrite <- app_assoc; exact R).
  destruct (next_fields_set _ _ _ _ _ _ R1) as (_ & _ & C).
  rewrite total_app in C. simpl in C.
  assert (Ea : is_alloc (bkind M) = false)
    by (destruct (bkind M); simpl; congruence).
  unfold FTRP, HDRP, WSIZE, DSIZE.
  replace (first_hdr (heap_start s2) + total pre' + 4 - 4)
    with (first_hdr (heap_start s2) + total pre') by lia.
  rewrite Sz, Hd.
  replace (first_hdr (heap_start s2) + total pre' + 4 + bsz M - 8)
    with (first_hdr (heap_start s2) + total pre' + bsz M - 4) by lia.
  rewrite Ft.
  replace (first_hdr (heap_start s2) + total pre' + 4 + bsz M - 4)
    with (first_hdr (heap_start s2) + (total pre' + (bsz M + 0))) by lia.
  rewrite C, Ea. unfold hdr. repeat split; lia.
Qed.

Lemma fl_remove_eq (fl : Z -> list Z) i p j :
  (In p (fl j) -> j = i) ->
  fl_remove fl i p j = remove Z.eq_dec p (fl j).
Proof.
  intros H. unfold fl_remove. destruct (Z.eqb_spec j i) as [->|Hne].
  - reflexivity.
  - symmetry. apply notin_remove. intros Hin. apply Hne. auto.
Qed.

Lemma listed_class s bl epa fl i j p :
  Rep s bl epa fl -> In p (fl i) -> In p (fl j) -> j = i.
Proof.
  intros R Hi Hj.
  destruct (rep_fl_spaced _ _ _ _ R j i p p Hj Hi) as [[_ E]|[L|L]];
    [exact E|lia|lia].
Qed.

Lemma coalesce_brk s bp :
  mem_brk (fst (coalesce s bp)) = mem_brk s /\
  heap_start (fst (coalesce s bp)) = heap_start s.
Proof.
  destruct (coalesce_set_mem s bp) as (m & ->). split; reflexivity.
Qed.

Section CoalesceState.
Variables (s : state) (bp : Z) (fuel : nat).
Hypothesis HI : Inv s.
Hypothesis HL : live s bp.
Hypothesis Hf : mem_brk s - heap_start s < 16 * Z.of_nat fuel.
Let s1 := mark_free s bp.
Let sz := GET_SIZE (mem s) (HDRP bp).
Let nsz := GET_SIZE (mem s) (HDRP (NEXT_BLKP (mem s) bp)).
Let psz := GET_SIZE (mem s) (bp - DSIZE).

Lemma coalesce_state_case1 :
GET_PREV_ALLOC (mem s) (HDRP bp) <> 0 ->
GET_ALLOC (mem s) (HDRP (NEXT_BLKP (mem s) bp)) <> 0 ->
snd (coalesce s1 bp) = bp /\
GET (mem (fst (coalesce s1 bp))) (HDRP bp) = sz + 2 /\
GET (mem (fst (coalesce s1 bp))) (FTRP (mem (fst (coalesce s1 bp))) bp)
= sz + 2 /\
GET_PREV_ALLOC (mem (fst (coalesce s1 bp))) (HDRP (bp + sz)) = 0 /\
(forall j, 0 <= j < 20 ->
 class_list fuel (fst (coalesce s1 bp)) j = class_list fuel s j).
Proof.
intros Hpa Hna.
destruct (live_view s bp HI HL)
as (pre & X & post & epa & fl & (R & U & Pa & Na) & Ebp & KX & SX & R1).
fold s1 in R1. fold sz in SX.
rewrite Ebp in Hpa, Hna.
rewrite (read_prev_alloc s pre X post epa fl R) in Hpa.
rewrite (read_next_alloc s pre X post epa fl R) in Hna.
assert (HpaX : bpa X = true) by (destruct (bpa X); congruence).
assert (HnaX : next_is_alloc post = true)
by (destruct (next_is_alloc post); congruence).
destruct (coalesce_case1 s1 pre (set_kind X KU) post epa fl R1
eq_refl HpaX HnaX) as (C1 & C2 & _).
change (heap_start s1) with (heap_start s) in C1, C2.
rewrite <- Ebp in C1, C2.
destruct (coalesce_brk s1 bp) as (Eb & Eh).
change (heap_start s1) with (heap_start s) in Eh.
change (mem_brk s1) with (mem_brk s) in Eb.
set (s2 := fst (coalesce s1 bp)) in *.
split; [exact C1|].
destruct (merged_read s2 pre (set_kind X KU) post epa fl C2)
as (M1 & M2 & M3); [simpl; discriminate|].
rewrite Eh, <- Ebp in M1, M2, M3.
cbn [bsz bpa set_kind] in M1, M2, M3. rewrite HpaX, SX in M1, M2.
rewrite SX in M3.
split; [exact M1|]. split; [exact M2|]. split; [exact M3|].
intros j Hj.
rewrite (class_list_fl _ _ _ _ C2 j fuel Hj)
by (apply (fuel_enough _ _ _ _ C2); rewrite Eb, Eh; exact Hf).
rewrite (class_list_fl _ _ _ _ R j fuel Hj)
by (apply (fuel_enough _ _ _ _ R); exact Hf).
reflexivity.
Qed.

(** X20: [coalesce], case 1.  Called by [mm_free] on a block whose two
    neighbours are allocated, it merges nothing: it returns [bp], header
    and footer of [bp] hold the size with the allocated bit clear and the
    previous-allocated bit set, the previous-allocated bit of the next
    header is cleared and the class lists are as before. *)
Theorem coalesce_both_allocated :
GET_PREV_ALLOC (mem s) (HDRP bp) <> 0 ->
GET_ALLOC (mem s) (HDRP (NEXT_BLKP (mem s) bp)) <> 0 ->
snd (coalesce s1 bp) = bp /\
GET (mem (fst (coalesce s1 bp))) (HDRP bp) = sz + 2 /\
GET (mem (fst (coalesce s1 bp))) (FTRP (mem (fst (coalesce s1 bp))) bp)
= sz + 2 /\
GET_PREV_ALLOC (mem (fst (coalesce s1 bp))) (HDRP (bp + sz)) = 0 /\
(forall j, 0 <= j < 20 ->
 class_list fuel (fst (coalesce s1 bp)) j = class_list fuel s j).
Proof. exact coalesce_state_case1. Qed.

Lemma coalesce_state_case2 :
GET_PREV_ALLOC (mem s) (HDRP bp) <> 0 ->
GET_ALLOC (mem s) (HDRP (NEXT_BLKP (mem s) bp)) = 0 ->
snd (coalesce s1 bp) = bp /\
GET (mem (fst (coalesce s1 bp))) (HDRP bp) = sz + nsz + 2 /\
GET (mem (fst (coalesce s1 bp))) (FTRP (mem (fst (coalesce s1 bp))) bp)
= sz + nsz + 2 /\
GET_PREV_ALLOC (mem (fst (coalesce s1 bp))) (HDRP (bp + (sz + nsz))) = 0 /\
(forall j, 0 <= j < 20 ->
 class_list fuel (fst (coalesce s1 bp)) j
 = remove Z.eq_dec (bp + sz) (class_list fuel s j)).
Proof.
intros Hpa Hna.
destruct (live_view s bp HI HL)
as (pre & X & post & epa & fl & (R & U & Pa & Na) & Ebp & KX & SX & R1).
fold s1 in R1. fold sz in SX.
assert (Ensz : nsz = match post with [] => 0 | Y :: _ => bsz Y end).
{ unfold nsz. rewrite Ebp.
unfold GET_SIZE. rewrite (read_next_word s pre X post epa fl R).
pose proof (next_size_ok s (pre ++ [X]) post epa fl) as Ok.
rewrite <- app_assoc in Ok. specialize (Ok R).
destruct post as [|Y r]; simpl; apply hdr_size; exact Ok. }
rewrite Ebp in Hpa, Hna.
rewrite (read_prev_alloc s pre X post epa fl R) in Hpa.
rewrite (read_next_alloc s pre X post epa fl R) in Hna.
assert (HpaX : bpa X = true) by (destruct (bpa X); congruence).
destruct post as [|Y r]; [simpl in Hna; discriminate|].
simpl in Hna, Ensz.
apply no_KU_mid in U. destruct U as (_ & _ & U2).
pose proof (Forall_inv U2) as KY. cbv beta in KY.
assert (HKY : bkind Y = KF).
{ apply not_alloc_KF; [exact KY|].
destruct (is_alloc (bkind Y)); [discriminate|reflexivity]. }
assert (Hnr : next_is_alloc r = true).
{ apply naf_mid in Na. destruct Na as (_ & N2).
apply naf_cons in N2. destruct N2 as (_ & N3).
apply naf_cons in N3. destruct N3 as ([N3|N3] & _); [|exact N3].
rewrite HKY in N3. discriminate. }
destruct (coalesce_case2 s1 pre (set_kind X KU) Y r epa fl R1
eq_refl HKY HpaX Hnr) as (C1 & C2 & _).
change (heap_start s1) with (heap_start s) in C1, C2.
rewrite <- Ebp in C1, C2.
destruct (coalesce_brk s1 bp) as (Eb & Eh).
change (heap_start s1) with (heap_start s) in Eh.
change (mem_brk s1) with (mem_brk s) in Eb.
set (s2 := fst (coalesce s1 bp)) in *.
split; [exact C1|].
cbn [bsz set_kind] in C2.
destruct (merged_read s2 pre _ r epa _ C2)
as (M1 & M2 & M3); [simpl; discriminate|].
rewrite Eh, <- Ebp in M1, M2, M3.
cbn [bsz bpa] in M1, M2, M3. rewrite SX, <- Ensz in M1, M2, M3.
split; [exact M1|]. split; [exact M2|]. split; [exact M3|].
intros j Hj.
rewrite (class_list_fl _ _ _ _ C2 j fuel Hj)
by (apply (fuel_enough _ _ _ _ C2); rewrite Eb, Eh; exact Hf).
rewrite (class_list_fl _ _ _ _ R j fuel Hj)
by (apply (fuel_enough _ _ _ _ R); exact Hf).
rewrite SX. apply fl_remove_eq. intros Hin.
apply (listed_class s _ epa fl (get_list (bsz Y)) j (bp + sz) R);
[|exact Hin].
apply (rep_listed _ _ _ _ R). exists Y. split; [|split; [exact HKY|reflexivity]].
replace (bp + sz - 4)
with (first_hdr (heap_start s) + total (pre ++ [X]))
by (rewrite total_app; simpl; lia).
replace (pre ++ X :: Y :: r) with ((pre ++ [X]) ++ Y :: r)
by (rewrite <- app_assoc; reflexivity).
apply layout_mid.
Qed.

(** X21: [coalesce], case 2.  With the previous block allocated and the
    next block free, it removes the next block from its list, returns [bp]
    and makes it one free block of the two sizes, header and footer equal,
    and clears the previous-allocated bit of the header that follows. *)
Theorem coalesce_next_free :
GET_PREV_ALLOC (mem s) (HDRP bp) <> 0 ->
GET_ALLOC (mem s) (HDRP (NEXT_BLKP (mem s) bp)) = 0 ->
snd (coalesce s1 bp) = bp /\
GET (mem (fst (coalesce s1 bp))) (HDRP bp) = sz + nsz + 2 /\
GET (mem (fst (coalesce s1 bp))) (FTRP (mem (fst (coalesce s1 bp))) bp)
= sz + nsz + 2 /\
GET_PREV_ALLOC (mem (fst (coalesce s1 bp))) (HDRP (bp + (sz + nsz))) = 0 /\
(forall j, 0 <= j < 20 ->
 class_list fuel (fst (coalesce s1 bp)) j
 = remove Z.eq_dec (bp + sz) (class_list fuel s j)).
Proof. exact coalesce_state_case2. Qed.
(** The block before [bp] when the previous-allocated bit of [bp] is
clear. *)
Lemma prev_free_view pre X post epa :
no_KU (pre ++ X :: post) -> pa_chain true (pre ++ X :: post) epa ->
bpa X = false ->
exists pre0 P, pre = pre0 ++ [P] /\ bkind P = KF.
Proof.
intros U Pa HX. apply pa_mid in Pa. destruct Pa as (Pa & _).
pose proof (pa_chain_end _ _ _ Pa) as Eend.
destruct (blk_last_case pre) as [->|(pre0 & P & ->)].
- simpl in Eend. congruence.
- exists pre0, P. split; [reflexivity|].
rewrite end_alloc_app in Eend. simpl in Eend.
apply no_KU_mid in U. destruct U as (U & _).
apply no_KU_app in U. destruct U as (_ & U).
apply not_alloc_KF; [exact (Forall_inv U)|congruence].
Qed.

Lemma coalesce_state_case3 :
GET_PREV_ALLOC (mem s) (HDRP bp) = 0 ->
GET_ALLOC (mem s) (HDRP (NEXT_BLKP (mem s) bp)) <> 0 ->
snd (coalesce s1 bp) = bp - psz /\
GET (mem (fst (coalesce s1 bp))) (HDRP (bp - psz))
= psz + sz + GET_PREV_ALLOC (mem s) (HDRP (bp - psz)) /\
GET (mem (fst (coalesce s1 bp)))
(FTRP (mem (fst (coalesce s1 bp))) (bp - psz))
= psz + sz + GET_PREV_ALLOC (mem s) (HDRP (bp - psz)) /\
GET_PREV_ALLOC (mem (fst (coalesce s1 bp))) (HDRP (bp + sz)) = 0 /\
(forall j, 0 <= j < 20 ->
 class_list fuel (fst (coalesce s1 bp)) j
 = remove Z.eq_dec (bp - psz) (class_list fuel s j)).
Proof.
intros Hpa Hna.
destruct (live_view s bp HI HL)
as (pre & X & post & epa & fl & (R & U & Pa & Na) & Ebp & KX & SX & R1).
fold s1 in R1. fold sz in SX.
rewrite Ebp in Hpa, Hna.
rewrite (read_prev_alloc s pre X post epa fl R) in Hpa.
rewrite (read_next_alloc s pre X post epa fl R) in Hna.
assert (HpaX : bpa X = false) by (destruct (bpa X); congruence).
assert (HnaX : next_is_alloc post = true)
by (destruct (next_is_alloc post); congruence).
destruct (prev_free_view pre X post epa U Pa HpaX)
as (pre0 & P & Epre & HKP).
rewrite Epre in *. rewrite <- app_assoc in R, R1. simpl in R, R1.
rewrite total_app in Ebp. simpl in Ebp.
assert (Ebp' : bp = first_hdr (heap_start s) + total pre0 + bsz P + 4)
by lia.
assert (HPA : bkind P <> KA) by (rewrite HKP; discriminate).
destruct (read_prev s pre0 P X post epa fl R HPA) as (Eps & _).
rewrite <- Ebp' in Eps. fold psz in Eps.
assert (Ert : bp - psz = first_hdr (heap_start s) + total pre0 + 4) by lia.
assert (IP : In (first_hdr (heap_start s) + total pre0, P)
 (layout (first_hdr (heap_start s))
    (pre0 ++ P :: X :: post))) by apply layout_mid.
destruct (rep_hdr _ _ _ _ R _ _ IP) as (_ & _ & _ & GPP).
destruct (coalesce_case3 s1 pre0 P (set_kind X KU) post epa fl R1
eq_refl HKP HpaX HnaX) as (C1 & C2 & _).
change (heap_start s1) with (heap_start s) in C1, C2.
rewrite <- Ebp' in C1, C2.
destruct (coalesce_brk s1 bp) as (Eb & Eh).
change (heap_start s1) with (heap_start s) in Eh.
change (mem_brk s1) with (mem_brk s) in Eb.
set (s2 := fst (coalesce s1 bp)) in *.
split; [rewrite C1; lia|].
cbn [bsz set_kind] in C2.
destruct (merged_read s2 pre0 _ post epa _ C2)
as (M1 & M2 & M3); [simpl; discriminate|].
rewrite Eh, <- Ert in M1, M2, M3.
cbn [bsz bpa] in M1, M2, M3.
replace (bp - psz + (bsz P + bsz X)) with (bp + sz) in M3 by lia.
assert (GP : GET_PREV_ALLOC (mem s) (HDRP (bp - psz))
 = if bpa P then 2 else 0).
{ unfold HDRP, WSIZE.
replace (bp - psz - 4) with (first_hdr (heap_start s) + total pre0)
by lia.
exact GPP. }
rewrite GP. rewrite <- Eps, SX in M1, M2.
split; [exact M1|]. split; [exact M2|]. split; [exact M3|].
intros j Hj.
rewrite (class_list_fl _ _ _ _ C2 j fuel Hj)
by (apply (fuel_enough _ _ _ _ C2); rewrite Eb, Eh; exact Hf).
rewrite (class_list_fl _ _ _ _ R j fuel Hj)
by (apply (fuel_enough _ _ _ _ R); exact Hf).
replace (bp - bsz P) with (bp - psz) by lia.
apply fl_remove_eq. intros Hin.
apply (listed_class s _ epa fl (get_list (bsz P)) j (bp - psz) R);
[|exact Hin].
apply (rep_listed _ _ _ _ R). exists P.
split; [|split; [exact HKP|reflexivity]].
replace (bp - psz - 4) with (first_hdr (heap_start s) + total pre0) by lia.
exact IP.
Qed.

(** X22: [coalesce], case 3.  With the previous block free and the next
    block allocated, it removes the previous block from its list and
    returns it, grown over [bp]: header and footer hold the sum of the two
    sizes and the previous-allocated bit that the previous block had, and
    the previous-allocated bit of the header that follows is cleared. *)
Theorem coalesce_prev_free :
GET_PREV_ALLOC (mem s) (HDRP bp) = 0 ->
GET_ALLOC (mem s) (HDRP (NEXT_BLKP (mem s) bp)) <> 0 ->
snd (coalesce s1 bp) = bp - psz /\
GET (mem (fst (coalesce s1 bp))) (HDRP (bp - psz))
= psz + sz + GET_PREV_ALLOC (mem s) (HDRP (bp - psz)) /\
GET (mem (fst (coalesce s1 bp)))
(FTRP (mem (fst (coalesce s1 bp))) (bp - psz))
= psz + sz + GET_PREV_ALLOC (mem s) (HDRP (bp - psz)) /\
GET_PREV_ALLOC (mem (fst (coalesce s1 bp))) (HDRP (bp + sz)) = 0 /\
(forall j, 0 <= j < 20 ->
 class_list fuel (fst (coalesce s1 bp)) j
 = remove Z.eq_dec (bp - psz) (class_list fuel s j)).
Proof. exact coalesce_state_case3. Qed.
Lemma coalesce_state_case4 :
GET_PREV_ALLOC (mem s) (HDRP bp) = 0 ->
GET_ALLOC (mem s) (HDRP (NEXT_BLKP (mem s) bp)) = 0 ->
snd (coalesce s1 bp) = bp - psz /\
GET (mem (fst (coalesce s1 bp))) (HDRP (bp - psz))
= psz + sz + nsz + GET_PREV_ALLOC (mem s) (HDRP (bp - psz)) /\
GET (mem (fst (coalesce s1 bp)))
(FTRP (mem (fst (coalesce s1 bp))) (bp - psz))
= psz + sz + nsz + GET_PREV_ALLOC (mem s) (HDRP (bp - psz)) /\
GET_PREV_ALLOC (mem (fst (coalesce s1 bp))) (HDRP (bp + (sz + nsz))) = 0 /\
(forall j, 0 <= j < 20 ->
 class_list fuel (fst (coalesce s1 bp)) j
 = remove Z.eq_dec (bp + sz)
 (remove Z.eq_dec (bp - psz) (class_list fuel s j))).
Proof.
intros Hpa Hna.
destruct (live_view s bp HI HL)
as (pre & X & post & epa & fl & (R & U & Pa & Na) & Ebp & KX & SX & R1).
fold s1 in R1. fold sz in SX.
assert (Ensz : nsz = match post with [] => 0 | Y :: _ => bsz Y end).
{ unfold nsz. rewrite Ebp.
unfold GET_SIZE. rewrite (read_next_word s pre X post epa fl R).
pose proof (next_size_ok s (pre ++ [X]) post epa fl) as Ok.
rewrite <- app_assoc in Ok. specialize (Ok R).
destruct post as [|Y r]; simpl; apply hdr_size; exact Ok. }
rewrite Ebp in Hpa, Hna.
rewrite (read_prev_alloc s pre X post epa fl R) in Hpa.
rewrite (read_next_alloc s pre X post epa fl R) in Hna.
assert (HpaX : bpa X = false) by (destruct (bpa X); congruence).
destruct post as [|Y r]; [simpl in Hna; discriminate|].
simpl in Hna, Ensz.
pose proof U as U'. apply no_KU_mid in U'. destruct U' as (_ & _ & U2).
pose proof (Forall_inv U2) as KY. cbv beta in KY.
assert (HKY : bkind Y = KF).
{ apply not_alloc_KF; [exact KY|].
destruct (is_alloc (bkind Y)); [discriminate|reflexivity]. }
assert (Hnr : next_is_alloc r = true).
{ pose proof Na as Na'. apply naf_mid in Na'. destruct Na' as (_ & N2).
apply naf_cons in N2. destruct N2 as (_ & N3).
apply naf_cons in N3. destruct N3 as ([N3|N3] & _); [|exact N3].
rewrite HKY in N3. discriminate. }
destruct (prev_free_view pre X (Y :: r) epa U Pa HpaX)
as (pre0 & P & Epre & HKP).
rewrite Epre in *. rewrite <- app_assoc in R, R1. simpl in R, R1.
rewrite total_app in Ebp. simpl in Ebp.
assert (Ebp' : bp = first_hdr (heap_start s) + total pre0 + bsz P + 4)
by lia.
assert (HPA : bkind P <> KA) by (rewrite HKP; discriminate).
destruct (read_prev s pre0 P X (Y :: r) epa fl R HPA) as (Eps & _).
rewrite <- Ebp' in Eps. fold psz in Eps.
assert (Ert : bp - psz = first_hdr (heap_start s) + total pre0 + 4) by lia.
assert (IP : In (first_hdr (heap_start s) + total pre0, P)
 (layout (first_hdr (heap_start s))
    (pre0 ++ P :: X :: Y :: r))) by apply layout_mid.
assert (IY : In (bp + sz - 4, Y)
 (layout (first_hdr (heap_start s))
    (pre0 ++ P :: X :: Y :: r))).
{ replace (bp + sz - 4)
with (first_hdr (heap_start s) + total (pre0 ++ [P; X]))
by (rewrite total_app; simpl; lia).
replace (pre0 ++ P :: X :: Y :: r) with ((pre0 ++ [P; X]) ++ Y :: r)
by (rewrite <- app_assoc; reflexivity).
apply layout_mid. }
destruct (rep_hdr _ _ _ _ R _ _ IP) as (_ & _ & _ & GPP).
assert (GP : GET_PREV_ALLOC (mem s) (HDRP (bp - psz))
 = if bpa P then 2 else 0).
{ unfold HDRP, WSIZE.
replace (bp - psz - 4) with (first_hdr (heap_start s) + total pre0)
by lia.
exact GPP. }
destruct (coalesce_case4 s1 pre0 P (set_kind X KU) Y r epa fl R1
eq_refl HKP HKY HpaX Hnr) as (C1 & C2 & _).
change (heap_start s1) with (heap_start s) in C1, C2.
rewrite <- Ebp' in C1, C2.
destruct (coalesce_brk s1 bp) as (Eb & Eh).
change (heap_start s1) with (heap_start s) in Eh.
change (mem_brk s1) with (mem_brk s) in Eb.
set (s2 := fst (coalesce s1 bp)) in *.
split; [rewrite C1; lia|].
cbn [bsz set_kind] in C2.
destruct (merged_read s2 pre0 _ r epa _ C2)
as (M1 & M2 & M3); [simpl; discriminate|].
rewrite Eh, <- Ert in M1, M2, M3.
cbn [bsz bpa] in M1, M2, M3.
replace (bp - psz + (bsz P + bsz X + bsz Y)) with (bp + (sz + nsz))
in M3 by lia.
rewrite GP. rewrite <- Eps, SX, <- Ensz in M1, M2.
split; [exact M1|]. split; [exact M2|]. split; [exact M3|].
intros j Hj.
rewrite (class_list_fl _ _ _ _ C2 j fuel Hj)
by (apply (fuel_enough _ _ _ _ C2); rewrite Eb, Eh; exact Hf).
rewrite (class_list_fl _ _ _ _ R j fuel Hj)
by (apply (fuel_enough _ _ _ _ R); exact Hf).
replace (bp - bsz P) with (bp - psz) by lia. rewrite SX.
assert (LP : In (bp - psz) (fl j) -> j = get_list (bsz P)).
{ intros Hin.
apply (listed_class s _ epa fl (get_list (bsz P)) j (bp - psz) R);
[|exact Hin].
apply (rep_listed _ _ _ _ R). exists P.
split; [|split; [exact HKP|reflexivity]].
replace (bp - psz - 4) with (first_hdr (heap_start s) + total pre0)
by lia.
exact IP. }
assert (LY : In (bp + sz) (fl j) -> j = get_list (bsz Y)).
{ intros Hin.
apply (listed_class s _ epa fl (get_list (bsz Y)) j (bp + sz) R);
[|exact Hin].
apply (rep_listed _ _ _ _ R). exists Y.
split; [exact IY|split; [exact HKY|reflexivity]]. }
rewrite fl_remove_eq.
- rewrite (fl_remove_eq fl _ _ j LP). reflexivity.
- intros Hin. apply LY. unfold fl_remove in Hin.
destruct (Z.eqb_spec j (get_list (bsz P))) as [->|_]; [|exact Hin].
apply in_remove in Hin. apply Hin.
Qed.

(** X23: [coalesce], case 4.  With both neighbours free it removes both
    from their lists and returns the previous block, grown over [bp] and
    the next block: header and footer hold the sum of the three sizes and
    the previous-allocated bit that the previous block had, and the
    previous-allocated bit of the header that follows is cleared. *)
Theorem coalesce_both_free :
GET_PREV_ALLOC (mem s) (HDRP bp) = 0 ->
GET_ALLOC (mem s) (HDRP (NEXT_BLKP (mem s) bp)) = 0 ->
snd (coalesce s1 bp) = bp - psz /\
GET (mem (fst (coalesce s1 bp))) (HDRP (bp - psz))
= psz + sz + nsz + GET_PREV_ALLOC (mem s) (HDRP (bp - psz)) /\
GET (mem (fst (coalesce s1 bp)))
(FTRP (mem (fst (coalesce s1 bp))) (bp - psz))
= psz + sz + nsz + GET_PREV_ALLOC (mem s) (HDRP (bp - psz)) /\
GET_PREV_ALLOC (mem (fst (coalesce s1 bp))) (HDRP (bp + (sz + nsz))) = 0 /\
(forall j, 0 <= j < 20 ->
 class_list fuel (fst (coalesce s1 bp)) j
 = remove Z.eq_dec (bp + sz)
 (remove Z.eq_dec (bp - psz) (class_list fuel s j))).
Proof. exact coalesce_state_case4. Qed.

(** C4: [coalesce] on the block [bp] that [mm_free] has marked free follows
    the four cases.  Both neighbours allocated: nothing is merged, [bp] is
    returned and the lists stay.  Only the next block free: it is removed
    from its list, [bp] grows over it and is returned.  Only the previous
    block free: it is removed from its list, grows over [bp] and is
    returned.  Both free: both are removed and the previous block, grown
    over all three, is returned.  In every case the header of the result
    has the allocated bit clear and the previous-allocated bit of the
    left-most block, the footer is the same word, and the
    previous-allocated bit of the header behind the result is cleared.
    [sz], [nsz] and [psz] are the sizes of [bp], of the next block and of
    the previous block (read from its footer) before the call. *)
Theorem coalesce_four_cases :
(GET_PREV_ALLOC (mem s) (HDRP bp) <> 0 ->
GET_ALLOC (mem s) (HDRP (NEXT_BLKP (mem s) bp)) <> 0 ->
snd (coalesce s1 bp) = bp /\
GET (mem (fst (coalesce s1 bp))) (HDRP bp) = sz + 2 /\
GET (mem (fst (coalesce s1 bp))) (FTRP (mem (fst (coalesce s1 bp))) bp)
= sz + 2 /\
GET_PREV_ALLOC (mem (fst (coalesce s1 bp))) (HDRP (bp + sz)) = 0 /\
(forall j, 0 <= j < 20 ->
 class_list fuel (fst (coalesce s1 bp)) j = class_list fuel s j)) /\
(GET_PREV_ALLOC (mem s) (HDRP bp) <> 0 ->
GET_ALLOC (mem s) (HDRP (NEXT_BLKP (mem s) bp)) = 0 ->
snd (coalesce s1 bp) = bp /\
GET (mem (fst (coalesce s1 bp))) (HDRP bp) = sz + nsz + 2 /\
GET (mem (fst (coalesce s1 bp))) (FTRP (mem (fst (coalesce s1 bp))) bp)
= sz + nsz + 2 /\
GET_PREV_ALLOC (mem (fst (coalesce s1 bp))) (HDRP (bp + (sz + nsz))) = 0 /\
(forall j, 0 <= j < 20 ->
 class_list fuel (fst (coalesce s1 bp)) j
 = remove Z.eq_dec (bp + sz) (class_list fuel s j))) /\
(GET_PREV_ALLOC (mem s) (HDRP bp) = 0 ->
GET_ALLOC (mem s) (HDRP (NEXT_BLKP (mem s) bp)) <> 0 ->
snd (coalesce s1 bp) = bp - psz /\
GET (mem (fst (coalesce s1 bp))) (HDRP (bp - psz))
= psz + sz + GET_PREV_ALLOC (mem s) (HDRP (bp - psz)) /\
GET (mem (fst (coalesce s1 bp)))
(FTRP (mem (fst (coalesce s1 bp))) (bp - psz))
= psz + sz + GET_PREV_ALLOC (mem s) (HDRP (bp - psz)) /\
GET_PREV_ALLOC (mem (fst (coalesce s1 bp))) (HDRP (bp + sz)) = 0 /\
(forall j, 0 <= j < 20 ->
 class_list fuel (fst (coalesce s1 bp)) j
 = remove Z.eq_dec (bp - psz) (class_list fuel s j))) /\
(GET_PREV_ALLOC (mem s) (HDRP bp) = 0 ->
GET_ALLOC (mem s) (HDRP (NEXT_BLKP (mem s) bp)) = 0 ->
snd (coalesce s1 bp) = bp - psz /\
GET (mem (fst (coalesce s1 bp))) (HDRP (bp - psz))
= psz + sz + nsz + GET_PREV_ALLOC (mem s) (HDRP (bp - psz)) /\
GET (mem (fst (coalesce s1 bp)))
(FTRP (mem (fst (coalesce s1 bp))) (bp - psz))
= psz + sz + nsz + GET_PREV_ALLOC (mem s) (HDRP (bp - psz)) /\
GET_PREV_ALLOC (mem (fst (coalesce s1 bp))) (HDRP (bp + (sz + nsz))) = 0 /\
(forall j, 0 <= j < 20 ->
 class_list fuel (fst (coalesce s1 bp)) j
 = remove Z.eq_dec (bp + sz)
 (remove Z.eq_dec (bp - psz) (class_list fuel s j)))).
Proof.
split; [exact coalesce_state_case1|].
split; [exact coalesce_state_case2|].
split; [exact coalesce_state_case3|exact coalesce_state_case4].
Qed.
End CoalesceState.

(** ** [extend_heap] and [mm_init] on states *)

Lemma extend_heap_state s words :
  Inv s -> 16 <= extend_bytes words -> extend_bytes words mod 8 = 0 ->
  (mem_max_addr s < mem_brk s + extend_bytes words /\
   extend_heap s words = (s, NULL))
  \/
  (mem_brk s + extend_bytes words <= mem_max_addr s /\
   Inv (fst (extend_heap s words)) /\
   mem_brk (fst (extend_heap s words)) = mem_brk s + extend_bytes words /\
   snd (extend_heap s words) <> NULL /\
   phys_block (fst (extend_heap s words)) (snd (extend_heap s words)) /\
   GET_ALLOC (mem (fst (extend_heap s words)))
             (HDRP (snd (extend_heap s words))) = 0 /\
   extend_bytes words
   <= GET_SIZE (mem (fst (extend_heap s words)))
               (HDRP (snd (extend_heap s words))) /\
   snd (extend_heap s words)
   + GET_SIZE (mem (fst (extend_heap s words)))
              (HDRP (snd (extend_heap s words)))
   = mem_brk (fst (extend_heap s words)) /\
   (forall q, live s q ->
      live (fst (extend_heap s words)) q /\
      GET_SIZE (mem (fst (extend_heap s words))) (HDRP q)
      = GET_SIZE (mem s) (HDRP q))).
Proof.
  intros (bl & epa & fl & (R & U & Pa & Na)) H16 H8.
  destruct (extend_heap_spec s bl epa fl words R U Pa Na H16 H8)
    as [[En Ef]|(pre' & M & post' & epa' & fl' & C1 & C2 & KM & SM & U'
                 & P' & N' & Ehs & Keep & Eb & Epost & _)].
  - left. split; [|exact Ef].
    unfold mem_sbrk in En.
    destruct (Z.leb_spec 0 (extend_bytes words)); [|lia].
    destruct (Z.leb_spec (mem_brk s + extend_bytes words) (mem_max_addr s));
      [discriminate|lia].
  - right. subst post'.
    set (s' := fst (extend_heap s words)) in *.
    set (bp := snd (extend_heap s words)) in *.
    assert (Hroom : mem_brk s + extend_bytes words <= mem_max_addr s).
    { pose proof (rep_max _ _ _ _ C2) as Mx.
      destruct (extend_heap_fields s words) as (_ & _ & Em).
      fold s' in Em. lia. }
    split; [exact Hroom|].
    split; [exists (pre' ++ [M]), epa', fl'; tauto|].
    split; [exact Eb|].
    pose proof (rep_hs _ _ _ _ R) as Hhs.
    assert (Tp : 0 <= total pre').
    { apply total_nonneg. pose proof (rep_sizes _ _ _ _ C2) as W.
      apply Forall_app in W. tauto. }
    split; [rewrite C1; unfold first_hdr, NULL; lia|].
    rewrite <- Ehs in C1.
    assert (I : In (bp - 4, M)
                  (layout (first_hdr (heap_start s')) (pre' ++ [M]))).
    { replace (bp - 4) with (first_hdr (heap_start s') + total pre') by lia.
      apply layout_mid. }
    destruct (rep_hdr _ _ _ _ C2 _ _ I) as (_ & GS & GA & _).
    unfold HDRP, WSIZE. rewrite GS, GA, KM. simpl.
    split.
    { replace bp with (bp - 4 + 4) by lia.
      apply (in_layout_phys _ _ _ _ C2 _ _ I). }
    split; [reflexivity|]. split; [exact SM|].
    split.
    { pose proof (rep_brk _ _ _ _ C2) as B. rewrite total_app in B.
      simpl in B. lia. }
    intros q Lq. destruct (live_is_KA _ _ _ _ R q Lq) as (sz' & K).
    destruct (is_KA_live _ _ _ _ R q sz' K) as [_ S0].
    apply Keep in K. rewrite <- Ehs in K.
    destruct (is_KA_live _ _ _ _ C2 q sz' K) as [L' S'].
    split; [exact L'|]. unfold HDRP, WSIZE in *. rewrite S', S0. reflexivity.
Qed.

Section InitState.
Variable s : state.
Hypothesis Hbrk : 0 <= mem_brk s.
Hypothesis Hroom : mem_brk s + 96 <= mem_max_addr s.
Hypothesis Hfit : mem_max_addr s - mem_brk s < two32.
Hypothesis H64 : mem_max_addr s < two64.

(** What [mm_init] builds on a provider with room for the 96 bytes of
padding, prologue, roots and epilogue: the padding word, the prologue
header and footer, the twenty roots and the epilogue; with room for 256
more bytes, one free block of 256 bytes with its header and footer, linked
from the root of its class. *)
Lemma mm_init_state :
Inv (fst (mm_init s)) /\
heap_start (fst (mm_init s)) = mem_brk s /\
heap_listp (fst (mm_init s)) = mem_brk s + 8 /\
(GET (mem (fst (mm_init s))) (mem_brk s) = 0 /\
 GET (mem (fst (mm_init s))) (mem_brk s + 4) = 9 /\
 GET (mem (fst (mm_init s))) (mem_brk s + 8) = 9) /\
(mem_brk s + 352 <= mem_max_addr s ->
 snd (mm_init s) = 0 /\
 mem_brk (fst (mm_init s)) = mem_brk s + 352 /\
 GET (mem (fst (mm_init s))) (HDRP (mem_brk s + 96)) = 258 /\
 (forall j, 0 <= j < 20 ->
class_list 2 (fst (mm_init s)) j
= if j =? get_list 256 then [mem_brk s + 96] else []) /\
 GET (mem (fst (mm_init s))) (mem_brk s + 344) = 258 /\
 GET (mem (fst (mm_init s))) (mem_brk s + 348) = 1 /\
 (forall j, 0 <= j < 20 ->
GET (mem (fst (mm_init s))) (root_addr (mem_brk s + 8) j)
= if j =? get_list 256 then 96 else 0)) /\
(mem_max_addr s < mem_brk s + 352 ->
 snd (mm_init s) = -1 /\
 mem_brk (fst (mm_init s)) = mem_brk s + 96 /\
 GET (mem (fst (mm_init s))) (HDRP (mem_brk s + 96)) = 3 /\
 (forall j, 0 <= j < 20 ->
GET (mem (fst (mm_init s))) (root_addr (mem_brk s + 8) j) = 0)).
Proof.
unfold mm_init.
assert (Es : mem_sbrk s (24 * WSIZE)
 = Some (mem_brk s,
         mkState (heap_start s) (heap_listp s) (mem s)
                 (mem_brk s + 24 * WSIZE) (mem_max_addr s))).
{ unfold mem_sbrk, WSIZE.
destruct (Z.leb_spec 0 (24 * 4)); [|lia].
destruct (Z.leb_spec (mem_brk s + 24 * 4) (mem_max_addr s)); [|lia].
reflexivity. }
rewrite Es. cbv zeta. cbn [mem mem_brk mem_max_addr].
pose proof (Rep_init s Hbrk Hroom Hfit H64) as R0. cbv zeta in R0.
match type of R0 with Rep ?st _ _ _ => set (s0 := st) in * end.
assert (I0 : Inv s0).
{ exists [], true, (fun _ => []). split; [exact R0|].
split; [constructor|]. split; [reflexivity|exact I]. }
assert (E256 : extend_bytes (CHUNKSIZE / WSIZE) = 256) by reflexivity.
assert (P0 : GET (mem s0) (mem_brk s) = 0 /\
 GET (mem s0) (mem_brk s + 4) = 9 /\ GET (mem s0) (mem_brk s + 8) = 9).
{ cbn [mem s0]. unfold WSIZE, DSIZE.
match goal with |- context [init_roots 20 ?m0 ?hl 0] =>
destruct (init_roots_spec 20 m0 hl 0) as [_ B]; [lia|]
end.
rewrite !GET_PUT_other by lia. rewrite !B by lia.
rewrite GET_PUT_other by lia. rewrite GET_PUT_other by lia.
rewrite GET_PUT_same.
rewrite GET_PUT_other by lia. rewrite GET_PUT_same.
rewrite GET_PUT_same. repeat split. }
assert (Pro : GET (mem (fst (extend_heap s0 (CHUNKSIZE / WSIZE))))
  (mem_brk s) = 0 /\
 GET (mem (fst (extend_heap s0 (CHUNKSIZE / WSIZE)))) (mem_brk s + 4) = 9 /\
 GET (mem (fst (extend_heap s0 (CHUNKSIZE / WSIZE)))) (mem_brk s + 8) = 9).
{ destruct (extend_heap_spec s0 [] true (fun _ => []) (CHUNKSIZE / WSIZE) R0)
as [[_ Ef]|(pre' & M & post' & epa' & fl' & _ & _ & _ & _ & _ & _ & _
 & _ & _ & _ & _ & _ & Lo)];
try (constructor; fail); try reflexivity;
try (rewrite E256; lia); try (rewrite E256; reflexivity).
- rewrite Ef. exact P0.
- cbn [heap_start s0] in Lo. unfold first_hdr in Lo.
rewrite !Lo by lia. exact P0. }
destruct (extend_heap_fields s0 (CHUNKSIZE / WSIZE)) as (Fl & Fs & _).
destruct (extend_heap_state s0 (CHUNKSIZE / WSIZE) I0)
as [(Hno & Ef)|(Hyes & I1 & Eb & Hnn & P & A & Sz & End & _)];
try (rewrite E256; lia); try (rewrite E256; reflexivity).
- rewrite Ef in Pro |- *. cbn [fst snd NULL Z.eqb] in Pro |- *.
rewrite E256 in Hno. cbn [mem_brk mem_max_addr s0] in Hno.
unfold WSIZE in *.
split; [exact I0|]. split; [reflexivity|]. split; [reflexivity|].
split; [exact Pro|].
split; [intros; lia|]. intros _.
split; [reflexivity|]. split; [reflexivity|]. split.
{ pose proof (rep_epi _ _ _ _ R0) as Ep. simpl in Ep.
unfold HDRP, WSIZE. unfold first_hdr in Ep. cbn [heap_start s0] in Ep.
replace (mem_brk s + 96 - 4) with (mem_brk s + 92 + 0) by lia.
exact Ep. }
intros j Hj. pose proof (rep_roots _ _ _ _ R0 j Hj) as Rt.
cbn [heap_listp heap_start s0 head_off] in Rt. exact Rt.
- destruct (extend_heap s0 (CHUNKSIZE / WSIZE)) as [s1 bp] eqn:E.
cbn [fst snd] in *.
destruct (Z.eqb_spec bp NULL) as [|_]; [contradiction|].
cbn [fst snd].
rewrite E256 in *. cbn [mem_brk mem_max_addr heap_start heap_listp s0]
in Hyes, Eb, Fl, Fs.
unfold WSIZE in *.
split; [exact I1|]. split; [exact Fs|]. split; [rewrite Fl; lia|].
split; [exact Pro|].
split; [|intros; lia]. intros _.
split; [reflexivity|]. split; [rewrite Eb; lia|].
destruct I1 as (bl & epa & fl & G). pose proof (proj1 G) as R1.
destruct (phys_geometry _ _ _ _ G bp P) as (_ & _ & _ & Lo & Hi).
rewrite Fl in Lo. unfold WSIZE in Lo.
assert (Ebp : bp = mem_brk s + 96) by (clear - Eb Sz End Lo; lia).
assert (Esz : GET_SIZE (mem s1) (HDRP bp) = 256)
by (clear - Eb Sz End Lo; lia).
subst bp.
assert (PF : phys_block s1 (heap_listp s1 + 22 * WSIZE)).
{ rewrite Fl. unfold WSIZE.
replace (mem_brk s + 2 * 4 + 22 * 4) with (mem_brk s + 96) by lia.
exact P. }
assert (Fp : GET_PREV_ALLOC (mem s1) (HDRP (mem_brk s + 96)) = 2).
{ pose proof (first_prev_alloc _ _ _ _ G) as F.
rewrite Fl in F. unfold WSIZE in F.
replace (mem_brk s + 2 * 4 + 22 * 4) with (mem_brk s + 96) in F by lia.
apply F. lia. }
assert (Hw : GET (mem s1) (HDRP (mem_brk s + 96)) = 258).
{ destruct (phys_block_in _ _ _ _ R1 _ P) as (b & Ib).
destruct (rep_hdr _ _ _ _ R1 _ _ Ib) as (Hd & GS & GA & GP).
unfold HDRP, WSIZE in *. rewrite Hd.
rewrite GS in Esz. rewrite GA in A. rewrite GP in Fp.
rewrite Esz. unfold hdr.
destruct (is_alloc (bkind b)); [discriminate|].
destruct (bpa b); [reflexivity|discriminate]. }
split; [exact Hw|].
assert (Hone : exists X, bl = [X] /\ bsz X = 256 /\ bkind X = KF).
{ pose proof (rep_brk _ _ _ _ R1) as B.
rewrite Eb, Fs in B. unfold first_hdr in B.
destruct (phys_view _ _ _ _ G _ P)
as (pre & X & post & Ebl & Ex & KU' & (SX & _) & Wp).
rewrite Fs in Ex. unfold first_hdr in Ex.
pose proof (rep_sizes _ _ _ _ R1) as W. rewrite Ebl in W, B.
apply Forall_app in W. destruct W as (_ & W).
inversion W as [|? ? _ Wq]; subst.
rewrite total_app in B. simpl in B.
pose proof (total_nonneg _ Wp). pose proof (total_nonneg _ Wq).
assert (IX : In (mem_brk s + 96 - 4, X)
         (layout (first_hdr (heap_start s1))
            (pre ++ X :: post))).
{ replace (mem_brk s + 96 - 4)
with (first_hdr (heap_start s1) + total pre)
by (rewrite Fs; unfold first_hdr; lia).
apply layout_mid. }
destruct (rep_hdr _ _ _ _ R1 _ _ IX) as (_ & GS & GA & _).
assert (SX' : bsz X = 256).
{ rewrite <- Esz. symmetry. exact GS. }
destruct pre as [|a pr];
[|inversion Wp as [|? ? (Sa & _) Wpr]; subst;
pose proof (total_nonneg _ Wpr); simpl in Ex; lia].
destruct post as [|c po];
[|inversion Wq as [|? ? (Sc & _) Wpo]; subst;
pose proof (total_nonneg _ Wpo); simpl in B; lia].
exists X. split; [reflexivity|]. split; [exact SX'|].
unfold HDRP, WSIZE in A. rewrite GA in A.
destruct (bkind X); simpl in A; [discriminate|reflexivity|contradiction]. }
assert (Hfl : forall j, 0 <= j < 20 ->
   fl j = if j =? get_list 256 then [mem_brk s + 96] else []).
{ intros j Hj.
assert (Hl : (length (fl j) < 2)%nat).
{ pose proof (fl_length _ _ _ _ R1 j) as L1.
destruct Hone as (X & -> & _). simpl in L1. lia. }
assert (Hc : forall q, In q (fl j) ->
   q = mem_brk s + 96 /\ j = get_list 256).
{ intros q Hq. apply (In_in_class _ _ _ _ R1 j Hj) in Hq.
apply (class_view _ _ _ _ G j q Hj) in Hq.
destruct Hq as (Pq & _ & Gq).
destruct (phys_geometry _ _ _ _ G q Pq) as (Q1 & _ & _ & QLo & QHi).
destruct (Z.eq_dec q (mem_brk s + 96)) as [->|Hne].
- rewrite Esz in Gq. auto.
- destruct (phys_disjoint _ _ _ _ G q (mem_brk s + 96) Pq P Hne);
rewrite Fl in QLo; unfold WSIZE in QLo; lia. }
destruct (Z.eqb_spec j (get_list 256)) as [->|Hne].
+ assert (Hin : In (mem_brk s + 96) (fl (get_list 256))).
{ apply (in_class_In _ _ _ _ R1 _ Hj).
apply (class_view _ _ _ _ G _ _ Hj).
split; [exact P|]. split; [exact A|]. rewrite Esz. reflexivity. }
destruct (fl (get_list 256)) as [|a [|b r]];
[contradiction| |simpl in Hl; lia].
destruct Hin as [->|[]]. reflexivity.
+ destruct (fl j) as [|a r]; [reflexivity|exfalso].
destruct (Hc a (or_introl eq_refl)) as (_ & Ej). contradiction. }
split.
{ intros j Hj. rewrite (class_list_fl _ _ _ _ R1 j 2 Hj).
- apply Hfl. exact Hj.
- rewrite (Hfl j Hj). destruct (j =? get_list 256); simpl; lia. }
split.
{ pose proof (phys_footer _ _ _ _ G _ P A) as F.
unfold FTRP in F. rewrite Esz, Hw in F. unfold DSIZE in F.
replace (mem_brk s + 96 + 256 - 8) with (mem_brk s + 344) in F by lia.
exact F. }
split.
{ destruct Hone as (X & Ebl & SX & KX).
pose proof (rep_epi _ _ _ _ R1) as Ep.
destruct G as (_ & _ & Hpa & _). rewrite Ebl in Ep, Hpa.
simpl in Ep, Hpa. destruct Hpa as [_ Hpa]. rewrite KX in Hpa.
simpl in Hpa. subst epa.
rewrite Fs, SX in Ep. unfold first_hdr in Ep.
replace (mem_brk s + 92 + (256 + 0)) with (mem_brk s + 348) in Ep by lia.
exact Ep. }
intros j Hj. pose proof (rep_roots _ _ _ _ R1 j Hj) as Rt.
rewrite Fl, Fs, (Hfl j Hj) in Rt.
replace (mem_brk s + 2 * 4) with (mem_brk s + 8) in Rt by lia.
rewrite Rt. destruct (j =? get_list 256); simpl; lia.
Qed.

(** X6: on a provider with room for the 96 bytes of prologue, roots and
    epilogue, [mm_init] builds a heap that satisfies the invariant, with
    [heap_start] at the old break and [heap_listp] 8 bytes above.  With
    room for 256 more bytes it returns 0 and the heap is one free block of
    256 bytes at offset 96, alone in the list of its class; without, it
    returns -1 and the heap has no block. *)
Theorem mm_init_builds_heap :
Inv (fst (mm_init s)) /\
heap_start (fst (mm_init s)) = mem_brk s /\
heap_listp (fst (mm_init s)) = mem_brk s + 8 /\
(mem_brk s + 352 <= mem_max_addr s ->
 snd (mm_init s) = 0 /\
 mem_brk (fst (mm_init s)) = mem_brk s + 352 /\
 GET (mem (fst (mm_init s))) (HDRP (mem_brk s + 96)) = 258 /\
 (forall j, 0 <= j < 20 ->
class_list 2 (fst (mm_init s)) j
= if j =? get_list 256 then [mem_brk s + 96] else [])) /\
(mem_max_addr s < mem_brk s + 352 ->
 snd (mm_init s) = -1 /\
 mem_brk (fst (mm_init s)) = mem_brk s + 96 /\
 GET (mem (fst (mm_init s))) (HDRP (mem_brk s + 96)) = 3).
Proof.
destruct mm_init_state as (A & B & C & _ & D & E).
split; [exact A|]. split; [exact B|]. split; [exact C|]. split.
- intros H. destruct (D H) as (D1 & D2 & D3 & D4 & _). auto.
- intros H. destruct (E H) as (E1 & E2 & E3 & _). auto.
Qed.
End InitState.

(** ** Macros and size classes, once more *)

Lemma get_list_piece S :
  16 <= S ->
  get_list S =
  if S <=? 96 then (S - 16) / 8
  else if S <=? 192 then 11 else if S <=? 384 then 12
  else if S <=? 768 then 13 else if S <=? 1536 then 14
  else if S <=? 3072 then 15 else if S <=? 6144 then 16
  else if S <=? 12288 then 17 else if S <=? 24576 then 18 else 19.
Proof.
  intros H.
  destruct (Z.leb_spec S 96); [apply get_list_small; lia|].
  destruct (Z.leb_spec S 192); [apply (get_list_mid S 1); cbn; lia|].
  destruct (Z.leb_spec S 384); [apply (get_list_mid S 2); cbn; lia|].
  destruct (Z.leb_spec S 768); [apply (get_list_mid S 3); cbn; lia|].
  destruct (Z.leb_spec S 1536); [apply (get_list_mid S 4); cbn; lia|].
  destruct (Z.leb_spec S 3072); [apply (get_list_mid S 5); cbn; lia|].
  destruct (Z.leb_spec S 6144); [apply (get_list_mid S 6); cbn; lia|].
  destruct (Z.leb_spec S 12288); [apply (get_list_mid S 7); cbn; lia|].
  destruct (Z.leb_spec S 24576); [apply (get_list_mid S 8); cbn; lia|].
  destruct (Z_le_gt_dec S 49152);
    [apply (get_list_mid S 9); cbn; lia|apply get_list_large; lia].
Qed.

Lemma land_ones64 w : 0 <= w < two64 -> Z.land w (Z.ones 64) = w.
Proof.
  intros H. rewrite Z.land_ones by lia. apply Z.mod_small.
  unfold two64 in H. change (2 ^ 64) with 18446744073709551616. lia.
Qed.

Lemma land_NOT7_64 w : 0 <= w < two64 -> Z.land w (two64 - 8) = w - w mod 8.
Proof.
  intros H. pose proof (land_ones64 w H) as E.
  change (Z.ones 64) with (Z.lor (two64 - 8) 7) in E.
  rewrite land_disjoint_sum in E by reflexivity.
  rewrite land_7 in E. lia.
Qed.

Lemma ALIGN_spec p :
  0 <= p < two64 -> ALIGN p = u64 (p + 7) - u64 (p + 7) mod 8.
Proof.
  intros H. unfold ALIGN, ALIGNMENT.
  replace (p + (8 - 1)) with (p + 7) by lia.
  apply land_NOT7_64. apply u64_range.
Qed.

(** ** The example heaps satisfy the invariant *)

Lemma list_walk_in_class s i fuel bp0 :
  (bp0 <> NULL -> in_class s i bp0) ->
  forall bp, In bp (list_walk fuel (mem s) (heap_start s) bp0) ->
             in_class s i bp.
Proof.
  revert bp0. induction fuel as [|f IH]; intros bp0 H0 bp; simpl;
    [contradiction|].
  destruct (Z.eqb_spec bp0 NULL) as [|Hn]; [contradiction|].
  intros [<-|Hin]; [auto|].
  apply (IH (get_succ (mem s) (heap_start s) bp0)); [|exact Hin].
  intros Hs. apply class_next; auto.
Qed.

Lemma class_list_in_class s i fuel bp :
  In bp (class_list fuel s i) -> in_class s i bp.
Proof.
  apply list_walk_in_class. apply class_first.
Qed.

Lemma malloc_Inv fuel s n :
  Inv s -> 0 <= n <= two64 - 12 ->
  mem_brk s - heap_start s < 16 * Z.of_nat fuel ->
  Inv (state_of (mm_malloc fuel s n)).
Proof.
  intros I Hn Hf.
  destruct (malloc_state fuel s n I Hn Hf) as (s' & p & E & I' & _).
  rewrite E. exact I'.
Qed.

Lemma Inv_fresh base cap :
  0 <= base -> 96 <= cap < two32 -> base + cap < two64 ->
  Inv (fst (mm_init (fresh base cap))).
Proof.
  intros Hb Hc H64.
  apply (mm_init_spec (fresh base cap)); cbn; lia.
Qed.

Lemma Inv_heap0 : Inv heap0.
Proof. apply Inv_fresh; unfold two32, two64; lia. Qed.

Lemma Inv_heap1 : Inv heap1.
Proof.
  apply malloc_Inv; [exact Inv_heap0|unfold two64; lia|].
  vm_compute. reflexivity.
Qed.

Lemma Inv_heap2 : Inv heap2.
Proof.
  apply malloc_Inv; [exact Inv_heap1|unfold two64; lia|].
  vm_compute. reflexivity.
Qed.

Lemma Inv_heap3 : Inv heap3.
Proof.
  apply malloc_Inv; [exact Inv_heap2|unfold two64; lia|].
  vm_compute. reflexivity.
Qed.

Lemma live_heap3 bp : bp = 4192 \/ bp = 4208 \/ bp = 4224 -> live heap3 bp.
Proof.
  intros H. destruct H as [ -> | [ -> | -> ] ];
    (apply (heap_walk_live heap3 100);
     [vm_compute; auto 10|vm_compute; discriminate]).
Qed.

Lemma Inv_heap3a : Inv heap3a.
Proof.
  apply free_state; [exact Inv_heap3|apply live_heap3; auto].
Qed.

Lemma live_heap3a bp : bp = 4208 \/ bp = 4224 -> live heap3a bp.
Proof.
  intros H. destruct H as [ -> | -> ];
    (apply (heap_walk_live heap3a 100);
     [vm_compute; auto 10|vm_compute; discriminate]).
Qed.

Lemma Inv_heap3ac : Inv heap3ac.
Proof.
  apply free_state; [exact Inv_heap3a|apply live_heap3a; auto].
Qed.

Lemma live_heap3ac : live heap3ac 4208.
Proof.
  apply (heap_walk_live heap3ac 100).
  - vm_compute. auto 10.
  - vm_compute. discriminate.
Qed.

Lemma Inv_small1 : Inv small1.
Proof.
  apply malloc_Inv;
    [apply Inv_fresh; unfold two32, two64; lia|unfold two64; lia|].
  vm_compute. reflexivity.
Qed.

Lemma live_small1 : live small1 4192.
Proof.
  apply (heap_walk_live small1 100).
  - vm_compute. auto 10.
  - vm_compute. discriminate.
Qed.

(** ** Self-initialisation *)

(** C10: when the heap pointer is still unset and the provider has room for
    the 96 bytes of padding, prologue, roots and epilogue, [mm_malloc] first
    runs [mm_init], which builds the heap: [heap_start] at the old break
    [b], the padding word 0 at [b], the prologue header and footer
    [PACK(8, 1) = 9] at [b + 4] and [b + 8], the heap pointer at [b + 8],
    and the twenty roots behind it.  With room for 256 more bytes the heap
    is one free block of 256 bytes at [b + 96], with header and footer
    [PACK(256, 2) = 258], linked from the root of its class, the other
    roots null, and the epilogue [PACK(0, 1) = 1] behind it; without, all
    roots are null and the epilogue [PACK(0, 3) = 3] follows them.  The
    request is then served exactly as by a call made after [mm_init].
    [mm_free] of a non-null pointer builds the same heap before it frees
    the block, with the size it read before. *)
Theorem malloc_free_self_initialise fuel s n bp :
  heap_listp s = 0 -> 0 <= mem_brk s ->
  mem_brk s + 96 <= mem_max_addr s ->
  mem_max_addr s - mem_brk s < two32 -> mem_max_addr s < two64 ->
  (Inv (fst (mm_init s)) /\
   heap_start (fst (mm_init s)) = mem_brk s /\
   heap_listp (fst (mm_init s)) = mem_brk s + 8 /\
   GET (mem (fst (mm_init s))) (mem_brk s) = 0 /\
   GET (mem (fst (mm_init s))) (mem_brk s + 4) = 9 /\
   GET (mem (fst (mm_init s))) (mem_brk s + 8) = 9) /\
  (mem_brk s + 352 <= mem_max_addr s ->
   mem_brk (fst (mm_init s)) = mem_brk s + 352 /\
   (forall j, 0 <= j < 20 ->
      GET (mem (fst (mm_init s))) (root_addr (mem_brk s + 8) j)
      = if j =? get_list 256 then 96 else 0) /\
   GET (mem (fst (mm_init s))) (mem_brk s + 92) = 258 /\
   GET (mem (fst (mm_init s))) (mem_brk s + 344) = 258 /\
   GET (mem (fst (mm_init s))) (mem_brk s + 348) = 1) /\
  (mem_max_addr s < mem_brk s + 352 ->
   mem_brk (fst (mm_init s)) = mem_brk s + 96 /\
   (forall j, 0 <= j < 20 ->
      GET (mem (fst (mm_init s))) (root_addr (mem_brk s + 8) j) = 0) /\
   GET (mem (fst (mm_init s))) (mem_brk s + 92) = 3) /\
  mm_malloc fuel s n = mm_malloc fuel (fst (mm_init s)) n /\
  mm_malloc fuel s n = malloc_body fuel (fst (mm_init s)) n /\
  (bp <> 0 ->
   mm_free s bp = free_body (fst (mm_init s)) bp (GET_SIZE (mem s) (HDRP bp))).
Proof.
  intros H0 Hb Hroom Hfit H64.
  destruct (mm_init_state s Hb Hroom Hfit H64)
    as (I & Es & El & (P1 & P2 & P3) & Yes & No).
  split; [auto 10|]. split; [|split].
  - intros H. destruct (Yes H) as (_ & B & W & _ & F & E & Rt).
    unfold HDRP, WSIZE in W.
    replace (mem_brk s + 96 - 4) with (mem_brk s + 92) in W by lia.
    auto.
  - intros H. destruct (No H) as (_ & B & W & Rt).
    unfold HDRP, WSIZE in W.
    replace (mem_brk s + 96 - 4) with (mem_brk s + 92) in W by lia.
    auto.
  - unfold mm_malloc, mm_free. rewrite H0. cbn [Z.eqb].
    destruct (Z.eqb_spec (heap_listp (fst (mm_init s))) 0) as [E|_]; [lia|].
    repeat split.
    intros Hbp. destruct (Z.eqb_spec bp 0); [contradiction|reflexivity].
Qed.

Lemma malloc_free_self_initialise_witness :
  Inv (fst (mm_init (fresh 4096 4096))) /\
  mm_malloc 1 (fresh 4096 4096) 8
  = malloc_body 1 (fst (mm_init (fresh 4096 4096))) 8.
Proof.
  destruct (malloc_free_self_initialise 1 (fresh 4096 4096) 8 0)
    as ((I & _) & _ & _ & _ & H & _);
    [reflexivity|cbn; lia|cbn; lia|cbn; unfold two32; lia
    |cbn; unfold two64; lia|].
  split; [exact I|exact H].
Defined.

(** ** Out of memory on a heap that has been built *)

(** C6 (amended): on a heap that has been built and satisfies the
    invariant, when no free block fits and the provider refuses the
    extension, [mm_malloc] and [mm_realloc] return null and the state,
    memory included, is the one before the call. *)
Theorem oom_state_unchanged fuel s n ptr :
  Inv s -> n <> 0 ->
  find_fit fuel s (adjust_size n) = Some NULL ->
  mem_sbrk s (extend_bytes (MAX (adjust_size n) CHUNKSIZE / WSIZE)) = None ->
  mm_malloc fuel s n = Some (s, NULL) /\
  mm_realloc fuel s ptr n = Some (s, NULL).
Proof.
  intros (bl & epa & fl & (R & _)) Hn Hf Hr.
  pose proof (Rep_heap_listp _ _ _ _ R) as Hl.
  assert (M : mm_malloc fuel s n = Some (s, NULL)).
  { unfold mm_malloc.
    destruct (Z.eqb_spec (heap_listp s) 0); [contradiction|].
    unfold malloc_body.
    destruct (Z.eqb_spec n 0); [contradiction|].
    cbv zeta. rewrite Hf. cbn [NULL Z.eqb negb].
    rewrite (extend_heap_refused _ _ Hr). reflexivity. }
  split; [exact M|].
  unfold mm_realloc.
  destruct (Z.eqb_spec n 0); [contradiction|].
  destruct (ptr =? NULL); [exact M|].
  rewrite M. reflexivity.
Qed.

Lemma oom_state_unchanged_witness :
  let s := fst (mm_init (fresh 4096 352)) in
  mm_malloc 1 s 1000 = Some (s, NULL) /\
  mm_realloc 1 s 4192 1000 = Some (s, NULL).
Proof.
  apply oom_state_unchanged;
    [apply Inv_fresh; unfold two32, two64; lia
    |discriminate
    |vm_compute; reflexivity
    |vm_compute; reflexivity].
Defined.

(** * Further properties of the code *)

(** ** Macros *)

Lemma aligned_spec p : 0 <= p < two64 -> (aligned p = true <-> p mod 8 = 0).
Proof.
  intros H. unfold aligned. rewrite ALIGN_spec by exact H.
  rewrite Z.eqb_eq. unfold u64, two64 in *.
  split; intros E; Z.to_euclidean_division_equations; lia.
Qed.

(** X1: a word stored with [PUT] is read back by [GET] truncated to 32
    bits, and a load from a word that does not overlap the stored one is
    not affected. *)
Theorem PUT_GET m p v q :
  q = p \/ q + 4 <= p \/ p + 4 <= q ->
  GET (PUT m p v) q = if q =? p then u32 v else GET m q.
Proof.
  intros [->|H].
  - rewrite Z.eqb_refl. apply GET_PUT_same.
  - destruct (Z.eqb_spec q p); [lia|]. apply GET_PUT_other. exact H.
Qed.

Lemma PUT_GET_witness :
  GET (PUT (fun _ => 0) 100 (two32 + 7)) 100 = 7.
Proof.
  exact (PUT_GET (fun _ => 0) 100 (two32 + 7) 100 (or_introl eq_refl)).
Defined.

(** X2: a header written as [PACK(size, tag)] with a size that is a
    multiple of 8 below 2^32 and a tag in 0..3 gives back the size with
    [GET_SIZE], bit 0 of the tag with [GET_ALLOC] and bit 1 of the tag with
    [GET_PREV_ALLOC]: the three fields do not disturb each other. *)
Theorem header_fields m p size tag :
  size_ok size -> 0 <= tag < 4 ->
  GET_SIZE (PUT m p (PACK size tag)) p = size /\
  GET_ALLOC (PUT m p (PACK size tag)) p = tag mod 2 /\
  GET_PREV_ALLOC (PUT m p (PACK size tag)) p = 2 * (tag / 2).
Proof.
  intros [H1 H2] Ht.
  assert (Hr : 0 <= size + tag < two32)
    by (unfold two32 in *; Z.to_euclidean_division_equations; lia).
  rewrite PACK_add by lia.
  unfold GET_SIZE, GET_ALLOC, GET_PREV_ALLOC.
  rewrite GET_PUT_same, u32_small by exact Hr.
  rewrite land_NOT7 by exact Hr. rewrite land_1, land_2.
  repeat split; Z.to_euclidean_division_equations; lia.
Qed.

Lemma header_fields_witness :
  GET_SIZE (PUT (fun _ => 0) 100 (PACK 24 3)) 100 = 24 /\
  GET_ALLOC (PUT (fun _ => 0) 100 (PACK 24 3)) 100 = 3 mod 2 /\
  GET_PREV_ALLOC (PUT (fun _ => 0) 100 (PACK 24 3)) 100 = 2 * (3 / 2).
Proof.
  apply header_fields; [split; [unfold two32; lia|reflexivity]|lia].
Defined.

(** X3: [aligned(p)] holds exactly for the addresses that are multiples of
    8, for every address of the 64-bit address space (the addition in
    [ALIGN] may wrap). *)
Theorem aligned_iff p : 0 <= p < two64 -> (aligned p = true <-> p mod 8 = 0).
Proof. apply aligned_spec. Qed.

Lemma aligned_iff_witness : aligned 4192 = true <-> 4192 mod 8 = 0.
Proof. apply aligned_iff. unfold two64. lia. Defined.

(** ** Size classes and request sizes *)

(** X4: the class function is monotone on the values of its
    [unsigned int] parameter: a larger block size below [2^32] never goes to
    a smaller class. *)
Theorem get_list_monotone a b :
  16 <= a -> a <= b -> b < two32 -> get_list a <= get_list b.
Proof.
  intros Ha Hab _. rewrite (get_list_piece a), (get_list_piece b) by lia.
  repeat match goal with
  | |- context [?x <=? ?y] => destruct (Z.leb_spec x y)
  end; try lia; Z.to_euclidean_division_equations; lia.
Qed.

Lemma get_list_monotone_witness : get_list 100 <= get_list 5000.
Proof. apply get_list_monotone; unfold two32; lia. Defined.

(** X5: for a request of [n] bytes with [0 < n <= 2^64 - 12] the adjusted
    size computed by [mm_malloc] is [max(16, round_up_8(n + 4))]; it is a
    multiple of 8, at least 16, and leaves room for the header and [n]
    bytes. *)
Theorem adjust_size_correct n :
  0 < n <= two64 - 12 ->
  adjust_size n = asize_spec n /\ adjust_size n mod 8 = 0 /\
  16 <= adjust_size n /\ n + 4 <= adjust_size n.
Proof.
  intros H. destruct (adjust_size_in_range n H) as (A & B & C & D & _).
  auto.
Qed.

Lemma adjust_size_correct_witness :
  adjust_size 13 = asize_spec 13 /\ adjust_size 13 mod 8 = 0 /\
  16 <= adjust_size 13 /\ 13 + 4 <= adjust_size 13.
Proof. apply adjust_size_correct. unfold two64. lia. Defined.

(** ** Initialisation *)

Lemma mm_init_builds_heap_witness :
  Inv (fst (mm_init (fresh 4096 100000))) /\
  heap_start (fst (mm_init (fresh 4096 100000))) = 4096.
Proof.
  destruct (mm_init_builds_heap (fresh 4096 100000)) as (A & B & _);
    [cbn; lia|cbn; lia|cbn; unfold two32; lia|cbn; unfold two64; lia|].
  split; [exact A|exact B].
Defined.

(** ** The public operations keep the invariant *)

(** X8: on a heap that satisfies the invariant, [mm_malloc(n)] with
    [n <= 2^64 - 12] returns (the search needs no more steps than the heap
    has room for blocks) and the heap satisfies the invariant again.  A
    non-null result is an allocated block of the new heap that was not
    allocated before, holds at least [n + 4] bytes, lies a multiple of 8
    above [heap_start] and ends below the break. *)
Theorem mm_malloc_correct fuel s n :
  Inv s -> 0 <= n <= two64 - 12 ->
  mem_brk s - heap_start s < 16 * Z.of_nat fuel ->
  exists s' p,
    mm_malloc fuel s n = Some (s', p) /\ Inv s' /\
    (p <> NULL ->
     live s' p /\ ~ live s p /\
     n + 4 <= GET_SIZE (mem s') (HDRP p) /\
     (p - heap_start s') mod 8 = 0 /\
     p + GET_SIZE (mem s') (HDRP p) <= mem_brk s').
Proof.
  intros I Hn Hf.
  destruct (malloc_state fuel s n I Hn Hf)
    as (s' & p & E & I' & _ & New & _).
  exists s', p. split; [exact E|]. split; [exact I'|].
  intros Hp. destruct (New Hp) as (L & F & S).
  destruct I' as (bl & epa & fl & G).
  destruct (phys_geometry _ _ _ _ G p (proj1 L)) as (_ & _ & A & _ & B).
  auto.
Qed.

Lemma mm_malloc_correct_witness :
  exists s' p, mm_malloc 100 heap0 8 = Some (s', p) /\ Inv s'.
Proof.
  destruct (mm_malloc_correct 100 heap0 8) as (s' & p & E & I & _);
    [exact Inv_heap0|unfold two64; lia|vm_compute; reflexivity|].
  exists s', p. split; [exact E|exact I].
Defined.

(** X9: [mm_malloc] keeps every allocated block: a block that was
    allocated before the call is allocated after it, with the same size
    and the same payload bytes, and it does not overlap the block that the
    call returns. *)
Theorem mm_malloc_keeps_live fuel s n :
  Inv s -> 0 <= n <= two64 - 12 ->
  mem_brk s - heap_start s < 16 * Z.of_nat fuel ->
  exists s' p,
    mm_malloc fuel s n = Some (s', p) /\
    forall q, live s q ->
      live s' q /\
      GET_SIZE (mem s') (HDRP q) = GET_SIZE (mem s) (HDRP q) /\
      same_payload s s' q /\
      (p <> NULL ->
       p + GET_SIZE (mem s') (HDRP p) <= q \/
       q + GET_SIZE (mem s') (HDRP q) <= p).
Proof.
  intros I Hn Hf.
  destruct (malloc_state fuel s n I Hn Hf)
    as (s' & p & E & I' & _ & New & Keep).
  exists s', p. split; [exact E|].
  intros q Lq. destruct (Keep q Lq) as (L' & S').
  split; [exact L'|]. split; [exact S'|].
  split; [exact (malloc_payload fuel s n s' p q I Hn Hf E Lq)|].
  intros Hp. destruct (New Hp) as (Lp & Fp & _).
  destruct I' as (bl & epa & fl & G).
  apply (phys_disjoint _ _ _ _ G p q (proj1 Lp) (proj1 L')).
  intros ->. contradiction.
Qed.

Lemma mm_malloc_keeps_live_witness :
  exists s' p, mm_malloc 100 heap1 8 = Some (s', p).
Proof.
  destruct (mm_malloc_keeps_live 100 heap1 8) as (s' & p & E & _);
    [exact Inv_heap1|unfold two64; lia|vm_compute; reflexivity|].
  exists s', p. exact E.
Defined.

(** X10: [mm_free] of an allocated block keeps the invariant, and the
    block is not allocated afterwards. *)
Theorem mm_free_correct s bp :
  Inv s -> live s bp ->
  Inv (mm_free s bp) /\ ~ live (mm_free s bp) bp /\
  heap_start (mm_free s bp) = heap_start s.
Proof.
  intros I L. destruct (free_state s bp I L) as (A & B & C & _). auto.
Qed.

Lemma mm_free_correct_witness :
  Inv (mm_free heap3 4208) /\ ~ live (mm_free heap3 4208) 4208.
Proof.
  destruct (mm_free_correct heap3 4208) as (A & B & _);
    [exact Inv_heap3|apply live_heap3; auto|].
  split; [exact A|exact B].
Defined.

(** X11: [mm_free] keeps every other allocated block, with its size and
    its payload bytes. *)
Theorem mm_free_keeps_live s bp q :
  Inv s -> live s bp -> live s q -> q <> bp ->
  live (mm_free s bp) q /\
  GET_SIZE (mem (mm_free s bp)) (HDRP q) = GET_SIZE (mem s) (HDRP q) /\
  same_payload s (mm_free s bp) q.
Proof.
  intros I L Lq Hq. destruct (free_state s bp I L) as (_ & _ & _ & K).
  destruct (K q Hq Lq) as [A B].
  split; [exact A|]. split; [exact B|].
  apply free_payload; assumption.
Qed.

Lemma mm_free_keeps_live_witness : live (mm_free heap3 4208) 4224.
Proof.
  destruct (mm_free_keeps_live heap3 4208 4224) as (A & _);
    [exact Inv_heap3|apply live_heap3; auto|apply live_heap3; auto|lia|].
  exact A.
Defined.

(** X12: [mm_realloc] of an allocated block returns and keeps the
    invariant.  With [n = 0] it frees the block and returns null; a
    non-null result is an allocated block that was not allocated before
    and holds at least [n + 4] bytes, and the old block is freed. *)
Theorem mm_realloc_correct fuel s ptr n :
  Inv s -> live s ptr -> 0 <= n <= two64 - 12 ->
  mem_brk s - heap_start s < 16 * Z.of_nat fuel ->
  exists s' p,
    mm_realloc fuel s ptr n = Some (s', p) /\ Inv s' /\
    (n = 0 -> p = NULL /\ ~ live s' ptr) /\
    (p <> NULL ->
     live s' p /\ ~ live s p /\ n + 4 <= GET_SIZE (mem s') (HDRP p) /\
     ~ live s' ptr).
Proof.
  intros I L Hn Hf.
  destruct (realloc_state fuel s ptr n I L Hn Hf)
    as (s' & p & E & I' & A & B & _).
  exists s', p. auto.
Qed.

Lemma mm_realloc_correct_witness :
  exists s' p, mm_realloc 100 heap1 4192 100 = Some (s', p) /\ Inv s'.
Proof.
  destruct (mm_realloc_correct 100 heap1 4192 100) as (s' & p & E & I & _);
    [exact Inv_heap1
    |apply (heap_walk_live heap1 100);
       [vm_compute; auto|vm_compute; discriminate]
    |unfold two64; lia|vm_compute; reflexivity|].
  exists s', p. split; [exact E|exact I].
Defined.

(** X13: when [mm_realloc] with [n > 0] returns null, the old block is
    still allocated, with its size and its payload bytes; and in every case
    the other allocated blocks stay allocated, with their sizes and their
    payload bytes. *)
Theorem mm_realloc_keeps_live fuel s ptr n :
  Inv s -> live s ptr -> 0 <= n <= two64 - 12 ->
  mem_brk s - heap_start s < 16 * Z.of_nat fuel ->
  exists s' p,
    mm_realloc fuel s ptr n = Some (s', p) /\
    (n <> 0 -> p = NULL ->
     live s' ptr /\
     GET_SIZE (mem s') (HDRP ptr) = GET_SIZE (mem s) (HDRP ptr) /\
     same_payload s s' ptr) /\
    (forall q, q <> ptr -> live s q ->
       live s' q /\
       GET_SIZE (mem s') (HDRP q) = GET_SIZE (mem s) (HDRP q) /\
       same_payload s s' q).
Proof.
  intros I L Hn Hf.
  destruct (realloc_state fuel s ptr n I L Hn Hf)
    as (s' & p & E & _ & _ & _ & C & D).
  destruct (realloc_payload fuel s ptr n s' p I L Hn Hf E) as (_ & P1 & P2).
  exists s', p. split; [exact E|]. split.
  - intros H1 H2. destruct (C H1 H2) as [A B]. auto.
  - intros q H1 H2. destruct (D q H1 H2) as [A B]. auto.
Qed.

Lemma mm_realloc_keeps_live_witness :
  exists s', mm_realloc 100 small1 4192 10000 = Some (s', NULL)
             /\ live s' 4192.
Proof.
  destruct (mm_realloc_keeps_live 100 small1 4192 10000)
    as (s' & p & E & F & _);
    [exact Inv_small1|exact live_small1|unfold two64; lia
    |vm_compute; reflexivity|].
  assert (Ep : p = NULL).
  { assert (P : ptr_of (mm_realloc 100 small1 4192 10000) = Some 0)
      by (vm_compute; reflexivity).
    rewrite E in P. cbn in P. unfold NULL. congruence. }
  subst p. exists s'. split; [exact E|].
  apply F; [lia|reflexivity].
Defined.

(** X30: when [mm_realloc] with [n > 0] returns a new block, its first
    bytes are the payload bytes of the old block: byte [k] of the new block
    is byte [k] of the old one for every [k] below [n] and below the
    payload size of the old block. *)
Theorem mm_realloc_keeps_contents fuel s ptr n :
  Inv s -> live s ptr -> 0 <= n <= two64 - 12 ->
  mem_brk s - heap_start s < 16 * Z.of_nat fuel ->
  exists s' p,
    mm_realloc fuel s ptr n = Some (s', p) /\
    (p <> NULL ->
     forall k, 0 <= k < n -> k < GET_SIZE (mem s) (HDRP ptr) - WSIZE ->
               byte_at (mem s') (p + k) = byte_at (mem s) (ptr + k)).
Proof.
  intros I L Hn Hf.
  destruct (realloc_state fuel s ptr n I L Hn Hf) as (s' & p & E & _).
  destruct (realloc_payload fuel s ptr n s' p I L Hn Hf E) as (P & _).
  exists s', p. split; [exact E|exact P].
Qed.

Lemma mm_realloc_keeps_contents_witness :
  exists s' p,
    mm_realloc 100 heap1 4192 100 = Some (s', p) /\
    (p <> NULL ->
     byte_at (mem s') (p + 11) = byte_at (mem heap1) (4192 + 11)).
Proof.
  destruct (mm_realloc_keeps_contents 100 heap1 4192 100)
    as (s' & p & E & C);
    [exact Inv_heap1
    |apply (heap_walk_live heap1 100);
       [vm_compute; auto|vm_compute; discriminate]
    |unfold two64; lia|vm_compute; reflexivity|].
  exists s', p. split; [exact E|].
  intros Hp. apply (C Hp); [lia|vm_compute; reflexivity].
Defined.

(** ** What the heap checker tests holds on every heap of the invariant *)

Lemma phys_heap3a bp :
  bp = 4192 \/ bp = 4208 \/ bp = 4224 \/ bp = 4240 -> phys_block heap3a bp.
Proof.
  intros H.
  apply (heap_walk_phys heap3a 100 (heap_listp heap3a + 22 * WSIZE));
    [apply phys_first|].
  destruct H as [ -> | [ -> | [ -> | -> ] ] ]; vm_compute; auto 10.
Qed.

(** X14: no two blocks that follow each other in the heap are both free
    (the checker's "2 consecutive free blocks" test never fires). *)
Theorem Inv_no_consecutive_free s : Inv s -> no_consecutive_free s.
Proof.
  intros (bl & epa & fl & (R & _ & _ & N)).
  apply (no_adj_free_walk _ _ _ _ R N).
Qed.

Lemma Inv_no_consecutive_free_witness : no_consecutive_free heap3a.
Proof. apply Inv_no_consecutive_free. exact Inv_heap3a. Defined.

(** X15: every block met by the walk of the checker has a size of at least
    16 that is a multiple of 8, its payload lies a multiple of 8 above
    [heap_start] (so it is [aligned] when [heap_start] is), it starts after
    the roots and it ends at or below the break. *)
Theorem Inv_block_geometry s bp :
  Inv s -> phys_block s bp ->
  16 <= GET_SIZE (mem s) (HDRP bp) /\
  GET_SIZE (mem s) (HDRP bp) mod 8 = 0 /\
  (bp - heap_start s) mod 8 = 0 /\
  heap_listp s + 22 * WSIZE <= bp /\
  bp + GET_SIZE (mem s) (HDRP bp) <= mem_brk s /\
  (heap_start s mod 8 = 0 -> aligned bp = true).
Proof.
  intros (bl & epa & fl & G) P.
  destruct (phys_geometry _ _ _ _ G bp P) as (A & B & C & D & E).
  repeat (split; [assumption|]).
  intros H8. pose proof (proj1 G) as R.
  pose proof (rep_hl _ _ _ _ R). pose proof (rep_hs _ _ _ _ R).
  pose proof (rep_max _ _ _ _ R). pose proof (rep_64 _ _ _ _ R).
  apply aligned_spec; [unfold WSIZE in *; lia|].
  clear - C H8. Z.to_euclidean_division_equations. lia.
Qed.

Lemma Inv_block_geometry_witness :
  16 <= GET_SIZE (mem heap3a) (HDRP 4208) /\ aligned 4208 = true.
Proof.
  destruct (Inv_block_geometry heap3a 4208) as (A & _ & _ & _ & _ & B);
    [exact Inv_heap3a|apply phys_heap3a; auto|].
  split; [exact A|apply B; reflexivity].
Defined.

(** X16: a free block carries a footer equal to its header, so that from
    the block after it [PREV_BLKP] leads back to it. *)
Theorem Inv_free_block_footer s bp :
  Inv s -> phys_block s bp -> GET_ALLOC (mem s) (HDRP bp) = 0 ->
  GET (mem s) (FTRP (mem s) bp) = GET (mem s) (HDRP bp) /\
  PREV_BLKP (mem s) (NEXT_BLKP (mem s) bp) = bp.
Proof.
  intros (bl & epa & fl & G) P A.
  pose proof (phys_footer _ _ _ _ G bp P A) as F.
  split; [exact F|].
  unfold PREV_BLKP, NEXT_BLKP.
  assert (E : GET_SIZE (mem s) (bp + GET_SIZE (mem s) (bp - WSIZE) - DSIZE)
              = GET_SIZE (mem s) (bp - WSIZE)).
  { unfold FTRP, HDRP in F. unfold GET_SIZE at 1 3. rewrite F.
    reflexivity. }
  rewrite E. lia.
Qed.

Lemma Inv_free_block_footer_witness :
  PREV_BLKP (mem heap3a) (NEXT_BLKP (mem heap3a) 4192) = 4192.
Proof.
  destruct (Inv_free_block_footer heap3a 4192) as (_ & A);
    [exact Inv_heap3a|apply phys_heap3a; auto|vm_compute; reflexivity|].
  exact A.
Defined.

(** X17: the previous-allocated bit in the header after a block is set
    exactly when the block is allocated; [coalesce] and [mm_free] rely on
    this bit instead of a footer in allocated blocks. *)
Theorem Inv_prev_alloc_bit s bp :
  Inv s -> phys_block s bp ->
  GET_PREV_ALLOC (mem s) (HDRP (NEXT_BLKP (mem s) bp))
  = 2 * GET_ALLOC (mem s) (HDRP bp).
Proof.
  intros (bl & epa & fl & G) P. apply (phys_prev_alloc _ _ _ _ G bp P).
Qed.

Lemma Inv_prev_alloc_bit_witness :
  GET_PREV_ALLOC (mem heap3a) (HDRP (NEXT_BLKP (mem heap3a) 4192))
  = 2 * GET_ALLOC (mem heap3a) (HDRP 4192).
Proof.
  apply Inv_prev_alloc_bit; [exact Inv_heap3a|apply phys_heap3a; auto].
Defined.

(** X18: the walk of the checker ends at the break: the first header of
    size 0 after a block is the epilogue, it has its allocated bit set and
    its payload address is [mem_brk]. *)
Theorem Inv_walk_ends_at_break s bp :
  Inv s -> phys_block s bp ->
  GET_SIZE (mem s) (HDRP (NEXT_BLKP (mem s) bp)) = 0 ->
  NEXT_BLKP (mem s) bp = mem_brk s /\
  GET_ALLOC (mem s) (HDRP (NEXT_BLKP (mem s) bp)) = 1.
Proof.
  intros (bl & epa & fl & G) P Z0. apply (walk_end _ _ _ _ G bp P Z0).
Qed.

Lemma Inv_walk_ends_at_break_witness :
  NEXT_BLKP (mem heap3a) 4240 = mem_brk heap3a.
Proof.
  destruct (Inv_walk_ends_at_break heap3a 4240) as (A & _);
    [exact Inv_heap3a|apply phys_heap3a; auto|vm_compute; reflexivity|].
  exact A.
Defined.

(** X19: the list of class [i] holds exactly the free blocks of the heap
    whose size is of class [i], and the predecessor link of the successor
    of a list element leads back to the element. *)
Theorem Inv_class_lists s i bp :
  Inv s -> 0 <= i < 20 ->
  (in_class s i bp <->
   phys_block s bp /\ GET_ALLOC (mem s) (HDRP bp) = 0 /\
   get_list (GET_SIZE (mem s) (HDRP bp)) = i) /\
  (in_class s i bp ->
   get_succ (mem s) (heap_start s) bp <> NULL ->
   get_pred (mem s) (heap_start s) (get_succ (mem s) (heap_start s) bp)
   = bp).
Proof.
  intros (bl & epa & fl & G) Hi. split.
  - apply (class_view _ _ _ _ G i bp Hi).
  - apply (class_links _ _ _ _ G i bp Hi).
Qed.

Lemma Inv_class_lists_witness :
  in_class heap3a 0 4192 <->
  phys_block heap3a 4192 /\ GET_ALLOC (mem heap3a) (HDRP 4192) = 0 /\
  get_list (GET_SIZE (mem heap3a) (HDRP 4192)) = 0.
Proof.
  destruct (Inv_class_lists heap3a 0 4192) as (A & _);
    [exact Inv_heap3a|lia|exact A].
Defined.

(** ** The internal operations *)

Lemma coalesce_both_allocated_witness :
  snd (coalesce (mark_free heap3 4208) 4208) = 4208.
Proof.
  destruct (coalesce_both_allocated heap3 4208 100) as (A & _);
    [exact Inv_heap3|apply live_heap3; auto|vm_compute; reflexivity
    |vm_compute; discriminate|vm_compute; discriminate|exact A].
Defined.

Lemma coalesce_next_free_witness :
  snd (coalesce (mark_free heap3 4224) 4224) = 4224.
Proof.
  destruct (coalesce_next_free heap3 4224 100) as (A & _);
    [exact Inv_heap3|apply live_heap3; auto|vm_compute; reflexivity
    |vm_compute; discriminate|vm_compute; reflexivity|exact A].
Defined.

Lemma coalesce_prev_free_witness :
  snd (coalesce (mark_free heap3a 4208) 4208)
  = 4208 - GET_SIZE (mem heap3a) (4208 - DSIZE).
Proof.
  destruct (coalesce_prev_free heap3a 4208 100) as (A & _);
    [exact Inv_heap3a|apply live_heap3a; auto|vm_compute; reflexivity
    |vm_compute; reflexivity|vm_compute; discriminate|exact A].
Defined.

Lemma coalesce_both_free_witness :
  snd (coalesce (mark_free heap3ac 4208) 4208)
  = 4208 - GET_SIZE (mem heap3ac) (4208 - DSIZE).
Proof.
  destruct (coalesce_both_free heap3ac 4208 100) as (A & _);
    [exact Inv_heap3ac|exact live_heap3ac|vm_compute; reflexivity
    |vm_compute; reflexivity|vm_compute; reflexivity|exact A].
Defined.

(** X24: [place], whole-block branch.  On a free block whose remainder
    would be below 16 bytes, [place] keeps the invariant and takes the
    block out of the lists; its header keeps size and previous-allocated
    bit and gets the allocated bit; of the next header only the
    previous-allocated bit changes: it is set, size and allocated bit stay
    as they were. *)
Theorem place_whole_block s bp asize :
  Inv s -> phys_block s bp -> GET_ALLOC (mem s) (HDRP bp) = 0 ->
  16 <= asize -> asize mod 8 = 0 ->
  asize <= GET_SIZE (mem s) (HDRP bp) ->
  GET_SIZE (mem s) (HDRP bp) - asize < 16 ->
  Inv (place s bp asize) /\
  GET_SIZE (mem (place s bp asize)) (HDRP bp) = GET_SIZE (mem s) (HDRP bp) /\
  GET_ALLOC (mem (place s bp asize)) (HDRP bp) = 1 /\
  GET_PREV_ALLOC (mem (place s bp asize)) (HDRP bp)
  = GET_PREV_ALLOC (mem s) (HDRP bp) /\
  GET_SIZE (mem (place s bp asize)) (HDRP (NEXT_BLKP (mem s) bp))
  = GET_SIZE (mem s) (HDRP (NEXT_BLKP (mem s) bp)) /\
  GET_ALLOC (mem (place s bp asize)) (HDRP (NEXT_BLKP (mem s) bp))
  = GET_ALLOC (mem s) (HDRP (NEXT_BLKP (mem s) bp)) /\
  GET_PREV_ALLOC (mem (place s bp asize)) (HDRP (NEXT_BLKP (mem s) bp)) = 2 /\
  (forall j, 0 <= j < 20 -> ~ in_class (place s bp asize) j bp).
Proof.
  intros I P A H16 H8 Hfit Hw.
  split; [apply (place_state s bp asize I P A H16 H8 Hfit)|].
  apply place_whole_state; assumption.
Qed.

Lemma place_whole_block_witness :
  Inv (place heap3a 4192 16) /\
  GET_ALLOC (mem (place heap3a 4192 16)) (HDRP 4192) = 1.
Proof.
  destruct (place_whole_block heap3a 4192 16) as (A & _ & B & _);
    [exact Inv_heap3a|apply phys_heap3a; auto|vm_compute; reflexivity
    |lia|reflexivity|vm_compute; discriminate|vm_compute; reflexivity|].
  split; [exact A|exact B].
Defined.

(** X25: [place], split branch.  On a free block with at least 16 bytes
    more than [asize], [place] keeps the invariant; the block becomes an
    allocated block of [asize] bytes with its previous-allocated bit
    unchanged, and the rest becomes a free block with header and footer
    [csize - asize] and previous-allocated bit set, linked into the list of
    its class; the header after it keeps size and allocated bit and has
    its previous-allocated bit clear. *)
Theorem place_split_block s bp asize :
  Inv s -> phys_block s bp -> GET_ALLOC (mem s) (HDRP bp) = 0 ->
  16 <= asize -> asize mod 8 = 0 ->
  asize <= GET_SIZE (mem s) (HDRP bp) ->
  16 <= GET_SIZE (mem s) (HDRP bp) - asize ->
  let csize := GET_SIZE (mem s) (HDRP bp) in
  Inv (place s bp asize) /\
  GET_SIZE (mem (place s bp asize)) (HDRP bp) = asize /\
  GET_ALLOC (mem (place s bp asize)) (HDRP bp) = 1 /\
  GET_PREV_ALLOC (mem (place s bp asize)) (HDRP bp)
  = GET_PREV_ALLOC (mem s) (HDRP bp) /\
  GET (mem (place s bp asize)) (HDRP (bp + asize)) = csize - asize + 2 /\
  GET (mem (place s bp asize)) (FTRP (mem (place s bp asize)) (bp + asize))
  = csize - asize + 2 /\
  in_class (place s bp asize) (get_list (csize - asize)) (bp + asize) /\
  GET_SIZE (mem (place s bp asize)) (HDRP (NEXT_BLKP (mem s) bp))
  = GET_SIZE (mem s) (HDRP (NEXT_BLKP (mem s) bp)) /\
  GET_ALLOC (mem (place s bp asize)) (HDRP (NEXT_BLKP (mem s) bp))
  = GET_ALLOC (mem s) (HDRP (NEXT_BLKP (mem s) bp)) /\
  GET_PREV_ALLOC (mem (place s bp asize)) (HDRP (NEXT_BLKP (mem s) bp)) = 0.
Proof.
  intros I P A H16 H8 Hfit Hs.
  split; [apply (place_state s bp asize I P A H16 H8 Hfit)|].
  apply place_split_state; assumption.
Qed.

Lemma place_split_block_witness :
  Inv (place heap3a 4240 16) /\
  GET_SIZE (mem (place heap3a 4240 16)) (HDRP 4240) = 16.
Proof.
  destruct (place_split_block heap3a 4240 16) as (A & B & _);
    [exact Inv_heap3a|apply phys_heap3a; auto 10|vm_compute; reflexivity
    |lia|reflexivity|vm_compute; discriminate|vm_compute; discriminate|].
  split; [exact A|exact B].
Defined.

Lemma find_fit_first_fit_witness :
  find_fit 100 heap3a 16
  = Some (first_in (fun b => GET_SIZE (mem heap3a) (HDRP b)) 16
            (cands 20 (class_list 100 heap3a) (get_list (u32 16)))).
Proof.
  apply find_fit_first_fit; [exact Inv_heap3a|vm_compute; reflexivity].
Defined.

(** X27: [extend_heap] for an even number of words that makes at least 16
    bytes.  When the provider lacks the room it returns null and leaves
    the state alone.  Otherwise the break moves up by that many bytes, the
    invariant holds again, and the result is a free block of at least
    that size that ends at the new break (the new memory, merged with a
    free block that ended the old heap); allocated blocks stay. *)
Theorem extend_heap_correct s words :
  Inv s -> 16 <= extend_bytes words -> extend_bytes words mod 8 = 0 ->
  (mem_max_addr s < mem_brk s + extend_bytes words /\
   extend_heap s words = (s, NULL))
  \/
  (mem_brk s + extend_bytes words <= mem_max_addr s /\
   Inv (fst (extend_heap s words)) /\
   mem_brk (fst (extend_heap s words)) = mem_brk s + extend_bytes words /\
   snd (extend_heap s words) <> NULL /\
   phys_block (fst (extend_heap s words)) (snd (extend_heap s words)) /\
   GET_ALLOC (mem (fst (extend_heap s words)))
             (HDRP (snd (extend_heap s words))) = 0 /\
   extend_bytes words
   <= GET_SIZE (mem (fst (extend_heap s words)))
               (HDRP (snd (extend_heap s words))) /\
   snd (extend_heap s words)
   + GET_SIZE (mem (fst (extend_heap s words)))
              (HDRP (snd (extend_heap s words)))
   = mem_brk (fst (extend_heap s words)) /\
   (forall q, live s q ->
      live (fst (extend_heap s words)) q /\
      GET_SIZE (mem (fst (extend_heap s words))) (HDRP q)
      = GET_SIZE (mem s) (HDRP q))).
Proof. apply extend_heap_state. Qed.

Lemma extend_heap_correct_witness :
  Inv (fst (extend_heap heap3 64)) /\
  mem_brk (fst (extend_heap heap3 64)) = mem_brk heap3 + extend_bytes 64.
Proof.
  destruct (extend_heap_correct heap3 64)
    as [(A & _)|(_ & A & B & _)];
    [exact Inv_heap3|vm_compute; discriminate|reflexivity
    |exfalso; revert A; vm_compute; discriminate|].
  split; [exact A|exact B].
Defined.

Lemma del_list_unlinks_witness :
  class_list 100 (del_list heap3a 4192) 0
  = if 0 =? 0 then remove Z.eq_dec 4192 (class_list 100 heap3a 0)
    else class_list 100 heap3a 0.
Proof.
  destruct (del_list_unlinks heap3a 0 4192 100) as (A & _);
    [exact Inv_heap3a|lia
    |apply (class_list_in_class heap3a 0 100); vm_compute; auto
    |vm_compute; reflexivity|].
  apply A. lia.
Defined.

Lemma add_start_moves_to_front_witness :
  Inv (add_start (del_list heap3a 4240) 4240).
Proof.
  destruct (add_start_moves_to_front heap3a 12 4240 100) as (A & _);
    [exact Inv_heap3a|lia
    |apply (class_list_in_class heap3a 12 100); vm_compute; auto
    |vm_compute; reflexivity|exact A].
Defined.

(** ** The prologue *)

(** X31: no public call moves the heap pointer or writes below the first
    root, where the padding word and the prologue are: on a heap that
    satisfies the invariant and passes the checker's prologue test,
    [mm_malloc], [mm_free] and [mm_realloc] return a heap that passes it
    again. *)
Theorem public_calls_keep_prologue fuel s n ptr :
  Inv s -> prologue_ok s -> 0 <= n <= two64 - 12 ->
  mem_brk s - heap_start s < 16 * Z.of_nat fuel ->
  ptr = NULL \/ live s ptr ->
  (exists s' p,
     mm_malloc fuel s n = Some (s', p) /\ same_low s s' /\ prologue_ok s') /\
  (same_low s (mm_free s ptr) /\ prologue_ok (mm_free s ptr)) /\
  (exists s' p,
     mm_realloc fuel s ptr n = Some (s', p) /\ same_low s s' /\
     prologue_ok s').
Proof.
  intros I P Hn Hf Hp.
  assert (F0 : mm_free s NULL = s) by reflexivity.
  split; [|split].
  - destruct (malloc_state fuel s n I Hn Hf) as (s' & p & E & _).
    pose proof (malloc_low fuel s n s' p I Hn Hf E) as L.
    exists s', p. split; [exact E|]. split; [exact L|].
    exact (same_low_prologue _ _ L P).
  - assert (L : same_low s (mm_free s ptr)).
    { destruct Hp as [->|Lp]; [rewrite F0; apply same_low_refl|].
      apply free_low; assumption. }
    split; [exact L|exact (same_low_prologue _ _ L P)].
  - assert (E : exists s' p, mm_realloc fuel s ptr n = Some (s', p)).
    { destruct Hp as [->|Lp].
      - unfold mm_realloc. destruct (n =? 0); [eauto|].
        cbn [NULL Z.eqb].
        destruct (malloc_state fuel s n I Hn Hf) as (s' & p & E & _). eauto.
      - destruct (realloc_state fuel s ptr n I Lp Hn Hf)
          as (s' & p & E & _). eauto. }
    destruct E as (s' & p & E).
    pose proof (realloc_low fuel s ptr n s' p I Hp Hn Hf E) as L.
    exists s', p. split; [exact E|]. split; [exact L|].
    exact (same_low_prologue _ _ L P).
Qed.

Lemma public_calls_keep_prologue_witness :
  prologue_ok (mm_free heap3 4208).
Proof.
  destruct (public_calls_keep_prologue 100 heap3 8 4208)
    as (_ & (_ & A) & _);
    [exact Inv_heap3
    |split; [vm_compute; reflexivity|vm_compute; discriminate]
    |unfold two64; lia|vm_compute; reflexivity
    |right; apply live_heap3; auto|exact A].
Defined.

(** * The heap discipline: adjacent free blocks, coalescing, placement, search *)



Lemma coalesce_four_cases_witness :
  snd (coalesce (mark_free heap3 4208) 4208) = 4208 /\
  snd (coalesce (mark_free heap3ac 4208) 4208)
  = 4208 - GET_SIZE (mem heap3ac) (4208 - DSIZE).
Proof.
  split.
  - destruct (coalesce_four_cases heap3 4208 100) as (C & _);
      [exact Inv_heap3|apply live_heap3; auto|vm_compute; reflexivity|].
    destruct C as (A & _);
      [vm_compute; discriminate|vm_compute; discriminate|exact A].
  - destruct (coalesce_four_cases heap3ac 4208 100) as (_ & _ & _ & C);
      [exact Inv_heap3ac|exact live_heap3ac|vm_compute; reflexivity|].
    destruct C as (A & _);
      [vm_compute; reflexivity|vm_compute; reflexivity|exact A].
Defined.

(** C5: in the whole-block branch of [place] (the remainder would be below
    16 bytes), the header of the next block changes only in its
    previous-allocated bit, which is set: its size field and its allocated
    bit are as before.  The header of [bp] keeps the size [csize] and its
    previous-allocated bit and gets the allocated bit. *)
Theorem place_whole_next_header s bp asize :
  Inv s -> phys_block s bp -> GET_ALLOC (mem s) (HDRP bp) = 0 ->
  16 <= asize -> asize mod 8 = 0 ->
  asize <= GET_SIZE (mem s) (HDRP bp) ->
  GET_SIZE (mem s) (HDRP bp) - asize < 16 ->
  GET_PREV_ALLOC (mem (place s bp asize)) (HDRP (NEXT_BLKP (mem s) bp)) = 2 /\
  GET_SIZE (mem (place s bp asize)) (HDRP (NEXT_BLKP (mem s) bp))
  = GET_SIZE (mem s) (HDRP (NEXT_BLKP (mem s) bp)) /\
  GET_ALLOC (mem (place s bp asize)) (HDRP (NEXT_BLKP (mem s) bp))
  = GET_ALLOC (mem s) (HDRP (NEXT_BLKP (mem s) bp)) /\
  GET_SIZE (mem (place s bp asize)) (HDRP bp) = GET_SIZE (mem s) (HDRP bp) /\
  GET_PREV_ALLOC (mem (place s bp asize)) (HDRP bp)
  = GET_PREV_ALLOC (mem s) (HDRP bp) /\
  GET_ALLOC (mem (place s bp asize)) (HDRP bp) = 1.
Proof.
  intros I P A H16 H8 Hfit Hw.
  destruct (place_whole_state s bp asize) as (B1 & B2 & B3 & N1 & N2 & N3 & _);
    try assumption.
  auto 10.
Qed.

Lemma place_whole_next_header_witness :
  GET_PREV_ALLOC (mem (place heap3a 4192 16))
    (HDRP (NEXT_BLKP (mem heap3a) 4192)) = 2.
Proof.
  destruct (place_whole_next_header heap3a 4192 16) as (A & _);
    [exact Inv_heap3a|apply phys_heap3a; auto|vm_compute; reflexivity
    |lia|reflexivity|vm_compute; discriminate|vm_compute; reflexivity|].
  exact A.
Defined.

(** C7: [find_fit(S)] for a block size [S >= 16].  Below [2^32] the search
    starts at the list of class [get_list(S)] and goes through the lists of
    the classes up to 19, each from head to tail: the result is null
    exactly when none of these blocks has a size of at least [S], and
    otherwise it is the first of them that has.  From [2^32] on, where
    [get_list] sees a truncated size, no block is that large and the
    result is null.  The search returns for every bound above the number of
    blocks the heap has room for. *)
Theorem find_fit_scans_classes fuel s S :
  Inv s -> mem_brk s - heap_start s < 16 * Z.of_nat fuel -> 16 <= S ->
  exists r,
    find_fit fuel s S = Some r /\
    (S < two32 ->
     (forall b, In b (cands 20 (class_list fuel s) (get_list S)) <->
                exists j, get_list S <= j <= 19 /\
                          In b (class_list fuel s j)) /\
     (r = NULL <->
      forall b, In b (cands 20 (class_list fuel s) (get_list S)) ->
                GET_SIZE (mem s) (HDRP b) < S) /\
     (r <> NULL ->
      exists l1 l2,
        cands 20 (class_list fuel s) (get_list S) = l1 ++ r :: l2 /\
        S <= GET_SIZE (mem s) (HDRP r) /\
        forall b, In b l1 -> GET_SIZE (mem s) (HDRP b) < S)) /\
    (two32 <= S ->
     r = NULL /\
     forall j b, In b (class_list fuel s j) -> 0 <= j < 20 ->
                 GET_SIZE (mem s) (HDRP b) < S).
Proof.
  intros (bl & epa & fl & (R & _)) Hf HS.
  pose proof (fuel_enough _ _ _ _ R fuel Hf) as L.
  set (size_of := fun b => GET_SIZE (mem s) (HDRP b)).
  eexists. split; [apply (find_fit_spec _ _ _ _ R fuel S L)|].
  fold size_of.
  assert (Hsz : forall b, size_of b < two32).
  { intros b. unfold size_of, GET_SIZE.
    pose proof (GET_range (mem s) (HDRP b)) as G.
    rewrite (land_NOT7 _ G).
    pose proof (Z.mod_pos_bound (GET (mem s) (HDRP b)) 8). lia. }
  assert (Hnn : forall i b, In b (cands 20 fl i) -> b <> NULL).
  { intros i b Hb. apply in_cands in Hb. destruct Hb as (j & _ & _ & Hb).
    apply (fl_nonnull _ _ _ _ R j b Hb). }
  split.
  - intros Hlt. rewrite (u32_small S) by lia.
    rewrite (cands_class_list _ _ _ _ R fuel 20 _ (get_list_nonneg _) L).
    split.
    { intros b. rewrite in_cands. split.
      - intros (j & Hj & Hj19 & Hb). exists j. split; [lia|].
        rewrite (class_list_fl _ _ _ _ R j fuel); [exact Hb| |apply L].
        pose proof (get_list_nonneg S). lia.
      - intros (j & Hj & Hb). exists j.
        pose proof (get_list_nonneg S).
        rewrite (class_list_fl _ _ _ _ R j fuel) in Hb; [|lia|apply L].
        split; [lia|]. split; [lia|exact Hb]. }
    destruct (first_in_spec size_of S (cands 20 fl (get_list S))
                (Hnn (get_list S)))
      as [[E H]|(l1 & l2 & E & H1 & H2)].
    + split; [split; [intros _; exact H|intros _; exact E]|].
      intros Hr. contradiction.
    + assert (Hr : first_in size_of S (cands 20 fl (get_list S)) <> NULL).
      { apply (Hnn (get_list S)). rewrite E at 2.
        apply in_or_app. right. left. reflexivity. }
      split.
      * split; [intros E0; contradiction|].
        intros H. exfalso.
        assert (Hin : In (first_in size_of S (cands 20 fl (get_list S)))
                         (cands 20 fl (get_list S))).
        { rewrite E at 2. apply in_or_app. right. left. reflexivity. }
        specialize (H _ Hin). unfold size_of in *. cbv beta in *. lia.
      * intros _. exists l1, l2. auto.
  - intros Hge. split.
    + destruct (first_in_spec size_of S (cands 20 fl (get_list (u32 S)))
                  (Hnn (get_list (u32 S))))
        as [[E _]|(l1 & l2 & _ & H1 & _)]; [exact E|].
      pose proof (Hsz (first_in size_of S (cands 20 fl (get_list (u32 S))))).
      unfold size_of in *. cbv beta in *. lia.
    + intros j b _ _. pose proof (Hsz b). unfold size_of in *. lia.
Qed.

Lemma find_fit_scans_classes_witness :
  exists r, find_fit 100 heap3a 16 = Some r.
Proof.
  destruct (find_fit_scans_classes 100 heap3a 16) as (r & E & _);
    [exact Inv_heap3a|vm_compute; reflexivity|lia|].
  exists r. exact E.
Defined.
